(** * LZ78 with two dictionaries: a model of lz78.c and its properties

    The development follows the C sources: the integer types are [Z] with
    the wrap-around of the C type written out, the two tables are lists
    indexed by code, and the two state machines are functions on records
    that mirror the structs.

    Conventions of the model.
    - A store outside an allocated array has no defined behaviour in C; the
      model stops with [Fault].  A loop that never leaves ends in [Diverge].
    - [malloc] hands out blocks that hold what the heap held.  [lz78_new]
      and [dictionary_new] leave parts of their blocks unwritten: the
      [secondary] pointer, which [decompress_code] tests and hands to
      [free]; [n_bytes] and [offset], which the driver reads first; the
      dynamic entries of the table and [bytebuf].  What these hold is part
      of the [allocator].  A pointer that was never set and is not [NULL]
      is [Wild]: to free it or to go through it has no defined behaviour,
      and the model stops with [Fault].
    - [char] is signed, as on the x86 targets: [bytebuf] holds the byte as
      [0..255] and [char_to_u16] is the conversion back to [uint16_t].
      The allocator gives one content for every block of a kind; the
      properties that need something of it say so ([clean]), and none
      depends on what the dynamic entries held.
    - The descriptors are blocking: [bit_write] and [bit_read] transfer the
      number of bits asked for, or report the end of the input.  The model
      of bitio.c that closes the definitions does without this: there a
      descriptor may take or deliver fewer bytes than asked, answer
      [EAGAIN] or fail, and [lz78_compress_fd] and [lz78_decompress_fd]
      are the two drivers on top of it. *)

From Stdlib Require Import ZArith Lia Bool List Permutation.
From stdpp Require Import base decidable option list numbers.
Import ListNotations.
Open Scope Z_scope.

(** ** Outcomes *)

Inductive outcome (A : Type) : Type :=
  | Ret (a : A)
  | Fault
  | Diverge.
Arguments Ret {A} a.
Arguments Fault {A}.
Arguments Diverge {A}.

#[global] Instance outcome_ret : MRet outcome := fun A a => Ret a.
#[global] Instance outcome_bind : MBind outcome := fun A B f m =>
  match m with
  | Ret a => f a
  | Fault => Fault
  | Diverge => Diverge
  end.

Definition is_Ret {A} (m : outcome A) : Prop := exists a, m = Ret a.

(** ** Constants of lz78.h and lz78.c *)

Definition DICT_CODE_EOF : Z := 256.
Definition DICT_CODE_SIZE : Z := 257.
Definition DICT_CODE_START : Z := 258.
Definition DICT_CODE_STOP : Z := 259.

Definition DICT_SIZE_MIN : Z := 260.
Definition DICT_SIZE_DEFAULT : Z := 4096.
Definition DICT_SIZE_MAX : Z := 1048576.

Definition LZ78_MODE_COMPRESS : Z := 0.
Definition LZ78_MODE_DECOMPRESS : Z := 1.

Definition LZ78_SUCCESS : Z := 0.
Definition LZ78_ERROR_DICTIONARY : Z := 1.
Definition LZ78_ERROR_READ : Z := 2.
Definition LZ78_ERROR_WRITE : Z := 3.
Definition LZ78_ERROR_EAGAIN : Z := 4.
Definition LZ78_ERROR_COMPRESS : Z := 5.
Definition LZ78_ERROR_DECOMPRESS : Z := 6.
Definition LZ78_ERROR_INITIALIZATION : Z := 7.
Definition LZ78_ERROR_MODE : Z := 8.

(** [EOF] of stdio, and [(uint32_t) -1], the empty [cur_node]. *)
Definition EOF : Z := -1.
Definition NO_NODE : Z := 4294967295.

(** ** Machine integers *)

Definition u8 (x : Z) : Z := x mod 256.
Definition u16 (x : Z) : Z := x mod 65536.
Definition u32 (x : Z) : Z := x mod 4294967296.

(** A byte of [bytebuf] read as a (signed) [char] and stored in a
    [uint16_t]. *)
Definition char_to_u16 (b : Z) : Z := if b <? 128 then b else u16 (b - 256).

Definition DICT_LIMIT (x : Z) : Z :=
  if x <? DICT_SIZE_MIN + 1 then DICT_SIZE_MIN + 1
  else if DICT_SIZE_MAX <? x then DICT_SIZE_MAX else x.

Definition DICT_SIZE_THRESHOLD (x : Z) : Z := u32 (x * 8) / 10.

(** ** bitlen *)

Fixpoint bitlen_loop (fuel : nat) (i n : Z) : Z :=
  match fuel with
  | O => n
  | S fuel' =>
      if i =? 0 then n else bitlen_loop fuel' (Z.shiftr i 1) (u8 (n + 1))
  end.

(** The loop halves a 32-bit value, so 32 rounds always reach zero. *)
Definition bitlen (i : Z) : Z := bitlen_loop 32 (u32 i) 0.

(** ** The dictionary of the compressor *)

Record ht_entry : Type := mk_ht_entry {
  used : bool;
  parent : Z;
  label : Z;
  child : Z
}.

Record ht_dictionary : Type := mk_ht_dictionary {
  h_root : list ht_entry;
  cur_node : Z;
  prev_node : Z;
  h_d_size : Z;
  h_d_thr : Z;
  h_d_next : Z
}.

Definition ht_zero : ht_entry := mk_ht_entry false 0 0 0.

Definition ht_dictionary_new (d_size : Z) : ht_dictionary :=
  let d_size := DICT_LIMIT d_size in
  {| h_root := replicate (Z.to_nat d_size) ht_zero;
     cur_node := NO_NODE;
     prev_node := 0;
     h_d_size := d_size;
     h_d_thr := DICT_SIZE_THRESHOLD d_size;
     h_d_next := DICT_SIZE_MIN |}.

Definition set_cur_node (d : ht_dictionary) (v : Z) : ht_dictionary :=
  {| h_root := h_root d; cur_node := v; prev_node := prev_node d;
     h_d_size := h_d_size d; h_d_thr := h_d_thr d; h_d_next := h_d_next d |}.

Definition set_prev_node (d : ht_dictionary) (v : Z) : ht_dictionary :=
  {| h_root := h_root d; cur_node := cur_node d; prev_node := v;
     h_d_size := h_d_size d; h_d_thr := h_d_thr d; h_d_next := h_d_next d |}.

(** The Bernstein hash of the four bytes of the key. *)
Fixpoint bernstein (n : nat) (hash key : Z) : Z :=
  match n with
  | O => hash
  | S n' =>
      bernstein n' (u32 (u32 (Z.shiftl hash 5 + hash) + Z.land key 255))
                (Z.shiftr key 8)
  end.

Definition ht_hash (d : ht_dictionary) (lbl : Z) : Z :=
  let key := u32 (Z.shiftl lbl (bitlen (h_d_size d)) + cur_node d) in
  bernstein 4 0 key mod h_d_size d.

(** Result of the search loop: the entry that continues the current
    sequence, or the first free slot. *)
Inductive slot : Type :=
  | Found (c : Z)
  | Free (hash : Z).

(** [fuel] rounds of the [while (d->root[hash].used)] loop. *)
Fixpoint probe (fuel : nat) (tbl : list ht_entry) (size cur lbl hash : Z)
  : outcome slot :=
  match fuel with
  | O => Diverge
  | S fuel' =>
      match tbl !! Z.to_nat hash with
      | None => Fault
      | Some e =>
          if used e then
            if (parent e =? cur) && (label e =? lbl) then Ret (Found (child e))
            else probe fuel' tbl size cur lbl ((hash + 1) mod size)
          else Ret (Free hash)
      end
  end.

Definition ht_dictionary_update_fuel (fuel : nat) (d : ht_dictionary) (lbl : Z)
  : outcome (Z * ht_dictionary) :=
  let lbl := u16 lbl in
  let d := set_prev_node d (cur_node d) in
  if cur_node d =? NO_NODE then Ret (-1, set_cur_node d lbl)
  else
    s ← probe fuel (h_root d) (h_d_size d) (cur_node d) lbl (ht_hash d lbl);
    match s with
    | Found c => Ret (-1, set_cur_node d c)
    | Free hash =>
        Ret (0, {| h_root := <[Z.to_nat hash :=
                        mk_ht_entry true (prev_node d) lbl (h_d_next d)]>
                        (h_root d);
                   cur_node := lbl;
                   prev_node := prev_node d;
                   h_d_size := h_d_size d;
                   h_d_thr := h_d_thr d;
                   h_d_next := u32 (h_d_next d + 1) |})
    end.

(** Probing every slot once decides the loop (see [probe_Diverge_forever]):
    a search that has not left after [d_size] rounds never leaves. *)
Definition ht_dictionary_update (d : ht_dictionary) (lbl : Z)
  : outcome (Z * ht_dictionary) :=
  ht_dictionary_update_fuel (Z.to_nat (h_d_size d)) d lbl.

Definition ht_dictionary_reset (d : ht_dictionary) : ht_dictionary :=
  {| h_root := replicate (Z.to_nat (h_d_size d)) ht_zero;
     cur_node := NO_NODE;
     prev_node := prev_node d;
     h_d_size := h_d_size d;
     h_d_thr := h_d_thr d;
     h_d_next := DICT_SIZE_MIN |}.

(** ** The compressor *)

Record lz78_c : Type := mk_lz78_c {
  c_completed : Z;
  c_d_size : Z;
  c_main : ht_dictionary;
  c_secondary : ht_dictionary;
  c_bitbuf : Z;
  c_n_bits : Z
}.

Definition emit (o : lz78_c) (bitbuf n_bits : Z) : lz78_c :=
  {| c_completed := c_completed o; c_d_size := c_d_size o;
     c_main := c_main o; c_secondary := c_secondary o;
     c_bitbuf := bitbuf; c_n_bits := n_bits |}.

Definition with_dicts (o : lz78_c) (m s : ht_dictionary) : lz78_c :=
  {| c_completed := c_completed o; c_d_size := c_d_size o;
     c_main := m; c_secondary := s;
     c_bitbuf := c_bitbuf o; c_n_bits := c_n_bits o |}.

(** The update of the secondary dictionary once the threshold is reached
    (lines 340-341 and 358-359). *)
Definition secondary_update (o : lz78_c) (c_in : Z) : outcome lz78_c :=
  let d_main := c_main o in
  if h_d_thr d_main <=? h_d_next d_main then
    '(_, d_sec) ← ht_dictionary_update (c_secondary o) c_in;
    Ret (with_dicts o d_main d_sec)
  else Ret o.

(** The body of [compress_byte] after the [switch]. *)
Definition compress_input (o : lz78_c) (c_in : Z) : outcome lz78_c :=
  let c_in := if c_in =? EOF then DICT_CODE_EOF else c_in in
  '(r, d_main) ← ht_dictionary_update (c_main o) c_in;
  let o := with_dicts o d_main (c_secondary o) in
  if negb (r =? 0) then secondary_update o c_in
  else
    let o := emit o (prev_node d_main) (bitlen (u32 (h_d_next d_main - 1))) in
    let o :=
      if h_d_next d_main =? h_d_size d_main then
        with_dicts o (set_cur_node (c_secondary o) (u32 c_in))
                   (ht_dictionary_reset d_main)
      else o in
    secondary_update o c_in.

Definition compress_byte (o : lz78_c) (c_in : Z) : outcome lz78_c :=
  let d_main := c_main o in
  if cur_node d_main =? DICT_CODE_START then
    let o := emit o (h_d_size d_main) (bitlen DICT_SIZE_MAX) in
    compress_input (with_dicts o (set_cur_node d_main NO_NODE) (c_secondary o))
                   c_in
  else if cur_node d_main =? DICT_CODE_EOF then
    let o := emit o (cur_node d_main) (bitlen (h_d_next d_main)) in
    Ret (with_dicts o (set_cur_node d_main DICT_CODE_STOP) (c_secondary o))
  else if cur_node d_main =? DICT_CODE_STOP then
    Ret {| c_completed := 1; c_d_size := c_d_size o;
           c_main := c_main o; c_secondary := c_secondary o;
           c_bitbuf := c_bitbuf o; c_n_bits := c_n_bits o |}
  else compress_input o c_in.

(** [lz78_new] in compression mode (the allocations succeed). *)
Definition lz78_new_c (dsize : Z) : lz78_c :=
  let dsize := if dsize =? 0 then DICT_SIZE_DEFAULT else dsize in
  let d_size := DICT_LIMIT dsize in
  {| c_completed := 0;
     c_d_size := d_size;
     c_main := set_cur_node (ht_dictionary_new d_size) DICT_CODE_START;
     c_secondary := ht_dictionary_new d_size;
     c_bitbuf := DICT_CODE_START;
     c_n_bits := bitlen DICT_SIZE_MIN |}.

(** *** The bit stream *)

(** [bit_write (out, &bitbuf, n_bits, 0)]: the low [n_bits] bits, bit 0
    first. *)
Definition bits_of (bitbuf n_bits : Z) : list bool :=
  map (fun k : nat => Z.testbit bitbuf (Z.of_nat k)) (seq 0 (Z.to_nat n_bits)).

(** [bit_read (in, &bitbuf, bits, 0)] into a cleared [bitbuf]. *)
Fixpoint bits_value (bs : list bool) : Z :=
  match bs with
  | [] => 0
  | b :: bs' => Z.b2z b + 2 * bits_value bs'
  end.

(** *** The driver loop of [lz78_compress]

    [input] is what [fgetc] still has to deliver; at its end [fgetc] keeps
    answering [EOF].  The loop returns the pairs [(bitbuf, n_bits)] handed to
    [bit_write] and the status it ends with. *)
Definition fgetc (input : list Z) : Z * list Z :=
  match input with
  | [] => (EOF, [])
  | c :: rest => (c, rest)
  end.

Definition pending (o : lz78_c) : list (Z * Z) :=
  if 0 <? c_n_bits o then [(c_bitbuf o, c_n_bits o)] else [].

(** After a complete [bit_write]: [bitbuf >>= bits; n_bits -= bits]. *)
Definition written (o : lz78_c) : lz78_c :=
  if 0 <? c_n_bits o
  then emit o (Z.shiftr (c_bitbuf o) (c_n_bits o)) 0
  else o.

Fixpoint lz78_compress_loop (fuel : nat) (o : lz78_c) (input : list Z)
  : list (Z * Z) * option (outcome Z) :=
  match fuel with
  | O => ([], None)
  | S fuel' =>
      let out := pending o in
      let '(c_in, rest) := fgetc input in
      match compress_byte (written o) c_in with
      | Ret o' =>
          if c_completed o' =? 1 then (out, Some (Ret LZ78_SUCCESS))
          else
            let '(out', r) := lz78_compress_loop fuel' o' rest in
            (out ++ out', r)
      | Fault => (out, Some Fault)
      | Diverge => (out, Some Diverge)
      end
  end.

(** Each byte takes one round, and the end of the input three more.  The
    status is [None] while the loop is still running after that many
    rounds. *)
Definition lz78_compress (dsize : Z) (input : list Z)
  : list (Z * Z) * option (outcome Z) :=
  lz78_compress_loop (length input + 3) (lz78_new_c dsize) input.

Definition stream_bits (out : list (Z * Z)) : list bool :=
  concat (map (fun e => bits_of (fst e) (snd e)) out).

(** ** The dictionary of the decompressor *)

Record entry : Type := mk_entry {
  e_parent : Z;
  e_label : Z
}.

Record dictionary : Type := mk_dictionary {
  root : list entry;
  d_size : Z;
  d_thr : Z;
  d_min : Z;
  d_next : Z;
  n_bytes : Z;
  offset : Z;
  bytebuf : list Z
}.

Definition set_parent (v : Z) (e : entry) : entry := mk_entry v (e_label e).
Definition set_label (v : Z) (e : entry) : entry := mk_entry (e_parent e) v.

(** A store [a[i] = ...] through [f]; outside the array it faults. *)
Definition store {A} (a : list A) (i : Z) (f : A -> A) : outcome (list A) :=
  if decide (Z.to_nat i < length a)%nat then Ret (alter f (Z.to_nat i) a)
  else Fault.

Definition load {A} (a : list A) (i : Z) : outcome A :=
  match a !! Z.to_nat i with
  | Some x => Ret x
  | None => Fault
  end.

(** A pointer of the program: [NULL], the address of an object, or what
    the heap held where a pointer was never set. *)
Inductive pointer (A : Type) : Type :=
  | Null
  | Wild
  | Valid (x : A).
Arguments Null {A}.
Arguments Wild {A}.
Arguments Valid {A} x.

(** The answers of [malloc]: whether the allocations of [dictionary_new]
    and of [ht_dictionary_new] succeed, and what the blocks hold where the
    code does not write before it reads.  In the block of
    [dictionary_new]: [n_bytes], [offset], the bytes of [bytebuf] and the
    entries of the table from [DICT_SIZE_MIN] on.  In the block of
    [lz78_new]: whether the [secondary] pointer is something else than
    [NULL], and [bitbuf] and [n_bits]. *)
Record allocator : Type := mk_allocator {
  dictionary_ok : bool;
  ht_dictionary_ok : bool;
  stale_n_bytes : Z;
  stale_offset : Z;
  stale_byte : nat -> Z;
  stale_entry : nat -> entry;
  stale_secondary : bool;
  stale_bitbuf : Z;
  stale_n_bits : Z
}.

(** The heap that hands out zeroed blocks only. *)
Definition zeroed (dictionary_ok ht_dictionary_ok : bool) : allocator :=
  {| dictionary_ok := dictionary_ok;
     ht_dictionary_ok := ht_dictionary_ok;
     stale_n_bytes := 0;
     stale_offset := 0;
     stale_byte := fun _ => 0;
     stale_entry := fun _ => mk_entry 0 0;
     stale_secondary := false;
     stale_bitbuf := 0;
     stale_n_bits := 0 |}.

(** [bytebuf] is allocated with the size asked for, the table with the
    limited one.  Only the entries below [DICT_SIZE_MIN] and the four
    sizes are written. *)
Definition dictionary_new (a : allocator) (size : Z) : dictionary :=
  let limited := DICT_LIMIT size in
  {| root := map (fun i : nat => mk_entry 0 (Z.of_nat i))
                 (seq 0 (Z.to_nat DICT_SIZE_MIN))
             ++ map (fun i : nat =>
                       mk_entry (u32 (e_parent (stale_entry a i)))
                                (u16 (e_label (stale_entry a i))))
                    (seq (Z.to_nat DICT_SIZE_MIN)
                         (Z.to_nat (limited - DICT_SIZE_MIN)));
     d_size := limited;
     d_thr := DICT_SIZE_THRESHOLD limited;
     d_min := DICT_SIZE_MIN;
     d_next := DICT_SIZE_MIN;
     n_bytes := u32 (stale_n_bytes a);
     offset := u32 (stale_offset a);
     bytebuf := map (fun i : nat => u8 (stale_byte a i))
                    (seq 0 (Z.to_nat size)) |}.

(** The loop that recovers the sequence of [p] from the high end of
    [bytebuf] downwards; it returns the buffer and the final [i]. *)
Fixpoint recover (fuel : nat) (tbl : list entry) (buf : list Z) (i p : Z)
  : outcome (list Z * Z) :=
  match fuel with
  | O => Diverge
  | S fuel' =>
      e ← load tbl p;
      buf' ← store buf i (fun _ => u8 (e_label e));
      let i' := u32 (i - 1) in
      if (p <? DICT_SIZE_MIN) || (i' =? 0) then Ret (buf', i')
      else recover fuel' tbl buf' i' (e_parent e)
  end.

(** [recover] stores at a fresh index below the last one each round, so
    [length bytebuf + 1] rounds are never used up. *)
Definition dictionary_update (d : dictionary) (code : Z) : outcome dictionary :=
  let size := u32 (d_size d - 1) in
  '(buf, i) ← recover (S (length (bytebuf d))) (root d) (bytebuf d) size code;
  buf ← (if (d_min d <=? code) && (code =? u32 (d_next d - 1)) then
           b ← load buf (u32 (i + 1)); store buf size (fun _ => b)
         else Ret buf);
  tbl ← (if d_min d <? d_next d then
           b ← load buf (u32 (i + 1));
           store (root d) (u32 (d_next d - 1)) (set_label (char_to_u16 b))
         else Ret (root d));
  let n := u32 (size - i) in
  tbl ← store tbl (d_next d) (set_parent code);
  Ret {| root := tbl;
         d_size := d_size d;
         d_thr := d_thr d;
         d_min := d_min d;
         d_next := u32 (d_next d + 1);
         n_bytes := n;
         offset := u32 (size + 1 - n);
         bytebuf := buf |}.

Definition dictionary_reset (d : dictionary) : dictionary :=
  {| root := root d; d_size := d_size d; d_thr := d_thr d;
     d_min := DICT_SIZE_MIN; d_next := DICT_SIZE_MIN;
     n_bytes := n_bytes d; offset := offset d; bytebuf := bytebuf d |}.

(** ** The decompressor *)

Record lz78_d : Type := mk_lz78_d {
  d_completed : Z;
  d_main : option dictionary;
  d_secondary : pointer ht_dictionary;
  d_bitbuf : Z;
  d_n_bits : Z
}.

Definition set_d_next (d : dictionary) (v : Z) : dictionary :=
  {| root := root d; d_size := d_size d; d_thr := d_thr d;
     d_min := d_min d; d_next := v;
     n_bytes := n_bytes d; offset := offset d; bytebuf := bytebuf d |}.

(** The bytes [bytebuf[offset .. offset + n_bytes)] as [uint8_t]. *)
Fixpoint region (buf : list Z) (ofs : Z) (n : nat) : outcome (list Z) :=
  match n with
  | O => Ret []
  | S n' =>
      b ← load buf (u32 ofs);
      bs ← region buf (ofs + 1) n';
      Ret (b :: bs)
  end.

(** Lines 408-413: every byte of the sequence goes to the secondary. *)
Fixpoint feed_secondary (d_sec : ht_dictionary) (bs : list Z)
  : outcome ht_dictionary :=
  match bs with
  | [] => Ret d_sec
  | c_in :: rest =>
      '(_, d_sec') ← ht_dictionary_update d_sec c_in;
      feed_secondary d_sec' rest
  end.

(** The copy loop of lines 420-428 over the slots [0 .. d_size) of the
    secondary; [next] is [d_sec->d_next]. *)
Fixpoint copy_entries (slots : list ht_entry) (next : Z) (tbl : list entry)
  : outcome (Z * list entry) :=
  match slots with
  | [] => Ret (next, tbl)
  | e :: rest =>
      if next =? 0 then Ret (next, tbl)
      else if used e then
        tbl' ← store tbl (child e) (fun _ => mk_entry (parent e) (label e));
        copy_entries rest (u32 (next - 1)) tbl'
      else copy_entries rest next tbl
  end.

(** Lines 417-429, the swap of the dictionaries of the decompressor. *)
Definition dictionaries_swap (m : dictionary) (s : ht_dictionary)
  : outcome (dictionary * ht_dictionary) :=
  let m := dictionary_reset m in
  '(next, tbl) ← copy_entries (take (Z.to_nat (h_d_size s)) (h_root s))
                              (h_d_next s) (root m);
  Ret ({| root := tbl; d_size := d_size m; d_thr := d_thr m;
          d_min := h_d_next s; d_next := h_d_next s;
          n_bytes := n_bytes m; offset := offset m; bytebuf := bytebuf m |},
       ht_dictionary_reset
         {| h_root := h_root s; cur_node := cur_node s;
            prev_node := prev_node s; h_d_size := h_d_size s;
            h_d_thr := h_d_thr s; h_d_next := next |}).

(** Lines 401-431: a code that is neither a marker nor the size.  The
    test of line 402 lets a pointer that was never set through; the
    first byte handed to [ht_dictionary_update], or the swap, then goes
    through it. *)
Definition decompress_data (o : lz78_d) (code : Z) : outcome (Z * lz78_d) :=
  match d_secondary o, d_main o with
  | Valid s, Some m =>
      m ← dictionary_update m code;
      s ← (if d_thr m <? d_next m then
             bs ← region (bytebuf m) (offset m) (Z.to_nat (n_bytes m));
             feed_secondary s bs
           else Ret s);
      '(m, s) ← (if d_next m =? d_size m then dictionaries_swap m s
                 else Ret (m, s));
      Ret (0, {| d_completed := d_completed o;
                 d_main := Some m; d_secondary := Valid s;
                 d_bitbuf := d_bitbuf o; d_n_bits := d_n_bits o |})
  | Wild, Some m =>
      m ← dictionary_update m code;
      _ ← (if d_thr m <? d_next m then
             bs ← region (bytebuf m) (offset m) (Z.to_nat (n_bytes m));
             match bs with [] => Ret tt | _ :: _ => Fault end
           else Ret tt);
      if d_next m =? d_size m then Fault
      else Ret (0, {| d_completed := d_completed o;
                      d_main := Some m; d_secondary := Wild;
                      d_bitbuf := d_bitbuf o; d_n_bits := d_n_bits o |})
  | _, _ => Ret (-2, o)
  end.

Definition decompress_code (a : allocator) (o : lz78_d) (code : Z)
  : outcome (Z * lz78_d) :=
  if code =? DICT_CODE_EOF then
    Ret (0, {| d_completed := 1; d_main := d_main o;
               d_secondary := d_secondary o;
               d_bitbuf := d_bitbuf o; d_n_bits := d_n_bits o |})
  else
    match d_main o with
    | None => Fault
    | Some m =>
        if (code =? DICT_CODE_START) || (code =? DICT_CODE_SIZE) then
          Ret (0, {| d_completed := d_completed o;
                     d_main := Some (set_d_next m DICT_SIZE_MAX);
                     d_secondary := d_secondary o;
                     d_bitbuf := d_bitbuf o; d_n_bits := 0 |})
        else if d_next m =? DICT_SIZE_MAX then
          if negb (dictionary_ok a) then
            Ret (-1, {| d_completed := d_completed o;
                        d_main := None; d_secondary := d_secondary o;
                        d_bitbuf := d_bitbuf o; d_n_bits := d_n_bits o |})
          else
            match d_secondary o with
            | Wild => Fault
            | _ =>
                if negb (ht_dictionary_ok a) then
                  Ret (-1, {| d_completed := d_completed o;
                              d_main := None; d_secondary := Null;
                              d_bitbuf := d_bitbuf o;
                              d_n_bits := d_n_bits o |})
                else
                  Ret (0, {| d_completed := d_completed o;
                             d_main := Some (dictionary_new a code);
                             d_secondary := Valid (ht_dictionary_new code);
                             d_bitbuf := 0; d_n_bits := 0 |})
            end
        else decompress_data o code
    end.

(** [lz78_new] in decompression mode: it sets [completed] and [main] and
    leaves the rest of its block as the heap had it. *)
Definition lz78_new_d (a : allocator) : lz78_d :=
  {| d_completed := 0;
     d_main := Some (dictionary_new a DICT_SIZE_MIN);
     d_secondary := if stale_secondary a then Wild else Null;
     d_bitbuf := u32 (stale_bitbuf a);
     d_n_bits := u32 (stale_n_bits a) |}.

(** *** The driver loop of [lz78_decompress]

    It returns the bytes handed to [fwrite] and the status. *)
Definition lz78_error (ret : Z) : option Z :=
  if ret =? -1 then Some LZ78_ERROR_DICTIONARY
  else if ret =? -2 then Some LZ78_ERROR_DECOMPRESS
  else None.

Fixpoint lz78_decompress_loop (fuel : nat) (a : allocator) (o : lz78_d)
    (input : list bool) : list Z * option (outcome Z) :=
  match fuel with
  | O => ([], None)
  | S fuel' =>
      match d_main o with
      | None => ([], Some Fault)
      | Some m =>
          match region (bytebuf m) (offset m) (Z.to_nat (n_bytes m)) with
          | Ret out =>
              let bits := bitlen (d_next m) in
              let code := bits_value (take (Z.to_nat bits) input) in
              if decide (length input < Z.to_nat bits)%nat
              then (out, Some (Ret LZ78_ERROR_EAGAIN))
              else
                match decompress_code a
                        {| d_completed := d_completed o; d_main := d_main o;
                           d_secondary := d_secondary o;
                           d_bitbuf := code; d_n_bits := bits |} code with
                | Ret (ret, o') =>
                    match lz78_error ret with
                    | Some err => (out, Some (Ret err))
                    | None =>
                        if d_completed o' =? 1
                        then (out, Some (Ret LZ78_SUCCESS))
                        else
                          let '(out', r) :=
                            lz78_decompress_loop fuel' a o'
                              (drop (Z.to_nat bits) input) in
                          (out ++ out', r)
                    end
                | Fault => (out, Some Fault)
                | Diverge => (out, Some Diverge)
                end
          | Fault => ([], Some Fault)
          | Diverge => ([], Some Diverge)
          end
      end
  end.

(** Every round takes at least one bit or ends the loop. *)
Definition lz78_decompress (a : allocator) (input : list bool)
  : list Z * option (outcome Z) :=
  lz78_decompress_loop (S (length input)) a (lz78_new_d a) input.

(** ** Notions of the specification *)

(** The sequence a code denotes in a table: the labels on the path from
    its literal ancestor up to the code itself. *)
Fixpoint sequence_walk (fuel : nat) (tbl : list entry) (p : Z)
  : option (list Z) :=
  match fuel with
  | O => None
  | S fuel' =>
      match tbl !! Z.to_nat p with
      | None => None
      | Some e =>
          if p <? DICT_SIZE_MIN then Some [u8 (e_label e)]
          else
            match sequence_walk fuel' tbl (e_parent e) with
            | Some s => Some (s ++ [u8 (e_label e)])
            | None => None
            end
      end
  end.

Definition sequence_of (tbl : list entry) (p : Z) : option (list Z) :=
  sequence_walk (length tbl) tbl p.

(** The dynamic codes below [bound] have a parent below themselves: the
    shape of a table in which every code below [bound] can be resolved. *)
Definition resolvable_below (tbl : list entry) (bound : Z) : Prop :=
  forall q e, DICT_SIZE_MIN <= q < bound ->
    tbl !! Z.to_nat q = Some e -> 0 <= e_parent e < q.


(** The decompressor after the size [dsize] has been read, on a heap of
    zeroed blocks, and the data codes [codes] have been submitted one
    after the other. *)
Definition sized (dsize : Z) : lz78_d :=
  {| d_completed := 0;
     d_main := Some (dictionary_new (zeroed true true) dsize);
     d_secondary := Valid (ht_dictionary_new dsize);
     d_bitbuf := 0;
     d_n_bits := 0 |}.

Fixpoint submit (o : lz78_d) (codes : list Z) : outcome lz78_d :=
  match codes with
  | [] => Ret o
  | code :: rest =>
      '(_, o') ← decompress_data o code;
      submit o' rest
  end.

Definition main_after (dsize : Z) (codes : list Z) : outcome dictionary :=
  o ← submit (sized dsize) codes;
  match d_main o with
  | Some m => Ret m
  | None => Fault
  end.


(** The dictionary of size 263 after the codes 97 and 98: the entry 260 is
    (97, 98) and the entry 261 waits for its label. *)
Definition dictionary_97_98 : dictionary :=
  Eval vm_compute in
    match main_after 263 [97; 98] with
    | Ret m => m
    | _ => dictionary_new (zeroed true true) 263
    end.

(** The dictionary of size 263 after the data codes of the stream of
    [overflow_input] but the last: the swap has left [d_next = d_size]. *)
Definition dictionary_full : dictionary :=
  Eval vm_compute in
    match main_after 263 [0; 0; 1; 261; 260; 261] with
    | Ret m => m
    | _ => dictionary_new (zeroed true true) 263
    end.


(** What the copy loop of the rotation does with one used slot of the
    secondary: its [parent] and [label] go to [root[child]]. *)
Definition copied (tbl : list entry) (e : ht_entry) : list entry :=
  alter (fun _ => mk_entry (parent e) (label e)) (Z.to_nat (child e)) tbl.

Definition used_entries (s : ht_dictionary) : list ht_entry :=
  List.filter used (h_root s).


(** The secondary as [decompress_data] has it when it compares [d_next]
    with [d_size]: after the sequence of the code went through it. *)
Definition fed (m : dictionary) (s : ht_dictionary) : outcome ht_dictionary :=
  if d_thr m <? d_next m then
    bs ← region (bytebuf m) (offset m) (Z.to_nat (n_bytes m));
    feed_secondary s bs
  else Ret s.

Definition with_dictionaries (o : lz78_d) (m : dictionary) (s : ht_dictionary)
  : lz78_d :=
  {| d_completed := d_completed o; d_main := Some m; d_secondary := Valid s;
     d_bitbuf := d_bitbuf o; d_n_bits := d_n_bits o |}.








(** ** Invariants of the compressor *)

(** A table as [ht_dictionary_new] and [ht_dictionary_update] keep it: it
    has its [d_size] slots, [d_next] counts the used slots from
    [DICT_SIZE_MIN] on, and every used slot holds a code handed out
    before. *)
Definition ht_wf (d : ht_dictionary) : Prop :=
  Z.of_nat (length (h_root d)) = h_d_size d
  /\ DICT_SIZE_MIN < h_d_size d <= DICT_SIZE_MAX
  /\ h_d_next d = DICT_SIZE_MIN + Z.of_nat (length (used_entries d))
  /\ Forall (fun e => used e = true -> DICT_SIZE_MIN <= child e < h_d_next d)
            (h_root d).

(** What [fgetc] delivers: a byte, or [EOF]. *)
Definition is_input (c_in : Z) : Prop := 0 <= c_in < 256 \/ c_in = EOF.

(** A code of the stream after the start marker: a literal, the end
    marker, or a dynamic code. *)
Definition data_code (c : Z) : Prop :=
  0 <= c <= 255 \/ c = DICT_CODE_EOF \/ DICT_SIZE_MIN <= c.


(** The secondary after a call of [compress_byte] whose main dictionary
    ended as [m]: updated with the input when [m] has reached the
    threshold, untouched otherwise. *)
Definition secondary_after (s m : ht_dictionary) (c : Z) (s' : ht_dictionary)
  : Prop :=
  if h_d_thr m <=? h_d_next m
  then exists r, ht_dictionary_update s c = Ret (r, s')
  else s' = s.

(** The input of [compress_byte] as a label. *)
Definition label_of (c_in : Z) : Z :=
  if c_in =? EOF then DICT_CODE_EOF else c_in.


(** The state of the compressor between two calls: both tables are well
    formed and of one size, and the current node of the main dictionary is
    a code of the stream, or one of the two pseudo states. *)
Definition c_wf (o : lz78_c) : Prop :=
  ht_wf (c_main o) /\ ht_wf (c_secondary o)
  /\ h_d_size (c_secondary o) = h_d_size (c_main o)
  /\ (data_code (cur_node (c_main o))
      \/ cur_node (c_main o) = DICT_CODE_STOP
      \/ cur_node (c_main o) = DICT_CODE_START)
  /\ 0 <= c_n_bits o.


(** ** Epochs of the compressor *)

(** Whether a call of [compress_byte] reaches the swap of line 349. *)
Definition compress_byte_swaps (o : lz78_c) (c_in : Z) : bool :=
  let d_main := c_main o in
  if (cur_node d_main =? DICT_CODE_EOF) || (cur_node d_main =? DICT_CODE_STOP)
  then false
  else
    let d_main := if cur_node d_main =? DICT_CODE_START
                  then set_cur_node d_main NO_NODE else d_main in
    match ht_dictionary_update d_main (label_of c_in) with
    | Ret (r, m) => (r =? 0) && (h_d_next m =? h_d_size m)
    | _ => false
    end.

(** A pair handed to [bit_write], with the epoch (the number of swaps so
    far) of the call that produced it, and whether it belongs to the head
    of the stream (the start marker and the size). *)
Record emission : Type := mk_emission {
  e_code : Z;
  e_bits : Z;
  e_epoch : nat;
  e_head : bool
}.

(** What the driver keeps beside the state to tell the epochs: the tags of
    the pending pair and the current epoch. *)
Record epochs : Type := mk_epochs {
  g_head : bool;
  g_pending : nat;
  g_epoch : nat
}.

Definition tagged (g : epochs) (o : lz78_c) : list emission :=
  map (fun e => mk_emission (fst e) (snd e) (g_pending g) (g_head g))
      (pending o).

(** [lz78_compress_loop] with the pairs tagged. *)
Fixpoint lz78_compress_epochs (fuel : nat) (g : epochs) (o : lz78_c)
    (input : list Z) : list emission :=
  match fuel with
  | O => []
  | S fuel' =>
      let out := tagged g o in
      let '(c_in, rest) := fgetc input in
      match compress_byte (written o) c_in with
      | Ret o' =>
          if c_completed o' =? 1 then out
          else
            out ++ lz78_compress_epochs fuel'
                     {| g_head := cur_node (c_main o) =? DICT_CODE_START;
                        g_pending := g_epoch g;
                        g_epoch := if compress_byte_swaps (written o) c_in
                                   then S (g_epoch g) else g_epoch g |}
                     o' rest
      | _ => out
      end
  end.

Definition erase (e : emission) : Z * Z := (e_code e, e_bits e).

(** The order of the pairs of one stream: a later epoch, or the same epoch
    and at least the width. *)
Definition le_key (a b : nat * Z) : Prop :=
  (fst a < fst b)%nat \/ (fst a = fst b /\ snd a <= snd b).

Definition key (e : emission) : nat * Z := (e_epoch e, e_bits e).

(** The width of the next code of the main dictionary. *)
Definition next_bits (o : lz78_c) : Z := bitlen (h_d_next (c_main o)).


(** The driver starts in epoch 0 with the start marker pending. *)
Definition epochs_start : epochs :=
  {| g_head := true; g_pending := 0; g_epoch := 0 |}.


(** The state of the compressor after the rounds of the driver that read
    [input]. *)
Fixpoint rounds (o : lz78_c) (input : list Z) : outcome lz78_c :=
  match input with
  | [] => Ret o
  | c_in :: rest =>
      o' ← compress_byte (written o) c_in;
      rounds o' rest
  end.

(** A slot the search passes over: used, and not the pair looked for. *)
Definition passed (cur lbl : Z) (e : ht_entry) : bool :=
  used e && negb ((parent e =? cur) && (label e =? lbl)).

(** Inputs on which the secondary dictionary outgrows the table: the
    eleven bytes after which the main dictionary has [d_next = d_size], and
    their continuation that fills the table. *)
Definition overflow_input : list Z := [0; 0; 1; 0; 1; 0; 1; 0; 1; 0; 0].

Definition hang_input : list Z :=
  overflow_input ++ map Z.of_nat (seq 2 254) ++ [2; 4; 6; 8; 10; 12; 14].


(** The compressor of size 263 after all bytes of [hang_input] but the
    last. *)
Definition hang_state : lz78_c :=
  Eval vm_compute in
    match rounds (lz78_new_c 263) (removelast hang_input) with
    | Ret o => o
    | _ => lz78_new_c 263
    end.

(** The decompressor from [lz78_new] on, given the codes one by one. *)
Fixpoint submit_codes (a : allocator) (o : lz78_d) (codes : list Z)
  : outcome lz78_d :=
  match codes with
  | [] => Ret o
  | code :: rest =>
      '(_, o') ← decompress_code a o code;
      submit_codes a o' rest
  end.

(** ** The compressor and the decompressor in step *)

(** The entries of a table that has only seen bytes: each used slot links
    a code to a smaller one by a byte, and no code is in two slots. *)
Definition ht_tree (d : ht_dictionary) : Prop :=
  Forall (fun e => used e = true ->
                   0 <= parent e < child e /\ 0 <= label e < 256) (h_root d)
  /\ List.NoDup (map child (used_entries d)).

(** The current node is a literal or a code handed out. *)
Definition cur_inside (d : ht_dictionary) : Prop :=
  0 <= cur_node d < 256 \/ DICT_SIZE_MIN <= cur_node d < h_d_next d.

(** The table of the decompressor with the label of the pending entry
    filled in with [b], as the next call of [dictionary_update] will do. *)
Definition root_filled (m : dictionary) (b : Z) : list entry :=
  if d_min m <? d_next m
  then alter (set_label (char_to_u16 b)) (Z.to_nat (d_next m - 1)) (root m)
  else root m.

(** The dictionary of the decompressor between two codes. *)
Definition d_wf (m : dictionary) : Prop :=
  Z.of_nat (length (root m)) = d_size m
  /\ Z.of_nat (length (bytebuf m)) = d_size m
  /\ DICT_SIZE_MIN <= d_min m <= d_next m
  /\ d_next m <= d_size m
  /\ d_size m <= DICT_SIZE_MAX
  /\ resolvable_below (root m) (d_next m)
  /\ forall i, 0 <= i < 256 ->
       exists e, root m !! Z.to_nat i = Some e /\ u8 (e_label e) = i.

(** An entry of the compressor's table as the decompressor holds it. *)
Definition mirrored (tbl : list entry) (e : ht_entry) : Prop :=
  used e = true ->
  exists e', tbl !! Z.to_nat (child e) = Some e'
             /\ e_parent e' = parent e /\ u8 (e_label e') = label e.

(** Two tables that differ at most in [prev_node], which
    [ht_dictionary_update] overwrites before it reads it. *)
Definition same_table (s s' : ht_dictionary) : Prop :=
  set_prev_node s 0 = set_prev_node s' 0.

(** The compressor [o] in the middle of a sequence [b :: w] and the
    decompressor ([m], [s]) that has taken all the codes emitted so far:
    they agree on [d_next], every entry of the compressor's main table is
    in the decompressor's table once the pending label [b] is filled in,
    the current node denotes the bytes of the sequence so far, and the
    secondary of the compressor is the one of the decompressor after the
    bytes of the sequence, when the threshold lets them through. *)
Record sync (o : lz78_c) (m : dictionary) (s : ht_dictionary) (b : Z)
    (w : list Z) : Prop := mk_sync {
  sync_bytes : Forall (fun x => 0 <= x < 256) (b :: w);
  sync_main : ht_wf (c_main o) /\ ht_tree (c_main o) /\ cur_inside (c_main o);
  sync_secondary :
    ht_wf (c_secondary o) /\ ht_tree (c_secondary o)
    /\ (cur_node (c_secondary o) = NO_NODE \/ cur_inside (c_secondary o));
  sync_sizes :
    h_d_size (c_secondary o) = h_d_size (c_main o)
    /\ h_d_thr (c_secondary o) = h_d_thr (c_main o)
    /\ d_size m = h_d_size (c_main o) /\ d_thr m = h_d_thr (c_main o);
  sync_next : d_next m = h_d_next (c_main o);
  sync_dictionary : d_wf m;
  sync_mirror : Forall (mirrored (root_filled m b)) (h_root (c_main o));
  sync_cur :
    sequence_of (root_filled m b) (cur_node (c_main o)) = Some (b :: w);
  sync_fed :
    if h_d_thr (c_main o) <=? h_d_next (c_main o)
    then exists s', feed_secondary s (b :: w) = Ret s'
                    /\ same_table s' (c_secondary o)
    else same_table s (c_secondary o)
}.






(** An input that brings [d_next] to 512 at its end: 252 bytes that are
    all different, so every byte but the first ends a sequence.  And the
    decompressor of size 600 that has taken every pair of its stream but
    the end marker. *)
Definition bytes_0_251 : list Z := map Z.of_nat (seq 0 252).

Definition taken_before_end : lz78_d :=
  Eval vm_compute in
    match submit_codes (zeroed true true) (lz78_new_d (zeroed true true))
            (take 254 (map fst (fst (lz78_compress 600 bytes_0_251)))) with
    | Ret d => d
    | _ => lz78_new_d (zeroed true true)
    end.







(** ** Small tables *)

(** The table of size 261 at node 97, after the pair (97, 98) has been
    inserted; the same table at node 97 again, after the search for
    (97, 98), and after the insertion of (98, 99). *)
Definition table_97 : ht_dictionary :=
  set_cur_node (ht_dictionary_new 261) 97.

Definition table_97_98 : ht_dictionary :=
  Eval vm_compute in
    match ht_dictionary_update table_97 98 with
    | Ret (_, d) => d
    | _ => table_97
    end.

Definition table_at_97 : ht_dictionary := set_cur_node table_97_98 97.

Definition table_found : ht_dictionary :=
  Eval vm_compute in
    match ht_dictionary_update table_at_97 98 with
    | Ret (_, d) => d
    | _ => table_at_97
    end.

Definition table_more : ht_dictionary :=
  Eval vm_compute in
    match ht_dictionary_update (set_cur_node table_at_97 98) 99 with
    | Ret (_, d) => d
    | _ => table_at_97
    end.

(** ** The pairs of the stream *)

(** A pair that can be read back: the code is below [2^bits], and the
    width is one of the stream. *)
Definition pair_fits (p : Z * Z) : Prop :=
  0 <= fst p < 2 ^ snd p /\ 9 <= snd p <= 21.

(** The compressor between two calls, with the current node of the main
    dictionary below its [d_next]. *)
Definition c_fit (o : lz78_c) : Prop :=
  c_wf o
  /\ (cur_node (c_main o) = DICT_CODE_START
      \/ cur_node (c_main o) = DICT_CODE_STOP
      \/ 0 <= cur_node (c_main o) < h_d_next (c_main o)).

(** ** The run of the compressor *)

(** The compressor while it reads bytes: both tables are tables of bytes,
    the current node of the main one is the start marker or a code in
    use, and the run is not completed. *)
Definition c_run (o : lz78_c) : Prop :=
  c_completed o = 0
  /\ ht_wf (c_main o) /\ ht_tree (c_main o)
  /\ (cur_node (c_main o) = DICT_CODE_START \/ cur_inside (c_main o))
  /\ ht_wf (c_secondary o) /\ ht_tree (c_secondary o)
  /\ (cur_node (c_secondary o) = NO_NODE \/ cur_inside (c_secondary o))
  /\ h_d_size (c_secondary o) = h_d_size (c_main o).

(** Both tables keep a free slot for [n] more insertions. *)
Definition c_room (o : lz78_c) (n : Z) : Prop :=
  h_d_next (c_main o) + n < DICT_SIZE_MIN + h_d_size (c_main o)
  /\ h_d_next (c_secondary o) + n < DICT_SIZE_MIN + h_d_size (c_main o).

(** The pairs that are not the end marker. *)
Definition not_end (p : Z * Z) : Prop := fst p <> DICT_CODE_EOF.

(** ** The decompressor on any stream *)

(** What [decompress_code] keeps, whatever the codes: [d_next] of the
    main dictionary is a positive 32-bit number of at least 9 bits, the
    table has at most [DICT_SIZE_MAX] entries, and the secondary is a
    well-formed table. *)
Definition d_inv (d : lz78_d) : Prop :=
  (forall m, d_main d = Some m ->
     DICT_SIZE_MIN <= d_next m <= DICT_SIZE_MIN + DICT_SIZE_MAX
     /\ Z.of_nat (length (root m)) <= DICT_SIZE_MAX)
  /\ (forall s, d_secondary d = Valid s -> ht_wf s).

(** The two places where the decompressor reads a block before it has
    written there hold zero: [n_bytes] of a new dictionary and the
    [secondary] pointer of a new instance.  The round trip needs no more
    of the heap, and it needs that much. *)
Definition clean (a : allocator) : Prop :=
  u32 (stale_n_bytes a) = 0 /\ stale_secondary a = false.

(** ** The text on both sides *)

(** The bytes a dictionary of the decompressor holds ready for [fwrite]. *)
Definition ready (m : dictionary) : outcome (list Z) :=
  region (bytebuf m) (offset m) (Z.to_nat (n_bytes m)).

(** Two states of the decompressor with the same dictionaries: the bit
    buffer is overwritten before each code. *)
Definition same_dicts (d0 d : lz78_d) : Prop :=
  d_main d0 = d_main d /\ d_secondary d0 = d_secondary d
  /\ d_completed d0 = d_completed d.

(** [in_step] with the text: [txt] is what the decompressor has still to
    write of the bytes the compressor has read - the bytes it holds ready
    and the sequence the compressor is in - and [input] is what the
    compressor has still to read. *)
Definition in_text (D : Z) (o : lz78_c) (d : lz78_d) (txt input : list Z)
  : Prop :=
  c_completed o = 0 /\ d_completed d = 0
  /\ ((c_main o = set_cur_node (ht_dictionary_new D) DICT_CODE_START
       /\ c_secondary o = ht_dictionary_new D
       /\ txt = [] /\ d_secondary d <> Wild
       /\ exists m, d_main d = Some m /\ d_next m = DICT_SIZE_MAX
                    /\ ready m = Ret [])
      \/ (exists m s b w pre,
            d_main d = Some m /\ d_secondary d = Valid s /\ sync o m s b w
            /\ d_size m = D /\ ready m = Ret pre /\ txt = pre ++ b :: w)
      \/ (cur_node (c_main o) = DICT_CODE_EOF /\ ht_wf (c_main o)
          /\ input = []
          /\ exists m, d_main d = Some m /\ d_next m = h_d_next (c_main o)
                       /\ ready m = Ret txt)).

(** What a call of [compress_byte] leaves: nothing to write, and the
    text has grown by the byte read; or a pair that the decompressor
    reads at its width and, unless it is the end marker, takes as a data
    code, after which the two are in step again.  [tight] is what makes
    the decompressor surely return. *)
Definition text_step (a : allocator) (D : Z) (tight : Prop) (o' : lz78_c)
    (d : lz78_d) (txt' rest : list Z) : Prop :=
  match pending o' with
  | [] => in_text D o' d txt' rest
  | (code, bits) :: _ =>
      0 <= code < 2 ^ bits /\ 0 <= bits
      /\ exists m pre,
           d_main d = Some m /\ bits = bitlen (d_next m) /\ ready m = Ret pre
           /\ forall d0, same_dicts d0 d ->
                (tight -> exists r d1, decompress_code a d0 code = Ret (r, d1))
                /\ forall r d1, decompress_code a d0 code = Ret (r, d1) ->
                     lz78_error r = None
                     /\ if code =? DICT_CODE_EOF
                        then d_completed d1 = 1 /\ txt' = pre /\ rest = []
                             /\ cur_node (c_main o') = DICT_CODE_STOP
                        else exists txt1,
                               txt' = pre ++ txt1
                               /\ in_text D (written o') d1 txt1 rest
  end.

(** ** The bit streams of bitio.c

    [UINTMAX_T] is [uint32_t].  A pointer that may be [NULL] is an
    [option]; the memory behind [buff_in] and [buff_out] is the list of
    its bytes, and an access outside it is a [Fault].

    The file behind the descriptor [fd] is part of the [bit_file]: the
    bytes written to it so far, or the bytes still to be read from it,
    and the answers that the next calls of [read] and [write] will get.
    Once these answers are used up every call is served in full, so a
    descriptor without answers is a blocking one. *)

Definition B_SIZE_DEFAULT : Z := 1048576.

(** [O_RDONLY | O_NONBLOCK] and [O_WRONLY | O_CREAT | O_TRUNC |
    O_NONBLOCK], with the values of Linux. *)
Definition ACCESS_READ : Z := 2048.
Definition ACCESS_WRITE : Z := 2625.

(** The conversion of a [UINTMAX_T] to the [int] that is returned. *)
Definition int_of_u32 (x : Z) : Z :=
  if x <? 2147483648 then x else x - 4294967296.

(** *** Descriptors *)

(** What [read] and [write] answer: a number of bytes, [-1] with
    [EAGAIN], or [-1] with another [errno]. *)
Inductive reply : Type :=
  | Bytes (n : Z)
  | Again
  | Failed.

Record descriptor : Type := mk_descriptor {
  readable : bool;
  writable : bool;
  content : list Z;
  replies : list reply
}.

Definition next_call (f : descriptor) (c : list Z) (rs : list reply)
  : descriptor :=
  {| readable := readable f; writable := writable f;
     content := c; replies := rs |}.

(** [write (fd, base, count)], [data] being the [count] bytes at [base]:
    the answer and the file afterwards.  The system takes at most
    [count] bytes. *)
Definition sys_write (f : descriptor) (data : list Z) : reply * descriptor :=
  if writable f then
    match replies f with
    | [] => (Bytes (Z.of_nat (length data)), next_call f (content f ++ data) [])
    | Bytes n :: rs =>
        let taken := take (Z.to_nat n) data in
        (Bytes (Z.of_nat (length taken)), next_call f (content f ++ taken) rs)
    | Again :: rs => (Again, next_call f (content f) rs)
    | Failed :: rs => (Failed, next_call f (content f) rs)
    end
  else (Failed, f).

(** [read (fd, buff, count)]: the answer, the bytes delivered and the file
    afterwards.  The system delivers at most [count] bytes, and none at
    the end of the file. *)
Definition sys_read (f : descriptor) (count : Z)
  : reply * list Z * descriptor :=
  if readable f then
    match replies f with
    | [] =>
        let data := take (Z.to_nat count) (content f) in
        (Bytes (Z.of_nat (length data)), data,
         next_call f (drop (Z.to_nat count) (content f)) [])
    | Bytes n :: rs =>
        let data := take (Z.to_nat (Z.min n count)) (content f) in
        (Bytes (Z.of_nat (length data)), data,
         next_call f (drop (Z.to_nat (Z.min n count)) (content f)) rs)
    | Again :: rs => (Again, [], next_call f (content f) rs)
    | Failed :: rs => (Failed, [], next_call f (content f) rs)
    end
  else (Failed, [], f).

(** *** The struct *)

Record bit_file : Type := mk_bit_file {
  fd : descriptor;
  mode : Z;
  buff_size : Z;
  w_start : Z;
  w_len : Z;
  buff : list Z
}.

Definition set_fd (bfp : bit_file) (f : descriptor) : bit_file :=
  {| fd := f; mode := mode bfp; buff_size := buff_size bfp;
     w_start := w_start bfp; w_len := w_len bfp; buff := buff bfp |}.

Definition set_window (bfp : bit_file) (start len : Z) : bit_file :=
  {| fd := fd bfp; mode := mode bfp; buff_size := buff_size bfp;
     w_start := start; w_len := len; buff := buff bfp |}.

Definition set_buff (bfp : bit_file) (b : list Z) : bit_file :=
  {| fd := fd bfp; mode := mode bfp; buff_size := buff_size bfp;
     w_start := w_start bfp; w_len := w_len bfp; buff := b |}.

Definition max_index : Z := u32 (-1) / 8.

(** [memcpy (dest + at, src, length src)] inside the block [dest]. *)
Definition memcpy (dest : list Z) (at_ : Z) (src : list Z)
  : outcome (list Z) :=
  if decide (Z.to_nat at_ + length src <= length dest)%nat
  then Ret (take (Z.to_nat at_) dest ++ src
            ++ drop (Z.to_nat at_ + length src) dest)
  else Fault.

(** *** [bit_open]

    [calloc_ok] tells whether [calloc] succeeds.  The calls of [read] and
    [write] with no bytes answer 0 on a descriptor open for that
    direction. *)
Definition bit_open (calloc_ok : bool) (f : descriptor) (mode_ buff_size_ : Z)
  : option bit_file :=
  if negb (mode_ =? ACCESS_READ) && negb (mode_ =? ACCESS_WRITE) then None
  else
    let ret := if mode_ =? ACCESS_READ
               then (if readable f then 0 else -1)
               else (if writable f then 0 else -1) in
    if negb (ret =? 0) then None
    else if negb (buff_size_ mod 8 =? 0) then None
    else
      let size := if max_index <? buff_size_ then max_index else buff_size_ in
      if calloc_ok
      then Some {| fd := f; mode := mode_; buff_size := size;
                   w_start := 0; w_len := 0;
                   buff := replicate (Z.to_nat (size / 8)) 0 |}
      else None.

(** *** [bit_flush] *)

(** The loop [while (count > 0)]: it ends with the number of bytes
    written, and with [false] where the function returns [-1].  Every
    round uses one answer of the descriptor, and a descriptor without
    answers takes all the bytes. *)
Fixpoint bit_flush_loop (fuel : nat) (f : descriptor) (buff_ : list Z)
    (base count written_ : Z) : outcome (bool * Z * descriptor) :=
  if count =? 0 then Ret (true, written_, f)
  else
    match fuel with
    | O => Diverge
    | S fuel' =>
        data ← region buff_ base (Z.to_nat count);
        match sys_write f data with
        | (Bytes n, f') =>
            bit_flush_loop fuel' f' buff_ (base + n) (u32 (count - n))
                           (u32 (written_ + n))
        | (Again, f') => Ret (true, written_, f')
        | (Failed, f') => Ret (false, written_, f')
        end
    end.

(** The function on a pointer that is not [NULL]. *)
Definition bit_flush_file (bfp : bit_file) : outcome (Z * bit_file) :=
  '(ok, written_, f) ← bit_flush_loop (S (length (replies (fd bfp))))
                          (fd bfp) (buff bfp) (w_start bfp / 8)
                          (w_len bfp / 8) 0;
  if ok : bool then
    if buff_size bfp =? 0 then Fault
    else
      Ret (0, set_window (set_fd bfp f)
                (u32 (w_start bfp + u32 (written_ * 8)) mod buff_size bfp)
                (u32 (w_len bfp - u32 (written_ * 8))))
  else Ret (-1, set_fd bfp f).

Definition bit_flush (bfp : option bit_file)
  : outcome (Z * option bit_file) :=
  match bfp with
  | None => Ret (-1, None)
  | Some b => '(r, b') ← bit_flush_file b; Ret (r, Some b')
  end.

(** *** [bit_write] *)

(** The local variables of the loop. *)
Record bw_locals : Type := mk_bw_locals {
  bw_base : Z;
  bw_mask : Z;
  bw_pos : Z;
  bw_buff_free_bits : Z;
  bw_n_bits : Z;
  bw_ret : Z;
  bw_aligned : bool
}.

(** The two branches of the loop, before the flush. *)
Definition bit_write_bits (bfp : bit_file) (buff_in : list Z) (l : bw_locals)
  : outcome (bit_file * bw_locals) :=
  let writeptr := bw_pos l / 8 in
  if bw_aligned l && (7 <? bw_buff_free_bits l)
     && (bw_buff_free_bits l <=? bw_n_bits l)
  then
    let buff_free_bytes := bw_buff_free_bits l / 8 in
    src ← region buff_in (bw_base l) (Z.to_nat buff_free_bytes);
    b ← memcpy (buff bfp) writeptr src;
    let bits_written := u32 (buff_free_bytes * 8) in
    Ret (set_window (set_buff bfp b) (w_start bfp)
                    (u32 (w_len bfp + bits_written)),
         {| bw_base := bw_base l + buff_free_bytes;
            bw_mask := bw_mask l;
            bw_pos := u32 (bw_pos l + bits_written);
            bw_buff_free_bits := u32 (bw_buff_free_bits l - bits_written);
            bw_n_bits := u32 (bw_n_bits l - bits_written);
            bw_ret := u32 (bw_ret l + bits_written);
            bw_aligned := bw_aligned l |})
  else
    x ← load buff_in (bw_base l);
    let readbit := negb (Z.land x (bw_mask l) =? 0) in
    let bit := Z.shiftl 1 (bw_pos l mod 8) in
    b ← store (buff bfp) writeptr
          (fun w => if readbit then u8 (Z.lor w bit)
                    else u8 (Z.land w (Z.lnot bit)));
    let wrap := bw_mask l =? 128 in
    Ret (set_window (set_buff bfp b) (w_start bfp) (u32 (w_len bfp + 1)),
         {| bw_base := if wrap then bw_base l + 1 else bw_base l;
            bw_mask := if wrap then 1 else u8 (Z.shiftl (bw_mask l) 1);
            bw_pos := u32 (bw_pos l + 1);
            bw_buff_free_bits := u32 (bw_buff_free_bits l - 1);
            bw_n_bits := u32 (bw_n_bits l - 1);
            bw_ret := u32 (bw_ret l + 1);
            bw_aligned := if wrap then bw_pos l mod 8 =? 0
                          else bw_aligned l |}).

Fixpoint bit_write_loop (fuel : nat) (bfp : bit_file) (buff_in : list Z)
    (l : bw_locals) : outcome (Z * bit_file) :=
  if bw_n_bits l =? 0 then Ret (int_of_u32 (bw_ret l), bfp)
  else
    match fuel with
    | O => Diverge
    | S fuel' =>
        '(bfp, l) ← bit_write_bits bfp buff_in l;
        if w_len bfp =? buff_size bfp then
          '(r, bfp) ← bit_flush_file bfp;
          if r =? -1 then Ret (-1, bfp)
          else if negb (w_len bfp =? 0) then Ret (int_of_u32 (bw_ret l), bfp)
          else
            bit_write_loop fuel' bfp buff_in
              {| bw_base := bw_base l; bw_mask := bw_mask l;
                 bw_pos := u32 (w_start bfp + w_len bfp);
                 bw_buff_free_bits := buff_size bfp;
                 bw_n_bits := bw_n_bits l; bw_ret := bw_ret l;
                 bw_aligned := bw_aligned l |}
        else bit_write_loop fuel' bfp buff_in l
    end.

(** Every round takes at least one of the [n_bits]. *)
Definition bit_write (bfp : option bit_file) (buff_in : option (list Z))
    (n_bits ofs : Z) : outcome (Z * option bit_file) :=
  match bfp, buff_in with
  | Some b, Some src =>
      if 7 <? ofs then Ret (-1, bfp)
      else if negb (mode b =? ACCESS_WRITE) then Ret (-1, bfp)
      else
        let mask := u8 (Z.shiftl 1 ofs) in
        let pos := u32 (w_start b + w_len b) in
        '(r, b') ← bit_write_loop (Z.to_nat n_bits) b src
                     {| bw_base := 0; bw_mask := mask; bw_pos := pos;
                        bw_buff_free_bits := u32 (buff_size b - w_len b);
                        bw_n_bits := n_bits; bw_ret := 0;
                        bw_aligned := (mask =? 1) && (pos mod 8 =? 0) |};
        Ret (r, Some b')
  | _, _ => Ret (-1, bfp)
  end.

(** *** [bit_close]

    The file is freed and the descriptor closed: what is left is the
    file behind the descriptor. *)
Definition bit_close (bfp : option bit_file)
  : outcome (Z * option descriptor) :=
  match bfp with
  | None => Ret (-1, None)
  | Some b =>
      let b :=
        if negb (w_len b mod 8 =? 0)
        then set_window b (w_start b) (u32 (w_len b + (8 - w_len b mod 8)))
        else b in
      '(_, b') ← bit_flush_file b;
      Ret (0, Some (fd b'))
  end.

(** *** [bit_read] *)

Record br_locals : Type := mk_br_locals {
  br_base : Z;
  br_mask : Z;
  br_w_start : Z;
  br_w_len : Z;
  br_n_bits : Z;
  br_bits_read_total : Z;
  br_aligned : bool
}.

(** The two branches of the loop, after the buffer has been refilled. *)
Definition bit_read_bits (bfp : bit_file) (buff_out : list Z) (l : br_locals)
  : outcome (list Z * br_locals) :=
  let readptr := br_w_start l / 8 in
  if buff_size bfp =? 0 then Fault
  else if br_aligned l && (7 <? br_w_len l) && (br_w_len l <=? br_n_bits l)
  then
    let buff_ready_bytes := br_w_len l / 8 in
    src ← region (buff bfp) readptr (Z.to_nat buff_ready_bytes);
    out ← memcpy buff_out (br_base l) src;
    let bits_read := u32 (buff_ready_bytes * 8) in
    Ret (out,
         {| br_base := br_base l + buff_ready_bytes;
            br_mask := br_mask l;
            br_w_start := u32 (br_w_start l + bits_read) mod buff_size bfp;
            br_w_len := u32 (br_w_len l - bits_read);
            br_n_bits := u32 (br_n_bits l - bits_read);
            br_bits_read_total := u32 (br_bits_read_total l + bits_read);
            br_aligned := br_aligned l |})
  else
    x ← load (buff bfp) readptr;
    let r_mask := u8 (Z.shiftl 1 (br_w_start l mod 8)) in
    let writebit := negb (Z.land x r_mask =? 0) in
    out ← store buff_out (br_base l)
            (fun w => if writebit then u8 (Z.lor w (br_mask l))
                      else u8 (Z.land w (Z.lnot (br_mask l))));
    let w_start' := u32 (br_w_start l + 1) mod buff_size bfp in
    let wrap := br_mask l =? 128 in
    Ret (out,
         {| br_base := if wrap then br_base l + 1 else br_base l;
            br_mask := if wrap then 1 else u8 (Z.shiftl (br_mask l) 1);
            br_w_start := w_start';
            br_w_len := u32 (br_w_len l - 1);
            br_n_bits := u32 (br_n_bits l - 1);
            br_bits_read_total := u32 (br_bits_read_total l + 1);
            br_aligned := if wrap then w_start' mod 8 =? 0
                          else br_aligned l |}).

(** The end of the function: the window is stored back. *)
Definition bit_read_update (bfp : bit_file) (buff_out : list Z)
    (l : br_locals) : outcome (Z * bit_file * list Z) :=
  Ret (int_of_u32 (br_bits_read_total l),
       set_window bfp (br_w_start l) (br_w_len l), buff_out).

Fixpoint bit_read_loop (fuel : nat) (bfp : bit_file) (buff_out : list Z)
    (l : br_locals) : outcome (Z * bit_file * list Z) :=
  if br_n_bits l =? 0 then bit_read_update bfp buff_out l
  else
    match fuel with
    | O => Diverge
    | S fuel' =>
        if br_w_len l =? 0 then
          let '(c, data, f) := sys_read (fd bfp) (buff_size bfp / 8) in
          b ← memcpy (buff bfp) 0 data;
          let bfp := set_buff (set_fd bfp f) b in
          match c with
          | Again => bit_read_update bfp buff_out l
          | Failed => Ret (-1, bfp, buff_out)
          | Bytes c =>
              if c =? 0 then bit_read_update bfp buff_out l
              else
                '(out, l) ← bit_read_bits bfp buff_out
                              {| br_base := br_base l; br_mask := br_mask l;
                                 br_w_start := 0; br_w_len := u32 (c * 8);
                                 br_n_bits := br_n_bits l;
                                 br_bits_read_total := br_bits_read_total l;
                                 br_aligned := br_aligned l |};
                bit_read_loop fuel' bfp out l
          end
        else
          '(out, l) ← bit_read_bits bfp buff_out l;
          bit_read_loop fuel' bfp out l
    end.

Definition bit_read (bfp : option bit_file) (buff_out : option (list Z))
    (n_bits ofs : Z) : outcome (Z * option bit_file * option (list Z)) :=
  match bfp, buff_out with
  | Some b, Some dst =>
      if 7 <? ofs then Ret (-1, bfp, buff_out)
      else if negb (mode b =? ACCESS_READ) then Ret (-1, bfp, buff_out)
      else
        let mask := u8 (Z.shiftl 1 ofs) in
        '(r, b', out) ← bit_read_loop (Z.to_nat n_bits) b dst
                          {| br_base := 0; br_mask := mask;
                             br_w_start := w_start b; br_w_len := w_len b;
                             br_n_bits := n_bits; br_bits_read_total := 0;
                             br_aligned :=
                               (mask =? 1) && (w_start b mod 8 =? 0) |};
        Ret (r, Some b', Some out)
  | _, _ => Ret (-1, bfp, buff_out)
  end.

(** *** What a bit file holds *)

Definition is_byte (x : Z) : Prop := 0 <= x < 256.

(** The bits of a sequence of bytes, bit 0 of the first byte first. *)
Definition bytes_bits (bs : list Z) : list bool :=
  concat (map (fun b => bits_of b 8) bs).

(** The bits of the window of the buffer. *)
Definition window (bfp : bit_file) : list bool :=
  take (Z.to_nat (w_len bfp))
       (drop (Z.to_nat (w_start bfp)) (bytes_bits (buff bfp))).

(** A descriptor that never refuses: no answer is [EAGAIN] or an error.
    It may still take or deliver fewer bytes than asked. *)
Definition steady (f : descriptor) : Prop :=
  Forall (fun r => exists n, r = Bytes n) (replies f).

(** The bits written so far: those of the file, then those waiting in
    the buffer. *)
Definition bit_stream (bfp : bit_file) : list bool :=
  bytes_bits (content (fd bfp)) ++ window bfp.

(** A file open for writing, between two calls, on a descriptor that
    never refuses. *)
Record bw_inv (bfp : bit_file) : Prop := mk_bw_inv {
  bw_mode : mode bfp = ACCESS_WRITE;
  bw_size : 8 <= buff_size bfp < 4294967296;
  bw_size8 : buff_size bfp mod 8 = 0;
  bw_length : Z.of_nat (length (buff bfp)) = buff_size bfp / 8;
  bw_bytes : Forall is_byte (buff bfp);
  bw_start : w_start bfp = 0;
  bw_wlen : 0 <= w_len bfp < buff_size bfp;
  bw_writable : writable (fd bfp) = true;
  bw_steady : steady (fd bfp);
  bw_content : Forall is_byte (content (fd bfp))
}.

(** The local variables of [bit_write] when [k] bits of [buff_in] have
    been taken, [n] are left, and the window starts the buffer. *)
Definition bw_at (bfp : bit_file) (k n : Z) (a : bool) : bw_locals :=
  {| bw_base := k / 8;
     bw_mask := 2 ^ (k mod 8);
     bw_pos := w_len bfp;
     bw_buff_free_bits := buff_size bfp - w_len bfp;
     bw_n_bits := n;
     bw_ret := k;
     bw_aligned := a |}.

(** What the flag [aligned] is worth: when it is set, either both sides
    are at a byte boundary, or the copy of whole bytes is out of reach. *)
Definition bw_flag (bfp : bit_file) (k n : Z) (a : bool) : Prop :=
  a = true ->
  (k mod 8 = 0 /\ w_len bfp mod 8 = 0)
  \/ n < buff_size bfp - w_len bfp
  \/ (buff_size bfp - w_len bfp < 8
      /\ n - (buff_size bfp - w_len bfp) < 8).

(** The four bytes of a [uint32_t] in memory, on a little-endian machine
    as the x86, and the value that four such bytes hold. *)
Definition u32_bytes (x : Z) : list Z :=
  [x mod 256; x / 256 mod 256; x / 65536 mod 256; x / 16777216 mod 256].

Definition bytes_u32 (bs : list Z) : Z :=
  fold_right (fun b acc => b + 256 * acc) 0 bs.

(** *** Reading *)

(** A descriptor that never refuses to deliver: every answer is a
    positive number of bytes (fewer, at the end of the file). *)
Definition willing (f : descriptor) : Prop :=
  Forall (fun r => exists n, r = Bytes n /\ 0 < n) (replies f).

(** The bits still to be read: those of the window, then those of the
    rest of the file. *)
Definition unread (bfp : bit_file) : list bool :=
  window bfp ++ bytes_bits (content (fd bfp)).

(** A file open for reading, between two calls. *)
Record br_inv (bfp : bit_file) : Prop := mk_br_inv {
  br_mode : mode bfp = ACCESS_READ;
  br_size : 8 <= buff_size bfp < 4294967296;
  br_size8 : buff_size bfp mod 8 = 0;
  br_length : Z.of_nat (length (buff bfp)) = buff_size bfp / 8;
  br_bytes : Forall is_byte (buff bfp);
  br_start : 0 <= w_start bfp < buff_size bfp;
  br_wlen : 0 <= w_len bfp /\ w_start bfp + w_len bfp <= buff_size bfp;
  br_end8 : (w_start bfp + w_len bfp) mod 8 = 0;
  br_readable : readable (fd bfp) = true;
  br_willing : willing (fd bfp);
  br_content : Forall is_byte (content (fd bfp))
}.

(** The local variables of [bit_read] when [j] bits have been stored in
    [buff_out] and [n] are still asked for. *)
Definition br_at (s w j n : Z) (a : bool) : br_locals :=
  {| br_base := j / 8;
     br_mask := 2 ^ (j mod 8);
     br_w_start := s;
     br_w_len := w;
     br_n_bits := n;
     br_bits_read_total := j;
     br_aligned := a |}.

Definition br_flag (s w j n : Z) (a : bool) : Prop :=
  a = true -> (j mod 8 = 0 /\ s mod 8 = 0) \/ n < w.

(** ** The two entry points on descriptors

    [lz78_new] hands out an instance in one of the two modes; the model
    of [lz78_compress] above takes the bits as written and the model of
    [lz78_decompress] takes them as read, and the two functions below
    follow the source through [bit_open], [bit_write], [bit_close] and
    [bit_read].  The streams of [stdio] are blocking and without errors:
    [fgetc] delivers the bytes of [input] and then [EOF], [fwrite] takes
    the bytes it is given. *)

Inductive lz78_instance : Type :=
  | Compressor (o : lz78_c)
  | Decompressor (o : lz78_d).

(** [malloc_ok] tells whether the [malloc] of the instance succeeds, the
    allocator whether the dictionaries can be had. *)
Definition lz78_new (malloc_ok : bool) (a : allocator) (cmode dsize : Z)
  : option lz78_instance :=
  if malloc_ok then
    if cmode =? LZ78_MODE_COMPRESS then
      if ht_dictionary_ok a then Some (Compressor (lz78_new_c dsize))
      else None
    else if cmode =? LZ78_MODE_DECOMPRESS then
      if dictionary_ok a then Some (Decompressor (lz78_new_d a)) else None
    else None
  else None.

(** The head of the loop of [lz78_compress], [if (o->n_bits > 0)]: the
    status if the function returns there. *)
Definition write_pending (o : lz78_c) (out : bit_file)
  : outcome (option Z * lz78_c * bit_file) :=
  if 0 <? c_n_bits o then
    '(bits, r) ← bit_write (Some out) (Some (u32_bytes (c_bitbuf o)))
                   (c_n_bits o) 0;
    let out := default out r in
    if bits =? -1 then Ret (Some LZ78_ERROR_WRITE, o, out)
    else
      let o := emit o (u32 (Z.shiftr (c_bitbuf o) bits))
                    (u32 (c_n_bits o - bits)) in
      if 0 <? c_n_bits o then Ret (Some LZ78_ERROR_EAGAIN, o, out)
      else Ret (None, o, out)
  else Ret (None, o, out).

(** The loop of [lz78_compress]: the status that is returned, and the
    file behind [fd_out] at that moment. *)
Fixpoint lz78_compress_fd_loop (fuel : nat) (o : lz78_c) (input : list Z)
    (out : bit_file) : option (outcome (Z * descriptor)) :=
  match fuel with
  | O => None
  | S fuel' =>
      match write_pending o out with
      | Ret (Some status, _, out) => Some (Ret (status, fd out))
      | Ret (None, o, out) =>
          let '(c_in, rest) := fgetc input in
          match compress_byte o c_in with
          | Ret o' =>
              if c_completed o' =? 1 then
                match bit_close (Some out) with
                | Ret (_, f) => Some (Ret (LZ78_SUCCESS, default (fd out) f))
                | Fault => Some Fault
                | Diverge => Some Diverge
                end
              else lz78_compress_fd_loop fuel' o' rest out
          | Fault => Some Fault
          | Diverge => Some Diverge
          end
      | Fault => Some Fault
      | Diverge => Some Diverge
      end
  end.

(** [input] is the stream that [fdopen] gives, if it gives one.  As in
    [lz78_compress] above, each byte takes one round and the end of the
    input three more. *)
Definition lz78_compress_fd (calloc_ok : bool) (lz78 : option lz78_instance)
    (input : option (list Z)) (fd_out : descriptor)
  : option (outcome (Z * descriptor)) :=
  match lz78 with
  | None => Some (Ret (LZ78_ERROR_INITIALIZATION, fd_out))
  | Some (Decompressor _) => Some (Ret (LZ78_ERROR_MODE, fd_out))
  | Some (Compressor o) =>
      match input with
      | None => Some (Ret (LZ78_ERROR_READ, fd_out))
      | Some input =>
          match bit_open calloc_ok fd_out ACCESS_WRITE B_SIZE_DEFAULT with
          | None => Some (Ret (LZ78_ERROR_WRITE, fd_out))
          | Some out =>
              lz78_compress_fd_loop (length input + 3) o input out
          end
      end
  end.

(** The loop of [lz78_decompress]: the bytes handed to [fwrite] and the
    status. *)
Fixpoint lz78_decompress_fd_loop (fuel : nat) (a : allocator) (o : lz78_d)
    (in_ : bit_file) : list Z * option (outcome Z) :=
  match fuel with
  | O => ([], None)
  | S fuel' =>
      match d_main o with
      | None => ([], Some Fault)
      | Some m =>
          match region (bytebuf m) (offset m) (Z.to_nat (n_bytes m)) with
          | Ret out =>
              let bits := bitlen (d_next m) in
              let got : outcome (option Z * Z * Z * bit_file) :=
                if 0 <? bits then
                  '(ret, r, buf) ← bit_read (Some in_) (Some (u32_bytes 0))
                                     bits 0;
                  let in_ := default in_ r in
                  if ret =? -1 then Ret (Some LZ78_ERROR_READ, 0, 0, in_)
                  else
                    let bitbuf := bytes_u32 (default [] buf) in
                    if negb (bits =? u32 ret)
                    then Ret (Some LZ78_ERROR_EAGAIN, bitbuf, u32 ret, in_)
                    else Ret (None, bitbuf, u32 ret, in_)
                else Ret (None, 0, 0, in_) in
              match got with
              | Ret (Some status, _, _, _) => (out, Some (Ret status))
              | Ret (None, bitbuf, n_bits, in_) =>
                  match decompress_code a
                          {| d_completed := d_completed o;
                             d_main := d_main o;
                             d_secondary := d_secondary o;
                             d_bitbuf := bitbuf; d_n_bits := n_bits |}
                          bitbuf with
                  | Ret (ret, o') =>
                      match lz78_error ret with
                      | Some err => (out, Some (Ret err))
                      | None =>
                          if d_completed o' =? 1
                          then (out, Some (Ret LZ78_SUCCESS))
                          else
                            let '(out', r) :=
                              lz78_decompress_fd_loop fuel' a o' in_ in
                            (out ++ out', r)
                      end
                  | Fault => (out, Some Fault)
                  | Diverge => (out, Some Diverge)
                  end
              | Fault => (out, Some Fault)
              | Diverge => (out, Some Diverge)
              end
          | Fault => ([], Some Fault)
          | Diverge => ([], Some Diverge)
          end
      end
  end.

(** [fdopen_ok] tells whether [fdopen] gives a stream for [fd_out].
    Every round that goes on has read at least one bit of the file. *)
Definition lz78_decompress_fd (calloc_ok fdopen_ok : bool) (a : allocator)
    (lz78 : option lz78_instance) (fd_in : descriptor)
  : list Z * option (outcome Z) :=
  match lz78 with
  | None => ([], Some (Ret LZ78_ERROR_INITIALIZATION))
  | Some (Compressor _) => ([], Some (Ret LZ78_ERROR_MODE))
  | Some (Decompressor o) =>
      match bit_open calloc_ok fd_in ACCESS_READ B_SIZE_DEFAULT with
      | None => ([], Some (Ret LZ78_ERROR_READ))
      | Some in_ =>
          if fdopen_ok
          then lz78_decompress_fd_loop (S (8 * length (content fd_in))) a o in_
          else ([], Some (Ret LZ78_ERROR_WRITE))
      end
  end.

(** *** Small files *)

(** A file of 16 bits open for writing on an empty blocking descriptor,
    one open for reading on a descriptor that first delivers one byte
    only, and a full one whose descriptor will take one byte and then
    answer [EAGAIN]. *)
Definition small_out : bit_file :=
  {| fd := mk_descriptor false true [] [];
     mode := ACCESS_WRITE; buff_size := 16; w_start := 0; w_len := 0;
     buff := [0; 0] |}.

Definition small_in : bit_file :=
  {| fd := mk_descriptor true false [5; 1; 7] [Bytes 1];
     mode := ACCESS_READ; buff_size := 16; w_start := 0; w_len := 0;
     buff := [0; 0] |}.

Definition small_full : bit_file :=
  {| fd := mk_descriptor false true [] [Bytes 1; Again];
     mode := ACCESS_WRITE; buff_size := 16; w_start := 0; w_len := 16;
     buff := [5; 1] |}.

(** A file open for writing with one byte in the file and nine bits in
    the buffer. *)
Definition small_part : bit_file :=
  {| fd := mk_descriptor false true [5] [];
     mode := ACCESS_WRITE; buff_size := 16; w_start := 0; w_len := 9;
     buff := [97; 1] |}.

(** A file open for writing, between two calls, whatever its
    descriptor does. *)
Definition bw_shape (bfp : bit_file) : Prop :=
  mode bfp = ACCESS_WRITE
  /\ 8 <= buff_size bfp < 4294967296
  /\ buff_size bfp mod 8 = 0
  /\ Z.of_nat (length (buff bfp)) = buff_size bfp / 8
  /\ Forall is_byte (buff bfp)
  /\ w_start bfp = 0
  /\ 0 <= w_len bfp < buff_size bfp.

(** * Properties *)

(** ** Machine integers and [bitlen] *)

Lemma u8_small x : 0 <= x < 256 -> u8 x = x.
Proof. intros H. unfold u8. apply Z.mod_small. lia. Qed.

Lemma u16_small x : 0 <= x < 65536 -> u16 x = x.
Proof. intros H. unfold u16. apply Z.mod_small. lia. Qed.

Lemma u32_small x : 0 <= x < 4294967296 -> u32 x = x.
Proof. intros H. unfold u32. apply Z.mod_small. lia. Qed.

Lemma u32_range x : 0 <= u32 x < 4294967296.
Proof. unfold u32. apply Z.mod_pos_bound. lia. Qed.

Lemma DICT_LIMIT_range x :
  DICT_SIZE_MIN + 1 <= DICT_LIMIT x <= DICT_SIZE_MAX.
Proof.
  unfold DICT_LIMIT, DICT_SIZE_MIN, DICT_SIZE_MAX.
  destruct (Z.ltb_spec x (260 + 1)); [lia|].
  destruct (Z.ltb_spec 1048576 x); lia.
Qed.

Lemma DICT_LIMIT_id x :
  DICT_SIZE_MIN + 1 <= x <= DICT_SIZE_MAX -> DICT_LIMIT x = x.
Proof.
  unfold DICT_LIMIT, DICT_SIZE_MIN, DICT_SIZE_MAX. intros H.
  destruct (Z.ltb_spec x (260 + 1)); [lia|].
  destruct (Z.ltb_spec 1048576 x); lia.
Qed.

Lemma bitlen_loop_log2 fuel : forall i n,
  0 <= i < 2 ^ Z.of_nat fuel -> 0 <= n -> n + Z.of_nat fuel < 256 ->
  bitlen_loop fuel i n = if i =? 0 then n else n + Z.log2 i + 1.
Proof.
  induction fuel as [|fuel IH]; intros i n Hi Hn Hb.
  - simpl in *. assert (i = 0) by lia. subst. reflexivity.
  - cbn [bitlen_loop]. destruct (Z.eqb_spec i 0) as [->|Hne]; [reflexivity|].
    rewrite u8_small by lia.
    assert (Hdiv : Z.shiftr i 1 = i / 2)
      by (rewrite Z.shiftr_div_pow2 by lia; reflexivity).
    assert (Hhalf : 0 <= Z.shiftr i 1 < 2 ^ Z.of_nat fuel).
    { rewrite Hdiv, Nat2Z.inj_succ, Z.pow_succ_r in * by lia.
      split; [apply Z.div_pos; lia|].
      apply Z.div_lt_upper_bound; lia. }
    rewrite IH by lia.
    pose proof (Z.log2_shiftr i 1 ltac:(lia)) as Hlog.
    destruct (Z.eqb_spec (Z.shiftr i 1) 0) as [H0|H0].
    + assert (i = 1).
      { rewrite Hdiv in H0.
        pose proof (Z.div_mod i 2 ltac:(lia)).
        pose proof (Z.mod_pos_bound i 2 ltac:(lia)). lia. }
      subst i. change (Z.log2 1) with 0. lia.
    + assert (2 <= i).
      { destruct (Z.lt_ge_cases i 2) as [Hlt|]; [|lia].
        exfalso. apply H0. rewrite Hdiv. apply Z.div_small. lia. }
      pose proof (Z.log2_le_mono 2 i ltac:(lia)) as Hle.
      change (Z.log2 2) with 1 in Hle. lia.
Qed.

Lemma bitlen_log2 i :
  0 <= i < 4294967296 -> bitlen i = if i =? 0 then 0 else Z.log2 i + 1.
Proof.
  intros H. unfold bitlen. rewrite u32_small by lia.
  rewrite bitlen_loop_log2; [reflexivity| |lia|simpl; lia].
  simpl. lia.
Qed.

Lemma bitlen_mono a b :
  0 <= a <= b -> b < 4294967296 -> bitlen a <= bitlen b.
Proof.
  intros Hab Hb. rewrite !bitlen_log2 by lia.
  destruct (Z.eqb_spec a 0), (Z.eqb_spec b 0); try lia.
  - pose proof (Z.log2_nonneg b). lia.
  - pose proof (Z.log2_le_mono a b ltac:(lia)). lia.
Qed.

(** ** The bit stream *)

Lemma bits_value_from x n : forall k,
  0 <= x ->
  bits_value (map (fun j : nat => Z.testbit x (Z.of_nat j)) (seq k n))
  = Z.shiftr x (Z.of_nat k) mod 2 ^ Z.of_nat n.
Proof.
  induction n as [|n IH]; intros k Hx.
  - simpl. rewrite Z.mod_1_r. reflexivity.
  - cbn [seq map bits_value]. rewrite IH by assumption.
    rewrite (Nat2Z.inj_succ n), Z.pow_succ_r by lia.
    rewrite Z.rem_mul_r by lia.
    rewrite Z.testbit_odd, <- Z.bit0_odd, Z.bit0_mod.
    replace (Z.shiftr x (Z.of_nat (S k)))
      with (Z.shiftr x (Z.of_nat k) / 2); [reflexivity|].
    rewrite (Nat2Z.inj_succ k), <- Z.add_1_r, <- Z.shiftr_shiftr by lia.
    rewrite (Z.shiftr_div_pow2 _ 1) by lia. reflexivity.
Qed.

Lemma bits_value_bits_of x n :
  0 <= n -> 0 <= x < 2 ^ n -> bits_value (bits_of x n) = x.
Proof.
  intros Hn Hx. unfold bits_of. rewrite bits_value_from by lia.
  rewrite Z.shiftr_0_r, Z2Nat.id by lia. apply Z.mod_small. lia.
Qed.

Lemma length_bits_of x n : length (bits_of x n) = Z.to_nat n.
Proof. unfold bits_of. rewrite length_map, length_seq. reflexivity. Qed.

(** ** The head of the stream *)

Lemma ht_dictionary_update_no_node d lbl :
  cur_node d = NO_NODE ->
  ht_dictionary_update d lbl
  = Ret (-1, set_cur_node (set_prev_node d NO_NODE) (u16 lbl)).
Proof.
  intros H. unfold ht_dictionary_update, ht_dictionary_update_fuel.
  cbn [set_prev_node cur_node]. rewrite H. reflexivity.
Qed.

Lemma lz78_compress_loop_S fuel o input :
  lz78_compress_loop (S fuel) o input
  = let out := pending o in
    let '(c_in, rest) := fgetc input in
    match compress_byte (written o) c_in with
    | Ret o' =>
        if c_completed o' =? 1 then (out, Some (Ret LZ78_SUCCESS))
        else
          let '(out', r) := lz78_compress_loop fuel o' rest in
          (out ++ out', r)
    | Fault => (out, Some Fault)
    | Diverge => (out, Some Diverge)
    end.
Proof. reflexivity. Qed.

Lemma lz78_compress_loop_pending fuel o input :
  exists rest, fst (lz78_compress_loop (S fuel) o input) = pending o ++ rest.
Proof.
  rewrite lz78_compress_loop_S. cbn zeta.
  destruct (fgetc input) as [c_in tl].
  destruct (compress_byte (written o) c_in) as [o'| |].
  - destruct (c_completed o' =? 1).
    + exists []. rewrite app_nil_r. reflexivity.
    + destruct (lz78_compress_loop fuel o' tl) as [out' r].
      exists out'. reflexivity.
  - exists []. rewrite app_nil_r. reflexivity.
  - exists []. rewrite app_nil_r. reflexivity.
Qed.

(** The first call of [compress_byte] announces the size and keeps the
    byte as the current node. *)
Lemma compress_byte_start dsize c_in :
  exists o', compress_byte (written (lz78_new_c dsize)) c_in = Ret o'
    /\ c_completed o' = 0
    /\ c_bitbuf o' = DICT_LIMIT (if dsize =? 0 then DICT_SIZE_DEFAULT else dsize)
    /\ c_n_bits o' = bitlen DICT_SIZE_MAX.
Proof.
  unfold compress_byte, written, lz78_new_c.
  cbn [c_n_bits c_main c_secondary cur_node set_cur_node emit with_dicts
       c_completed c_d_size c_bitbuf h_d_size ht_dictionary_new].
  change (0 <? bitlen DICT_SIZE_MIN) with true. cbn iota.
  cbn [c_n_bits c_main c_secondary cur_node set_cur_node emit with_dicts
       c_completed c_d_size c_bitbuf h_d_size ht_dictionary_new].
  change (DICT_CODE_START =? DICT_CODE_START) with true. cbn iota.
  unfold compress_input.
  cbn [c_n_bits c_main c_secondary cur_node set_cur_node emit with_dicts
       c_completed c_d_size c_bitbuf].
  rewrite ht_dictionary_update_no_node by reflexivity.
  cbn [mbind outcome_bind]. change (negb (-1 =? 0)) with true. cbn iota.
  unfold secondary_update.
  cbn [c_n_bits c_main c_secondary cur_node set_cur_node emit with_dicts
       c_completed c_d_size c_bitbuf].
  match goal with |- context [if ?b then _ else _] => destruct b end.
  - rewrite ht_dictionary_update_no_node by reflexivity.
    cbn [mbind outcome_bind]. eexists. split; [reflexivity|].
    cbn [c_completed c_bitbuf c_n_bits with_dicts emit].
    rewrite DICT_LIMIT_id by apply DICT_LIMIT_range. auto.
  - eexists. split; [reflexivity|].
    cbn [c_completed c_bitbuf c_n_bits with_dicts emit].
    rewrite DICT_LIMIT_id by apply DICT_LIMIT_range. auto.
Qed.

(** The claim as written fails: the stream of the empty input with the
    default size does not start with the 21 bits of the size. *)
Lemma size_announcement_not_first :
  take 21 (stream_bits (fst (lz78_compress 4096 []))) <> bits_of 4096 21.
Proof. vm_compute. discriminate. Qed.

(** C5, as amended: the stream starts with the start marker 258 in
    [bitlen DICT_SIZE_MIN] = 9 bits, written by [lz78_new]; the size
    announcement comes second: the dictionary size D, limited to
    [DICT_SIZE_MIN + 1 .. DICT_SIZE_MAX], in exactly [bitlen DICT_SIZE_MAX]
    = 21 bits, low bit first, before any code. *)
Theorem size_announcement_second (dsize : Z) (input : list Z) :
  let D := DICT_LIMIT (if dsize =? 0 then DICT_SIZE_DEFAULT else dsize) in
  DICT_SIZE_MIN + 1 <= D <= DICT_SIZE_MAX
  /\ bitlen DICT_SIZE_MIN = 9 /\ bitlen DICT_SIZE_MAX = 21
  /\ length (bits_of D 21) = 21%nat
  /\ bits_value (bits_of D 21) = D
  /\ exists rest,
       fst (lz78_compress dsize input)
       = (DICT_CODE_START, 9) :: (D, 21) :: rest
       /\ stream_bits (fst (lz78_compress dsize input))
          = bits_of DICT_CODE_START 9 ++ bits_of D 21 ++ stream_bits rest.
Proof.
  intros D. pose proof (DICT_LIMIT_range
    (if dsize =? 0 then DICT_SIZE_DEFAULT else dsize)) as HD.
  fold D in HD. unfold DICT_SIZE_MIN, DICT_SIZE_MAX in HD.
  split; [exact HD|]. split; [reflexivity|]. split; [reflexivity|].
  split; [apply length_bits_of|].
  split; [apply bits_value_bits_of; lia|].
  assert (Hfst : exists rest, fst (lz78_compress dsize input)
                  = (DICT_CODE_START, 9) :: (D, 21) :: rest).
  { unfold lz78_compress. replace (length input + 3)%nat
      with (S (S (S (length input)))) by lia.
    rewrite lz78_compress_loop_S. cbn zeta.
    destruct (fgetc input) as [c_in tl].
    destruct (compress_byte_start dsize c_in) as (o' & -> & Hc & Hb & Hn).
    rewrite Hc. change (0 =? 1) with false. cbn iota.
    destruct (lz78_compress_loop_pending (S (length input)) o' tl)
      as [rest Hrest].
    destruct (lz78_compress_loop (S (S (length input))) o' tl) as [out' r].
    cbn [fst] in *. subst out'. exists rest.
    unfold pending at 2. rewrite Hn, Hb. reflexivity. }
  destruct Hfst as [rest Hrest]. exists rest. split; [exact Hrest|].
  rewrite Hrest. unfold stream_bits. cbn [map concat fst snd].
  reflexivity.
Qed.

(** ** Arrays *)

Lemma store_Ret {A} (a : list A) i f :
  0 <= i < Z.of_nat (length a) ->
  store a i f = Ret (alter f (Z.to_nat i) a).
Proof.
  intros H. unfold store. destruct (decide _) as [|Hn]; [reflexivity|].
  exfalso. apply Hn. lia.
Qed.

Lemma store_inv {A} (a a' : list A) i f :
  store a i f = Ret a' ->
  (Z.to_nat i < length a)%nat /\ a' = alter f (Z.to_nat i) a.
Proof.
  unfold store. destruct (decide _); [|discriminate].
  intros [= <-]. auto.
Qed.

Lemma store_length {A} (a a' : list A) i f :
  store a i f = Ret a' -> length a' = length a.
Proof. intros [_ ->]%store_inv. apply length_alter. Qed.

Lemma load_Ret {A} (a : list A) i x :
  load a i = Ret x <-> a !! Z.to_nat i = Some x.
Proof.
  unfold load. destruct (a !! Z.to_nat i); split; intros H;
    try discriminate; congruence.
Qed.

Lemma load_store_eq {A} (a a' : list A) i f x :
  store a i f = Ret a' -> load a i = Ret x -> load a' i = Ret (f x).
Proof.
  intros [Hi ->]%store_inv Hx%load_Ret. apply load_Ret.
  rewrite list_lookup_alter_eq, Hx. reflexivity.
Qed.

Lemma load_store_ne {A} (a a' : list A) i j f :
  store a i f = Ret a' -> 0 <= i -> 0 <= j -> i <> j ->
  load a' j = load a j.
Proof.
  intros [Hi ->]%store_inv H0 H1 Hne. unfold load.
  rewrite list_lookup_alter_ne by lia. reflexivity.
Qed.

Lemma load_lt {A} (a : list A) i :
  0 <= i < Z.of_nat (length a) -> exists x, load a i = Ret x.
Proof.
  intros H. unfold load.
  destruct (lookup_lt_is_Some_2 a (Z.to_nat i) ltac:(lia)) as [x ->].
  eauto.
Qed.

Lemma region_unfold (buf : list Z) ofs n :
  region buf ofs (S n)
  = (b ← load buf (u32 ofs); bs ← region buf (ofs + 1) n; Ret (b :: bs)).
Proof. reflexivity. Qed.

Lemma region_S (buf : list Z) n : forall ofs (s : list Z) x,
  region buf ofs n = Ret s ->
  load buf (u32 (ofs + Z.of_nat n)) = Ret x ->
  region buf ofs (S n) = Ret (s ++ [x]).
Proof.
  induction n as [|n IH]; intros ofs s x Hs Hx.
  - cbn in Hs. injection Hs as <-. cbn [region].
    rewrite Z.add_0_r in Hx. rewrite Hx. reflexivity.
  - rewrite region_unfold in Hs. rewrite region_unfold.
    destruct (load buf (u32 ofs)) as [b| |]; try discriminate.
    cbn [mbind outcome_bind] in *.
    destruct (region buf (ofs + 1) n) as [bs| |] eqn:Hbs; try discriminate.
    cbn [mbind outcome_bind] in Hs. injection Hs as <-.
    rewrite (IH (ofs + 1) bs x Hbs).
    + reflexivity.
    + rewrite <- Hx. f_equal. f_equal. lia.
Qed.

Lemma region_ext (buf buf' : list Z) n : forall ofs,
  (forall j, ofs <= j < ofs + Z.of_nat n ->
             load buf' (u32 j) = load buf (u32 j)) ->
  region buf' ofs n = region buf ofs n.
Proof.
  induction n as [|n IH]; intros ofs H; [reflexivity|].
  cbn [region]. rewrite H by lia. rewrite IH; [reflexivity|].
  intros j Hj. apply H. lia.
Qed.

Lemma region_length (buf : list Z) n : forall ofs s,
  region buf ofs n = Ret s -> length s = n.
Proof.
  induction n as [|n IH]; intros ofs s H.
  - injection H as <-. reflexivity.
  - cbn [region] in H.
    destruct (load buf (u32 ofs)) as [b| |]; try discriminate.
    cbn [mbind outcome_bind] in H.
    destruct (region buf (ofs + 1) n) as [bs| |] eqn:Hbs; try discriminate.
    injection H as <-. cbn. f_equal. eauto.
Qed.

(** ** The sequence of a code *)

Lemma sequence_walk_mono tbl fuel : forall p s fuel',
  sequence_walk fuel tbl p = Some s -> (fuel <= fuel')%nat ->
  sequence_walk fuel' tbl p = Some s.
Proof.
  induction fuel as [|fuel IH]; intros p s fuel' H Hle; [discriminate|].
  destruct fuel' as [|fuel']; [lia|]. cbn [sequence_walk] in *.
  destruct (tbl !! Z.to_nat p) as [e|]; [|discriminate].
  destruct (p <? DICT_SIZE_MIN); [exact H|].
  destruct (sequence_walk fuel tbl (e_parent e)) as [s0|] eqn:Hs0;
    [|discriminate].
  rewrite (IH _ _ fuel' Hs0) by lia. exact H.
Qed.

Lemma sequence_walk_ext tbl tbl' bound fuel : forall p,
  resolvable_below tbl bound -> 0 <= p < bound ->
  (forall q, 0 <= q <= p -> tbl' !! Z.to_nat q = tbl !! Z.to_nat q) ->
  sequence_walk fuel tbl' p = sequence_walk fuel tbl p.
Proof.
  induction fuel as [|fuel IH]; intros p Hres Hp Hagree; [reflexivity|].
  cbn [sequence_walk]. rewrite Hagree by lia.
  destruct (tbl !! Z.to_nat p) as [e|] eqn:He; [|reflexivity].
  destruct (Z.ltb_spec p DICT_SIZE_MIN); [reflexivity|].
  pose proof (Hres p e ltac:(lia) He) as Hpar.
  rewrite IH; [reflexivity|assumption|lia|].
  intros q Hq. apply Hagree. lia.
Qed.

(** [recover] stores the sequence of [p] below index [i], last byte at
    [i], and leaves the rest of the buffer alone. *)
Lemma recover_sequence tbl bound fuel : forall p buf i,
  resolvable_below tbl bound ->
  bound <= Z.of_nat (length tbl) ->
  0 <= p < bound ->
  (Z.to_nat p < fuel)%nat ->
  1 <= i -> p - 258 <= i -> i < Z.of_nat (length buf) -> i < 4294967296 ->
  exists s buf',
    sequence_walk fuel tbl p = Some s
    /\ 1 <= Z.of_nat (length s) <= Z.max 1 (p - 258)
    /\ recover fuel tbl buf i p = Ret (buf', i - Z.of_nat (length s))
    /\ length buf' = length buf
    /\ (forall j, 0 <= j -> j <= i - Z.of_nat (length s) \/ i < j ->
                  load buf' j = load buf j)
    /\ region buf' (i - Z.of_nat (length s) + 1) (length s) = Ret s.
Proof.
  induction fuel as [|fuel IH]; intros p buf i Hres Hlen Hp Hfuel Hi1 Hip Hib Hi32;
    [lia|].
  cbn [sequence_walk recover].
  destruct (load_lt tbl p ltac:(lia)) as [e He]. rewrite He.
  apply load_Ret in He. rewrite He. cbn [mbind outcome_bind].
  rewrite store_Ret by lia. cbn [mbind outcome_bind].
  set (buf1 := alter (fun _ => u8 (e_label e)) (Z.to_nat i) buf).
  assert (Hst : store buf i (fun _ => u8 (e_label e)) = Ret buf1)
    by (apply store_Ret; lia).
  assert (Hl1 : length buf1 = length buf) by apply length_alter.
  assert (Hat : load buf1 i = Ret (u8 (e_label e))).
  { destruct (load_lt buf i ltac:(lia)) as [x Hx].
    apply (load_store_eq _ _ _ _ _ Hst Hx). }
  rewrite (u32_small (i - 1)) by lia.
  destruct (Z.ltb_spec p DICT_SIZE_MIN) as [Hlit|Hdyn].
  - cbn [orb]. exists [u8 (e_label e)], buf1. cbn [length].
    split; [reflexivity|]. split; [lia|]. split; [reflexivity|].
    split; [exact Hl1|]. split.
    + intros j Hj0 Hj. apply (load_store_ne _ _ _ _ _ Hst); lia.
    + replace (i - Z.of_nat 1 + 1) with i by lia. cbn [region].
      rewrite u32_small by lia. rewrite Hat. reflexivity.
  - unfold DICT_SIZE_MIN in Hdyn. cbn [orb].
    destruct (Z.eqb_spec (i - 1) 0) as [H0|_]; [lia|].
    pose proof (Hres p e ltac:(unfold DICT_SIZE_MIN; lia) He) as Hpar.
    destruct (IH (e_parent e) buf1 (i - 1) Hres Hlen)
      as (s & buf' & Hs & Hls & Hrec & Hl' & Hout & Hreg); try lia.
    rewrite Hs, Hrec. exists (s ++ [u8 (e_label e)]), buf'.
    rewrite length_app. cbn [length].
    split; [reflexivity|]. split; [lia|].
    split; [f_equal; f_equal; lia|].
    split; [congruence|]. split.
    + intros j Hj0 Hj. rewrite Hout by lia.
      apply (load_store_ne _ _ _ _ _ Hst); lia.
    + replace (length s + 1)%nat with (S (length s)) by lia.
      apply region_S.
      * rewrite <- Hreg. f_equal. lia.
      * replace (i - Z.of_nat (S (length s)) + 1 + Z.of_nat (length s))
          with i by lia.
        rewrite u32_small by lia.
        rewrite Hout by lia. exact Hat.
Qed.

Lemma sequence_walk_fuel tbl bound f1 : forall f2 p,
  resolvable_below tbl bound -> 0 <= p < bound ->
  (Z.to_nat p < f1)%nat -> (Z.to_nat p < f2)%nat ->
  sequence_walk f1 tbl p = sequence_walk f2 tbl p.
Proof.
  induction f1 as [|f1 IH]; intros f2 p Hres Hp H1 H2; [lia|].
  destruct f2 as [|f2]; [lia|]. cbn [sequence_walk].
  destruct (tbl !! Z.to_nat p) as [e|] eqn:He; [|reflexivity].
  destruct (Z.ltb_spec p DICT_SIZE_MIN); [reflexivity|].
  pose proof (Hres p e ltac:(lia) He) as Hpar.
  rewrite (IH f2 (e_parent e)) by (assumption || lia). reflexivity.
Qed.

Lemma sequence_walk_bytes tbl fuel : forall p s,
  sequence_walk fuel tbl p = Some s -> Forall (fun x => 0 <= x < 256) s.
Proof.
  induction fuel as [|fuel IH]; intros p s H; [discriminate|].
  cbn [sequence_walk] in H.
  destruct (tbl !! Z.to_nat p) as [e|]; [|discriminate].
  assert (Hb : 0 <= u8 (e_label e) < 256)
    by (unfold u8; apply Z.mod_pos_bound; lia).
  destruct (p <? DICT_SIZE_MIN).
  - injection H as <-. constructor; [exact Hb|constructor].
  - destruct (sequence_walk fuel tbl (e_parent e)) as [s0|] eqn:Hs0;
      [|discriminate].
    injection H as <-. apply Forall_app. split; [eauto|].
    constructor; [exact Hb|constructor].
Qed.

Lemma region_lookup (buf : list Z) n : forall ofs s,
  region buf ofs n = Ret s ->
  forall k x, s !! k = Some x -> load buf (u32 (ofs + Z.of_nat k)) = Ret x.
Proof.
  induction n as [|n IH]; intros ofs s H k x Hk.
  - injection H as <-. discriminate.
  - rewrite region_unfold in H.
    destruct (load buf (u32 ofs)) as [b| |] eqn:Hb; try discriminate.
    cbn [mbind outcome_bind] in H.
    destruct (region buf (ofs + 1) n) as [bs| |] eqn:Hbs; try discriminate.
    injection H as <-. destruct k as [|k].
    + injection Hk as <-. rewrite Z.add_0_r. exact Hb.
    + cbn in Hk. rewrite <- (IH _ _ Hbs k x Hk). f_equal. f_equal. lia.
Qed.

Lemma region_intro (buf : list Z) (s : list Z) : forall ofs,
  (forall k x, s !! k = Some x -> load buf (u32 (ofs + Z.of_nat k)) = Ret x) ->
  region buf ofs (length s) = Ret s.
Proof.
  induction s as [|b s IH]; intros ofs H; [reflexivity|].
  cbn [length]. rewrite region_unfold.
  pose proof (H 0%nat b eq_refl) as H0. cbn [Z.of_nat] in H0.
  rewrite Z.add_0_r in H0. rewrite H0.
  cbn [mbind outcome_bind]. rewrite IH; [reflexivity|].
  intros k x Hk. rewrite <- (H (S k) x Hk). f_equal. f_equal. lia.
Qed.

Lemma u8_char_to_u16 b : 0 <= b < 256 -> u8 (char_to_u16 b) = b.
Proof.
  intros H. unfold char_to_u16, u8, u16.
  destruct (Z.ltb_spec b 128).
  - apply Z.mod_small. lia.
  - replace ((b - 256) mod 65536) with (b + 65280).
    + replace (b + 65280) with (b + 255 * 256) by lia.
      rewrite Z.mod_add by lia. apply Z.mod_small. lia.
    + symmetry. replace (b - 256) with (b + 65280 + (-1) * 65536) by lia.
      rewrite Z.mod_add by lia. apply Z.mod_small. lia.
Qed.

Lemma sequence_walk_nonempty tbl fuel p s :
  sequence_walk fuel tbl p = Some s -> (0 < length s)%nat.
Proof.
  destruct fuel as [|fuel]; [discriminate|]. cbn [sequence_walk].
  destruct (tbl !! Z.to_nat p) as [e|]; [|discriminate].
  destruct (p <? DICT_SIZE_MIN).
  - intros [= <-]. cbn. lia.
  - destruct (sequence_walk fuel tbl (e_parent e)); [|discriminate].
    intros [= <-]. rewrite length_app. cbn. lia.
Qed.

(** What a call of [dictionary_update] with a code below [d_next] does, in
    a table whose codes below [d_next] can be resolved. *)
Lemma dictionary_update_resolvable (d : dictionary) (code : Z) :
  Z.of_nat (length (root d)) = d_size d ->
  Z.of_nat (length (bytebuf d)) = d_size d ->
  DICT_SIZE_MIN <= d_min d <= d_next d ->
  d_next d < d_size d -> d_size d <= DICT_SIZE_MAX ->
  0 <= code < d_next d ->
  resolvable_below (root d) (d_next d) ->
  exists (s buf1 : list Z) (b : Z) (d' : dictionary),
    recover (S (length (bytebuf d))) (root d) (bytebuf d) (d_size d - 1) code
      = Ret (buf1, d_size d - 1 - Z.of_nat (length s))
    /\ 1 <= Z.of_nat (length s) <= Z.max 1 (code - 258)
    /\ load buf1 (d_size d - Z.of_nat (length s)) = Ret b
    /\ 0 <= b < 256
    /\ dictionary_update d code = Ret d'
    /\ bytebuf d' =
         (if (d_min d <=? code) && (code =? d_next d - 1)
          then alter (fun _ => b) (Z.to_nat (d_size d - 1)) buf1 else buf1)
    /\ root d' =
         alter (set_parent code) (Z.to_nat (d_next d))
           (if d_min d <? d_next d
            then alter (set_label (char_to_u16 b)) (Z.to_nat (d_next d - 1))
                       (root d)
            else root d)
    /\ d_size d' = d_size d /\ d_thr d' = d_thr d /\ d_min d' = d_min d
    /\ d_next d' = d_next d + 1
    /\ n_bytes d' = Z.of_nat (length s)
    /\ offset d' = d_size d - Z.of_nat (length s)
    /\ exists s', region (bytebuf d') (offset d') (Z.to_nat (n_bytes d')) = Ret s'
         /\ sequence_of (root d') code = Some s'
         /\ length s' = length s /\ s' !! 0%nat = Some b.
Proof.
  intros Hroot Hbuf Hmin Hnext Hsize Hcode Hres.
  unfold DICT_SIZE_MIN, DICT_SIZE_MAX in *.
  destruct (recover_sequence (root d) (d_next d) (S (length (bytebuf d)))
              code (bytebuf d) (d_size d - 1) Hres)
    as (s & buf1 & Hs & Hls & Hrec & Hl1 & Hout & Hreg); try lia.
  assert (Hbytes := sequence_walk_bytes _ _ _ _ Hs).
  destruct (lookup_lt_is_Some_2 s 0%nat ltac:(lia)) as [b Hb0].
  assert (Hb : 0 <= b < 256) by exact (Forall_lookup_1 _ _ _ _ Hbytes Hb0).
  set (n := Z.of_nat (length s)) in *.
  assert (Hfirst : load buf1 (d_size d - n) = Ret b).
  { pose proof (region_lookup _ _ _ _ Hreg 0%nat b Hb0) as H.
    cbn [Z.of_nat] in H.
    rewrite Z.add_0_r, u32_small in H by lia.
    rewrite <- H. f_equal. lia. }
  exists s, buf1, b.
  unfold dictionary_update.
  rewrite (u32_small (d_size d - 1)) by lia. rewrite Hrec.
  cbn [mbind outcome_bind].
  rewrite (u32_small (d_next d - 1)) by lia.
  replace (u32 (d_size d - 1 - n + 1)) with (d_size d - n)
    by (rewrite u32_small by lia; lia).
  rewrite Hfirst. cbn [mbind outcome_bind].
  set (kw := (d_min d <=? code) && (code =? d_next d - 1)).
  set (buf2 := if kw then alter (fun _ => b) (Z.to_nat (d_size d - 1)) buf1
               else buf1).
  assert (Hbuf2 : (if kw then store buf1 (d_size d - 1) (fun _ => b)
                   else Ret buf1) = Ret buf2).
  { unfold buf2. destruct kw; [|reflexivity]. apply store_Ret. lia. }
  rewrite Hbuf2. cbn [mbind outcome_bind].
  assert (Hl2 : length buf2 = length buf1).
  { unfold buf2. destruct kw; [apply length_alter|reflexivity]. }
  assert (Hst2 : store buf1 (d_size d - 1) (fun _ => b)
                 = Ret (alter (fun _ => b) (Z.to_nat (d_size d - 1)) buf1))
    by (apply store_Ret; lia).
  assert (Hfirst2 : load buf2 (d_size d - n) = Ret b).
  { unfold buf2. destruct kw; [|exact Hfirst].
    destruct (Z.eq_dec (d_size d - 1) (d_size d - n)) as [E|E].
    - rewrite <- E. rewrite <- E in Hfirst.
      apply (load_store_eq _ _ _ _ _ Hst2 Hfirst).
    - rewrite (load_store_ne _ _ _ _ _ Hst2) by lia. exact Hfirst. }
  rewrite Hfirst2.
  set (tbl1 := if d_min d <? d_next d
               then alter (set_label (char_to_u16 b)) (Z.to_nat (d_next d - 1))
                          (root d)
               else root d).
  assert (Htbl1 : (if d_min d <? d_next d
                   then b0 ← Ret b;
                        store (root d) (d_next d - 1) (set_label (char_to_u16 b0))
                   else Ret (root d)) = Ret tbl1).
  { unfold tbl1. destruct (d_min d <? d_next d); [|reflexivity].
    cbn [mbind outcome_bind]. apply store_Ret. lia. }
  rewrite Htbl1. cbn [mbind outcome_bind].
  assert (Hlt1 : length tbl1 = length (root d)).
  { unfold tbl1. destruct (d_min d <? d_next d);
      [apply length_alter|reflexivity]. }
  rewrite store_Ret by lia. cbn [mbind outcome_bind].
  rewrite (u32_small (d_next d + 1)) by lia.
  replace (u32 (d_size d - 1 - (d_size d - 1 - n))) with n
    by (rewrite u32_small by lia; lia).
  replace (u32 (d_size d - 1 + 1 - n)) with (d_size d - n)
    by (rewrite u32_small by lia; lia).
  eexists. split; [reflexivity|]. split; [exact Hls|].
  split; [exact Hfirst|]. split; [exact Hb|]. split; [reflexivity|].
  cbn [bytebuf root d_size d_thr d_min d_next n_bytes offset].
  do 8 (split; [reflexivity|]).
  set (tbl2 := alter (set_parent code) (Z.to_nat (d_next d)) tbl1).
  assert (Hlook : forall q, 0 <= q < d_next d ->
            tbl2 !! Z.to_nat q
            = (if (d_min d <? d_next d) && (q =? d_next d - 1)
               then set_label (char_to_u16 b) <$> root d !! Z.to_nat q
               else root d !! Z.to_nat q)).
  { intros q Hq. unfold tbl2, tbl1.
    rewrite list_lookup_alter_ne by lia.
    destruct (d_min d <? d_next d); [|reflexivity]. cbn [andb].
    destruct (Z.eqb_spec q (d_next d - 1)) as [->|Hne].
    - apply list_lookup_alter_eq.
    - apply list_lookup_alter_ne. lia. }
  assert (Hres' : resolvable_below tbl2 (d_next d)).
  { intros q e Hq He. rewrite Hlook in He by (unfold DICT_SIZE_MIN in Hq; lia).
    destruct ((d_min d <? d_next d) && (q =? d_next d - 1)).
    - destruct (root d !! Z.to_nat q) as [e0|] eqn:He0; [|discriminate].
      injection He as <-. exact (Hres q e0 Hq He0).
    - exact (Hres q e Hq He). }
  assert (Hlen2 : length tbl2 = length (root d)).
  { unfold tbl2. rewrite length_alter. exact Hlt1. }
  unfold sequence_of.
  rewrite (sequence_walk_fuel tbl2 (d_next d) _ (S (length (bytebuf d))) code
             Hres') by lia.
  replace (Z.to_nat n) with (length s) by (unfold n; lia).
  destruct kw eqn:Hkw.
  - (* the code is the entry that is still being installed *)
    apply andb_true_iff in Hkw. destruct Hkw as [Hge Heq].
    apply Z.leb_le in Hge. apply Z.eqb_eq in Heq.
    cbn [sequence_walk] in Hs |- *.
    rewrite Hlook by lia.
    destruct (root d !! Z.to_nat code) as [e|] eqn:He; [|discriminate].
    destruct (Z.ltb_spec (d_min d) (d_next d)); [|lia].
    destruct (Z.eqb_spec code (d_next d - 1)); [|lia]. cbn [andb fmap option_fmap option_map].
    destruct (Z.ltb_spec code DICT_SIZE_MIN); [unfold DICT_SIZE_MIN in *; lia|].
    pose proof (Hres code e ltac:(unfold DICT_SIZE_MIN; lia) He) as Hpar.
    destruct (sequence_walk (length (bytebuf d)) (root d) (e_parent e))
      as [s0|] eqn:Hs0; [|discriminate].
    injection Hs as Hs.
    cbn [e_parent e_label set_label].
    rewrite (sequence_walk_ext (root d) tbl2 (d_next d)); try assumption; try lia.
    2:{ intros q Hq. rewrite Hlook by lia.
        destruct (Z.eqb_spec q (d_next d - 1)); [lia|].
        rewrite andb_false_r. reflexivity. }
    rewrite Hs0. rewrite u8_char_to_u16 by assumption.
    exists (s0 ++ [b]).
    assert (Hn0 : (0 < length s0)%nat)
      by exact (sequence_walk_nonempty _ _ _ _ Hs0).
    assert (Hlen_s : length s = S (length s0)).
    { rewrite <- Hs, length_app. cbn. lia. }
    split; [|split; [reflexivity|split]].
    + rewrite Hlen_s.
      replace (S (length s0)) with (length (s0 ++ [b]))
        by (rewrite length_app; cbn; lia).
      apply region_intro. intros k x Hk.
      assert (Hkn : (k < S (length s0))%nat).
      { apply lookup_lt_Some in Hk. rewrite length_app in Hk. cbn in Hk. lia. }
      rewrite u32_small by lia.
      destruct (decide (k < length s0)%nat) as [Hlt|Hge'].
      * rewrite lookup_app_l in Hk by assumption.
        unfold buf2. rewrite (load_store_ne _ _ _ _ _ Hst2) by lia.
        pose proof (region_lookup _ _ _ _ Hreg k x) as Hrk.
        rewrite <- Hs, lookup_app_l in Hrk by assumption.
        specialize (Hrk Hk). rewrite u32_small in Hrk by lia.
        rewrite <- Hrk. f_equal. lia.
      * assert (k = length s0) by lia. subst k.
        rewrite lookup_app_r, Nat.sub_diag in Hk by lia.
        injection Hk as <-.
        replace (d_size d - n + Z.of_nat (length s0)) with (d_size d - 1)
          by lia.
        unfold buf2.
        destruct (load_lt buf1 (d_size d - 1) ltac:(lia)) as [y Hy].
        apply (load_store_eq _ _ _ _ _ Hst2 Hy).
    + rewrite length_app. cbn [length]. lia.
    + rewrite lookup_app_l by assumption.
      rewrite <- Hs, lookup_app_l in Hb0 by assumption. exact Hb0.
  - (* any other code: the table below the code is as before *)
    exists s. unfold buf2.
    split; [rewrite <- Hreg; f_equal; lia|].
    split; [|split; [reflexivity|exact Hb0]].
    rewrite (sequence_walk_ext (root d) tbl2 (d_next d)); try assumption.
    intros q Hq. rewrite Hlook by lia.
    destruct (Z.ltb_spec (d_min d) (d_next d)); [|reflexivity].
    destruct (Z.eqb_spec q (d_next d - 1)); [|reflexivity].
    exfalso. apply andb_false_iff in Hkw. destruct Hkw as [Hk|Hk].
    + apply Z.leb_gt in Hk. lia.
    + apply Z.eqb_neq in Hk. lia.
Qed.

(** With [d_next = d_size] the entry to install lies outside the table:
    the store of line 298 goes to [root[d_size]]. *)
Lemma dictionary_update_full (d : dictionary) (code : Z) :
  Z.of_nat (length (root d)) = d_size d ->
  Z.of_nat (length (bytebuf d)) = d_size d ->
  DICT_SIZE_MIN <= d_min d <= d_next d ->
  d_next d = d_size d -> d_size d <= DICT_SIZE_MAX ->
  0 <= code < d_next d ->
  resolvable_below (root d) (d_next d) ->
  dictionary_update d code = Fault.
Proof.
  intros Hroot Hbuf Hmin Hnext Hsize Hcode Hres.
  unfold DICT_SIZE_MIN, DICT_SIZE_MAX in *.
  destruct (recover_sequence (root d) (d_next d) (S (length (bytebuf d)))
              code (bytebuf d) (d_size d - 1) Hres)
    as (s & buf1 & Hs & Hls & Hrec & Hl1 & Hout & Hreg); try lia.
  destruct (lookup_lt_is_Some_2 s 0%nat ltac:(lia)) as [b Hb0].
  set (n := Z.of_nat (length s)) in *.
  assert (Hfirst : load buf1 (d_size d - n) = Ret b).
  { pose proof (region_lookup _ _ _ _ Hreg 0%nat b Hb0) as H.
    cbn [Z.of_nat] in H.
    rewrite Z.add_0_r, u32_small in H by lia.
    rewrite <- H. f_equal. lia. }
  unfold dictionary_update.
  rewrite (u32_small (d_size d - 1)) by lia. rewrite Hrec.
  cbn [mbind outcome_bind].
  rewrite (u32_small (d_next d - 1)) by lia.
  replace (u32 (d_size d - 1 - n + 1)) with (d_size d - n)
    by (rewrite u32_small by lia; lia).
  rewrite Hfirst. cbn [mbind outcome_bind].
  set (kw := (d_min d <=? code) && (code =? d_next d - 1)).
  set (buf2 := if kw then alter (fun _ => b) (Z.to_nat (d_size d - 1)) buf1
               else buf1).
  assert (Hbuf2 : (if kw then store buf1 (d_size d - 1) (fun _ => b)
                   else Ret buf1) = Ret buf2).
  { unfold buf2. destruct kw; [|reflexivity]. apply store_Ret. lia. }
  rewrite Hbuf2. cbn [mbind outcome_bind].
  assert (Hst2 : store buf1 (d_size d - 1) (fun _ => b)
                 = Ret (alter (fun _ => b) (Z.to_nat (d_size d - 1)) buf1))
    by (apply store_Ret; lia).
  assert (Hfirst2 : load buf2 (d_size d - n) = Ret b).
  { unfold buf2. destruct kw; [|exact Hfirst].
    destruct (Z.eq_dec (d_size d - 1) (d_size d - n)) as [E|E].
    - rewrite <- E. rewrite <- E in Hfirst.
      apply (load_store_eq _ _ _ _ _ Hst2 Hfirst).
    - rewrite (load_store_ne _ _ _ _ _ Hst2) by lia. exact Hfirst. }
  rewrite Hfirst2.
  set (tbl1 := if d_min d <? d_next d
               then alter (set_label (char_to_u16 b)) (Z.to_nat (d_next d - 1))
                          (root d)
               else root d).
  assert (Htbl1 : (if d_min d <? d_next d
                   then b0 ← Ret b;
                        store (root d) (d_next d - 1) (set_label (char_to_u16 b0))
                   else Ret (root d)) = Ret tbl1).
  { unfold tbl1. destruct (d_min d <? d_next d); [|reflexivity].
    cbn [mbind outcome_bind]. apply store_Ret. lia. }
  rewrite Htbl1. cbn [mbind outcome_bind].
  assert (Hlt1 : length tbl1 = length (root d)).
  { unfold tbl1. destruct (d_min d <? d_next d);
      [apply length_alter|reflexivity]. }
  unfold store. destruct (decide _) as [Hin|_]; [lia|]. reflexivity.
Qed.

(** C6, as written, fails twice.  In a fresh dictionary of size 261
    the code 97 leaves [i = 259] and one byte, while [d_size - i] is 2.
    After the codes 97, 98 with size 262 the dictionaries have been swapped
    and [d_min = d_next = 261]: the code 260 is [d_next - 1] and denotes
    the finished entry (97, 98); nothing is duplicated, the high end of the
    buffer holds 98 and the first byte is 97. *)
Lemma dictionary_update_as_written_fails :
  (exists buf d',
     recover 262 (root (dictionary_new (zeroed true true) 261)) (bytebuf (dictionary_new (zeroed true true) 261))
             260 97 = Ret (buf, 259)
     /\ dictionary_update (dictionary_new (zeroed true true) 261) 97 = Ret d'
     /\ n_bytes d' = 1
     /\ n_bytes d' <> d_size (dictionary_new (zeroed true true) 261) - 259)
  /\ (exists d buf d',
        main_after 262 [97; 98] = Ret d
        /\ d_min d = 261 /\ d_next d = 261 /\ d_size d = 262
        /\ sequence_of (root d) 260 = Some [97; 98]
        /\ recover 263 (root d) (bytebuf d) 261 260 = Ret (buf, 259)
        /\ dictionary_update d 260 = Ret d'
        /\ load (bytebuf d') 261 = Ret 98
        /\ load buf 260 = Ret 97).
Proof.
  split.
  - eexists. eexists. split; [vm_compute; reflexivity|].
    split; [vm_compute; reflexivity|].
    split; [reflexivity|]. cbn. discriminate.
  - eexists. eexists. eexists. split; [vm_compute; reflexivity|].
    split; [reflexivity|]. split; [reflexivity|]. split; [reflexivity|].
    split; [vm_compute; reflexivity|].
    split; [vm_compute; reflexivity|].
    split; [vm_compute; reflexivity|].
    split; vm_compute; reflexivity.
Qed.

(** C6, as amended: [dictionary_update] on a dictionary whose table and
    [bytebuf] have [d_size] entries, with
    [DICT_SIZE_MIN <= d_min <= d_next <= d_size <= DICT_SIZE_MAX], for a
    code below [d_next] where the codes below [d_next] resolve.  While
    [d_next < d_size] the call succeeds; with [i] the index at which the
    recovery loop stops: the first byte [bytebuf[i+1]] is copied to
    [bytebuf[d_size-1]] exactly when [code >= d_min] and
    [code = d_next - 1] (otherwise the recovered buffer is kept); when
    [d_next > d_min] entry [d_next - 1] receives the label [bytebuf[i+1]];
    afterwards [n_bytes = d_size - 1 - i] and [offset = d_size - n_bytes],
    and [bytebuf[offset .. offset + n_bytes)] is the sequence the code
    denotes in the updated table.  With [d_next = d_size] the call stores
    [root[d_size]], outside the table. *)
Theorem dictionary_update_publishes (d : dictionary) (code : Z) :
  Z.of_nat (length (root d)) = d_size d ->
  Z.of_nat (length (bytebuf d)) = d_size d ->
  DICT_SIZE_MIN <= d_min d <= d_next d ->
  d_next d <= d_size d -> d_size d <= DICT_SIZE_MAX ->
  0 <= code < d_next d ->
  resolvable_below (root d) (d_next d) ->
  (d_next d < d_size d ->
   exists buf i d',
     recover (S (length (bytebuf d))) (root d) (bytebuf d) (d_size d - 1) code
       = Ret (buf, i)
     /\ dictionary_update d code = Ret d'
     /\ (d_min d <= code /\ code = d_next d - 1 ->
           load (bytebuf d') (d_size d - 1) = load buf (i + 1))
     /\ (~ (d_min d <= code /\ code = d_next d - 1) -> bytebuf d' = buf)
     /\ (d_min d < d_next d ->
           exists b, load buf (i + 1) = Ret b
             /\ e_label <$> root d' !! Z.to_nat (d_next d - 1)
                = Some (char_to_u16 b))
     /\ n_bytes d' = d_size d - 1 - i
     /\ offset d' = d_size d - n_bytes d'
     /\ exists s,
          region (bytebuf d') (offset d') (Z.to_nat (n_bytes d')) = Ret s
          /\ sequence_of (root d') code = Some s)
  /\ (d_next d = d_size d -> dictionary_update d code = Fault).
Proof.
  intros Hroot Hbuf Hmin Hle Hsize Hcode Hres.
  split;
    [|intros Hfull;
      exact (dictionary_update_full d code Hroot Hbuf Hmin Hfull Hsize Hcode
               Hres)].
  intros Hnext.
  destruct (dictionary_update_resolvable d code Hroot Hbuf Hmin Hnext Hsize
              Hcode Hres)
    as (s & buf1 & b & d' & Hrec & Hls & Hfirst & Hb & Hupd & Hbb & Hrt
        & _ & _ & _ & _ & Hn & Hofs & s' & Hreg & Hseq & _ & _).
  unfold DICT_SIZE_MIN, DICT_SIZE_MAX in *.
  assert (Hl1 : length buf1 = length (bytebuf d)).
  { destruct (recover_sequence (root d) (d_next d) (S (length (bytebuf d)))
                code (bytebuf d) (d_size d - 1) Hres)
      as (s1 & buf1' & _ & _ & Hrec' & Hl & _); try lia.
    rewrite Hrec in Hrec'. injection Hrec' as <- _. exact Hl. }
  exists buf1, (d_size d - 1 - Z.of_nat (length s)), d'.
  replace (d_size d - 1 - Z.of_nat (length s) + 1)
    with (d_size d - Z.of_nat (length s)) by lia.
  split; [exact Hrec|]. split; [exact Hupd|]. split; [|split; [|split]].
  - intros [Hge Heq]. rewrite Hbb, Hfirst.
    destruct (Z.leb_spec (d_min d) code); [|lia].
    destruct (Z.eqb_spec code (d_next d - 1)); [|lia]. cbn [andb].
    destruct (load_lt buf1 (d_size d - 1) ltac:(lia)) as [y Hy].
    apply (load_store_eq buf1 _ (d_size d - 1) (fun _ => b) y);
      [apply store_Ret; lia|exact Hy].
  - intros Hnot. rewrite Hbb.
    destruct (Z.leb_spec (d_min d) code); [|reflexivity].
    destruct (Z.eqb_spec code (d_next d - 1)); [|reflexivity]. tauto.
  - intros Hlt. exists b. split; [exact Hfirst|]. rewrite Hrt.
    rewrite list_lookup_alter_ne by lia.
    destruct (Z.ltb_spec (d_min d) (d_next d)); [|lia].
    rewrite list_lookup_alter_eq.
    destruct (lookup_lt_is_Some_2 (root d) (Z.to_nat (d_next d - 1))
                ltac:(lia)) as [e0 ->].
    reflexivity.
  - split; [lia|]. split; [lia|]. exists s'. auto.
Qed.

Lemma dictionary_update_publishes_witness :
  (exists buf i d',
     recover (S (length (bytebuf dictionary_97_98))) (root dictionary_97_98)
             (bytebuf dictionary_97_98) (d_size dictionary_97_98 - 1) 260
       = Ret (buf, i)
     /\ dictionary_update dictionary_97_98 260 = Ret d'
     /\ (d_min dictionary_97_98 <= 260 /\ 260 = d_next dictionary_97_98 - 1 ->
           load (bytebuf d') (d_size dictionary_97_98 - 1) = load buf (i + 1))
     /\ (~ (d_min dictionary_97_98 <= 260 /\ 260 = d_next dictionary_97_98 - 1)
         -> bytebuf d' = buf)
     /\ (d_min dictionary_97_98 < d_next dictionary_97_98 ->
           exists b, load buf (i + 1) = Ret b
             /\ e_label <$> root d' !! Z.to_nat (d_next dictionary_97_98 - 1)
                = Some (char_to_u16 b))
     /\ n_bytes d' = d_size dictionary_97_98 - 1 - i
     /\ offset d' = d_size dictionary_97_98 - n_bytes d'
     /\ exists s,
          region (bytebuf d') (offset d') (Z.to_nat (n_bytes d')) = Ret s
          /\ sequence_of (root d') 260 = Some s)
  /\ dictionary_update dictionary_full 0 = Fault.
Proof.
  split.
  - apply (dictionary_update_publishes dictionary_97_98 260).
    + reflexivity.
    + reflexivity.
    + vm_compute. split; discriminate.
    + vm_compute. discriminate.
    + vm_compute. discriminate.
    + vm_compute. split; [discriminate|reflexivity].
    + intros q e Hq He.
      assert (Hcases : q = 260 \/ q = 261)
        by (unfold DICT_SIZE_MIN in Hq;
            change (d_next dictionary_97_98) with 262 in Hq; lia).
      destruct Hcases as [-> | ->]; vm_compute in He; injection He as <-;
        vm_compute; split; (discriminate || reflexivity).
    + reflexivity.
  - apply (dictionary_update_publishes dictionary_full 0).
    + reflexivity.
    + reflexivity.
    + vm_compute. split; discriminate.
    + vm_compute. discriminate.
    + vm_compute. discriminate.
    + vm_compute. split; [discriminate|reflexivity].
    + intros q e Hq He.
      assert (Hcases : q = 260 \/ q = 261 \/ q = 262)
        by (unfold DICT_SIZE_MIN in Hq;
            change (d_next dictionary_full) with 263 in Hq; lia).
      destruct Hcases as [-> | [-> | ->]]; vm_compute in He;
        injection He as <-;
        vm_compute; split; (discriminate || reflexivity).
    + reflexivity.
Defined.

(** ** The errors of [decompress_code] *)

Lemma region_not_Diverge (buf : list Z) (n : nat) : forall ofs,
  region buf ofs n <> Diverge.
Proof.
  induction n as [|n IH]; intros ofs; [discriminate|].
  cbn [region]. unfold load.
  destruct (buf !! Z.to_nat (u32 ofs)); [|discriminate].
  cbn [mbind outcome_bind]. specialize (IH (ofs + 1)).
  destruct (region buf (ofs + 1) n); [discriminate|discriminate|congruence].
Qed.

Lemma decompress_data_ret o code r o' :
  decompress_data o code = Ret (r, o') ->
  (r = 0 /\ d_secondary o <> Null /\ exists m, d_main o = Some m)
  \/ (r = -2 /\ o' = o /\ (d_secondary o = Null \/ d_main o = None)).
Proof.
  unfold decompress_data.
  destruct (d_secondary o) as [| |s]; [|destruct (d_main o) as [m|]..].
  - intros [= <- <-]. right. auto.
  - intros H. left.
    destruct (dictionary_update m code) as [m1| |]; try discriminate.
    cbn [mbind outcome_bind] in H.
    destruct (if d_thr m1 <? d_next m1 then _ else _) as [[]| |];
      try discriminate.
    cbn [mbind outcome_bind] in H.
    destruct (d_next m1 =? d_size m1); [discriminate|].
    injection H as <- _. split; [reflexivity|]. split; [discriminate|eauto].
  - intros [= <- <-]. right. auto.
  - intros H. left.
    destruct (dictionary_update m code) as [m1| |]; try discriminate.
    cbn [mbind outcome_bind] in H.
    destruct (if d_thr m1 <? d_next m1 then _ else _) as [s1| |];
      try discriminate.
    cbn [mbind outcome_bind] in H.
    destruct (if d_next m1 =? d_size m1 then _ else _) as [[m2 s2]| |];
      try discriminate.
    cbn [mbind outcome_bind] in H. injection H as <- _.
    split; [reflexivity|]. split; [discriminate|eauto].
  - intros [= <- <-]. right. auto.
Qed.

(** C3, as written: a code that is not below [d_next] is not detected.
    On a heap of zeroed blocks, with size 262: the code 260, which is not
    below [d_next = 260] and is not the entry being installed, is decoded
    from the entry that the first epoch left in the table, and the run
    ends with [LZ78_SUCCESS]; the code 500 is looked up outside the table
    of 262 entries. *)
Lemma unresolved_code_is_decoded :
  (exists o m o',
     submit (sized 262) [97; 98; 120] = Ret o
     /\ d_main o = Some m /\ d_min m = 260 /\ d_next m = 260
     /\ decompress_code (zeroed true true) o 260 = Ret (0, o'))
  /\ lz78_decompress (zeroed true true)
       (stream_bits [(258, 9); (262, 21); (97, 9); (98, 9); (120, 9);
                     (260, 9); (256, 9)])
     = ([97; 98; 120; 97; 98], Some (Ret LZ78_SUCCESS))
  /\ lz78_decompress (zeroed true true)
       (stream_bits [(258, 9); (262, 21); (500, 9); (256, 9)])
     = ([], Some Fault).
Proof.
  split.
  - eexists. eexists. eexists. split; [vm_compute; reflexivity|].
    split; [reflexivity|]. split; [reflexivity|]. split; [reflexivity|].
    vm_compute. reflexivity.
  - split; vm_compute; reflexivity.
Qed.

(** The first code of a stream is a data code below 512: the dictionary
    of [lz78_new] has 261 entries and a [bytebuf] of 260 bytes, so the
    update stores its first byte outside [bytebuf], unless the code is
    outside the table already. *)
Lemma dictionary_update_new (a : allocator) (code : Z) :
  0 <= code < 512 ->
  dictionary_update (dictionary_new a DICT_SIZE_MIN) code = Fault.
Proof.
  intros Hc.
  assert (Hst : forall f : Z -> Z,
            store (bytebuf (dictionary_new a DICT_SIZE_MIN)) 260 f = Fault).
  { intros f. unfold store. destruct (decide _) as [Hlt|_]; [|reflexivity].
    cbn [dictionary_new bytebuf] in Hlt.
    rewrite length_map, length_seq in Hlt.
    change (Z.to_nat DICT_SIZE_MIN) with 260%nat in Hlt. lia. }
  unfold dictionary_update.
  change (u32 (d_size (dictionary_new a DICT_SIZE_MIN) - 1)) with 260.
  cbn [recover]. unfold load.
  destruct (_ !! Z.to_nat code) as [e|]; [|reflexivity].
  cbn [mbind outcome_bind]. rewrite Hst. reflexivity.
Qed.

(** C3, as amended: [decompress_code] answers -2, which [lz78_decompress]
    turns into [LZ78_ERROR_DECOMPRESS], exactly for a data code (not the
    end marker, not a bootstrap marker, not the size that is awaited) that
    arrives while the [secondary] pointer is [NULL]; with an allocated
    secondary no code gives it, whether below [d_next] or not.
    [lz78_new] does not set the pointer.  So for a stream that starts
    with a data code: where the heap held [NULL] in the pointer and 0 in
    [n_bytes] the run ends with [LZ78_ERROR_DECOMPRESS] and nothing
    written; where it held another pointer the violation goes unnoticed
    and the run leaves the defined behaviour. *)
Theorem decompress_error_is_bootstrap (a : allocator) (o : lz78_d) (code : Z) :
  ((exists o', decompress_code a o code = Ret (-2, o'))
   <-> (code <> DICT_CODE_EOF /\ code <> DICT_CODE_START
        /\ code <> DICT_CODE_SIZE
        /\ exists m, d_main o = Some m /\ d_next m <> DICT_SIZE_MAX
                     /\ d_secondary o = Null))
  /\ lz78_error (-2) = Some LZ78_ERROR_DECOMPRESS
  /\ forall rest : list bool,
       0 <= code < 512 -> code <> DICT_CODE_EOF ->
       code <> DICT_CODE_START -> code <> DICT_CODE_SIZE ->
       (clean a ->
        lz78_decompress a (bits_of code 9 ++ rest)
        = ([], Some (Ret LZ78_ERROR_DECOMPRESS)))
       /\ (stale_secondary a = true ->
           snd (lz78_decompress a (bits_of code 9 ++ rest)) = Some Fault).
Proof.
  split; [|split; [reflexivity|]].
  - unfold decompress_code. split.
    + intros [o' H].
      destruct (Z.eqb_spec code DICT_CODE_EOF); [discriminate|].
      destruct (d_main o) as [m|] eqn:Hm; [|discriminate].
      destruct (Z.eqb_spec code DICT_CODE_START); [discriminate|].
      destruct (Z.eqb_spec code DICT_CODE_SIZE); [discriminate|].
      cbn [orb] in H.
      destruct (Z.eqb_spec (d_next m) DICT_SIZE_MAX).
      * destruct (dictionary_ok a); cbn [negb] in H; [|discriminate].
        destruct (d_secondary o); [|discriminate|];
          destruct (ht_dictionary_ok a); discriminate.
      * apply decompress_data_ret in H.
        destruct H as [[H _]|(_ & _ & [H|H])]; [discriminate| |congruence].
        repeat (split; [assumption|]). exists m. auto.
    + intros (H1 & H2 & H3 & m & Hm & Hn & Hs).
      destruct (Z.eqb_spec code DICT_CODE_EOF); [contradiction|].
      rewrite Hm.
      destruct (Z.eqb_spec code DICT_CODE_START); [contradiction|].
      destruct (Z.eqb_spec code DICT_CODE_SIZE); [contradiction|].
      destruct (Z.eqb_spec (d_next m) DICT_SIZE_MAX); [contradiction|].
      cbn [orb]. unfold decompress_data. rewrite Hs. eauto.
  - intros rest Hc H1 H2 H3.
    assert (Hround : forall out,
      region (bytebuf (dictionary_new a DICT_SIZE_MIN))
             (offset (dictionary_new a DICT_SIZE_MIN))
             (Z.to_nat (n_bytes (dictionary_new a DICT_SIZE_MIN))) = Ret out ->
      lz78_decompress a (bits_of code 9 ++ rest)
      = match decompress_data
                {| d_completed := 0;
                   d_main := Some (dictionary_new a DICT_SIZE_MIN);
                   d_secondary := d_secondary (lz78_new_d a);
                   d_bitbuf := code; d_n_bits := 9 |} code with
        | Ret (ret, o') =>
            match lz78_error ret with
            | Some err => (out, Some (Ret err))
            | None =>
                if d_completed o' =? 1 then (out, Some (Ret LZ78_SUCCESS))
                else
                  let '(out', r) :=
                    lz78_decompress_loop (length (bits_of code 9 ++ rest)) a
                      o' (drop 9 (bits_of code 9 ++ rest)) in
                  (out ++ out', r)
            end
        | Fault => (out, Some Fault)
        | Diverge => (out, Some Diverge)
        end).
    { intros out Hout. unfold lz78_decompress.
      cbn [lz78_decompress_loop lz78_new_d d_main].
      rewrite Hout.
      change (bitlen (d_next (dictionary_new a DICT_SIZE_MIN))) with 9.
      rewrite take_app_length' by (rewrite length_bits_of; reflexivity).
      rewrite bits_value_bits_of by lia.
      destruct (decide _) as [Hlt|_].
      { rewrite length_app, length_bits_of in Hlt. lia. }
      unfold decompress_code. cbn [d_main d_secondary d_completed].
      destruct (Z.eqb_spec code DICT_CODE_EOF); [contradiction|].
      destruct (Z.eqb_spec code DICT_CODE_START); [contradiction|].
      destruct (Z.eqb_spec code DICT_CODE_SIZE); [contradiction|].
      cbn [orb].
      change (d_next (dictionary_new a DICT_SIZE_MIN) =? DICT_SIZE_MAX)
        with false. cbn iota. reflexivity. }
    split.
    + intros [Hn Hs].
      rewrite (Hround []).
      * unfold decompress_data. cbn [lz78_new_d d_secondary]. rewrite Hs.
        reflexivity.
      * cbn [dictionary_new n_bytes]. rewrite Hn. reflexivity.
    + intros Hs.
      destruct (region (bytebuf (dictionary_new a DICT_SIZE_MIN))
                  (offset (dictionary_new a DICT_SIZE_MIN))
                  (Z.to_nat (n_bytes (dictionary_new a DICT_SIZE_MIN))))
        as [out| |] eqn:Hout.
      * rewrite (Hround out eq_refl).
        unfold decompress_data. cbn [lz78_new_d d_secondary d_main].
        rewrite Hs, dictionary_update_new by exact Hc. reflexivity.
      * unfold lz78_decompress.
        cbn [lz78_decompress_loop lz78_new_d d_main]. rewrite Hout.
        reflexivity.
      * exfalso. exact (region_not_Diverge _ _ _ Hout).
Qed.

Lemma decompress_error_is_bootstrap_witness :
  lz78_decompress (zeroed true true) (bits_of 97 9 ++ [true; false])
  = ([], Some (Ret LZ78_ERROR_DECOMPRESS)).
Proof.
  apply (proj1 (proj2 (proj2 (decompress_error_is_bootstrap
                                (zeroed true true)
                                (lz78_new_d (zeroed true true)) 97))
                  [true; false] ltac:(lia) ltac:(discriminate)
                  ltac:(discriminate) ltac:(discriminate))).
  split; reflexivity.
Defined.

(** With the start marker read, the size 4096 arrives and the table cannot
    be allocated: the call answers -1, which is [LZ78_ERROR_DICTIONARY],
    and the main dictionary that was there is gone. *)
Lemma dictionary_error_destroys_main :
  let a := zeroed false true in
  let o := {| d_completed := 0;
              d_main := Some (set_d_next (dictionary_new a DICT_SIZE_MIN)
                                         DICT_SIZE_MAX);
              d_secondary := Null; d_bitbuf := 0; d_n_bits := 0 |} in
  decompress_code (zeroed true true) (lz78_new_d (zeroed true true))
    DICT_CODE_START
    = Ret (0, o)
  /\ exists o', decompress_code a o 4096 = Ret (-1, o')
       /\ lz78_error (-1) = Some LZ78_ERROR_DICTIONARY
       /\ d_main o' = None /\ d_main o' <> d_main o.
Proof.
  cbn zeta. split; [reflexivity|].
  eexists. split; [reflexivity|]. split; [reflexivity|].
  split; [reflexivity|]. discriminate.
Qed.

(** C4, as amended: an error answer of [decompress_code] is either -2
    (Decompress), and then the state with both dictionaries is exactly the
    one before the call, or -1 (Dictionary), which only the size ingestion
    gives, after it has destroyed the main dictionary: then [main] is null,
    and [secondary] too when it was its allocation that failed. *)
Theorem decompress_code_errors (a : allocator) (o o' : lz78_d) (code r : Z) :
  decompress_code a o code = Ret (r, o') ->
  r <> 0 ->
  (r = -2 /\ o' = o)
  \/ (r = -1 /\ d_main o' = None
      /\ (exists m, d_main o = Some m /\ d_next m = DICT_SIZE_MAX)
      /\ ((dictionary_ok a = false /\ d_secondary o' = d_secondary o)
          \/ (ht_dictionary_ok a = false /\ d_secondary o' = Null))).
Proof.
  unfold decompress_code. intros H Hr.
  destruct (Z.eqb_spec code DICT_CODE_EOF).
  { injection H as <- _. contradiction. }
  destruct (d_main o) as [m|] eqn:Hm; [|discriminate].
  destruct ((code =? DICT_CODE_START) || (code =? DICT_CODE_SIZE)).
  { injection H as <- _. contradiction. }
  destruct (Z.eqb_spec (d_next m) DICT_SIZE_MAX) as [Hmax|Hmax].
  - destruct (dictionary_ok a) eqn:Ha; cbn [negb] in H.
    + assert (H' : (if negb (ht_dictionary_ok a)
                    then Ret (-1, {| d_completed := d_completed o;
                                     d_main := None; d_secondary := Null;
                                     d_bitbuf := d_bitbuf o;
                                     d_n_bits := d_n_bits o |})
                    else Ret (0, {| d_completed := d_completed o;
                                    d_main := Some (dictionary_new a code);
                                    d_secondary :=
                                      Valid (ht_dictionary_new code);
                                    d_bitbuf := 0; d_n_bits := 0 |}))
                   = Ret (r, o'))
        by (destruct (d_secondary o); [exact H|discriminate|exact H]).
      clear H. destruct (ht_dictionary_ok a) eqn:Hb; cbn [negb] in H'.
      * injection H' as <- _. contradiction.
      * injection H' as <- <-. right. cbn. eauto 10.
    + injection H as <- <-. right. cbn. eauto 10.
  - apply decompress_data_ret in H.
    destruct H as [[-> _]|(-> & -> & _)]; [contradiction|].
    left. auto.
Qed.

Lemma decompress_code_errors_witness :
  (-2 = -2 /\ lz78_new_d (zeroed true true) = lz78_new_d (zeroed true true))
  \/ (-2 = -1 /\ d_main (lz78_new_d (zeroed true true)) = None
      /\ (exists m, d_main (lz78_new_d (zeroed true true)) = Some m
                    /\ d_next m = DICT_SIZE_MAX)
      /\ ((dictionary_ok (zeroed true true) = false
           /\ d_secondary (lz78_new_d (zeroed true true))
              = d_secondary (lz78_new_d (zeroed true true)))
          \/ (ht_dictionary_ok (zeroed true true) = false
              /\ d_secondary (lz78_new_d (zeroed true true)) = Null))).
Proof.
  apply (decompress_code_errors (zeroed true true)
           (lz78_new_d (zeroed true true))
           (lz78_new_d (zeroed true true)) 97 (-2)).
  - reflexivity.
  - discriminate.
Defined.

(** ** The rotation of the decompressor *)

Lemma length_fold_copied es : forall tbl,
  length (fold_left copied es tbl) = length tbl.
Proof.
  induction es as [|e es IH]; intros tbl; [reflexivity|].
  cbn [fold_left]. rewrite IH. apply length_alter.
Qed.


Lemma fold_copied_other es : forall tbl (i : nat),
  (forall e, In e es -> Z.to_nat (child e) <> i) ->
  fold_left copied es tbl !! i = tbl !! i.
Proof.
  induction es as [|x es IH]; intros tbl i H; [reflexivity|].
  cbn [fold_left]. rewrite IH by (intros e He; apply H; right; exact He).
  unfold copied. apply list_lookup_alter_ne. apply H. left. reflexivity.
Qed.

Lemma fold_copied_lookup es : forall tbl e,
  List.NoDup (map child es) ->
  (forall x, In x es -> 0 <= child x) ->
  In e es -> (Z.to_nat (child e) < length tbl)%nat ->
  fold_left copied es tbl !! Z.to_nat (child e)
  = Some (mk_entry (parent e) (label e)).
Proof.
  induction es as [|x es IH]; intros tbl e Hnd Hpos Hin Hlt; [destruct Hin|].
  cbn [fold_left]. cbn [map] in Hnd. apply NoDup_cons_iff in Hnd.
  destruct Hnd as [Hnot Hnd].
  destruct (in_dec Z.eq_dec (child e) (map child es)) as [Hc|Hc].
  - (* a later slot holds the same code: it is this very one *)
    destruct Hin as [->|Hin]; [contradiction|].
    apply IH; try assumption.
    + intros y Hy. apply Hpos. right. exact Hy.
    + unfold copied. rewrite length_alter. exact Hlt.
  - destruct Hin as [->|Hin].
    + rewrite fold_copied_other.
      * unfold copied. rewrite list_lookup_alter_eq.
        destruct (lookup_lt_is_Some_2 tbl _ Hlt) as [y ->]. reflexivity.
      * intros y Hy Heq. apply Hc. apply in_map_iff. exists y.
        split; [|exact Hy].
        pose proof (Hpos y (or_intror Hy)). pose proof (Hpos e (or_introl eq_refl)).
        lia.
    + exfalso. apply Hc. apply in_map. exact Hin.
Qed.






(** ** The table of the compressor *)

Lemma probe_Found fuel tbl size cur lbl : forall hash c,
  probe fuel tbl size cur lbl hash = Ret (Found c) ->
  exists e, In e tbl /\ used e = true /\ parent e = cur /\ label e = lbl
            /\ child e = c.
Proof.
  induction fuel as [|fuel IH]; intros hash c H; [discriminate|].
  cbn [probe] in H.
  destruct (tbl !! Z.to_nat hash) as [e|] eqn:He; [|discriminate].
  destruct (used e) eqn:Hu.
  - destruct (Z.eqb_spec (parent e) cur) as [Hp|];
      [destruct (Z.eqb_spec (label e) lbl) as [Hl|]|]; cbn [andb] in H.
    + injection H as <-. exists e. split; [|auto].
      apply list_elem_of_In. eapply list_elem_of_lookup_2. exact He.
    + eauto.
    + eauto.
  - discriminate.
Qed.

Lemma probe_Free fuel tbl size cur lbl : forall hash h,
  probe fuel tbl size cur lbl hash = Ret (Free h) ->
  exists e, tbl !! Z.to_nat h = Some e /\ used e = false.
Proof.
  induction fuel as [|fuel IH]; intros hash h H; [discriminate|].
  cbn [probe] in H.
  destruct (tbl !! Z.to_nat hash) as [e|] eqn:He; [|discriminate].
  destruct (used e) eqn:Hu.
  - destruct ((parent e =? cur) && (label e =? lbl)); [discriminate|eauto].
  - injection H as <-. eauto.
Qed.

Lemma filter_used_insert (tbl : list ht_entry) (i : nat) e0 e :
  tbl !! i = Some e0 -> used e0 = false -> used e = true ->
  length (List.filter used (<[i := e]> tbl))
  = S (length (List.filter used tbl)).
Proof.
  revert i. induction tbl as [|x tbl IH]; intros i Hi H0 H1; [discriminate|].
  destruct i as [|i]; cbn in Hi |- *.
  - injection Hi as ->. rewrite H0, H1. reflexivity.
  - destruct (used x); cbn [length]; [f_equal|]; apply (IH i); assumption.
Qed.

Lemma ht_wf_new dsize : ht_wf (ht_dictionary_new dsize).
Proof.
  pose proof (DICT_LIMIT_range dsize) as Hr.
  unfold ht_wf, ht_dictionary_new, used_entries.
  cbn [h_root h_d_size h_d_next].
  unfold DICT_SIZE_MIN, DICT_SIZE_MAX in *.
  split; [rewrite length_replicate; lia|]. split; [lia|].
  assert (Hnone : forall n, List.filter used (replicate n ht_zero) = [])
    by (induction n; [reflexivity|exact IHn]).
  split; [rewrite Hnone; reflexivity|].
  apply Forall_forall. intros e He.
  apply list_elem_of_In, elem_of_replicate in He. destruct He as [-> _].
  discriminate.
Qed.

Lemma ht_wf_reset d : ht_wf d -> ht_wf (ht_dictionary_reset d).
Proof.
  intros (Hlen & Hsz & _ & _).
  unfold ht_wf, ht_dictionary_reset, used_entries.
  cbn [h_root h_d_size h_d_next].
  split; [rewrite length_replicate; lia|]. split; [exact Hsz|].
  assert (Hnone : forall n, List.filter used (replicate n ht_zero) = [])
    by (induction n; [reflexivity|exact IHn]).
  split; [rewrite Hnone; reflexivity|].
  apply Forall_forall. intros e He.
  apply list_elem_of_In, elem_of_replicate in He. destruct He as [-> _].
  discriminate.
Qed.

Lemma ht_wf_set_cur_node d v : ht_wf d -> ht_wf (set_cur_node d v).
Proof. intros H. exact H. Qed.

Lemma ht_wf_bound d :
  ht_wf d -> DICT_SIZE_MIN <= h_d_next d <= DICT_SIZE_MIN + h_d_size d.
Proof.
  intros (Hlen & Hsz & Hn & _). unfold used_entries in Hn.
  pose proof (List.filter_length_le used (h_root d)). lia.
Qed.

(** One call of [ht_dictionary_update] on a well-formed table. *)
Lemma ht_dictionary_update_wf d lbl r d' :
  ht_wf d -> 0 <= lbl < 65536 ->
  ht_dictionary_update d lbl = Ret (r, d') ->
  ht_wf d'
  /\ h_d_size d' = h_d_size d /\ h_d_thr d' = h_d_thr d
  /\ prev_node d' = cur_node d
  /\ ((r = -1 /\ h_d_next d' = h_d_next d /\ h_root d' = h_root d
       /\ (cur_node d' = lbl
           \/ DICT_SIZE_MIN <= cur_node d' < h_d_next d))
      \/ (r = 0 /\ h_d_next d' = h_d_next d + 1 /\ cur_node d' = lbl
          /\ cur_node d <> NO_NODE)).
Proof.
  intros Hwf Hl. pose proof (ht_wf_bound d Hwf) as Hb.
  pose proof Hwf as (Hlen & Hsz & Hn & Hch).
  unfold ht_dictionary_update, ht_dictionary_update_fuel.
  rewrite u16_small by lia.
  cbn [set_prev_node cur_node h_root h_d_size prev_node h_d_next h_d_thr].
  destruct (Z.eqb_spec (cur_node d) NO_NODE) as [Hno|Hno].
  - intros [= <- <-]. cbn.
    split; [exact Hwf|]. auto 10.
  - destruct (probe _ _ _ _ _ _) as [[c|h]| |] eqn:Hp; try discriminate;
      cbn [mbind outcome_bind].
    + intros [= <- <-]. cbn.
      split; [exact Hwf|].
      apply probe_Found in Hp. destruct Hp as (e & He & Hu & _ & _ & Hc).
      rewrite Forall_forall in Hch. specialize (Hch e He Hu).
      rewrite Hc in Hch. auto 10.
    + intros [= <- <-].
      apply probe_Free in Hp. destruct Hp as (e0 & He0 & Hu0).
      unfold DICT_SIZE_MIN, DICT_SIZE_MAX in *.
      rewrite u32_small by lia.
      cbn [h_root h_d_size h_d_next h_d_thr cur_node prev_node].
      split; [|auto 10].
      unfold ht_wf, used_entries.
      cbn [h_root h_d_size h_d_next h_d_thr cur_node prev_node].
      split; [rewrite length_insert; exact Hlen|]. split; [exact Hsz|].
      split.
      * rewrite (filter_used_insert _ _ e0) by auto.
        unfold used_entries in Hn. unfold DICT_SIZE_MIN. lia.
      * unfold DICT_SIZE_MIN. apply Forall_insert.
        -- eapply List.Forall_impl; [|exact Hch]. cbn. intros e H Hu.
           specialize (H Hu). lia.
        -- cbn. intros _. lia.
Qed.

(** ** The steps of the compressor *)

Lemma label_of_range c_in : is_input c_in -> 0 <= label_of c_in <= 256.
Proof.
  unfold is_input, label_of, EOF, DICT_CODE_EOF.
  intros [H| ->]; [|cbn; lia].
  destruct (Z.eqb_spec c_in (-1)); lia.
Qed.

Lemma secondary_update_after o c o' :
  secondary_update o c = Ret o' ->
  c_main o' = c_main o /\ c_bitbuf o' = c_bitbuf o
  /\ c_n_bits o' = c_n_bits o /\ c_completed o' = c_completed o
  /\ c_d_size o' = c_d_size o
  /\ secondary_after (c_secondary o) (c_main o) c (c_secondary o').
Proof.
  unfold secondary_update, secondary_after.
  destruct (h_d_thr (c_main o) <=? h_d_next (c_main o)).
  - destruct (ht_dictionary_update (c_secondary o) c) as [[r s']| |];
      try discriminate.
    cbn [mbind outcome_bind]. intros [= <-]. cbn. eauto 10.
  - intros [= <-]. auto 10.
Qed.

(** The two ways through [compress_input]: the sequence goes on, or the
    code of the sequence so far is emitted, with or without a swap. *)
Lemma compress_input_cases o c_in o' :
  ht_wf (c_main o) -> is_input c_in ->
  compress_input o c_in = Ret o' ->
  let c := label_of c_in in
  c_completed o' = c_completed o /\ c_d_size o' = c_d_size o
  /\ exists r m,
       ht_dictionary_update (c_main o) c = Ret (r, m)
       /\ ((r = -1 /\ c_bitbuf o' = c_bitbuf o /\ c_n_bits o' = c_n_bits o
            /\ c_main o' = m
            /\ secondary_after (c_secondary o) m c (c_secondary o'))
           \/ (r = 0 /\ c_bitbuf o' = cur_node (c_main o)
               /\ c_n_bits o' = bitlen (h_d_next (c_main o))
               /\ ((h_d_next m <> h_d_size m /\ c_main o' = m
                    /\ secondary_after (c_secondary o) m c (c_secondary o'))
                   \/ (h_d_next m = h_d_size m
                       /\ c_main o' = set_cur_node (c_secondary o) c
                       /\ secondary_after (ht_dictionary_reset m) (c_main o')
                                          c (c_secondary o'))))).
Proof.
  intros Hwf Hin H c. pose proof (label_of_range c_in Hin) as Hc.
  fold c in Hc. unfold compress_input in H. fold (label_of c_in) in H.
  fold c in H.
  destruct (ht_dictionary_update (c_main o) c) as [[r m]| |] eqn:Hupd;
    try discriminate.
  cbn [mbind outcome_bind] in H.
  pose proof (ht_wf_bound _ Hwf) as Hb.
  destruct (ht_dictionary_update_wf (c_main o) c r m Hwf ltac:(lia) Hupd)
    as (Hwf' & Hsz & Hthr & Hprev & Hcases).
  destruct Hcases as [(-> & Hn & _)|(-> & Hn & Hcur & Hno)].
  - cbn [negb Z.eqb] in H.
    apply secondary_update_after in H.
    cbn [with_dicts c_main c_secondary c_bitbuf c_n_bits c_completed c_d_size]
      in H.
    destruct H as (H1 & H2 & H3 & H4 & H5 & H6).
    split; [exact H4|]. split; [exact H5|].
    exists (-1), m. split; [reflexivity|]. left. auto 10.
  - cbn [negb Z.eqb] in H.
    assert (Hbits : bitlen (u32 (h_d_next m - 1)) = bitlen (h_d_next (c_main o))).
    { rewrite Hn. replace (h_d_next (c_main o) + 1 - 1)
        with (h_d_next (c_main o)) by lia.
      destruct Hwf as (_ & Hs & _). unfold DICT_SIZE_MIN, DICT_SIZE_MAX in *.
      rewrite u32_small by lia. reflexivity. }
    rewrite Hbits, Hprev in H.
    assert (Hu : u32 c = c) by (apply u32_small; lia). rewrite Hu in H.
    destruct (Z.eqb_spec (h_d_next m) (h_d_size m)) as [Hfull|Hfull];
      apply secondary_update_after in H;
      cbn [with_dicts emit c_main c_secondary c_bitbuf c_n_bits c_completed
           c_d_size] in H;
      destruct H as (H1 & H2 & H3 & H4 & H5 & H6);
      (split; [exact H4|]); (split; [exact H5|]);
      exists 0, m; (split; [reflexivity|]); right;
      (split; [reflexivity|]); (split; [exact H2|]); (split; [exact H3|]).
    + right. rewrite H1. auto.
    + left. auto.
Qed.

Lemma bitlen_nonneg i : 0 <= bitlen i.
Proof.
  unfold bitlen. rewrite bitlen_loop_log2.
  - destruct (u32 i =? 0); [lia|]. pose proof (Z.log2_nonneg (u32 i)). lia.
  - pose proof (u32_range i). simpl. lia.
  - lia.
  - simpl. lia.
Qed.

Lemma secondary_after_wf s m c s' :
  ht_wf s -> 0 <= c <= 256 -> secondary_after s m c s' ->
  ht_wf s' /\ h_d_size s' = h_d_size s.
Proof.
  intros Hwf Hc. unfold secondary_after.
  destruct (h_d_thr m <=? h_d_next m).
  - intros [r Hupd].
    destruct (ht_dictionary_update_wf s c r s' Hwf ltac:(lia) Hupd)
      as (Hwf' & Hsz & _). auto.
  - intros ->. auto.
Qed.

Lemma c_wf_new dsize : c_wf (lz78_new_c dsize).
Proof.
  unfold c_wf, lz78_new_c. cbn [c_main c_secondary c_n_bits].
  split; [apply ht_wf_set_cur_node, ht_wf_new|].
  split; [apply ht_wf_new|]. split; [reflexivity|].
  split; [right; right; reflexivity|]. apply bitlen_nonneg.
Qed.

Lemma c_wf_written o : c_wf o -> c_wf (written o) /\ c_n_bits (written o) = 0.
Proof.
  intros (H1 & H2 & H3 & H4 & H5). unfold written.
  destruct (Z.ltb_spec 0 (c_n_bits o)).
  - split; [|reflexivity]. unfold c_wf. cbn. auto 10 with zarith.
  - split; [|lia]. unfold c_wf. auto 10.
Qed.

(** One call of [compress_byte]: the invariant goes on, and what the call
    leaves to be written is a code of the stream. *)
Lemma compress_byte_step o c_in o' :
  c_wf o -> is_input c_in ->
  compress_byte o c_in = Ret o' ->
  c_wf o'
  /\ ((c_n_bits o' = c_n_bits o /\ c_bitbuf o' = c_bitbuf o)
      \/ data_code (c_bitbuf o')).
Proof.
  intros (Hm & Hs & Hsz & Hcur & Hn) Hin. unfold compress_byte.
  pose proof (label_of_range c_in Hin) as Hc.
  assert (Hinput : forall o1 o2,
    ht_wf (c_main o1) -> ht_wf (c_secondary o1) ->
    h_d_size (c_secondary o1) = h_d_size (c_main o1) ->
    0 <= c_n_bits o1 ->
    (cur_node (c_main o1) = NO_NODE \/
     (data_code (cur_node (c_main o1)))) ->
    compress_input o1 c_in = Ret o2 ->
    c_wf o2 /\ ((c_n_bits o2 = c_n_bits o1 /\ c_bitbuf o2 = c_bitbuf o1)
                \/ data_code (c_bitbuf o2))).
  { intros o1 o2 Hm1 Hs1 Hsz1 Hn1 Hcur1 H.
    destruct (compress_input_cases o1 c_in o2 Hm1 Hin H)
      as (_ & _ & r & m & Hupd & Hcases).
    cbn zeta in Hupd, Hcases.
    destruct (ht_dictionary_update_wf (c_main o1) (label_of c_in) r m Hm1
                ltac:(lia) Hupd)
      as (Hwm & Hszm & _ & _ & Hr).
    assert (Hcm : data_code (cur_node m)).
    { unfold data_code, DICT_CODE_EOF.
      destruct Hr as [(_ & _ & _ & [->| Hch])|(_ & _ & -> & _)]; lia. }
    assert (Hcc : data_code (label_of c_in))
      by (unfold data_code, DICT_CODE_EOF; lia).
    destruct Hcases as [(-> & Hb & Hnb & Hmain & Hsec)
                       |(-> & Hb & Hnb & [(Hne & Hmain & Hsec)
                                         |(Hfull & Hmain & Hsec)])].
    - destruct (secondary_after_wf _ _ _ _ Hs1 Hc Hsec) as [Hws Hss].
      split; [|left; auto]. unfold c_wf. rewrite Hmain.
      split; [exact Hwm|]. split; [exact Hws|]. split; [lia|].
      split; [auto|lia].
    - destruct (secondary_after_wf _ _ _ _ Hs1 Hc Hsec) as [Hws Hss].
      split.
      + unfold c_wf. rewrite Hmain.
        split; [exact Hwm|]. split; [exact Hws|]. split; [lia|].
        split; [auto|]. rewrite Hnb. apply bitlen_nonneg.
      + right. rewrite Hb.
        destruct Hr as [(Hr & _)|(_ & _ & _ & Hno)]; [discriminate|].
        destruct Hcur1 as [Hx|Hx]; [contradiction|exact Hx].
    - destruct (secondary_after_wf _ _ _ _ (ht_wf_reset _ Hwm) Hc Hsec)
        as [Hws Hss].
      split.
      + unfold c_wf. rewrite Hmain.
        split; [apply ht_wf_set_cur_node; exact Hs1|].
        split; [exact Hws|].
        split; [rewrite Hss; cbn; lia|].
        split; [left; exact Hcc|]. rewrite Hnb. apply bitlen_nonneg.
      + right. rewrite Hb.
        destruct Hr as [(Hr & _)|(_ & _ & _ & Hno)]; [discriminate|].
        destruct Hcur1 as [Hx|Hx]; [contradiction|exact Hx]. }
  destruct (Z.eqb_spec (cur_node (c_main o)) DICT_CODE_START) as [Hst|Hst].
  - intros H.
    apply Hinput in H;
      [|exact Hm|exact Hs|exact Hsz|apply bitlen_nonneg|left; reflexivity].
    cbn [emit with_dicts c_n_bits c_bitbuf c_main c_secondary] in H.
    destruct H as [Hw [[_ Hb]|Hb]]; (split; [exact Hw|]); right; [|exact Hb].
    rewrite Hb. destruct Hm as (_ & Hsize & _).
    unfold data_code. lia.
  - destruct (Z.eqb_spec (cur_node (c_main o)) DICT_CODE_EOF) as [He|He].
    + intros [= <-]. split.
      * unfold c_wf.
        cbn [emit with_dicts c_n_bits c_bitbuf c_main c_secondary
             set_cur_node cur_node h_d_size].
        split; [exact Hm|]. split; [exact Hs|].
        split; [exact Hsz|]. split; [auto|apply bitlen_nonneg].
      * right. cbn [emit with_dicts c_bitbuf]. rewrite He.
        unfold data_code. auto.
    + destruct (Z.eqb_spec (cur_node (c_main o)) DICT_CODE_STOP) as [Hp|Hp].
      * intros [= <-]. split; [|left; auto]. unfold c_wf.
        cbn [c_n_bits c_bitbuf c_main c_secondary]. auto 10.
      * intros H. apply Hinput in H; auto.
        destruct Hcur as [Hx|[Hx|Hx]]; [auto|contradiction|contradiction].
Qed.

(** ** The codes of the stream *)

Lemma fgetc_input input c_in rest :
  Forall (fun c => 0 <= c < 256) input ->
  fgetc input = (c_in, rest) ->
  is_input c_in /\ Forall (fun c => 0 <= c < 256) rest.
Proof.
  intros Hall. destruct input as [|c tl]; intros [= <- <-].
  - split; [right; reflexivity|constructor].
  - inversion Hall; subst. split; [left; assumption|assumption].
Qed.

Lemma pending_step o o' :
  c_n_bits o = 0 ->
  (c_n_bits o' = c_n_bits o /\ c_bitbuf o' = c_bitbuf o)
  \/ data_code (c_bitbuf o') ->
  Forall (fun e => data_code (fst e)) (pending o').
Proof.
  intros H0 [[Hn _]|Hd]; unfold pending.
  - rewrite Hn, H0. constructor.
  - destruct (0 <? c_n_bits o'); constructor; [exact Hd|constructor].
Qed.

Lemma lz78_compress_loop_codes fuel : forall o input,
  c_wf o -> Forall (fun c => 0 <= c < 256) input ->
  Forall (fun e => data_code (fst e)) (pending o) ->
  Forall (fun e => data_code (fst e)) (fst (lz78_compress_loop fuel o input)).
Proof.
  induction fuel as [|fuel IH]; intros o input Hwf Hin Hp; [constructor|].
  rewrite lz78_compress_loop_S. cbn zeta.
  destruct (fgetc input) as [c_in rest] eqn:Hget.
  destruct (fgetc_input _ _ _ Hin Hget) as [Hc Hrest].
  destruct (c_wf_written o Hwf) as [Hww Hw0].
  destruct (compress_byte (written o) c_in) as [o'| |] eqn:Hstep;
    [|exact Hp|exact Hp].
  destruct (compress_byte_step _ _ _ Hww Hc Hstep) as [Hwf' Hem].
  destruct (c_completed o' =? 1); [exact Hp|].
  specialize (IH o' rest Hwf' Hrest (pending_step _ _ Hw0 Hem)).
  destruct (lz78_compress_loop fuel o' rest) as [out' r].
  cbn [fst] in *. apply Forall_app. auto.
Qed.

(** C10: whatever the input and however long the driver runs, every pair
    handed to [bit_write] after the start marker carries a literal
    (0..255), the end marker 256, or a dynamic code (260 and above, which
    covers the announced size); 257, 258 and 259 never follow the start
    marker. *)
Theorem emitted_codes (dsize : Z) (input : list Z) (fuel : nat) :
  Forall (fun c => 0 <= c < 256) input ->
  Forall (fun e => data_code (fst e) /\ fst e <> DICT_CODE_SIZE
                   /\ fst e <> DICT_CODE_START /\ fst e <> DICT_CODE_STOP)
         (tail (fst (lz78_compress_loop fuel (lz78_new_c dsize) input)))
  /\ Forall (fun e => data_code (fst e) /\ fst e <> DICT_CODE_SIZE
                      /\ fst e <> DICT_CODE_START /\ fst e <> DICT_CODE_STOP)
            (tail (fst (lz78_compress dsize input))).
Proof.
  intros Hin.
  assert (Hall : forall f,
    Forall (fun e => data_code (fst e))
           (tail (fst (lz78_compress_loop f (lz78_new_c dsize) input)))).
  { intros [|f]; [constructor|].
    rewrite lz78_compress_loop_S. cbn zeta.
    destruct (fgetc input) as [c_in rest] eqn:Hget.
    destruct (fgetc_input _ _ _ Hin Hget) as [Hc Hrest].
    destruct (c_wf_written _ (c_wf_new dsize)) as [Hww Hw0].
    change (pending (lz78_new_c dsize))
      with [(DICT_CODE_START, bitlen DICT_SIZE_MIN)].
    destruct (compress_byte (written (lz78_new_c dsize)) c_in)
      as [o'| |] eqn:Hstep; [|constructor|constructor].
    destruct (compress_byte_step _ _ _ Hww Hc Hstep) as [Hwf' Hem].
    destruct (c_completed o' =? 1); [constructor|].
    pose proof (lz78_compress_loop_codes f o' rest Hwf' Hrest
                  (pending_step _ _ Hw0 Hem)) as Hcodes.
    destruct (lz78_compress_loop f o' rest) as [out' r].
    exact Hcodes. }
  assert (Hreserved : forall c, data_code c ->
    data_code c /\ c <> DICT_CODE_SIZE /\ c <> DICT_CODE_START
    /\ c <> DICT_CODE_STOP).
  { unfold data_code, DICT_CODE_EOF, DICT_CODE_SIZE, DICT_CODE_START,
      DICT_CODE_STOP, DICT_SIZE_MIN. intros c H. lia. }
  split; (eapply List.Forall_impl; [|apply Hall]);
    intros e He; apply Hreserved; exact He.
Qed.

Lemma emitted_codes_witness :
  Forall (fun e => data_code (fst e) /\ fst e <> DICT_CODE_SIZE
                   /\ fst e <> DICT_CODE_START /\ fst e <> DICT_CODE_STOP)
         (tail (fst (lz78_compress 4096 [65; 66; 65; 66; 65]))).
Proof.
  refine (proj2 (emitted_codes 4096 [65; 66; 65; 66; 65] 0 _)).
  repeat constructor; lia.
Defined.

(** ** Widths within an epoch *)

Lemma le_key_refl a : le_key a a.
Proof. right. split; [reflexivity|lia]. Qed.

Lemma le_key_trans a b c : le_key a b -> le_key b c -> le_key a c.
Proof. unfold le_key. intros [H1|[H1 H2]] [H3|[H3 H4]]; lia. Qed.

(** One call of [compress_byte] in terms of epochs and widths: the width
    of the next code does not go down unless the dictionaries are swapped,
    and a code that is emitted has that width. *)
Lemma compress_byte_key o c_in o' (ep : nat) :
  c_wf o -> c_n_bits o = 0 -> is_input c_in ->
  compress_byte o c_in = Ret o' ->
  le_key (ep, next_bits o)
         (if compress_byte_swaps o c_in then S ep else ep, next_bits o')
  /\ (c_n_bits o' = 0 \/ cur_node (c_main o) = DICT_CODE_START
      \/ c_n_bits o' = next_bits o).
Proof.
  intros (Hm & Hs & Hsz & Hcur & Hn) H0 Hin.
  pose proof (label_of_range c_in Hin) as Hc.
  unfold compress_byte, compress_byte_swaps, next_bits.
  destruct (Z.eqb_spec (cur_node (c_main o)) DICT_CODE_START) as [Hst|Hst].
  - rewrite Hst. cbn [Z.eqb DICT_CODE_START DICT_CODE_EOF DICT_CODE_STOP orb
                      Pos.eqb].
    intros H. split; [|auto].
    apply compress_input_cases in H; [|exact Hm|exact Hin].
    cbn [emit with_dicts c_main c_secondary c_bitbuf c_n_bits] in H.
    destruct H as (_ & _ & r & m & Hupd & Hcases).
    rewrite Hupd.
    rewrite ht_dictionary_update_no_node in Hupd by reflexivity.
    injection Hupd as <- <-. cbn [Z.eqb andb].
    destruct Hcases as [(_ & _ & _ & -> & _)|(Hr & _)]; [|discriminate].
    apply le_key_refl.
  - destruct (Z.eqb_spec (cur_node (c_main o)) DICT_CODE_EOF) as [He|He].
    + cbn [orb]. intros [= <-]. cbn [with_dicts emit c_main c_n_bits
                                      set_cur_node h_d_next].
      split; [apply le_key_refl|auto].
    + destruct (Z.eqb_spec (cur_node (c_main o)) DICT_CODE_STOP) as [Hp|Hp].
      * cbn [orb]. intros [= <-]. cbn [c_main c_n_bits].
        split; [apply le_key_refl|auto].
      * cbn [orb]. intros H.
        apply compress_input_cases in H; [|exact Hm|exact Hin].
        destruct H as (_ & _ & r & m & Hupd & Hcases). cbn zeta in *.
        rewrite Hupd.
        destruct (ht_dictionary_update_wf (c_main o) (label_of c_in) r m Hm
                    ltac:(lia) Hupd) as (Hwm & Hszm & _ & _ & Hr).
        pose proof (ht_wf_bound _ Hm) as Hb.
        destruct Hm as (_ & Hsize & _).
        unfold DICT_SIZE_MIN, DICT_SIZE_MAX in *.
        destruct Hcases as [(-> & _ & Hnb & -> & _)
                           |(-> & _ & Hnb & [(Hne & -> & _)|(Hfull & _ & _)])].
        -- cbn [Z.eqb andb].
           destruct Hr as [(_ & -> & _)|(Hr & _)]; [|discriminate].
           split; [apply le_key_refl|]. left. lia.
        -- cbn [Z.eqb andb]. rewrite (proj2 (Z.eqb_neq _ _) Hne).
           destruct Hr as [(Hr & _)|(_ & -> & _)]; [discriminate|].
           split; [|auto]. right. cbn [fst snd]. split; [reflexivity|].
           apply bitlen_mono; lia.
        -- cbn [Z.eqb andb]. rewrite (proj2 (Z.eqb_eq _ _) Hfull).
           split; [|auto]. left. cbn [fst]. lia.
Qed.

Lemma next_bits_written o : next_bits (written o) = next_bits o.
Proof. unfold written, next_bits. destruct (0 <? c_n_bits o); reflexivity. Qed.

Lemma cur_node_written o : cur_node (c_main (written o)) = cur_node (c_main o).
Proof. unfold written. destruct (0 <? c_n_bits o); reflexivity. Qed.

(** The facts about one round of the driver that the order needs. *)
Lemma round_keys (g : epochs) o c_in o' :
  c_wf o -> is_input c_in ->
  compress_byte (written o) c_in = Ret o' ->
  let g' := {| g_head := cur_node (c_main o) =? DICT_CODE_START;
               g_pending := g_epoch g;
               g_epoch := if compress_byte_swaps (written o) c_in
                          then S (g_epoch g) else g_epoch g |} in
  c_wf o'
  /\ le_key (g_epoch g, next_bits o) (g_epoch g', next_bits o')
  /\ Forall (fun y => e_head y = false -> key y = (g_epoch g, next_bits o))
            (tagged g' o').
Proof.
  intros Hwf Hin Hstep g'.
  destruct (c_wf_written o Hwf) as [Hww Hw0].
  destruct (compress_byte_step _ _ _ Hww Hin Hstep) as [Hwf' _].
  destruct (compress_byte_key _ _ _ (g_epoch g) Hww Hw0 Hin Hstep)
    as [Hkey Hbits].
  rewrite next_bits_written in Hkey, Hbits.
  rewrite cur_node_written in Hbits.
  split; [exact Hwf'|]. split; [exact Hkey|].
  unfold tagged, pending.
  destruct (Z.ltb_spec 0 (c_n_bits o')); [|constructor].
  constructor; [|constructor]. cbn [e_head key e_epoch e_bits fst snd g'
                                    g_head g_pending].
  intros Hh. destruct Hbits as [Hb|[Hb|Hb]].
  - lia.
  - rewrite Hb in Hh. discriminate.
  - rewrite Hb. reflexivity.
Qed.

Lemma lz78_compress_epochs_S fuel g o input :
  lz78_compress_epochs (S fuel) g o input
  = let out := tagged g o in
    let '(c_in, rest) := fgetc input in
    match compress_byte (written o) c_in with
    | Ret o' =>
        if c_completed o' =? 1 then out
        else
          out ++ lz78_compress_epochs fuel
                   {| g_head := cur_node (c_main o) =? DICT_CODE_START;
                      g_pending := g_epoch g;
                      g_epoch := if compress_byte_swaps (written o) c_in
                                 then S (g_epoch g) else g_epoch g |}
                   o' rest
    | _ => out
    end.
Proof. reflexivity. Qed.

(** Every pair of the stream from a state on is at or above a key that the
    pending pair and the state are at or above. *)
Lemma lz78_compress_epochs_above fuel : forall g o input k,
  c_wf o -> Forall (fun c => 0 <= c < 256) input ->
  le_key k (g_epoch g, next_bits o) ->
  Forall (fun y => e_head y = false -> le_key k (key y)) (tagged g o) ->
  Forall (fun y => e_head y = false -> le_key k (key y))
         (lz78_compress_epochs fuel g o input).
Proof.
  induction fuel as [|fuel IH]; intros g o input k Hwf Hin Hk Hp;
    [constructor|].
  rewrite lz78_compress_epochs_S. cbn zeta.
  destruct (fgetc input) as [c_in rest] eqn:Hget.
  destruct (fgetc_input _ _ _ Hin Hget) as [Hc Hrest].
  destruct (compress_byte (written o) c_in) as [o'| |] eqn:Hstep;
    [|exact Hp|exact Hp].
  destruct (c_completed o' =? 1); [exact Hp|].
  destruct (round_keys g o c_in o' Hwf Hc Hstep) as (Hwf' & Hkey & Htag).
  apply Forall_app. split; [exact Hp|].
  apply IH; [exact Hwf'|exact Hrest|exact (le_key_trans _ _ _ Hk Hkey)|].
  eapply List.Forall_impl; [|exact Htag].
  cbn beta. intros y Hy Hh. rewrite (Hy Hh). exact Hk.
Qed.

(** The pairs of the stream after its head are in order. *)
Lemma lz78_compress_epochs_ordered fuel : forall g o input i j x y,
  c_wf o -> Forall (fun c => 0 <= c < 256) input ->
  Forall (fun y => e_head y = false ->
                   le_key (key y) (g_epoch g, next_bits o)) (tagged g o) ->
  (i < j)%nat ->
  lz78_compress_epochs fuel g o input !! i = Some x ->
  lz78_compress_epochs fuel g o input !! j = Some y ->
  e_head x = false -> e_head y = false ->
  le_key (key x) (key y).
Proof.
  induction fuel as [|fuel IH]; intros g o input i j x y Hwf Hin Hp Hij Hx Hy
    Hhx Hhy; [discriminate|].
  rewrite lz78_compress_epochs_S in Hx, Hy. cbn zeta in Hx, Hy.
  assert (Hshort : (length (tagged g o) <= 1)%nat).
  { unfold tagged, pending. destruct (0 <? c_n_bits o); cbn; lia. }
  assert (Hout : forall n z, tagged g o !! n = Some z -> (n < 1)%nat).
  { intros n z Hz. apply lookup_lt_Some in Hz. lia. }
  destruct (fgetc input) as [c_in rest] eqn:Hget.
  destruct (fgetc_input _ _ _ Hin Hget) as [Hc Hrest].
  destruct (compress_byte (written o) c_in) as [o'| |] eqn:Hstep;
    try (apply Hout in Hx; apply Hout in Hy; lia).
  destruct (c_completed o' =? 1);
    try (apply Hout in Hx; apply Hout in Hy; lia).
  destruct (round_keys g o c_in o' Hwf Hc Hstep) as (Hwf' & Hkey & Htag).
  set (g' := {| g_head := cur_node (c_main o) =? DICT_CODE_START;
                g_pending := g_epoch g;
                g_epoch := if compress_byte_swaps (written o) c_in
                           then S (g_epoch g) else g_epoch g |}) in *.
  destruct (decide (i < length (tagged g o))%nat) as [Hi|Hi].
  - rewrite lookup_app_l in Hx by exact Hi.
    rewrite lookup_app_r in Hy by lia.
    assert (Hkx : le_key (key x) (g_epoch g, next_bits o)).
    { rewrite Forall_forall in Hp. apply Hp; [|exact Hhx].
      apply list_elem_of_In. eapply list_elem_of_lookup_2. exact Hx. }
    assert (Hall : Forall (fun y => e_head y = false -> le_key (key x) (key y))
                     (lz78_compress_epochs fuel g' o' rest)).
    { apply lz78_compress_epochs_above;
        [exact Hwf'|exact Hrest|exact (le_key_trans _ _ _ Hkx Hkey)|].
      eapply List.Forall_impl; [|exact Htag].
      cbn beta. intros z Hz Hh. rewrite (Hz Hh). exact Hkx. }
    rewrite Forall_forall in Hall. apply Hall; [|exact Hhy].
    apply list_elem_of_In. eapply list_elem_of_lookup_2. exact Hy.
  - rewrite lookup_app_r in Hx by lia.
    rewrite lookup_app_r in Hy by lia.
    apply (IH g' o' rest (i - length (tagged g o))%nat
              (j - length (tagged g o))%nat x y); try assumption; [|lia].
    eapply List.Forall_impl; [|exact Htag].
    cbn beta. intros z Hz Hh. rewrite (Hz Hh). exact Hkey.
Qed.

Lemma lz78_compress_epochs_erase fuel : forall g o input,
  map erase (lz78_compress_epochs fuel g o input)
  = fst (lz78_compress_loop fuel o input).
Proof.
  induction fuel as [|fuel IH]; intros g o input; [reflexivity|].
  rewrite lz78_compress_epochs_S, lz78_compress_loop_S. cbn zeta.
  assert (Ht : map erase (tagged g o) = pending o).
  { unfold tagged. rewrite map_map. cbn [erase e_code e_bits].
    rewrite <- (map_id (pending o)) at 2. apply map_ext. intros []. reflexivity. }
  destruct (fgetc input) as [c_in rest].
  destruct (compress_byte (written o) c_in) as [o'| |]; try exact Ht.
  destruct (c_completed o' =? 1); [exact Ht|].
  rewrite map_app, Ht, IH.
  destruct (lz78_compress_loop fuel o' rest). reflexivity.
Qed.

Lemma compress_byte_not_start o c_in o' :
  c_wf o -> is_input c_in ->
  compress_byte o c_in = Ret o' ->
  cur_node (c_main o') <> DICT_CODE_START.
Proof.
  intros (Hm & Hs & Hsz & Hcur & Hn) Hin. unfold compress_byte.
  pose proof (label_of_range c_in Hin) as Hc.
  assert (Hinput : forall o1 o2,
    ht_wf (c_main o1) -> compress_input o1 c_in = Ret o2 ->
    cur_node (c_main o2) <> DICT_CODE_START).
  { intros o1 o2 Hm1 H.
    destruct (compress_input_cases o1 c_in o2 Hm1 Hin H)
      as (_ & _ & r & m & Hupd & Hcases). cbn zeta in *.
    destruct (ht_dictionary_update_wf (c_main o1) (label_of c_in) r m Hm1
                ltac:(lia) Hupd) as (_ & _ & _ & _ & Hr).
    assert (Hcm : cur_node m <> DICT_CODE_START).
    { unfold DICT_CODE_START, DICT_SIZE_MIN in *.
      destruct Hr as [(_ & _ & _ & [->| Hch])|(_ & _ & -> & _)]; lia. }
    destruct Hcases as [(_ & _ & _ & -> & _)
                       |(_ & _ & _ & [(_ & -> & _)|(_ & -> & _)])];
      try exact Hcm.
    cbn [set_cur_node cur_node]. unfold DICT_CODE_START. lia. }
  destruct (Z.eqb_spec (cur_node (c_main o)) DICT_CODE_START).
  - intros H. apply Hinput in H; [exact H|exact Hm].
  - destruct (Z.eqb_spec (cur_node (c_main o)) DICT_CODE_EOF).
    + intros [= <-]. cbn. discriminate.
    + destruct (Z.eqb_spec (cur_node (c_main o)) DICT_CODE_STOP).
      * intros [= <-]. cbn. assumption.
      * intros H. apply Hinput in H; [exact H|exact Hm].
Qed.

Lemma lz78_compress_epochs_body fuel : forall g o input,
  c_wf o -> Forall (fun c => 0 <= c < 256) input ->
  cur_node (c_main o) <> DICT_CODE_START ->
  Forall (fun y => e_head y = false) (tagged g o) ->
  Forall (fun y => e_head y = false) (lz78_compress_epochs fuel g o input).
Proof.
  induction fuel as [|fuel IH]; intros g o input Hwf Hin Hns Hp;
    [constructor|].
  rewrite lz78_compress_epochs_S. cbn zeta.
  destruct (fgetc input) as [c_in rest] eqn:Hget.
  destruct (fgetc_input _ _ _ Hin Hget) as [Hc Hrest].
  destruct (compress_byte (written o) c_in) as [o'| |] eqn:Hstep;
    [|exact Hp|exact Hp].
  destruct (c_completed o' =? 1); [exact Hp|].
  destruct (c_wf_written o Hwf) as [Hww _].
  destruct (compress_byte_step _ _ _ Hww Hc Hstep) as [Hwf' _].
  pose proof (compress_byte_not_start _ _ _ Hww Hc Hstep) as Hns'.
  apply Forall_app. split; [exact Hp|].
  apply IH; [exact Hwf'|exact Hrest|exact Hns'|].
  unfold tagged. apply Forall_map. apply Forall_forall. intros e _.
  cbn [e_head g_head]. apply Z.eqb_neq. exact Hns.
Qed.

(** C8: in the stream of any input, taken as far as the driver has run,
    the pairs after the head (start marker and size, the first two) are in
    order: the epoch, the number of swaps before the call that produced the
    code, never goes back, and within one epoch the width never goes down;
    so a width below an earlier one lies in a later epoch, after a swap. *)
Theorem widths_within_epoch (dsize : Z) (input : list Z) (fuel : nat) :
  Forall (fun c => 0 <= c < 256) input ->
  let tr := lz78_compress_epochs fuel epochs_start (lz78_new_c dsize) input in
  map erase tr = fst (lz78_compress_loop fuel (lz78_new_c dsize) input)
  /\ (forall i x, tr !! i = Some x -> (2 <= i)%nat -> e_head x = false)
  /\ forall i j x y,
       (i < j)%nat -> tr !! i = Some x -> tr !! j = Some y ->
       e_head x = false -> e_head y = false ->
       (e_epoch x <= e_epoch y)%nat
       /\ (e_epoch x = e_epoch y -> e_bits x <= e_bits y)
       /\ (e_bits y < e_bits x -> (e_epoch x < e_epoch y)%nat).
Proof.
  intros Hin tr. split; [apply lz78_compress_epochs_erase|]. split.
  - intros i x Hx Hi. subst tr. destruct fuel as [|fuel]; [discriminate|].
    rewrite lz78_compress_epochs_S in Hx. cbn zeta in Hx.
    destruct (fgetc input) as [c_in rest] eqn:Hget.
    destruct (fgetc_input _ _ _ Hin Hget) as [Hc Hrest].
    assert (Hone : forall n z,
      tagged epochs_start (lz78_new_c dsize) !! n = Some z -> (n < 1)%nat).
    { intros n z Hz. apply lookup_lt_Some in Hz.
      change (length (tagged epochs_start (lz78_new_c dsize))) with 1%nat
        in Hz. lia. }
    destruct (compress_byte_start dsize c_in) as (o1 & Hs1 & Hc1 & _ & Hn1).
    rewrite Hs1 in Hx. rewrite Hc1 in Hx. change (0 =? 1) with false in Hx.
    cbn iota in Hx.
    change (length (tagged epochs_start (lz78_new_c dsize))) with 1%nat in Hx.
    rewrite lookup_app_r in Hx
      by (change (length (tagged epochs_start (lz78_new_c dsize))) with 1%nat;
          lia).
    change (length (tagged epochs_start (lz78_new_c dsize))) with 1%nat in Hx.
    destruct (c_wf_written _ (c_wf_new dsize)) as [Hww _].
    destruct (compress_byte_step _ _ _ Hww Hc Hs1) as [Hwf1 _].
    pose proof (compress_byte_not_start _ _ _ Hww Hc Hs1) as Hns1.
    destruct fuel as [|fuel]; [discriminate|].
    rewrite lz78_compress_epochs_S in Hx. cbn zeta in Hx.
    destruct (fgetc rest) as [c2 rest2] eqn:Hget2.
    destruct (fgetc_input _ _ _ Hrest Hget2) as [Hc2 Hrest2].
    assert (Hlen1 : forall g, length (tagged g o1) = 1%nat).
    { intros g. unfold tagged, pending. rewrite Hn1. reflexivity. }
    assert (Hout1 : forall g n z, tagged g o1 !! n = Some z -> (n < 1)%nat).
    { intros g n z Hz. apply lookup_lt_Some in Hz. rewrite Hlen1 in Hz. lia. }
    destruct (compress_byte (written o1) c2) as [o2| |] eqn:Hs2;
      try (apply Hout1 in Hx; lia).
    destruct (c_completed o2 =? 1); try (apply Hout1 in Hx; lia).
    rewrite lookup_app_r, Hlen1 in Hx by (rewrite Hlen1; lia).
    destruct (c_wf_written _ Hwf1) as [Hww1 _].
    destruct (compress_byte_step _ _ _ Hww1 Hc2 Hs2) as [Hwf2 _].
    pose proof (compress_byte_not_start _ _ _ Hww1 Hc2 Hs2) as Hns2.
    match type of Hx with
    | lz78_compress_epochs ?f ?g ?o ?r !! ?n = _ =>
        pose proof (lz78_compress_epochs_body f g o r Hwf2 Hrest2 Hns2) as Hb
    end.
    assert (Hb' := Hb ltac:(unfold tagged; apply Forall_map;
                            apply Forall_forall; intros e _;
                            cbn [e_head g_head]; apply Z.eqb_neq;
                            exact Hns1)).
    rewrite Forall_forall in Hb'. apply Hb'.
    apply list_elem_of_In. eapply list_elem_of_lookup_2. exact Hx.
  - intros i j x y Hij Hx Hy Hhx Hhy.
    assert (Hle : le_key (key x) (key y)).
    { apply (lz78_compress_epochs_ordered fuel epochs_start
               (lz78_new_c dsize) input i j x y); try assumption.
      - apply c_wf_new.
      - constructor; [|constructor]. cbn. discriminate. }
    unfold le_key, key in Hle. cbn [fst snd] in Hle. lia.
Qed.

Lemma widths_within_epoch_witness :
  let tr := lz78_compress_epochs 9 epochs_start (lz78_new_c 262)
              [97; 98; 99; 97; 98; 99] in
  map erase tr = fst (lz78_compress_loop 9 (lz78_new_c 262)
                        [97; 98; 99; 97; 98; 99])
  /\ (forall i x, tr !! i = Some x -> (2 <= i)%nat -> e_head x = false)
  /\ forall i j x y,
       (i < j)%nat -> tr !! i = Some x -> tr !! j = Some y ->
       e_head x = false -> e_head y = false ->
       (e_epoch x <= e_epoch y)%nat
       /\ (e_epoch x = e_epoch y -> e_bits x <= e_bits y)
       /\ (e_bits y < e_bits x -> (e_epoch x < e_epoch y)%nat).
Proof.
  apply (widths_within_epoch 262 [97; 98; 99; 97; 98; 99] 9).
  repeat constructor; lia.
Defined.

(** ** The search loop and its fuel *)

Lemma probe_passed_all tbl size cur lbl fuel : forall hash,
  Z.of_nat (length tbl) = size ->
  forallb (passed cur lbl) tbl = true ->
  0 <= hash < size ->
  probe fuel tbl size cur lbl hash = Diverge.
Proof.
  induction fuel as [|fuel IH]; intros hash Hlen Hall Hh; [reflexivity|].
  cbn [probe].
  destruct (lookup_lt_is_Some_2 tbl (Z.to_nat hash) ltac:(lia)) as [e He].
  rewrite He. rewrite forallb_forall in Hall.
  assert (Hp : passed cur lbl e = true).
  { apply Hall. apply list_elem_of_In. eapply list_elem_of_lookup_2. exact He. }
  unfold passed in Hp. apply andb_true_iff in Hp. destruct Hp as [-> Hn].
  apply negb_true_iff in Hn. rewrite Hn.
  apply IH; [exact Hlen| |apply Z.mod_pos_bound; lia].
  apply forallb_forall. exact Hall.
Qed.

Lemma probe_Diverge_slots tbl size cur lbl fuel : forall hash,
  0 <= hash < size ->
  probe fuel tbl size cur lbl hash = Diverge ->
  forall k, (k < fuel)%nat ->
    exists e, tbl !! Z.to_nat ((hash + Z.of_nat k) mod size) = Some e
              /\ passed cur lbl e = true.
Proof.
  induction fuel as [|fuel IH]; intros hash Hh H k Hk; [lia|].
  cbn [probe] in H.
  destruct (tbl !! Z.to_nat hash) as [e|] eqn:He; [|discriminate].
  destruct (used e) eqn:Hu; [|discriminate].
  destruct ((parent e =? cur) && (label e =? lbl)) eqn:Hm; [discriminate|].
  destruct k as [|k].
  - exists e. rewrite Z.add_0_r, Z.mod_small by lia.
    split; [exact He|]. unfold passed. rewrite Hu, Hm. reflexivity.
  - destruct (IH ((hash + 1) mod size) ltac:(apply Z.mod_pos_bound; lia)
                 H k ltac:(lia)) as (e' & He' & Hp').
    exists e'. split; [|exact Hp'].
    rewrite <- He'. f_equal. f_equal.
    rewrite Zplus_mod_idemp_l. f_equal. lia.
Qed.

(** A search that has passed over every slot goes round for ever. *)
Lemma probe_Diverge_forever tbl size cur lbl hash :
  Z.of_nat (length tbl) = size -> 0 <= hash < size ->
  probe (length tbl) tbl size cur lbl hash = Diverge ->
  forall fuel, probe fuel tbl size cur lbl hash = Diverge.
Proof.
  intros Hlen Hh H fuel. apply probe_passed_all; [exact Hlen| |exact Hh].
  apply forallb_forall. intros e He.
  apply list_elem_of_In, list_elem_of_lookup in He. destruct He as [t Ht].
  pose proof (lookup_lt_Some _ _ _ Ht) as Hlt.
  set (k := Z.to_nat ((Z.of_nat t - hash) mod size)).
  pose proof (Z.mod_pos_bound (Z.of_nat t - hash) size ltac:(lia)) as Hk.
  destruct (probe_Diverge_slots _ _ _ _ _ hash Hh H k ltac:(lia))
    as (e' & He' & Hp').
  replace ((hash + Z.of_nat k) mod size) with (Z.of_nat t) in He'.
  - rewrite Nat2Z.id, Ht in He'. injection He' as <-. exact Hp'.
  - unfold k. rewrite Z2Nat.id by lia.
    rewrite Zplus_mod_idemp_r.
    replace (hash + (Z.of_nat t - hash)) with (Z.of_nat t) by lia.
    symmetry. apply Z.mod_small. lia.
Qed.

Lemma probe_mono tbl size cur lbl fuel : forall fuel' hash,
  (fuel <= fuel')%nat ->
  probe fuel tbl size cur lbl hash <> Diverge ->
  probe fuel' tbl size cur lbl hash = probe fuel tbl size cur lbl hash.
Proof.
  induction fuel as [|fuel IH]; intros fuel' hash Hle H; [contradiction|].
  destruct fuel' as [|fuel']; [lia|]. cbn [probe] in *.
  destruct (tbl !! Z.to_nat hash) as [e|]; [|reflexivity].
  destruct (used e); [|reflexivity].
  destruct ((parent e =? cur) && (label e =? lbl)); [reflexivity|].
  apply IH; [lia|exact H].
Qed.

(** [d_size] rounds of the search decide it: more fuel changes nothing. *)
Lemma ht_dictionary_update_fuel_enough d lbl fuel :
  Z.of_nat (length (h_root d)) = h_d_size d -> 0 < h_d_size d ->
  (Z.to_nat (h_d_size d) <= fuel)%nat ->
  ht_dictionary_update_fuel fuel d lbl = ht_dictionary_update d lbl.
Proof.
  intros Hlen Hsz Hfuel. unfold ht_dictionary_update, ht_dictionary_update_fuel.
  destruct (cur_node (set_prev_node d (cur_node d)) =? NO_NODE);
    [reflexivity|].
  cbn [set_prev_node h_root h_d_size cur_node].
  set (hash := ht_hash _ _).
  assert (Hh : 0 <= hash < h_d_size d)
    by (apply Z.mod_pos_bound; exact Hsz).
  replace (Z.to_nat (h_d_size d)) with (length (h_root d)) in * by lia.
  destruct (probe (length (h_root d)) (h_root d) (h_d_size d) (cur_node d)
                  (u16 lbl) hash) as [s| |] eqn:Hp.
  - rewrite (probe_mono _ _ _ _ (length (h_root d)) fuel hash Hfuel), Hp;
      [reflexivity|rewrite Hp; discriminate].
  - rewrite (probe_mono _ _ _ _ (length (h_root d)) fuel hash Hfuel), Hp;
      [reflexivity|rewrite Hp; discriminate].
  - rewrite (probe_Diverge_forever _ _ _ _ _ Hlen Hh Hp). reflexivity.
Qed.

(** ** The secondary dictionary outgrows the table *)

(** C9 at its failing input.  With size 263 the eleven bytes of
    [overflow_input] leave a main dictionary with [d_next = d_size = 263]
    (it is the secondary that was swapped in with three entries), and the
    next call of [compress_byte] runs [ht_dictionary_update] on it, which
    hands out code 263; from then on [d_next == d_size] is never true
    again.  On [hang_input] the table ends with all its 263 slots used,
    and the update for the last byte searches for a pair that is not
    there: the loop has no way out, whatever the fuel. *)
Theorem update_beyond_d_size :
  (exists o m,
     rounds (lz78_new_c 263) overflow_input = Ret o
     /\ h_d_size (c_main o) = 263 /\ h_d_next (c_main o) = 263
     /\ compress_byte (written o) EOF = compress_input (written o) EOF
     /\ ht_dictionary_update (c_main (written o)) (label_of EOF) = Ret (0, m)
     /\ h_d_next m = 264 /\ h_d_size m = 263)
  /\ rounds (lz78_new_c 263) (removelast hang_input) = Ret hang_state
  /\ last hang_input 0 = 14
  /\ h_d_size (c_main hang_state) = 263
  /\ h_d_next (c_main hang_state) = 523
  /\ forallb used (h_root (c_main hang_state)) = true
  /\ (forall fuel,
        ht_dictionary_update_fuel fuel (c_main (written hang_state)) 14
        = Diverge)
  /\ compress_byte (written hang_state) 14 = Diverge
  /\ snd (lz78_compress 263 hang_input) = Some Diverge.
Proof.
  split.
  { eexists. eexists. split; [vm_compute; reflexivity|].
    split; [reflexivity|]. split; [reflexivity|].
    split; [reflexivity|]. split; [vm_compute; reflexivity|].
    split; reflexivity. }
  split; [vm_compute; reflexivity|]. split; [reflexivity|].
  split; [reflexivity|]. split; [reflexivity|].
  split; [vm_compute; reflexivity|].
  split.
  { intros fuel. unfold ht_dictionary_update_fuel.
    change (cur_node (set_prev_node (c_main (written hang_state))
                        (cur_node (c_main (written hang_state)))) =? NO_NODE)
      with false. cbn iota.
    rewrite probe_passed_all; [reflexivity|reflexivity| |].
    - vm_compute. reflexivity.
    - vm_compute. split; [discriminate|reflexivity]. }
  split; vm_compute; reflexivity.
Qed.

(** C1 at its failing input.  The eleven bytes of [overflow_input] are
    compressed with size 263 into 102 bits, which [bit_close] pads to 104.
    The decompressor writes the first ten bytes and then, with
    [d_next = d_size = 263] after its swap, stores [root[263]] in a table
    of 263 entries.  On [hang_input] the compressor never returns. *)
Theorem round_trip_breaks :
  exists out,
    lz78_compress 263 overflow_input = (out, Some (Ret LZ78_SUCCESS))
    /\ length (stream_bits out) = 102%nat
    /\ (forall b1 b2 : bool,
          lz78_decompress (zeroed true true)
            (stream_bits out ++ [b1; b2])
          = ([0; 0; 1; 0; 1; 0; 1; 0; 1; 0], Some Fault))
    /\ (exists o m,
          submit_codes (zeroed true true) (lz78_new_d (zeroed true true))
            (map fst (removelast (removelast out))) = Ret o
          /\ d_main o = Some m
          /\ d_next m = 263 /\ d_size m = 263 /\ length (root m) = 263%nat
          /\ nth_error (map fst out) 8 = Some 0
          /\ dictionary_update m 0 = Fault)
    /\ snd (lz78_compress 263 hang_input) = Some Diverge.
Proof.
  eexists. split; [vm_compute; reflexivity|].
  split; [vm_compute; reflexivity|].
  split; [intros [] []; vm_compute; reflexivity|].
  split; [|vm_compute; reflexivity].
  eexists. eexists. split; [vm_compute; reflexivity|].
  split; [reflexivity|]. split; [reflexivity|]. split; [reflexivity|].
  split; [reflexivity|]. split; [reflexivity|].
  vm_compute. reflexivity.
Qed.

(** ** The widths of the codes on both sides *)

Lemma filter_used_insert_split (tbl : list ht_entry) : forall (i : nat) e0 e,
  tbl !! i = Some e0 -> used e0 = false -> used e = true ->
  exists l1 l2, List.filter used tbl = l1 ++ l2
                /\ List.filter used (<[i := e]> tbl) = l1 ++ e :: l2.
Proof.
  induction tbl as [|x tbl IH]; intros i e0 e Hi H0 H1; [discriminate|].
  destruct i as [|i]; cbn in Hi |- *.
  - injection Hi as ->. rewrite H0, H1. exists [], (List.filter used tbl).
    split; reflexivity.
  - destruct (IH i e0 e Hi H0 H1) as (l1 & l2 & E1 & E2).
    destruct (used x).
    + exists (x :: l1), l2. cbn. split; f_equal; assumption.
    + exists l1, l2. split; assumption.
Qed.

Lemma ht_tree_new dsize : ht_tree (ht_dictionary_new dsize).
Proof.
  unfold ht_tree, ht_dictionary_new, used_entries. cbn [h_root].
  assert (Hnone : forall n, List.filter used (replicate n ht_zero) = [])
    by (induction n; [reflexivity|exact IHn]).
  rewrite Hnone. split; [|constructor].
  apply Forall_forall. intros e He.
  apply list_elem_of_In, elem_of_replicate in He. destruct He as [-> _].
  discriminate.
Qed.

Lemma ht_tree_reset d : ht_tree (ht_dictionary_reset d).
Proof.
  unfold ht_tree, ht_dictionary_reset, used_entries. cbn [h_root].
  assert (Hnone : forall n, List.filter used (replicate n ht_zero) = [])
    by (induction n; [reflexivity|exact IHn]).
  rewrite Hnone. split; [|constructor].
  apply Forall_forall. intros e He.
  apply list_elem_of_In, elem_of_replicate in He. destruct He as [-> _].
  discriminate.
Qed.

(** [prev_node] is overwritten before it is read. *)
Lemma ht_dictionary_update_prev d v lbl :
  ht_dictionary_update (set_prev_node d v) lbl = ht_dictionary_update d lbl.
Proof. reflexivity. Qed.

(** One call of [ht_dictionary_update] with a byte, or with the end
    marker, on a table of bytes. *)
Lemma ht_dictionary_update_tree d lbl r d' :
  ht_wf d -> ht_tree d -> cur_node d = NO_NODE \/ cur_inside d ->
  0 <= lbl <= 256 ->
  ht_dictionary_update d lbl = Ret (r, d') ->
  (r = -1 /\ h_root d' = h_root d /\ h_d_next d' = h_d_next d
   /\ ((cur_node d = NO_NODE /\ cur_node d' = lbl)
       \/ (lbl < 256 /\
           exists e, In e (h_root d) /\ used e = true
                     /\ parent e = cur_node d /\ label e = lbl
                     /\ cur_node d' = child e)))
  \/ (r = 0 /\ cur_inside d /\ cur_node d' = lbl
      /\ h_d_next d' = h_d_next d + 1
      /\ exists i e0, h_root d !! i = Some e0 /\ used e0 = false
           /\ h_root d'
              = <[i := mk_ht_entry true (cur_node d) lbl (h_d_next d)]>
                  (h_root d)).
Proof.
  intros Hwf [Hfa Hnd] Hcur Hl Hupd.
  pose proof (ht_wf_bound d Hwf) as Hb.
  destruct (ht_dictionary_update_wf d lbl r d' Hwf ltac:(lia) Hupd)
    as (_ & _ & _ & _ & Hn).
  revert Hupd. unfold ht_dictionary_update, ht_dictionary_update_fuel.
  rewrite u16_small by lia.
  cbn [set_prev_node cur_node h_root h_d_size prev_node h_d_next h_d_thr].
  destruct (Z.eqb_spec (cur_node d) NO_NODE) as [Hno|Hno].
  - intros [= <- <-]. left. cbn. auto 10.
  - destruct Hcur as [Hcur|Hcur]; [contradiction|].
    destruct (probe _ _ _ _ _ _) as [[c|h]| |] eqn:Hp; try discriminate;
      cbn [mbind outcome_bind].
    + intros [= <- <-]. left. cbn.
      apply probe_Found in Hp. destruct Hp as (e & He & Hu & Hpa & Hla & Hc).
      split; [reflexivity|]. split; [reflexivity|]. split; [reflexivity|].
      right. rewrite Forall_forall in Hfa.
      destruct (Hfa e He Hu) as [_ Hlab]. split; [lia|].
      exists e. auto 10.
    + intros [= <- <-]. right.
      apply probe_Free in Hp. destruct Hp as (e0 & He0 & Hu0).
      destruct Hwf as (_ & Hsz & _).
      unfold DICT_SIZE_MIN, DICT_SIZE_MAX in *.
      rewrite u32_small by lia. cbn. eauto 10.
Qed.

Lemma ht_dictionary_update_tree_inv d lbl r d' :
  ht_wf d -> ht_tree d -> cur_node d = NO_NODE \/ cur_inside d ->
  0 <= lbl < 256 ->
  ht_dictionary_update d lbl = Ret (r, d') ->
  ht_tree d' /\ cur_inside d'.
Proof.
  intros Hwf Htree Hcur Hl Hupd.
  pose proof (ht_wf_bound d Hwf) as Hb.
  pose proof Hwf as (_ & Hsz & Hcount & Hch).
  pose proof Htree as [Hfa Hnd].
  destruct (ht_dictionary_update_tree d lbl r d' Hwf Htree Hcur ltac:(lia) Hupd)
    as [(_ & Hroot & Hnext & Hc)|(_ & Hci & Hc & Hnext & i & e0 & Hi & Hu0 & Hroot)].
  - split.
    + unfold ht_tree, used_entries. rewrite Hroot. exact Htree.
    + unfold cur_inside. rewrite Hnext.
      destruct Hc as [[_ ->]|(_ & e & He & Hu & _ & _ & ->)]; [left; lia|].
      right. rewrite Forall_forall in Hch. apply (Hch e He Hu).
  - split; [|unfold cur_inside; rewrite Hc; left; lia].
    unfold ht_tree, used_entries. rewrite Hroot. split.
    + apply Forall_insert.
      * exact Hfa.
      * cbn. intros _. unfold cur_inside, DICT_SIZE_MIN in *. lia.
    + destruct (filter_used_insert_split (h_root d) i e0
                  (mk_ht_entry true (cur_node d) lbl (h_d_next d)) Hi Hu0
                  eq_refl) as (l1 & l2 & E1 & E2).
      rewrite E2. unfold used_entries in Hnd. rewrite E1 in Hnd.
      rewrite map_app in *. cbn [map child].
      apply (Permutation_NoDup (Permutation_middle _ _ _)).
      constructor; [|exact Hnd].
      rewrite <- map_app, <- E1. intros Hin.
      apply in_map_iff in Hin. destruct Hin as (e & Hce & Hine).
      apply filter_In in Hine. destruct Hine as [Hine Hue].
      rewrite Forall_forall in Hch. specialize (Hch e Hine Hue). lia.
Qed.

Lemma dictionary_update_Ret_inside d code d' :
  dictionary_update d code = Ret d' ->
  (Z.to_nat (d_next d) < length (root d))%nat.
Proof.
  unfold dictionary_update.
  destruct (recover _ _ _ _ _) as [[buf i]| |]; try discriminate.
  cbn [mbind outcome_bind].
  destruct (if (d_min d <=? code) && (code =? u32 (d_next d - 1)) then _
            else _) as [buf2| |]; try discriminate.
  cbn [mbind outcome_bind].
  destruct (if d_min d <? d_next d then _ else _) as [tbl| |] eqn:Htbl;
    try discriminate.
  cbn [mbind outcome_bind].
  destruct (store tbl (d_next d) (set_parent code)) as [tbl2| |] eqn:Hst;
    try discriminate.
  intros _. apply store_inv in Hst. destruct Hst as [Hlt _].
  assert (Hlen : length tbl = length (root d)).
  { destruct (d_min d <? d_next d).
    - destruct (load buf2 (u32 (i + 1))) as [b| |]; try discriminate.
      cbn [mbind outcome_bind] in Htbl. apply store_length in Htbl. exact Htbl.
    - injection Htbl as <-. reflexivity. }
  lia.
Qed.

Lemma root_filled_length m b : length (root_filled m b) = length (root m).
Proof.
  unfold root_filled. destruct (d_min m <? d_next m);
    [apply length_alter|reflexivity].
Qed.

Lemma root_filled_parent m b q :
  e_parent <$> root_filled m b !! q = e_parent <$> root m !! q.
Proof.
  unfold root_filled. destruct (d_min m <? d_next m); [|reflexivity].
  destruct (decide (Z.to_nat (d_next m - 1) = q)) as [<-|Hne].
  - rewrite list_lookup_alter_eq. destruct (root m !! _); reflexivity.
  - rewrite list_lookup_alter_ne by exact Hne. reflexivity.
Qed.

Lemma root_filled_below m b q :
  0 <= d_min m -> 0 <= q -> q < d_next m - 1 \/ d_next m <= q ->
  root_filled m b !! Z.to_nat q = root m !! Z.to_nat q.
Proof.
  intros Hm H0 Hq. unfold root_filled.
  destruct (Z.ltb_spec (d_min m) (d_next m)); [|reflexivity].
  apply list_lookup_alter_ne. lia.
Qed.

Lemma root_filled_resolvable m b bound :
  resolvable_below (root m) bound -> resolvable_below (root_filled m b) bound.
Proof.
  intros H q e Hq He.
  pose proof (root_filled_parent m b (Z.to_nat q)) as Hp. rewrite He in Hp.
  destruct (root m !! Z.to_nat q) as [e0|] eqn:He0; [|discriminate].
  injection Hp as Hp. rewrite Hp. exact (H q e0 Hq He0).
Qed.

(** Two tables that differ below a code only in the label of the last
    entry, each holding there the first byte of its sequence, give the
    code the same sequence. *)
Lemma sequence_walk_pending t1 t2 n cur fuel s1 s2 b1 b2 :
  resolvable_below t1 (n + 1) ->
  DICT_SIZE_MIN <= n -> 0 <= cur <= n ->
  (Z.to_nat cur < fuel)%nat ->
  (forall q, 0 <= q < n -> t2 !! Z.to_nat q = t1 !! Z.to_nat q) ->
  e_parent <$> t2 !! Z.to_nat n = e_parent <$> t1 !! Z.to_nat n ->
  (forall e, t1 !! Z.to_nat n = Some e -> u8 (e_label e) = b1) ->
  (forall e, t2 !! Z.to_nat n = Some e -> u8 (e_label e) = b2) ->
  sequence_walk fuel t1 cur = Some s1 ->
  sequence_walk fuel t2 cur = Some s2 ->
  s1 !! 0%nat = Some b1 -> s2 !! 0%nat = Some b2 ->
  s1 = s2.
Proof.
  intros Hres Hn Hcur Hfuel Hagree Hpar Hl1 Hl2 Hs1 Hs2 Hb1 Hb2.
  assert (Hres' : resolvable_below t1 n).
  { intros q e Hq. apply Hres. lia. }
  destruct (Z.eq_dec cur n) as [->|Hne].
  - destruct fuel as [|fuel]; [discriminate|]. cbn [sequence_walk] in Hs1, Hs2.
    destruct (t1 !! Z.to_nat n) as [e1|] eqn:He1; [|discriminate].
    destruct (t2 !! Z.to_nat n) as [e2|] eqn:He2; [|discriminate].
    cbn in Hpar. injection Hpar as Hpar.
    destruct (Z.ltb_spec n DICT_SIZE_MIN); [lia|].
    pose proof (Hres n e1 ltac:(lia) He1) as Hp1.
    destruct (sequence_walk fuel t1 (e_parent e1)) as [p1|] eqn:Hp1s;
      [|discriminate].
    rewrite Hpar in Hs2.
    rewrite (sequence_walk_ext t1 t2 n) in Hs2; [|assumption|lia|].
    2:{ intros q Hq. apply Hagree. lia. }
    rewrite Hp1s in Hs2. injection Hs1 as <-. injection Hs2 as <-.
    pose proof (sequence_walk_nonempty _ _ _ _ Hp1s) as Hne.
    rewrite lookup_app_l in Hb1, Hb2 by exact Hne.
    rewrite (Hl1 e1 eq_refl), (Hl2 e2 eq_refl). congruence.
  - rewrite (sequence_walk_ext t1 t2 n) in Hs2; [|assumption|lia|].
    + congruence.
    + intros q Hq. apply Hagree. lia.
Qed.

Lemma sync_cur_below o m s b w :
  sync o m s b w -> 0 <= cur_node (c_main o) < d_next m.
Proof.
  intros H. destruct (sync_main _ _ _ _ _ H) as (Hwf & _ & Hc).
  pose proof (ht_wf_bound _ Hwf) as Hb.
  rewrite (sync_next _ _ _ _ _ H).
  unfold cur_inside, DICT_SIZE_MIN in *. lia.
Qed.

(** The decompressor takes the code of the current node: it recovers the
    sequence and installs the pending entry. *)
Lemma sync_dictionary_update o m s b w m1 :
  sync o m s b w ->
  dictionary_update m (cur_node (c_main o)) = Ret m1 ->
  d_next m < d_size m
  /\ root m1 = alter (set_parent (cur_node (c_main o))) (Z.to_nat (d_next m))
                     (root_filled m b)
  /\ d_next m1 = d_next m + 1 /\ d_min m1 = d_min m
  /\ d_size m1 = d_size m /\ d_thr m1 = d_thr m
  /\ length (bytebuf m1) = length (bytebuf m)
  /\ region (bytebuf m1) (offset m1) (Z.to_nat (n_bytes m1)) = Ret (b :: w).
Proof.
  intros Hsync Hupd.
  pose proof (sync_cur_below _ _ _ _ _ Hsync) as Hcur.
  destruct (sync_dictionary _ _ _ _ _ Hsync)
    as (Hroot & Hbuf & Hmin & Hle & Hmax & Hres & Hlit).
  pose proof (dictionary_update_Ret_inside _ _ _ Hupd) as Hin.
  assert (Hlt : d_next m < d_size m) by lia.
  assert (Hres_n : resolvable_below (root m) (d_next m)).
  { intros q e Hq. apply Hres. lia. }
  set (cur := cur_node (c_main o)) in *.
  destruct (dictionary_update_resolvable m cur Hroot Hbuf Hmin Hlt
              ltac:(lia) Hcur Hres_n)
    as (s0 & buf1 & b0 & d' & Hrec & Hls & Hfirst & Hb0 & Hupd' & Hbb & Hrt
        & Hsz & Hthr & Hdmin & Hn & Hnb & Hofs & s' & Hreg & Hseq & Hlen
        & Hhd).
  rewrite Hupd in Hupd'. injection Hupd' as <-.
  assert (Hl1 : length buf1 = length (bytebuf m)).
  { unfold DICT_SIZE_MIN, DICT_SIZE_MAX in *.
    destruct (recover_sequence (root m) (d_next m) (S (length (bytebuf m)))
                cur (bytebuf m) (d_size m - 1) Hres_n)
      as (s1 & buf1' & _ & _ & Hrec' & Hl & _); try lia.
    rewrite Hrec in Hrec'. injection Hrec' as <- _. exact Hl. }
  fold (root_filled m b0) in Hrt.
  pose proof (sync_cur _ _ _ _ _ Hsync) as Hseqb. fold cur in Hseqb.
  pose proof (sync_bytes _ _ _ _ _ Hsync) as Hbytes.
  assert (Hb : 0 <= b < 256) by (inversion Hbytes; assumption).
  (* the sequence in the updated table is the one with [b0] filled in *)
  unfold sequence_of in Hseq, Hseqb.
  rewrite Hrt, length_alter in Hseq.
  rewrite (sequence_walk_ext (root_filled m b0) _ (d_next m)) in Hseq;
    [|apply root_filled_resolvable; exact Hres_n|lia|].
  2:{ intros q Hq. apply list_lookup_alter_ne. lia. }
  rewrite root_filled_length in Hseq, Hseqb.
  assert (Heq : b :: w = s').
  { unfold DICT_SIZE_MIN in *.
    destruct (Z.ltb_spec (d_min m) (d_next m)) as [Hpend|Hnone].
    - apply (sequence_walk_pending (root_filled m b) (root_filled m b0)
               (d_next m - 1) cur (length (root m)) (b :: w) s' b b0);
        try assumption; try lia; try reflexivity.
      + replace (d_next m - 1 + 1) with (d_next m) by lia.
        apply root_filled_resolvable. exact Hres_n.
      + unfold DICT_SIZE_MIN. lia.
      + intros q Hq. rewrite !root_filled_below by lia. reflexivity.
      + rewrite !root_filled_parent. reflexivity.
      + intros e He. unfold root_filled in He.
        destruct (Z.ltb_spec (d_min m) (d_next m)); [|lia].
        rewrite list_lookup_alter_eq in He.
        destruct (root m !! Z.to_nat (d_next m - 1)); [|discriminate].
        injection He as <-. cbn. apply u8_char_to_u16. exact Hb.
      + intros e He. unfold root_filled in He.
        destruct (Z.ltb_spec (d_min m) (d_next m)); [|lia].
        rewrite list_lookup_alter_eq in He.
        destruct (root m !! Z.to_nat (d_next m - 1)); [|discriminate].
        injection He as <-. cbn. apply u8_char_to_u16. exact Hb0.
    - unfold root_filled in Hseq, Hseqb.
      destruct (Z.ltb_spec (d_min m) (d_next m)); [lia|]. congruence. }
  subst s'. cbn in Hhd. injection Hhd as <-.
  split; [exact Hlt|]. split; [exact Hrt|]. split; [exact Hn|].
  split; [exact Hdmin|]. split; [exact Hsz|]. split; [exact Hthr|].
  split; [|exact Hreg].
  rewrite Hbb. destruct ((d_min m <=? cur) && (cur =? d_next m - 1));
    [rewrite length_alter|]; exact Hl1.
Qed.

Lemma same_table_refl s : same_table s s.
Proof. reflexivity. Qed.

Lemma same_table_fields s s' :
  same_table s s' ->
  h_root s = h_root s' /\ cur_node s = cur_node s'
  /\ h_d_size s = h_d_size s' /\ h_d_thr s = h_d_thr s'
  /\ h_d_next s = h_d_next s'.
Proof.
  unfold same_table. intros H.
  pose proof (f_equal h_root H). pose proof (f_equal cur_node H).
  pose proof (f_equal h_d_size H). pose proof (f_equal h_d_thr H).
  pose proof (f_equal h_d_next H). auto.
Qed.

Lemma same_table_update s s' c :
  same_table s s' -> ht_dictionary_update s c = ht_dictionary_update s' c.
Proof.
  intros H. rewrite <- (ht_dictionary_update_prev s 0 c).
  rewrite <- (ht_dictionary_update_prev s' 0 c). rewrite H. reflexivity.
Qed.

Lemma same_table_reset s s' :
  h_d_size s = h_d_size s' -> h_d_thr s = h_d_thr s' ->
  same_table (ht_dictionary_reset s) (ht_dictionary_reset s').
Proof.
  unfold same_table, ht_dictionary_reset, set_prev_node. cbn.
  intros -> ->. reflexivity.
Qed.

Lemma feed_secondary_app l : forall s c,
  feed_secondary s (l ++ [c])
  = (s1 ← feed_secondary s l;
     '(_, s2) ← ht_dictionary_update s1 c; Ret s2).
Proof.
  induction l as [|x l IH]; intros s c; cbn [app feed_secondary].
  - cbn [mbind outcome_bind].
    destruct (ht_dictionary_update s c) as [[r s2]| |]; reflexivity.
  - destruct (ht_dictionary_update s x) as [[r s1]| |]; cbn [mbind outcome_bind];
      [apply IH|reflexivity|reflexivity].
Qed.

(** ** The copy loop of the swap *)

Lemma copy_entries_Ret slots : forall next tbl next' tbl',
  Z.of_nat (length (List.filter used slots)) < next < 4294967296 ->
  copy_entries slots next tbl = Ret (next', tbl') ->
  Forall (fun e => used e = true -> (Z.to_nat (child e) < length tbl)%nat) slots
  /\ tbl' = fold_left copied (List.filter used slots) tbl.
Proof.
  induction slots as [|e rest IH]; intros next tbl next' tbl' Hn H.
  - cbn in H. injection H as <- <-. split; [constructor|reflexivity].
  - cbn [copy_entries] in H. cbn [List.filter] in Hn |- *.
    destruct (Z.eqb_spec next 0) as [->|Hz]; [lia|].
    destruct (used e) eqn:Hu.
    + cbn [length] in Hn.
      destruct (store tbl (child e) _) as [t1| |] eqn:Hst; try discriminate.
      cbn [mbind outcome_bind] in H.
      destruct (store_inv _ _ _ _ Hst) as [Hlt Ht1]. subst t1.
      rewrite u32_small in H by lia.
      destruct (IH (next - 1) _ next' tbl' ltac:(lia) H) as [Hfa ->].
      split; [|reflexivity].
      constructor; [intros _; exact Hlt|].
      eapply List.Forall_impl; [|exact Hfa]. cbn. intros a Ha Hua.
      specialize (Ha Hua). rewrite length_alter in Ha. exact Ha.
    + destruct (IH next tbl next' tbl' Hn H) as [Hfa ->].
      split; [|reflexivity].
      constructor; [cbn; intros Hx; congruence|exact Hfa].
Qed.

Lemma fold_copied_resolvable es : forall tbl bound,
  resolvable_below tbl bound ->
  (forall e, In e es -> 0 <= parent e < child e) ->
  resolvable_below (fold_left copied es tbl) bound.
Proof.
  induction es as [|x es IH]; intros tbl bound Hres H; [exact Hres|].
  cbn [fold_left]. apply IH; [|intros e He; apply H; right; exact He].
  intros q e Hq He. unfold copied in He.
  destruct (decide (Z.to_nat (child x) = Z.to_nat q)) as [Heq|Hne].
  - rewrite <- Heq, list_lookup_alter_eq in He.
    destruct (tbl !! Z.to_nat (child x)); [|discriminate].
    injection He as <-. cbn.
    pose proof (H x (or_introl eq_refl)). unfold DICT_SIZE_MIN in *. lia.
  - rewrite list_lookup_alter_ne in He by exact Hne.
    exact (Hres q e Hq He).
Qed.

(** Codes that are all different and all inside the table are no more
    than its dynamic entries. *)
Lemma codes_inside_count (cs : list Z) (len : Z) :
  List.NoDup cs ->
  (forall c, In c cs -> DICT_SIZE_MIN <= c < len) ->
  DICT_SIZE_MIN + Z.of_nat (length cs) <= Z.max DICT_SIZE_MIN len.
Proof.
  intros Hnd Hin.
  set (all := map Z.of_nat (seq (Z.to_nat DICT_SIZE_MIN)
                                (Z.to_nat (len - DICT_SIZE_MIN)))).
  assert (Hincl : incl cs all).
  { intros c Hc. specialize (Hin c Hc). unfold all.
    apply in_map_iff. exists (Z.to_nat c). unfold DICT_SIZE_MIN in *.
    split; [lia|]. apply in_seq. lia. }
  pose proof (NoDup_incl_length Hnd Hincl) as Hlen.
  unfold all in Hlen. rewrite length_map, length_seq in Hlen.
  unfold DICT_SIZE_MIN in *. lia.
Qed.

(** As many different codes as there are codes below [len] are all of
    them. *)
Lemma codes_inside_all (cs : list Z) (len : Z) :
  List.NoDup cs ->
  (forall c, In c cs -> DICT_SIZE_MIN <= c < len) ->
  len <= DICT_SIZE_MIN + Z.of_nat (length cs) ->
  forall q, DICT_SIZE_MIN <= q < len -> In q cs.
Proof.
  intros Hnd Hin Hlen q Hq.
  set (all := map Z.of_nat (seq (Z.to_nat DICT_SIZE_MIN)
                                (Z.to_nat (len - DICT_SIZE_MIN)))).
  assert (Hincl : incl cs all).
  { intros c Hc. specialize (Hin c Hc). unfold all.
    apply in_map_iff. exists (Z.to_nat c). unfold DICT_SIZE_MIN in *.
    split; [lia|]. apply in_seq. lia. }
  assert (Hall : incl all cs).
  { apply NoDup_length_incl; [exact Hnd| |exact Hincl].
    unfold all. rewrite length_map, length_seq.
    unfold DICT_SIZE_MIN in *. lia. }
  apply Hall. unfold all. apply in_map_iff. exists (Z.to_nat q).
  unfold DICT_SIZE_MIN in *. split; [lia|]. apply in_seq. lia.
Qed.

Lemma secondary_after_inv s m c s' :
  ht_wf s -> ht_tree s -> cur_node s = NO_NODE \/ cur_inside s ->
  0 <= c < 256 -> secondary_after s m c s' ->
  ht_wf s' /\ ht_tree s' /\ (cur_node s' = NO_NODE \/ cur_inside s')
  /\ h_d_size s' = h_d_size s /\ h_d_thr s' = h_d_thr s.
Proof.
  intros Hwf Htree Hcur Hc. unfold secondary_after.
  destruct (h_d_thr m <=? h_d_next m).
  - intros [r Hupd].
    destruct (ht_dictionary_update_wf s c r s' Hwf ltac:(lia) Hupd)
      as (Hwf' & Hsz & Hthr & _).
    destruct (ht_dictionary_update_tree_inv s c r s' Hwf Htree Hcur Hc Hupd)
      as [Htree' Hcur'].
    auto 10.
  - intros ->. auto 10.
Qed.

Lemma secondary_after_fed s1 s m c s' :
  same_table s1 s -> secondary_after s m c s' ->
  if h_d_thr m <=? h_d_next m
  then exists s'', feed_secondary s1 [c] = Ret s'' /\ same_table s'' s'
  else same_table s1 s'.
Proof.
  intros Hsame. unfold secondary_after.
  destruct (h_d_thr m <=? h_d_next m).
  - intros [r H]. cbn [feed_secondary].
    rewrite (same_table_update s1 s c Hsame), H. cbn [mbind outcome_bind].
    exists s'. split; reflexivity.
  - intros ->. exact Hsame.
Qed.

Lemma literal_sequence tbl c e :
  0 <= c < 256 -> tbl !! Z.to_nat c = Some e -> u8 (e_label e) = c ->
  sequence_of tbl c = Some [c].
Proof.
  intros Hc He Hl. unfold sequence_of.
  pose proof (lookup_lt_Some _ _ _ He) as Hlt.
  destruct (length tbl) as [|k]; [lia|]. cbn [sequence_walk].
  rewrite He. destruct (Z.ltb_spec c DICT_SIZE_MIN) as [_|Hge].
  - rewrite Hl. reflexivity.
  - unfold DICT_SIZE_MIN in Hge. lia.
Qed.

Lemma sync_cur_not_none o m s b w :
  sync o m s b w -> cur_node (c_main o) <> NO_NODE.
Proof.
  intros H. destruct (sync_main _ _ _ _ _ H) as (Hwf & _ & Hc).
  pose proof (ht_wf_bound _ Hwf) as Hb. destruct Hwf as (_ & Hsz & _).
  unfold cur_inside, NO_NODE, DICT_SIZE_MIN, DICT_SIZE_MAX in *. lia.
Qed.

(** The byte continues the current sequence: nothing is emitted. *)
Lemma sync_extend o o' m s b w c main' :
  sync o m s b w -> 0 <= c < 256 ->
  ht_dictionary_update (c_main o) c = Ret (-1, main') ->
  c_main o' = main' ->
  secondary_after (c_secondary o) main' c (c_secondary o') ->
  sync o' m s b (w ++ [c]).
Proof.
  intros Hsync Hc Hupd Hmain Hsec.
  pose proof (sync_cur_not_none _ _ _ _ _ Hsync) as Hnn.
  pose proof (sync_cur_below _ _ _ _ _ Hsync) as Hcb.
  destruct (sync_main _ _ _ _ _ Hsync) as (Hwf & Htree & Hcur).
  destruct (sync_secondary _ _ _ _ _ Hsync) as (Hwfs & Htrees & Hcurs).
  destruct (sync_sizes _ _ _ _ _ Hsync) as (Hs1 & Hs2 & Hs3 & Hs4).
  pose proof (sync_next _ _ _ _ _ Hsync) as Hnext.
  pose proof (sync_dictionary _ _ _ _ _ Hsync) as Hd.
  pose proof (sync_mirror _ _ _ _ _ Hsync) as Hmir.
  pose proof (sync_cur _ _ _ _ _ Hsync) as Hseq.
  pose proof (sync_fed _ _ _ _ _ Hsync) as Hfed.
  pose proof (sync_bytes _ _ _ _ _ Hsync) as Hbytes.
  destruct (ht_dictionary_update_wf (c_main o) c (-1) main' Hwf ltac:(lia) Hupd)
    as (Hwf' & Hsz' & Hthr' & _ & _).
  destruct (ht_dictionary_update_tree_inv _ _ _ _ Hwf Htree (or_intror Hcur)
              Hc Hupd) as [Htree' Hcur'].
  destruct (ht_dictionary_update_tree (c_main o) c (-1) main' Hwf Htree
              (or_intror Hcur) ltac:(lia) Hupd)
    as [(_ & Hroot & Hn & Hcase)|(Hr & _)]; [|lia].
  destruct Hcase as [[Hno _]|(_ & e & He & Hu & Hpa & Hla & Hch)];
    [contradiction|].
  destruct (secondary_after_inv _ _ _ _ Hwfs Htrees Hcurs Hc Hsec)
    as (Hwfs' & Htrees' & Hcurs' & Hszs' & Hthrs').
  subst main'.
  constructor.
  - change (b :: w ++ [c]) with ((b :: w) ++ [c]).
    apply Forall_app. split; [exact Hbytes|].
    constructor; [exact Hc|constructor].
  - auto.
  - auto.
  - repeat split; congruence.
  - congruence.
  - exact Hd.
  - rewrite Hroot. exact Hmir.
  - rewrite Hch.
    destruct Hd as (Hlen & _ & Hmin & Hle & _ & Hres & _).
    destruct Hwf as (_ & _ & _ & Hchild).
    rewrite Forall_forall in Hmir, Hchild.
    destruct (Hmir e He Hu) as (e' & He' & Hpe & Hle').
    specialize (Hchild e He Hu).
    destruct Htree as [Hpar _]. rewrite Forall_forall in Hpar.
    destruct (Hpar e He Hu) as [Hpc _].
    pose proof (lookup_lt_Some _ _ _ He') as Hlt.
    unfold sequence_of in Hseq |- *.
    assert (Hresf : resolvable_below (root_filled m b) (d_next m))
      by (apply root_filled_resolvable; exact Hres).
    destruct (length (root_filled m b)) as [|k] eqn:Hk; [lia|].
    cbn [sequence_walk]. rewrite He'.
    destruct (Z.ltb_spec (child e) DICT_SIZE_MIN) as [Hlo|_]; [lia|].
    rewrite Hpe, Hpa.
    rewrite <- (sequence_walk_fuel (root_filled m b) (d_next m) (S k) k
                  (cur_node (c_main o)) Hresf) by lia.
    rewrite Hseq, Hle', Hla. reflexivity.
  - rewrite Hthr', Hn.
    destruct (h_d_thr (c_main o) <=? h_d_next (c_main o)) eqn:Hcond.
    + destruct Hfed as (s' & Hfeed & Hsame).
      change (b :: w ++ [c]) with ((b :: w) ++ [c]).
      rewrite feed_secondary_app, Hfeed. cbn [mbind outcome_bind].
      unfold secondary_after in Hsec. rewrite Hthr', Hn, Hcond in Hsec.
      destruct Hsec as [r Hr].
      rewrite (same_table_update s' _ c Hsame), Hr.
      exists (c_secondary o'). split; reflexivity.
    + unfold secondary_after in Hsec. rewrite Hthr', Hn, Hcond in Hsec.
      rewrite Hsec. exact Hfed.
Qed.

(** The table of the decompressor after the code of the current node,
    with the first byte [c] of the next sequence filled in. *)
Lemma root_filled_after o m s b w m1 c :
  sync o m s b w ->
  dictionary_update m (cur_node (c_main o)) = Ret m1 ->
  root_filled m1 c
  = alter (set_label (char_to_u16 c)) (Z.to_nat (d_next m))
      (alter (set_parent (cur_node (c_main o))) (Z.to_nat (d_next m))
             (root_filled m b)).
Proof.
  intros Hsync Hupd.
  destruct (sync_dictionary_update _ _ _ _ _ _ Hsync Hupd)
    as (Hlt & Hrt & Hn & Hdmin & _).
  destruct (sync_dictionary _ _ _ _ _ Hsync) as (_ & _ & Hmin & _).
  unfold root_filled at 1. rewrite Hdmin, Hn, Hrt.
  destruct (Z.ltb_spec (d_min m) (d_next m + 1)) as [_|Hge]; [|lia].
  replace (d_next m + 1 - 1) with (d_next m) by lia. reflexivity.
Qed.

Lemma d_wf_after o m s b w m1 :
  sync o m s b w ->
  dictionary_update m (cur_node (c_main o)) = Ret m1 ->
  d_wf m1.
Proof.
  intros Hsync Hupd.
  pose proof (sync_cur_below _ _ _ _ _ Hsync) as Hcb.
  destruct (sync_dictionary_update _ _ _ _ _ _ Hsync Hupd)
    as (Hlt & Hrt & Hn & Hdmin & Hsz & Hthr & Hbuf1 & _).
  destruct (sync_dictionary _ _ _ _ _ Hsync)
    as (Hroot & Hbuf & Hmin & Hle & Hmax & Hres & Hlit).
  unfold d_wf. rewrite Hsz, Hn, Hdmin, Hbuf1, Hrt.
  rewrite length_alter, root_filled_length.
  split; [exact Hroot|]. split; [exact Hbuf|]. split; [lia|].
  split; [lia|]. split; [exact Hmax|]. split.
  - intros q e Hq He.
    destruct (decide (Z.to_nat (d_next m) = Z.to_nat q)) as [Heq|Hne].
    + rewrite <- Heq, list_lookup_alter_eq in He.
      destruct (root_filled m b !! Z.to_nat (d_next m)); [|discriminate].
      injection He as <-. cbn. unfold DICT_SIZE_MIN in *. lia.
    + rewrite list_lookup_alter_ne in He by exact Hne.
      apply (root_filled_resolvable m b _ Hres q e); [|exact He].
      unfold DICT_SIZE_MIN in *. lia.
  - intros i Hi. unfold DICT_SIZE_MIN in *.
    rewrite list_lookup_alter_ne by lia.
    rewrite root_filled_below by lia. apply Hlit. exact Hi.
Qed.

(** The byte ends the current sequence and the table is not full: the
    decompressor takes the code that is emitted. *)
Lemma sync_emit_plain o o' m s b w c main' m1 s1 :
  sync o m s b w -> 0 <= c < 256 ->
  ht_dictionary_update (c_main o) c = Ret (0, main') ->
  c_main o' = main' ->
  secondary_after (c_secondary o) main' c (c_secondary o') ->
  dictionary_update m (cur_node (c_main o)) = Ret m1 ->
  same_table s1 (c_secondary o) ->
  sync o' m1 s1 c [].
Proof.
  intros Hsync Hc Hupd Hmain Hsec Hdec Hsame.
  pose proof (sync_cur_not_none _ _ _ _ _ Hsync) as Hnn.
  pose proof (sync_cur_below _ _ _ _ _ Hsync) as Hcb.
  pose proof (d_wf_after _ _ _ _ _ _ Hsync Hdec) as Hd1.
  pose proof (root_filled_after _ _ _ _ _ _ c Hsync Hdec) as HT.
  destruct (sync_dictionary_update _ _ _ _ _ _ Hsync Hdec)
    as (Hlt & Hrt & Hn1 & Hdmin & Hsz1 & Hthr1 & Hbuf1 & _).
  destruct (sync_main _ _ _ _ _ Hsync) as (Hwf & Htree & Hcur).
  destruct (sync_secondary _ _ _ _ _ Hsync) as (Hwfs & Htrees & Hcurs).
  destruct (sync_sizes _ _ _ _ _ Hsync) as (Hs1 & Hs2 & Hs3 & Hs4).
  pose proof (sync_next _ _ _ _ _ Hsync) as Hnext.
  destruct (sync_dictionary _ _ _ _ _ Hsync)
    as (Hroot & Hbuf & Hmin & Hle & Hmax & Hres & Hlit).
  pose proof (sync_mirror _ _ _ _ _ Hsync) as Hmir.
  destruct (ht_dictionary_update_wf (c_main o) c 0 main' Hwf ltac:(lia) Hupd)
    as (Hwf' & Hsz' & Hthr' & _ & _).
  destruct (ht_dictionary_update_tree_inv _ _ _ _ Hwf Htree (or_intror Hcur)
              Hc Hupd) as [Htree' Hcur'].
  destruct (ht_dictionary_update_tree (c_main o) c 0 main' Hwf Htree
              (or_intror Hcur) ltac:(lia) Hupd)
    as [(Hr & _)|(_ & _ & Hc' & Hn & i & e0 & Hi & Hu0 & Hroot')]; [lia|].
  destruct (secondary_after_inv _ _ _ _ Hwfs Htrees Hcurs Hc Hsec)
    as (Hwfs' & Htrees' & Hcurs' & Hszs' & Hthrs').
  assert (Hin : (Z.to_nat (d_next m) < length (root_filled m b))%nat).
  { rewrite root_filled_length. lia. }
  subst main'.
  constructor.
  - constructor; [exact Hc|constructor].
  - auto.
  - auto.
  - repeat split; congruence.
  - congruence.
  - exact Hd1.
  - rewrite Hroot', HT. apply Forall_insert.
    + destruct Hwf as (_ & _ & _ & Hchild).
      rewrite Forall_forall in Hmir, Hchild |- *.
      intros e He Hu. specialize (Hchild e He Hu).
      destruct (Hmir e He Hu) as (e' & He' & Hpe & Hle').
      exists e'. split; [|auto].
      unfold DICT_SIZE_MIN in *. rewrite !list_lookup_alter_ne by lia.
      exact He'.
    + intros _. cbn [child parent label].
      destruct (lookup_lt_is_Some_2 _ _ Hin) as [x Hx].
      exists (set_label (char_to_u16 c) (set_parent (cur_node (c_main o)) x)).
      rewrite <- Hnext, !list_lookup_alter_eq, Hx. cbn.
      split; [reflexivity|]. split; [reflexivity|].
      apply u8_char_to_u16. exact Hc.
  - rewrite Hc'. destruct (Hlit c Hc) as (e & He & Hl).
    apply (literal_sequence _ c e Hc); [|exact Hl].
    rewrite HT. unfold DICT_SIZE_MIN in *.
    rewrite !list_lookup_alter_ne by lia.
    rewrite root_filled_below by lia. exact He.
  - exact (secondary_after_fed _ _ _ _ _ Hsame Hsec).
Qed.

(** The swap of the decompressor, when the secondary is a table of
    bytes: every code of the secondary is inside the table, and the new
    main dictionary holds all of them. *)
Lemma dictionaries_swap_tree m s m2 s2 :
  ht_wf s -> ht_tree s ->
  dictionaries_swap m s = Ret (m2, s2) ->
  Forall (fun e => used e = true -> (Z.to_nat (child e) < length (root m))%nat)
         (h_root s)
  /\ root m2 = fold_left copied (used_entries s) (root m)
  /\ d_size m2 = d_size m /\ d_thr m2 = d_thr m
  /\ d_min m2 = h_d_next s /\ d_next m2 = h_d_next s
  /\ bytebuf m2 = bytebuf m
  /\ same_table s2 (ht_dictionary_reset s).
Proof.
  intros Hwf Htree Hswap.
  pose proof (ht_wf_bound _ Hwf) as Hb.
  destruct Hwf as (Hlen & Hsz & Hcount & Hchild).
  unfold dictionaries_swap in Hswap.
  rewrite take_ge in Hswap by lia.
  cbn [dictionary_reset root d_size d_thr n_bytes offset bytebuf] in Hswap.
  destruct (copy_entries (h_root s) (h_d_next s) (root m))
    as [[next tbl]| |] eqn:Hcopy; try discriminate.
  cbn [mbind outcome_bind] in Hswap. injection Hswap as <- <-.
  unfold DICT_SIZE_MIN, DICT_SIZE_MAX in *.
  assert (Hcnt : Z.of_nat (length (List.filter used (h_root s)))
                 < h_d_next s < 4294967296)
    by (unfold used_entries in *; lia).
  destruct (copy_entries_Ret (h_root s) (h_d_next s) (root m) next tbl Hcnt
              Hcopy) as [Hfa ->].
  cbn. split; [exact Hfa|]. repeat split; reflexivity.
Qed.

(** The byte ends the current sequence and fills the table: the
    dictionaries are swapped on both sides. *)
Lemma sync_emit_swap o o' m s b w c main' m1 s1 m2 s2 :
  sync o m s b w -> 0 <= c < 256 ->
  ht_dictionary_update (c_main o) c = Ret (0, main') ->
  c_main o' = set_cur_node (c_secondary o) c ->
  secondary_after (ht_dictionary_reset main') (c_main o') c (c_secondary o') ->
  dictionary_update m (cur_node (c_main o)) = Ret m1 ->
  same_table s1 (c_secondary o) ->
  dictionaries_swap m1 s1 = Ret (m2, s2) ->
  sync o' m2 s2 c [].
Proof.
  intros Hsync Hc Hupd Hmain Hsec Hdec Hsame Hswap.
  pose proof (d_wf_after _ _ _ _ _ _ Hsync Hdec) as Hd1.
  destruct (sync_dictionary_update _ _ _ _ _ _ Hsync Hdec)
    as (Hlt & Hrt & Hn1 & Hdmin & Hsz1 & Hthr1 & Hbuf1 & _).
  destruct (sync_main _ _ _ _ _ Hsync) as (Hwf & Htree & Hcur).
  destruct (sync_secondary _ _ _ _ _ Hsync) as (Hwfs & Htrees & Hcurs).
  destruct (sync_sizes _ _ _ _ _ Hsync) as (Hs1 & Hs2 & Hs3 & Hs4).
  destruct (ht_dictionary_update_wf (c_main o) c 0 main' Hwf ltac:(lia) Hupd)
    as (Hwf' & Hsz' & Hthr' & _ & _).
  destruct (same_table_fields _ _ Hsame) as (Hr1 & Hc1 & Hz1 & Ht1 & Hx1).
  assert (Hwf1 : ht_wf s1).
  { unfold ht_wf, used_entries in *. rewrite Hr1, Hz1, Hx1. exact Hwfs. }
  assert (Htree1 : ht_tree s1).
  { unfold ht_tree, used_entries in *. rewrite Hr1. exact Htrees. }
  destruct (dictionaries_swap_tree _ _ _ _ Hwf1 Htree1 Hswap)
    as (Hins & Hroot2 & Hsz2 & Hthr2 & Hmin2 & Hnext2 & Hbuf2 & Hsame2).
  rewrite Hr1 in Hins. unfold used_entries in Hroot2. rewrite Hr1 in Hroot2.
  fold (used_entries (c_secondary o)) in Hroot2.
  rewrite Hx1 in Hmin2, Hnext2.
  destruct Hd1 as (Hroot & Hbuf & Hmin & Hle & Hmax & Hres & Hlit).
  pose proof (ht_wf_bound _ Hwfs) as Hbs.
  pose proof Hwfs as (Hlens & Hszs & Hcounts & Hchilds).
  pose proof Htrees as [Hpars Hnds].
  rewrite Forall_forall in Hins, Hchilds, Hpars.
  assert (Hused : forall e, In e (used_entries (c_secondary o)) ->
            In e (h_root (c_secondary o)) /\ used e = true).
  { intros e He. apply filter_In in He. exact He. }
  (* the codes of the secondary fit in the table *)
  assert (Hfit : h_d_next (c_secondary o) <= d_size m1).
  { pose proof (codes_inside_count (map child (used_entries (c_secondary o)))
                  (d_size m1) Hnds) as Hcnt.
    rewrite length_map in Hcnt. unfold DICT_SIZE_MIN in *.
    assert (Hall : forall x, In x (map child (used_entries (c_secondary o))) ->
              260 <= x < d_size m1).
    { intros x Hx. apply in_map_iff in Hx. destruct Hx as (e & <- & He).
      destruct (Hused e He) as [He1 He2].
      specialize (Hins e He1 He2). specialize (Hchilds e He1 He2). lia. }
    specialize (Hcnt Hall). lia. }
  assert (Hlit2 : forall i, 0 <= i < 256 ->
            exists e, root m2 !! Z.to_nat i = Some e /\ u8 (e_label e) = i).
  { intros i Hi. rewrite Hroot2, fold_copied_other; [apply Hlit; exact Hi|].
    intros e He. destruct (Hused e He) as [He1 He2].
    specialize (Hchilds e He1 He2). unfold DICT_SIZE_MIN in *. lia. }
  assert (Hfilled : root_filled m2 c = root m2).
  { unfold root_filled. rewrite Hmin2, Hnext2, Z.ltb_irrefl. reflexivity. }
  destruct (secondary_after_inv _ _ _ _ (ht_wf_reset _ Hwf')
              (ht_tree_reset main') (or_introl eq_refl) Hc Hsec)
    as (Hwfs' & Htrees' & Hcurs' & Hszs' & Hthrs').
  cbn [ht_dictionary_reset h_d_size h_d_thr] in Hszs', Hthrs'.
  constructor.
  - constructor; [exact Hc|constructor].
  - rewrite Hmain. split; [apply ht_wf_set_cur_node; exact Hwfs|].
    split; [exact Htrees|]. left. cbn. exact Hc.
  - auto.
  - rewrite Hmain. cbn [set_cur_node h_d_size h_d_thr].
    repeat split; congruence.
  - rewrite Hmain. cbn [set_cur_node h_d_next]. exact Hnext2.
  - unfold d_wf. rewrite Hroot2, length_fold_copied, Hbuf2, Hsz2, Hmin2, Hnext2.
    split; [exact Hroot|]. split; [exact Hbuf|]. split; [lia|].
    split; [exact Hfit|]. split; [exact Hmax|]. split.
    + intros q e Hq He.
      assert (Hin : In q (map child (used_entries (c_secondary o)))).
      { apply (codes_inside_all _ (h_d_next (c_secondary o)) Hnds);
          [|rewrite length_map; lia|exact Hq].
        intros x Hx. apply in_map_iff in Hx. destruct Hx as (y & <- & Hy).
        destruct (Hused y Hy) as [Hy1 Hy2]. exact (Hchilds y Hy1 Hy2). }
      apply in_map_iff in Hin. destruct Hin as (y & <- & Hy).
      destruct (Hused y Hy) as [Hy1 Hy2].
      rewrite fold_copied_lookup in He.
      * injection He as <-. cbn [e_parent].
        destruct (Hpars y Hy1 Hy2) as [Hp _]. exact Hp.
      * exact Hnds.
      * intros x Hx. destruct (Hused x Hx) as [Hxa Hxb].
        specialize (Hchilds x Hxa Hxb). unfold DICT_SIZE_MIN in *. lia.
      * exact Hy.
      * apply (Hins y Hy1 Hy2).
    + rewrite <- Hroot2. exact Hlit2.
  - rewrite Hmain, Hfilled. cbn [set_cur_node h_root].
    apply Forall_forall. intros e He Hu. rewrite Hroot2.
    exists (mk_entry (parent e) (label e)).
    split; [|split; [reflexivity|cbn; apply u8_small; apply (Hpars e He Hu)]].
    apply fold_copied_lookup.
    + exact Hnds.
    + intros x Hx. destruct (Hused x Hx) as [Hxa Hxb].
      specialize (Hchilds x Hxa Hxb). unfold DICT_SIZE_MIN in *. lia.
    + apply filter_In. split; assumption.
    + apply (Hins e He Hu).
  - rewrite Hmain, Hfilled. cbn [set_cur_node cur_node].
    destruct (Hlit2 c Hc) as (e & He & Hl).
    exact (literal_sequence _ c e Hc He Hl).
  - apply (secondary_after_fed _ (ht_dictionary_reset main')); [|exact Hsec].
    unfold same_table in *. rewrite Hsame2.
    apply same_table_reset; congruence.
Qed.

Lemma lookup_map_seq {A} (f : nat -> A) n : forall a q,
  (q < n)%nat -> map f (seq a n) !! q = Some (f (a + q)%nat).
Proof.
  induction n as [|n IH]; intros a q Hq; [lia|].
  destruct q as [|q]; cbn [seq map].
  - rewrite Nat.add_0_r. reflexivity.
  - cbn [lookup list_lookup]. change (map f (seq (S a) n) !! q = Some (f (a + S q)%nat)).
    rewrite IH by lia. f_equal. f_equal. lia.
Qed.

Lemma dictionary_new_literal a D i :
  0 <= i < DICT_SIZE_MIN ->
  root (dictionary_new a D) !! Z.to_nat i = Some (mk_entry 0 i).
Proof.
  intros Hi. cbn [dictionary_new root]. unfold DICT_SIZE_MIN in *.
  rewrite lookup_app_l by (rewrite length_map, length_seq; lia).
  rewrite lookup_map_seq by lia.
  cbn [Nat.add]. rewrite Z2Nat.id by lia. reflexivity.
Qed.

(** What [dictionary_new] leaves unwritten does not count: no code is
    below [d_next] yet. *)
Lemma d_wf_new a D :
  DICT_SIZE_MIN + 1 <= D <= DICT_SIZE_MAX -> d_wf (dictionary_new a D).
Proof.
  intros HD.
  assert (Hlen : Z.of_nat (length (root (dictionary_new a D))) = D).
  { cbn [dictionary_new root]. rewrite DICT_LIMIT_id by lia.
    rewrite length_app, !length_map, !length_seq.
    unfold DICT_SIZE_MIN in *. lia. }
  assert (Hbuf : Z.of_nat (length (bytebuf (dictionary_new a D))) = D).
  { cbn [dictionary_new bytebuf]. rewrite length_map, length_seq.
    unfold DICT_SIZE_MIN in *. lia. }
  assert (Hsz : d_size (dictionary_new a D) = D)
    by (cbn [dictionary_new d_size]; apply DICT_LIMIT_id; lia).
  unfold d_wf. rewrite Hlen, Hbuf, Hsz.
  change (d_min (dictionary_new a D)) with DICT_SIZE_MIN.
  change (d_next (dictionary_new a D)) with DICT_SIZE_MIN.
  split; [reflexivity|]. split; [reflexivity|]. split; [lia|].
  split; [lia|]. split; [lia|]. split.
  - intros q e Hq. lia.
  - intros i Hi. exists (mk_entry 0 i).
    split; [|apply u8_small; exact Hi].
    apply (dictionary_new_literal a D). unfold DICT_SIZE_MIN. lia.
Qed.

(** [sync] looks at the two dictionaries only. *)
Lemma sync_dicts o1 o2 m s b w :
  c_main o1 = c_main o2 -> c_secondary o1 = c_secondary o2 ->
  sync o1 m s b w -> sync o2 m s b w.
Proof.
  intros H1 H2 [].
  constructor; rewrite <- ?H1, <- ?H2; assumption.
Qed.

Lemma c_main_written o : c_main (written o) = c_main o.
Proof. unfold written. destruct (0 <? c_n_bits o); reflexivity. Qed.

Lemma c_secondary_written o : c_secondary (written o) = c_secondary o.
Proof. unfold written. destruct (0 <? c_n_bits o); reflexivity. Qed.


(** After the size: the first byte is the current node of the compressor
    and the decompressor has its two fresh dictionaries. *)
Lemma sync_start a D o c :
  DICT_SIZE_MIN + 1 <= D <= DICT_SIZE_MAX -> 0 <= c < 256 ->
  h_root (c_main o) = h_root (ht_dictionary_new D) ->
  cur_node (c_main o) = c ->
  h_d_size (c_main o) = D -> h_d_thr (c_main o) = DICT_SIZE_THRESHOLD D ->
  h_d_next (c_main o) = DICT_SIZE_MIN ->
  secondary_after (ht_dictionary_new D) (c_main o) c (c_secondary o) ->
  sync o (dictionary_new a D) (ht_dictionary_new D) c [].
Proof.
  intros HD Hc Hroot Hcur Hsz Hthr Hnext Hsec.
  pose proof (ht_wf_new D) as Hwfn. pose proof (ht_tree_new D) as Htreen.
  assert (Hlim : DICT_LIMIT D = D) by (apply DICT_LIMIT_id; lia).
  assert (Hnsz : h_d_size (ht_dictionary_new D) = D) by exact Hlim.
  assert (Hnthr : h_d_thr (ht_dictionary_new D) = DICT_SIZE_THRESHOLD D)
    by (cbn; rewrite Hlim; reflexivity).
  destruct (secondary_after_inv _ _ _ _ Hwfn Htreen (or_introl eq_refl) Hc Hsec)
    as (Hwfs & Htrees & Hcurs & Hszs & Hthrs).
  pose proof (d_wf_new a D HD) as Hd.
  assert (Hfilled : root_filled (dictionary_new a D) c
                    = root (dictionary_new a D)).
  { unfold root_filled. cbn [dictionary_new d_min d_next].
    rewrite Z.ltb_irrefl. reflexivity. }
  constructor.
  - constructor; [exact Hc|constructor].
  - split; [|split].
    + unfold ht_wf, used_entries in *. rewrite Hroot, Hsz, Hnext.
      rewrite Hnsz in Hwfn. exact Hwfn.
    + unfold ht_tree, used_entries in *. rewrite Hroot. exact Htreen.
    + left. rewrite Hcur. exact Hc.
  - auto.
  - rewrite Hszs, Hthrs, Hsz, Hthr, Hnsz, Hnthr.
    cbn [dictionary_new d_size d_thr]. rewrite Hlim. auto.
  - rewrite Hnext. reflexivity.
  - exact Hd.
  - rewrite Hroot. cbn [ht_dictionary_new h_root].
    apply Forall_forall. intros e He Hu.
    apply list_elem_of_In, elem_of_replicate in He. destruct He as [-> _].
    discriminate.
  - rewrite Hfilled, Hcur.
    apply (literal_sequence _ c (mk_entry 0 c) Hc);
      [|apply u8_small; exact Hc].
    apply dictionary_new_literal. unfold DICT_SIZE_MIN. lia.
  - exact (secondary_after_fed _ _ _ _ _ (same_table_refl _) Hsec).
Qed.

Lemma decompress_data_unfold d m s code :
  d_main d = Some m -> d_secondary d = Valid s ->
  decompress_data d code
  = (m1 ← dictionary_update m code;
     s1 ← fed m1 s;
     '(m2, s2) ← (if d_next m1 =? d_size m1 then dictionaries_swap m1 s1
                  else Ret (m1, s1));
     Ret (0, with_dictionaries d m2 s2)).
Proof. intros Hm Hs. unfold decompress_data. rewrite Hm, Hs. reflexivity. Qed.


(** The secondary of the decompressor after the sequence of the code has
    gone through it is the secondary of the compressor. *)
Lemma sync_fed_after o m s b w m1 s1 :
  sync o m s b w ->
  dictionary_update m (cur_node (c_main o)) = Ret m1 ->
  fed m1 s = Ret s1 ->
  same_table s1 (c_secondary o).
Proof.
  intros Hsync Hupd Hfed.
  destruct (sync_dictionary_update _ _ _ _ _ _ Hsync Hupd)
    as (_ & _ & Hn & _ & _ & Hthr & _ & Hreg).
  destruct (sync_sizes _ _ _ _ _ Hsync) as (_ & _ & _ & Hs4).
  pose proof (sync_next _ _ _ _ _ Hsync) as Hnext.
  pose proof (sync_fed _ _ _ _ _ Hsync) as Hf.
  unfold fed in Hfed. rewrite Hthr, Hn, Hs4, Hnext in Hfed.
  destruct (Z.ltb_spec (h_d_thr (c_main o)) (h_d_next (c_main o) + 1))
    as [Hlt|Hge];
    destruct (Z.leb_spec (h_d_thr (c_main o)) (h_d_next (c_main o)))
    as [Hle|Hgt]; try lia.
  - rewrite Hreg in Hfed. cbn [mbind outcome_bind] in Hfed.
    destruct Hf as (s' & Hs' & Hsame). rewrite Hs' in Hfed.
    injection Hfed as <-. exact Hsame.
  - injection Hfed as <-. exact Hf.
Qed.

(** In the middle of a sequence the code of the current node is a data
    code for the decompressor. *)
Lemma decompress_code_sync a o d m s b w :
  d_main d = Some m -> sync o m s b w -> d_next m < DICT_SIZE_MAX ->
  decompress_code a d (cur_node (c_main o))
  = decompress_data d (cur_node (c_main o)).
Proof.
  intros Hm Hsync Hbelow.
  destruct (sync_main _ _ _ _ _ Hsync) as (_ & _ & Hcur).
  destruct (sync_dictionary _ _ _ _ _ Hsync) as (_ & _ & _ & Hle & Hmax & _).
  unfold decompress_code. rewrite Hm.
  unfold cur_inside, DICT_CODE_EOF, DICT_CODE_START, DICT_CODE_SIZE,
    DICT_SIZE_MIN in *.
  destruct (Z.eqb_spec (cur_node (c_main o)) 256); [lia|].
  destruct (Z.eqb_spec (cur_node (c_main o)) 258); [lia|].
  destruct (Z.eqb_spec (cur_node (c_main o)) 257); [lia|].
  destruct (Z.eqb_spec (d_next m) DICT_SIZE_MAX); [lia|]. reflexivity.
Qed.

(** What [compress_byte_installs] says in the middle of a sequence. *)
Lemma sync_update_returns o m s b w :
  sync o m s b w -> d_next m < d_size m ->
  exists m1, dictionary_update m (cur_node (c_main o)) = Ret m1.
Proof.
  intros Hsync Hlt.
  pose proof (sync_cur_below _ _ _ _ _ Hsync) as Hcur.
  destruct (sync_dictionary _ _ _ _ _ Hsync)
    as (Hroot & Hbuf & Hmin & Hle & Hmax & Hres & Hlit).
  assert (Hres_n : resolvable_below (root m) (d_next m)).
  { intros q e Hq. apply Hres. lia. }
  destruct (dictionary_update_resolvable m (cur_node (c_main o)) Hroot Hbuf
              Hmin Hlt ltac:(lia) Hcur Hres_n)
    as (_ & _ & _ & d' & _ & _ & _ & _ & Hupd & _).
  exists d'. exact Hupd.
Qed.

Lemma sync_fed_returns o m s b w m1 :
  sync o m s b w ->
  dictionary_update m (cur_node (c_main o)) = Ret m1 ->
  exists s1, fed m1 s = Ret s1.
Proof.
  intros Hsync Hupd.
  destruct (sync_dictionary_update _ _ _ _ _ _ Hsync Hupd)
    as (_ & _ & Hn & _ & _ & Hthr & _ & Hreg).
  destruct (sync_sizes _ _ _ _ _ Hsync) as (_ & _ & _ & Hs4).
  pose proof (sync_next _ _ _ _ _ Hsync) as Hnext.
  pose proof (sync_fed _ _ _ _ _ Hsync) as Hf.
  unfold fed. rewrite Hthr, Hn, Hs4, Hnext.
  destruct (Z.ltb_spec (h_d_thr (c_main o)) (h_d_next (c_main o) + 1))
    as [Hlt|Hge];
    destruct (Z.leb_spec (h_d_thr (c_main o)) (h_d_next (c_main o)))
    as [Hle|Hgt]; try lia.
  - rewrite Hreg. cbn [mbind outcome_bind].
    destruct Hf as (s' & Hs' & _). eauto.
  - eauto.
Qed.





Lemma written_bits o : c_n_bits (written o) <= 0.
Proof.
  unfold written. destruct (Z.ltb_spec 0 (c_n_bits o)); [cbn; lia|exact H].
Qed.

Lemma pending_nil_written o : pending o = [] -> written o = o.
Proof.
  unfold pending, written. destruct (0 <? c_n_bits o); [discriminate|reflexivity].
Qed.

Lemma pending_cons o p tl : pending o = p :: tl -> tl = [].
Proof.
  unfold pending. destruct (0 <? c_n_bits o); [|discriminate].
  intros [= _ <-]. reflexivity.
Qed.




(** The end marker is no data code: it is written by lines 325-329 on
    [bitlen d_next] bits.  With size 600 and 252 different bytes the
    compressor has [d_next = 512] when it writes the end marker, on 10
    bits; the decompressor that has taken the pairs before it has
    [d_next = 512] as well. *)
Lemma end_marker_width :
  let out := fst (lz78_compress 600 bytes_0_251) in
  out !! 254%nat = Some (DICT_CODE_EOF, 10)
  /\ match rounds (lz78_new_c 600) (bytes_0_251 ++ [EOF; EOF]) with
     | Ret o => pending o = [(DICT_CODE_EOF, 10)]
                /\ h_d_next (c_main o) = 512
                /\ bitlen (h_d_next (c_main o) - 1) = 9
     | _ => False
     end
  /\ match submit_codes (zeroed true true) (lz78_new_d (zeroed true true))
             (take 254 (map fst out)) with
     | Ret d => match d_main d with
                | Some m => d_next m = 512 /\ bitlen (d_next m) = 10
                | None => False
                end
     | _ => False
     end.
Proof. vm_compute. repeat split; reflexivity. Qed.




(** ** More on [bitlen] and on the table of the compressor *)

(** X1: [bitlen i] is the number of binary digits of [i]: it is 0 for 0,
    and otherwise the [n] with [2^(n-1) <= i < 2^n]; it is at most 32, so
    it fits the [uint8_t] it is returned in. *)
Theorem bitlen_digits (i : Z) :
  0 <= i < 4294967296 ->
  0 <= bitlen i <= 32
  /\ (bitlen i = 0 <-> i = 0)
  /\ (0 < i -> 2 ^ (bitlen i - 1) <= i < 2 ^ bitlen i).
Proof.
  intros Hi. rewrite bitlen_log2 by exact Hi.
  destruct (Z.eqb_spec i 0) as [->|Hne].
  - split; [lia|]. split; [tauto|lia].
  - pose proof (Z.log2_spec i ltac:(lia)) as [Hlo Hhi].
    pose proof (Z.log2_nonneg i) as Hnn.
    assert (Hlt : Z.log2 i < 32).
    { apply Z.log2_lt_pow2; lia. }
    split; [lia|]. split; [split; lia|].
    intros _. replace (Z.log2 i + 1 - 1) with (Z.log2 i) by lia.
    replace (Z.log2 i + 1) with (Z.succ (Z.log2 i)) by lia. lia.
Qed.

Lemma bitlen_digits_witness :
  0 <= bitlen 4096 <= 32
  /\ (bitlen 4096 = 0 <-> 4096 = 0)
  /\ (0 < 4096 -> 2 ^ (bitlen 4096 - 1) <= 4096 < 2 ^ bitlen 4096).
Proof. apply (bitlen_digits 4096). lia. Defined.

Lemma probe_Diverge_all tbl size cur lbl hash :
  Z.of_nat (length tbl) = size -> 0 <= hash < size ->
  probe (length tbl) tbl size cur lbl hash = Diverge ->
  Forall (fun e => used e = true) tbl.
Proof.
  intros Hlen Hh H. apply Forall_forall. intros e He.
  apply list_elem_of_In, list_elem_of_lookup in He. destruct He as [t Ht].
  pose proof (lookup_lt_Some _ _ _ Ht) as Hlt.
  set (k := Z.to_nat ((Z.of_nat t - hash) mod size)).
  pose proof (Z.mod_pos_bound (Z.of_nat t - hash) size ltac:(lia)) as Hk.
  destruct (probe_Diverge_slots _ _ _ _ _ hash Hh H k ltac:(lia))
    as (e' & He' & Hp').
  replace ((hash + Z.of_nat k) mod size) with (Z.of_nat t) in He'.
  - rewrite Nat2Z.id, Ht in He'. injection He' as <-.
    unfold passed in Hp'. apply andb_true_iff in Hp'. apply Hp'.
  - unfold k. rewrite Z2Nat.id by lia.
    rewrite Zplus_mod_idemp_r.
    replace (hash + (Z.of_nat t - hash)) with (Z.of_nat t) by lia.
    symmetry. apply Z.mod_small. lia.
Qed.

Lemma probe_inside tbl size cur lbl fuel : forall hash,
  Z.of_nat (length tbl) = size -> 0 <= hash < size ->
  probe fuel tbl size cur lbl hash <> Fault.
Proof.
  induction fuel as [|fuel IH]; intros hash Hlen Hh; [discriminate|].
  cbn [probe].
  destruct (lookup_lt_is_Some_2 tbl (Z.to_nat hash) ltac:(lia)) as [e ->].
  destruct (used e); [|discriminate].
  destruct ((parent e =? cur) && (label e =? lbl)); [discriminate|].
  apply IH; [exact Hlen|apply Z.mod_pos_bound; lia].
Qed.

Lemma ht_hash_range d lbl : 0 < h_d_size d -> 0 <= ht_hash d lbl < h_d_size d.
Proof. intros H. unfold ht_hash. apply Z.mod_pos_bound. exact H. Qed.

Lemma ht_dictionary_update_free d lbl :
  Z.of_nat (length (h_root d)) = h_d_size d ->
  (exists e, In e (h_root d) /\ used e = false) ->
  exists r d', ht_dictionary_update d lbl = Ret (r, d').
Proof.
  intros Hlen (e & He & Hu).
  assert (Hsz : 0 < h_d_size d).
  { destruct (h_root d); [destruct He|cbn in Hlen; lia]. }
  unfold ht_dictionary_update, ht_dictionary_update_fuel.
  cbn [set_prev_node cur_node h_root h_d_size prev_node h_d_next h_d_thr].
  destruct (cur_node d =? NO_NODE); [eauto|].
  replace (Z.to_nat (h_d_size d)) with (length (h_root d)) by lia.
  pose proof (ht_hash_range (set_prev_node d (cur_node d)) (u16 lbl) Hsz) as Hh.
  cbn [set_prev_node h_d_size] in Hh.
  destruct (probe _ _ _ _ _ _) as [[c|h]| |] eqn:Hp; cbn [mbind outcome_bind].
  - eauto.
  - eauto.
  - exfalso. exact (probe_inside _ _ _ _ _ _ Hlen Hh Hp).
  - exfalso. pose proof (probe_Diverge_all _ _ _ _ _ Hlen Hh Hp) as Hall.
    rewrite Forall_forall in Hall. rewrite (Hall e He) in Hu. discriminate.
Qed.

Lemma ht_dictionary_update_inside d lbl :
  Z.of_nat (length (h_root d)) = h_d_size d -> 0 < h_d_size d ->
  ht_dictionary_update d lbl <> Fault.
Proof.
  intros Hlen Hsz.
  unfold ht_dictionary_update, ht_dictionary_update_fuel.
  cbn [set_prev_node cur_node h_root h_d_size prev_node h_d_next h_d_thr].
  destruct (cur_node d =? NO_NODE); [discriminate|].
  pose proof (ht_hash_range (set_prev_node d (cur_node d)) (u16 lbl) Hsz) as Hh.
  cbn [set_prev_node h_d_size] in Hh.
  destruct (probe _ _ _ _ _ _) as [[c|h]| |] eqn:Hp; cbn [mbind outcome_bind];
    try discriminate.
  exfalso. exact (probe_inside _ _ _ _ _ _ Hlen Hh Hp).
Qed.

(** X2: the search of [ht_dictionary_update] ends, on a table that has
    its [d_size] slots, as soon as one slot is unused: the call returns,
    without leaving the table. *)
Theorem ht_dictionary_update_returns (d : ht_dictionary) (lbl : Z) :
  Z.of_nat (length (h_root d)) = h_d_size d ->
  (exists e, In e (h_root d) /\ used e = false) ->
  exists r d', ht_dictionary_update d lbl = Ret (r, d').
Proof. exact (ht_dictionary_update_free d lbl). Qed.

(** From node 97 the label 11 hashes to slot 180, which holds the pair
    (97, 98): the search goes on to slot 181. *)
Lemma ht_dictionary_update_returns_witness :
  exists r d', ht_dictionary_update table_at_97 11 = Ret (r, d').
Proof.
  apply (ht_dictionary_update_returns table_at_97 11).
  - reflexivity.
  - exists ht_zero. split; [left; reflexivity|reflexivity].
Defined.

(** ** Insertion and search in the table of the compressor *)

Lemma probe_insert_found tbl size cur lbl c fuel : forall hash h,
  probe fuel tbl size cur lbl hash = Ret (Free h) ->
  probe fuel (<[Z.to_nat h := mk_ht_entry true cur lbl c]> tbl) size cur lbl
        hash
  = Ret (Found c).
Proof.
  induction fuel as [|fuel IH]; intros hash h H; [discriminate|].
  cbn [probe] in H |- *.
  destruct (tbl !! Z.to_nat hash) as [e|] eqn:He; [|discriminate].
  destruct (used e) eqn:Hu.
  - destruct ((parent e =? cur) && (label e =? lbl)) eqn:Hm; [discriminate|].
    destruct (probe_Free _ _ _ _ _ _ _ H) as (e0 & He0 & Hu0).
    assert (Hne : Z.to_nat h <> Z.to_nat hash) by congruence.
    rewrite list_lookup_insert_ne by exact Hne.
    rewrite He, Hu, Hm. apply IH. exact H.
  - injection H as <-.
    rewrite list_lookup_insert_eq by (eapply lookup_lt_Some; exact He).
    cbn [used parent label child]. rewrite !Z.eqb_refl. reflexivity.
Qed.

Lemma probe_insert_other tbl size cur lbl c x fuel : forall hash (i : nat) e0,
  probe fuel tbl size cur lbl hash = Ret (Found c) ->
  tbl !! i = Some e0 -> used e0 = false ->
  probe fuel (<[i := x]> tbl) size cur lbl hash = Ret (Found c).
Proof.
  induction fuel as [|fuel IH]; intros hash i e0 H Hi H0; [discriminate|].
  cbn [probe] in H |- *.
  destruct (tbl !! Z.to_nat hash) as [e|] eqn:He; [|discriminate].
  destruct (used e) eqn:Hu; [|discriminate].
  assert (Hne : i <> Z.to_nat hash) by congruence.
  rewrite list_lookup_insert_ne by exact Hne. rewrite He, Hu.
  destruct ((parent e =? cur) && (label e =? lbl)); [exact H|].
  exact (IH _ _ _ H Hi H0).
Qed.

(** X3: a pair that [ht_dictionary_update] has just inserted is found by
    the next search for it: from the same node and with the same label
    the update returns -1 and moves to the code that was handed out,
    without touching the table. *)
Theorem ht_dictionary_update_finds_inserted (d d' : ht_dictionary) (lbl : Z) :
  cur_node d <> NO_NODE ->
  ht_dictionary_update d lbl = Ret (0, d') ->
  ht_dictionary_update (set_cur_node d' (cur_node d)) lbl
  = Ret (-1, set_cur_node (set_prev_node d' (cur_node d)) (h_d_next d)).
Proof.
  intros Hno H. revert H.
  unfold ht_dictionary_update, ht_dictionary_update_fuel.
  cbn [set_prev_node set_cur_node cur_node h_root h_d_size prev_node h_d_next
       h_d_thr].
  destruct (Z.eqb_spec (cur_node d) NO_NODE) as [|_]; [contradiction|].
  unfold ht_hash.
  cbn [set_prev_node set_cur_node cur_node h_root h_d_size prev_node h_d_next
       h_d_thr].
  destruct (probe _ _ _ _ _ _) as [[c|h]| |] eqn:Hp; cbn [mbind outcome_bind];
    try discriminate.
  intros [= <-].
  cbn [set_prev_node set_cur_node cur_node h_root h_d_size prev_node h_d_next
       h_d_thr].
  destruct (Z.eqb_spec (cur_node d) NO_NODE) as [|_]; [contradiction|].
  rewrite (probe_insert_found _ _ _ _ (h_d_next d) _ _ _ Hp).
  reflexivity.
Qed.

Lemma ht_dictionary_update_finds_inserted_witness :
  ht_dictionary_update (set_cur_node table_97_98 (cur_node table_97)) 98
  = Ret (-1, set_cur_node (set_prev_node table_97_98 (cur_node table_97))
                          (h_d_next table_97)).
Proof.
  apply (ht_dictionary_update_finds_inserted table_97 table_97_98 98).
  - vm_compute. discriminate.
  - vm_compute. reflexivity.
Defined.

(** X4: an insertion never hides an older entry: a pair that a search
    finds is still found, with the same code, after
    [ht_dictionary_update] has inserted another pair. *)
Theorem ht_dictionary_update_keeps_found (d d1 d2 : ht_dictionary)
    (lbl cur2 lbl2 : Z) :
  cur_node d <> NO_NODE -> cur2 <> NO_NODE ->
  ht_dictionary_update d lbl = Ret (-1, d1) ->
  ht_dictionary_update (set_cur_node d cur2) lbl2 = Ret (0, d2) ->
  ht_dictionary_update (set_cur_node d2 (cur_node d)) lbl
  = Ret (-1, set_cur_node (set_prev_node d2 (cur_node d)) (cur_node d1)).
Proof.
  intros Hno Hno2 H1 H2. revert H1 H2.
  unfold ht_dictionary_update, ht_dictionary_update_fuel.
  cbn [set_prev_node set_cur_node cur_node h_root h_d_size prev_node h_d_next
       h_d_thr].
  destruct (Z.eqb_spec (cur_node d) NO_NODE) as [|_]; [contradiction|].
  destruct (Z.eqb_spec cur2 NO_NODE) as [|_]; [contradiction|].
  unfold ht_hash.
  cbn [set_prev_node set_cur_node cur_node h_root h_d_size prev_node h_d_next
       h_d_thr].
  destruct (probe _ _ _ (cur_node d) _ _) as [[c|h]| |] eqn:Hp;
    cbn [mbind outcome_bind]; try discriminate.
  intros [= <-].
  destruct (probe _ _ _ cur2 _ _) as [[c2|h2]| |] eqn:Hp2;
    cbn [mbind outcome_bind]; try discriminate.
  intros [= <-].
  cbn [set_prev_node set_cur_node cur_node h_root h_d_size prev_node h_d_next
       h_d_thr].
  destruct (Z.eqb_spec (cur_node d) NO_NODE) as [|_]; [contradiction|].
  destruct (probe_Free _ _ _ _ _ _ _ Hp2) as (e0 & He0 & Hu0).
  rewrite (probe_insert_other _ _ _ _ _ _ _ _ _ _ Hp He0 Hu0).
  reflexivity.
Qed.

Lemma ht_dictionary_update_keeps_found_witness :
  ht_dictionary_update (set_cur_node table_more (cur_node table_at_97)) 98
  = Ret (-1, set_cur_node (set_prev_node table_more (cur_node table_at_97))
                          (cur_node table_found)).
Proof.
  apply (ht_dictionary_update_keeps_found table_at_97 table_found table_more
           98 98 99).
  - vm_compute. discriminate.
  - vm_compute. discriminate.
  - vm_compute. reflexivity.
  - vm_compute. reflexivity.
Defined.

Lemma bitlen_above n : 0 <= n < 4294967296 -> n < 2 ^ bitlen n.
Proof.
  intros Hn. rewrite bitlen_log2 by exact Hn.
  destruct (Z.eqb_spec n 0) as [->|Hne]; [cbn; lia|].
  pose proof (Z.log2_spec n ltac:(lia)) as [_ Hhi].
  replace (Z.log2 n + 1) with (Z.succ (Z.log2 n)) by lia. exact Hhi.
Qed.

Lemma bitlen_of_next d :
  ht_wf d -> 9 <= bitlen (h_d_next d) <= 21.
Proof.
  intros Hwf. pose proof (ht_wf_bound _ Hwf) as Hb.
  destruct Hwf as (_ & Hsz & _).
  unfold DICT_SIZE_MIN, DICT_SIZE_MAX in *.
  pose proof (bitlen_mono 260 (h_d_next d) ltac:(lia) ltac:(lia)) as H1.
  pose proof (bitlen_mono (h_d_next d) 2097151 ltac:(lia) ltac:(lia)) as H2.
  change (bitlen 260) with 9 in H1. change (bitlen 2097151) with 21 in H2.
  lia.
Qed.

Lemma c_fit_new dsize : c_fit (lz78_new_c dsize).
Proof. split; [apply c_wf_new|left; reflexivity]. Qed.

Lemma c_fit_written o : c_fit o -> c_fit (written o).
Proof.
  intros [Hwf Hcur]. split; [apply c_wf_written; exact Hwf|].
  unfold written. destruct (0 <? c_n_bits o); exact Hcur.
Qed.

(** One call of [compress_byte]: what it leaves to be written fits its
    width. *)
Lemma compress_byte_fit o c_in o' :
  c_fit o -> c_n_bits o <= 0 -> is_input c_in ->
  compress_byte o c_in = Ret o' ->
  c_fit o' /\ Forall pair_fits (pending o').
Proof.
  intros [Hwf Hcur] Hbits Hin H.
  destruct (compress_byte_step o c_in o' Hwf Hin H) as [Hwf' _].
  pose proof Hwf as (Hm & Hs & Hsz & _ & _).
  pose proof (ht_wf_bound _ Hm) as Hb.
  pose proof (ht_wf_bound _ Hs) as Hbs.
  pose proof Hm as (_ & Hsize & _).
  pose proof (label_of_range c_in Hin) as Hc.
  assert (Hinput : forall o1,
    ht_wf (c_main o1) -> ht_wf (c_secondary o1) ->
    cur_node (c_main o1) = NO_NODE
    \/ 0 <= cur_node (c_main o1) < h_d_next (c_main o1) ->
    compress_input o1 c_in = Ret o' ->
    0 <= cur_node (c_main o') < h_d_next (c_main o')
    /\ ((c_n_bits o' = c_n_bits o1 /\ c_bitbuf o' = c_bitbuf o1)
        \/ pair_fits (c_bitbuf o', c_n_bits o'))).
  { intros o1 Hm1 Hs1 Hcur1 H1.
    pose proof (ht_wf_bound _ Hm1) as Hb1.
    pose proof (ht_wf_bound _ Hs1) as Hbs1.
    pose proof Hm1 as (_ & Hsize1 & _).
    destruct (compress_input_cases o1 c_in o' Hm1 Hin H1)
      as (_ & _ & r & m & Hupd & Hcases).
    cbn zeta in Hupd, Hcases.
    destruct (ht_dictionary_update_wf (c_main o1) (label_of c_in) r m Hm1
                ltac:(lia) Hupd) as (Hwm & Hszm & _ & _ & Hr).
    pose proof (ht_wf_bound _ Hwm) as Hbm.
    assert (Hcm : 0 <= cur_node m < h_d_next m).
    { unfold DICT_SIZE_MIN in *.
      destruct Hr as [(_ & Hn & _ & [->|Hch])|(_ & _ & -> & _)]; lia. }
    destruct Hcases as [(-> & Hbuf & Hnb & Hmain & _)
                       |(-> & Hbuf & Hnb & [(_ & Hmain & _)|(_ & Hmain & _)])].
    - rewrite Hmain. split; [exact Hcm|]. left. auto.
    - rewrite Hmain. split; [exact Hcm|]. right.
      unfold pair_fits. cbn [fst snd]. rewrite Hbuf, Hnb.
      destruct Hr as [(Hr & _)|(_ & _ & _ & Hno)]; [discriminate|].
      destruct Hcur1 as [Hx|Hx]; [contradiction|].
      split; [|apply bitlen_of_next; exact Hm1].
      pose proof (bitlen_above (h_d_next (c_main o1))
                    ltac:(unfold DICT_SIZE_MIN, DICT_SIZE_MAX in *; lia)).
      lia.
    - rewrite Hmain. cbn [set_cur_node cur_node h_d_next]. split.
      + unfold DICT_SIZE_MIN in *. lia.
      + right. unfold pair_fits. cbn [fst snd]. rewrite Hbuf, Hnb.
        destruct Hr as [(Hr & _)|(_ & _ & _ & Hno)]; [discriminate|].
        destruct Hcur1 as [Hx|Hx]; [contradiction|].
        split; [|apply bitlen_of_next; exact Hm1].
        pose proof (bitlen_above (h_d_next (c_main o1))
                      ltac:(unfold DICT_SIZE_MIN, DICT_SIZE_MAX in *; lia)).
        lia. }
  assert (Hnone : c_n_bits o' = c_n_bits o -> Forall pair_fits (pending o')).
  { intros Hn. unfold pending. rewrite Hn.
    destruct (Z.ltb_spec 0 (c_n_bits o)); [lia|constructor]. }
  assert (Hsome : pair_fits (c_bitbuf o', c_n_bits o') ->
                  Forall pair_fits (pending o')).
  { intros Hp. unfold pending.
    destruct (0 <? c_n_bits o'); constructor; [exact Hp|constructor]. }
  unfold compress_byte in H.
  destruct (Z.eqb_spec (cur_node (c_main o)) DICT_CODE_START) as [Hst|Hst].
  - apply Hinput in H; [|exact Hm|exact Hs|left; reflexivity].
    cbn [emit with_dicts c_n_bits c_bitbuf c_main c_secondary] in H.
    destruct H as [Hc' Hp]. split; [split; [exact Hwf'|auto]|].
    apply Hsome. destruct Hp as [[-> ->]|Hp]; [|exact Hp].
    unfold pair_fits. cbn [fst snd]. change (bitlen DICT_SIZE_MAX) with 21.
    unfold DICT_SIZE_MIN, DICT_SIZE_MAX in *. lia.
  - destruct (Z.eqb_spec (cur_node (c_main o)) DICT_CODE_EOF) as [He|He].
    + injection H as <-. split; [split; [exact Hwf'|]|].
      * right. left. reflexivity.
      * apply Hsome. unfold pair_fits.
        cbn [fst snd emit with_dicts c_bitbuf c_n_bits]. rewrite He.
        pose proof (bitlen_of_next _ Hm) as Hw.
        split; [|exact Hw]. unfold DICT_CODE_EOF.
        assert (2 ^ 9 <= 2 ^ bitlen (h_d_next (c_main o)))
          by (apply Z.pow_le_mono_r; lia).
        lia.
    + destruct (Z.eqb_spec (cur_node (c_main o)) DICT_CODE_STOP) as [Hp|Hp].
      * injection H as <-. split; [split; [exact Hwf'|]|].
        -- right. left. exact Hp.
        -- apply Hnone. reflexivity.
      * destruct Hcur as [Hx|[Hx|Hx]]; [contradiction|contradiction|].
        apply Hinput in H; [|exact Hm|exact Hs|right; exact Hx].
        destruct H as [Hc' Hpair]. split; [split; [exact Hwf'|auto]|].
        destruct Hpair as [[Hn _]|Hpair]; [apply Hnone|apply Hsome]; assumption.
Qed.

Lemma lz78_compress_loop_fit fuel : forall o input,
  c_fit o -> Forall (fun c => 0 <= c < 256) input ->
  Forall pair_fits (pending o) ->
  Forall pair_fits (fst (lz78_compress_loop fuel o input)).
Proof.
  induction fuel as [|fuel IH]; intros o input Hfit Hin Hp; [constructor|].
  rewrite lz78_compress_loop_S. cbn zeta.
  destruct (fgetc input) as [c_in rest] eqn:Hget.
  destruct (fgetc_input _ _ _ Hin Hget) as [Hc Hrest].
  destruct (compress_byte (written o) c_in) as [o'| |] eqn:Hstep;
    [|exact Hp|exact Hp].
  destruct (compress_byte_fit _ _ _ (c_fit_written _ Hfit) (written_bits o)
              Hc Hstep) as [Hfit' Hp'].
  destruct (c_completed o' =? 1); [exact Hp|].
  specialize (IH o' rest Hfit' Hrest Hp').
  destruct (lz78_compress_loop fuel o' rest) as [out' r].
  cbn [fst] in *. apply Forall_app. auto.
Qed.

(** X5: every pair the compressor hands to [bit_write] fits its width:
    the width is between 9 and 21 bits and the code is below [2^width],
    so that the bits written give the code back when they are read. *)
Theorem written_pairs_fit (dsize : Z) (input : list Z) (fuel : nat) :
  Forall (fun c => 0 <= c < 256) input ->
  Forall (fun p => 9 <= snd p <= 21
                   /\ 0 <= fst p < 2 ^ snd p
                   /\ bits_value (bits_of (fst p) (snd p)) = fst p)
         (fst (lz78_compress_loop fuel (lz78_new_c dsize) input)).
Proof.
  intros Hin.
  eapply List.Forall_impl;
    [|apply (lz78_compress_loop_fit fuel (lz78_new_c dsize) input
               (c_fit_new dsize) Hin)].
  - intros [code bits] [Hc Hb]. cbn [fst snd] in *.
    split; [exact Hb|]. split; [exact Hc|].
    apply bits_value_bits_of; lia.
  - unfold pending, lz78_new_c. cbn [c_n_bits c_bitbuf].
    change (0 <? bitlen DICT_SIZE_MIN) with true. cbn iota.
    constructor; [|constructor]. unfold pair_fits. cbn [fst snd].
    change (bitlen DICT_SIZE_MIN) with 9. unfold DICT_CODE_START. lia.
Qed.

Lemma written_pairs_fit_witness :
  Forall (fun p => 9 <= snd p <= 21
                   /\ 0 <= fst p < 2 ^ snd p
                   /\ bits_value (bits_of (fst p) (snd p)) = fst p)
         (fst (lz78_compress_loop 9 (lz78_new_c 262) [97; 98; 99; 97; 98; 99])).
Proof.
  apply (written_pairs_fit 262 [97; 98; 99; 97; 98; 99] 9).
  repeat constructor; lia.
Defined.

Lemma filter_all_or {A} (f : A -> bool) (l : list A) :
  length (List.filter f l) = length l \/ exists e, In e l /\ f e = false.
Proof.
  induction l as [|x l IH]; [left; reflexivity|]. cbn [List.filter].
  destruct (f x) eqn:Hx.
  - destruct IH as [IH|(e & He & Hf)].
    + left. cbn. lia.
    + right. exists e. split; [right; exact He|exact Hf].
  - right. exists x. split; [left; reflexivity|exact Hx].
Qed.

Lemma ht_wf_free d :
  ht_wf d -> h_d_next d < DICT_SIZE_MIN + h_d_size d ->
  exists e, In e (h_root d) /\ used e = false.
Proof.
  intros (Hlen & _ & Hn & _) Hlt. unfold used_entries in Hn.
  destruct (filter_all_or used (h_root d)) as [Hall|H]; [lia|exact H].
Qed.

Lemma ht_wf_inside d lbl : ht_wf d -> ht_dictionary_update d lbl <> Fault.
Proof.
  intros (Hlen & Hsz & _). apply ht_dictionary_update_inside; [exact Hlen|].
  unfold DICT_SIZE_MIN in Hsz. lia.
Qed.

Lemma ht_wf_returns d lbl :
  ht_wf d -> h_d_next d < DICT_SIZE_MIN + h_d_size d ->
  exists r d', ht_dictionary_update d lbl = Ret (r, d').
Proof.
  intros Hwf Hlt. apply ht_dictionary_update_free; [apply Hwf|].
  apply ht_wf_free; assumption.
Qed.

Lemma secondary_update_total o c :
  ht_wf (c_secondary o) ->
  secondary_update o c <> Fault
  /\ (h_d_next (c_secondary o) < DICT_SIZE_MIN + h_d_size (c_secondary o) ->
      secondary_update o c <> Diverge).
Proof.
  intros Hwf. unfold secondary_update.
  destruct (h_d_thr (c_main o) <=? h_d_next (c_main o));
    [|split; [discriminate|intros _; discriminate]].
  pose proof (ht_wf_inside (c_secondary o) c Hwf) as Hnf.
  split.
  - destruct (ht_dictionary_update (c_secondary o) c) as [[r s]| |];
      [discriminate|contradiction|discriminate].
  - intros Hlt. destruct (ht_wf_returns _ c Hwf Hlt) as (r & s & ->).
    discriminate.
Qed.

(** [compress_input] stays inside the tables, and returns when both have
    a free slot. *)
Lemma compress_input_total o c_in :
  ht_wf (c_main o) -> ht_wf (c_secondary o) ->
  h_d_size (c_secondary o) = h_d_size (c_main o) -> is_input c_in ->
  compress_input o c_in <> Fault
  /\ (c_room o 0 -> compress_input o c_in <> Diverge).
Proof.
  intros Hm Hs Hsz Hin.
  pose proof (label_of_range c_in Hin) as Hc.
  pose proof (ht_wf_inside (c_main o) (label_of c_in) Hm) as Hnf.
  unfold compress_input. fold (label_of c_in). unfold c_room.
  destruct (ht_dictionary_update (c_main o) (label_of c_in))
    as [[r m]| |] eqn:Hupd; [|contradiction|].
  - cbn [mbind outcome_bind].
    destruct (ht_dictionary_update_wf (c_main o) (label_of c_in) r m Hm
                ltac:(lia) Hupd) as (Hwm & Hszm & _).
    destruct (negb (r =? 0)).
    + destruct (secondary_update_total
                  (with_dicts o m (c_secondary o)) (label_of c_in) Hs)
        as [H1 H2].
      split; [exact H1|]. intros [_ Hr]. apply H2.
      cbn [with_dicts c_secondary]. lia.
    + destruct (h_d_next m =? h_d_size m).
      * match goal with |- secondary_update ?o2 _ <> _ /\ _ =>
          destruct (secondary_update_total o2 (label_of c_in)
                      ltac:(cbn; apply ht_wf_reset; exact Hwm)) as [H1 H2]
        end.
        split; [exact H1|]. intros _. apply H2.
        cbn [with_dicts emit c_secondary ht_dictionary_reset h_d_next h_d_size].
        destruct Hwm as (_ & Hsize & _). unfold DICT_SIZE_MIN in *. lia.
      * match goal with |- secondary_update ?o2 _ <> _ /\ _ =>
          destruct (secondary_update_total o2 (label_of c_in)
                      ltac:(cbn; exact Hs)) as [H1 H2]
        end.
        split; [exact H1|]. intros [_ Hr]. apply H2.
        cbn [with_dicts emit c_secondary]. lia.
  - cbn [mbind outcome_bind]. split; [discriminate|].
    intros [Hr _]. rewrite Z.add_0_r in Hr.
    destruct (ht_wf_returns _ (label_of c_in) Hm Hr) as (r & m & Hret).
    congruence.
Qed.

Lemma secondary_after_next s m c s' :
  ht_wf s -> 0 <= c <= 256 -> secondary_after s m c s' ->
  h_d_next s' <= h_d_next s + 1.
Proof.
  intros Hwf Hc. unfold secondary_after.
  destruct (h_d_thr m <=? h_d_next m).
  - intros [r Hupd].
    destruct (ht_dictionary_update_wf s c r s' Hwf ltac:(lia) Hupd)
      as (_ & _ & _ & _ & [(_ & -> & _)|(_ & -> & _)]); lia.
  - intros ->. lia.
Qed.

(** A call of [compress_input] that returns, on tables of bytes. *)
Lemma compress_input_run o c_in o' :
  c_completed o = 0 ->
  ht_wf (c_main o) -> ht_tree (c_main o) ->
  cur_node (c_main o) = NO_NODE \/ cur_inside (c_main o) ->
  ht_wf (c_secondary o) -> ht_tree (c_secondary o) ->
  cur_node (c_secondary o) = NO_NODE \/ cur_inside (c_secondary o) ->
  h_d_size (c_secondary o) = h_d_size (c_main o) ->
  is_input c_in ->
  compress_input o c_in = Ret o' ->
  (label_of c_in = DICT_CODE_EOF -> cur_node (c_main o') = DICT_CODE_EOF
                                    /\ ht_wf (c_main o'))
  /\ (label_of c_in < 256 -> c_run o' /\ cur_inside (c_main o'))
  /\ h_d_size (c_main o') = h_d_size (c_main o)
  /\ h_d_next (c_main o')
     <= Z.max (h_d_next (c_main o)) (h_d_next (c_secondary o)) + 1
  /\ h_d_next (c_secondary o')
     <= Z.max (h_d_next (c_main o)) (h_d_next (c_secondary o)) + 1
  /\ ((c_n_bits o' = c_n_bits o /\ c_bitbuf o' = c_bitbuf o)
      \/ (c_bitbuf o' = cur_node (c_main o) /\ cur_inside (c_main o))).
Proof.
  intros Hdone Hm Htm Hcm Hs Hts Hcs Hsz Hin H.
  pose proof (label_of_range c_in Hin) as Hc.
  assert (Hbyte : label_of c_in < 256 -> 0 <= label_of c_in < 256) by lia.
  pose proof (ht_wf_bound _ Hm) as Hbm. pose proof (ht_wf_bound _ Hs) as Hbs.
  destruct (compress_input_cases o c_in o' Hm Hin H)
    as (Hdone' & _ & r & m & Hupd & Hcases).
  cbn zeta in Hupd, Hcases.
  destruct (ht_dictionary_update_wf (c_main o) (label_of c_in) r m Hm
              ltac:(lia) Hupd) as (Hwm & Hszm & Hthrm & _ & Hr).
  pose proof (ht_wf_bound _ Hwm) as Hbwm.
  assert (Hnext : h_d_next m <= h_d_next (c_main o) + 1)
    by (destruct Hr as [(_ & -> & _)|(_ & -> & _)]; lia).
  destruct (ht_dictionary_update_tree (c_main o) (label_of c_in) r m Hm Htm
              Hcm Hc Hupd) as [Hext|Hnew].
  - (* nothing is emitted *)
    destruct Hext as (-> & _ & _ & Hcur').
    destruct Hcases as [(_ & Hbuf & Hnb & Hmain & Hsec)|(Hx & _)]; [|lia].
    pose proof (secondary_after_next _ _ _ _ Hs Hc Hsec) as Hsn.
    rewrite Hmain.
    split; [|split; [|split; [exact Hszm|split; [lia|split; [lia|left; auto]]]]].
    + intros He. unfold DICT_CODE_EOF in *.
      destruct Hcur' as [[_ ->]|(Hlt & _)]; [|lia]. auto.
    + intros Hlt.
      destruct (ht_dictionary_update_tree_inv _ _ _ _ Hm Htm Hcm
                  (Hbyte Hlt) Hupd) as [Htm' Hcm'].
      destruct (secondary_after_inv _ _ _ _ Hs Hts Hcs (Hbyte Hlt) Hsec)
        as (Hs' & Hts' & Hcs' & Hszs' & _).
      split; [|exact Hcm'].
      unfold c_run. rewrite Hmain, Hdone'.
      split; [exact Hdone|]. split; [exact Hwm|]. split; [exact Htm'|].
      split; [right; exact Hcm'|]. split; [exact Hs'|]. split; [exact Hts'|].
      split; [exact Hcs'|]. lia.
  - (* the code of the current node is emitted *)
    destruct Hnew as (-> & Hci & Hcur' & Hn' & _).
    destruct Hcases as [(Hx & _)|(_ & Hbuf & Hnb & Hcases)]; [lia|].
    assert (Hpend : (c_n_bits o' = c_n_bits o /\ c_bitbuf o' = c_bitbuf o)
                    \/ (c_bitbuf o' = cur_node (c_main o)
                        /\ cur_inside (c_main o))) by (right; auto).
    destruct Hcases as [(_ & Hmain & Hsec)|(Hfull & Hmain & Hsec)].
    + pose proof (secondary_after_next _ _ _ _ Hs Hc Hsec) as Hsn.
      rewrite Hmain.
      split; [|split; [|split; [exact Hszm|split; [lia|split; [lia|exact Hpend]]]]].
      * intros He. rewrite Hcur'. auto.
      * intros Hlt.
        destruct (ht_dictionary_update_tree_inv _ _ _ _ Hm Htm Hcm
                    (Hbyte Hlt) Hupd) as [Htm' Hcm'].
        destruct (secondary_after_inv _ _ _ _ Hs Hts Hcs (Hbyte Hlt) Hsec)
          as (Hs' & Hts' & Hcs' & Hszs' & _).
        split; [|exact Hcm'].
        unfold c_run. rewrite Hmain, Hdone'.
        split; [exact Hdone|]. split; [exact Hwm|]. split; [exact Htm'|].
        split; [right; exact Hcm'|]. split; [exact Hs'|]. split; [exact Hts'|].
        split; [exact Hcs'|]. lia.
    + pose proof (secondary_after_next _ _ _ _ (ht_wf_reset _ Hwm) Hc Hsec)
        as Hsn.
      cbn [ht_dictionary_reset h_d_next] in Hsn.
      rewrite Hmain. cbn [set_cur_node cur_node h_d_next h_d_size].
      unfold DICT_SIZE_MIN in *.
      split; [|split; [|split; [lia|split; [lia|split; [lia|exact Hpend]]]]].
      * intros He. split; [exact He|].
        apply (ht_wf_set_cur_node (c_secondary o)). exact Hs.
      * intros Hlt.
        destruct (secondary_after_inv _ _ _ _ (ht_wf_reset _ Hwm)
                    (ht_tree_reset m) (or_introl eq_refl) (Hbyte Hlt) Hsec)
          as (Hs' & Hts' & Hcs' & Hszs' & _).
        cbn [ht_dictionary_reset h_d_size] in Hszs'.
        assert (Hci' : cur_inside (set_cur_node (c_secondary o)
                                                (label_of c_in)))
          by (left; cbn; lia).
        split; [|exact Hci'].
        unfold c_run. rewrite Hmain, Hdone'.
        cbn [set_cur_node cur_node h_d_next h_d_size].
        split; [exact Hdone|].
        split; [apply (ht_wf_set_cur_node (c_secondary o)); exact Hs|].
        split; [exact Hts|]. split; [right; exact Hci'|].
        split; [exact Hs'|]. split; [exact Hts'|].
        split; [exact Hcs'|]. lia.
Qed.

Lemma c_run_written o : c_run o -> c_run (written o).
Proof. unfold written. destruct (0 <? c_n_bits o); intros H; exact H. Qed.

Lemma c_room_written o n : c_room o n -> c_room (written o) n.
Proof. unfold written. destruct (0 <? c_n_bits o); intros H; exact H. Qed.

Lemma c_run_new dsize : c_run (lz78_new_c dsize).
Proof.
  unfold c_run, lz78_new_c. cbn [c_completed c_main c_secondary].
  split; [reflexivity|].
  split; [apply (ht_wf_set_cur_node (ht_dictionary_new _)), ht_wf_new|].
  split; [exact (ht_tree_new _)|]. split; [left; reflexivity|].
  split; [apply ht_wf_new|]. split; [apply ht_tree_new|].
  split; [left; reflexivity|reflexivity].
Qed.

Lemma cur_inside_not_end d :
  ht_wf d -> cur_inside d ->
  cur_node d <> DICT_CODE_EOF /\ cur_node d <> DICT_CODE_START
  /\ cur_node d <> DICT_CODE_STOP /\ cur_node d <> NO_NODE.
Proof.
  intros Hwf Hc. pose proof (ht_wf_bound _ Hwf) as Hb.
  destruct Hwf as (_ & Hsz & _).
  unfold cur_inside, DICT_CODE_EOF, DICT_CODE_START, DICT_CODE_STOP, NO_NODE,
    DICT_SIZE_MIN, DICT_SIZE_MAX in *. lia.
Qed.

(** One call of [compress_byte] while bytes are read, or at the end of
    the input. *)
Lemma compress_byte_run o c_in :
  c_run o -> c_n_bits o <= 0 -> is_input c_in ->
  compress_byte o c_in <> Fault
  /\ (c_room o 0 -> compress_byte o c_in <> Diverge)
  /\ forall o', compress_byte o c_in = Ret o' ->
       c_completed o' = 0
       /\ (label_of c_in = DICT_CODE_EOF ->
           cur_node (c_main o') = DICT_CODE_EOF /\ ht_wf (c_main o'))
       /\ (label_of c_in < 256 -> c_run o')
       /\ h_d_size (c_main o') = h_d_size (c_main o)
       /\ h_d_next (c_main o')
          <= Z.max (h_d_next (c_main o)) (h_d_next (c_secondary o)) + 1
       /\ h_d_next (c_secondary o')
          <= Z.max (h_d_next (c_main o)) (h_d_next (c_secondary o)) + 1
       /\ Forall not_end (pending o').
Proof.
  intros (Hdone & Hm & Htm & Hcm & Hs & Hts & Hcs & Hsz) Hbits Hin.
  pose proof Hm as (_ & Hsize & _).
  unfold compress_byte.
  destruct (Z.eqb_spec (cur_node (c_main o)) DICT_CODE_START) as [Hst|Hst].
  - set (o1 := with_dicts
                 (emit o (h_d_size (c_main o)) (bitlen DICT_SIZE_MAX))
                 (set_cur_node (c_main o) NO_NODE) (c_secondary o)).
    assert (Hm1 : ht_wf (c_main o1))
      by (apply (ht_wf_set_cur_node (c_main o)); exact Hm).
    destruct (compress_input_total o1 c_in Hm1 Hs Hsz Hin) as [Hnf Hnd].
    split; [exact Hnf|]. split; [exact Hnd|].
    intros o' H.
    destruct (compress_input_cases o1 c_in o' Hm1 Hin H) as (Hdone' & _).
    destruct (compress_input_run o1 c_in o' Hdone Hm1 Htm
                (or_introl eq_refl) Hs Hts Hcs Hsz Hin H)
      as (He & Hb & Hsz' & Hn1 & Hn2 & Hpend).
    split; [rewrite Hdone'; exact Hdone|].
    split; [exact He|]. split; [intros Hlt; apply (Hb Hlt)|].
    split; [exact Hsz'|]. split; [exact Hn1|]. split; [exact Hn2|].
    unfold pending.
    destruct (0 <? c_n_bits o'); constructor; [|constructor].
    unfold not_end, DICT_CODE_EOF. cbn [fst].
    destruct Hpend as [[_ ->]|[-> Hci]].
    + cbn. unfold DICT_SIZE_MIN in Hsize. lia.
    + destruct (cur_inside_not_end _ Hm1 Hci) as (_ & _ & _ & Hnn).
      cbn in Hnn. contradiction.
  - destruct Hcm as [Hcm|Hcm]; [contradiction|].
    destruct (cur_inside_not_end _ Hm Hcm) as (He & _ & Hp & _).
    destruct (Z.eqb_spec (cur_node (c_main o)) DICT_CODE_EOF); [contradiction|].
    destruct (Z.eqb_spec (cur_node (c_main o)) DICT_CODE_STOP); [contradiction|].
    destruct (compress_input_total o c_in Hm Hs Hsz Hin) as [Hnf Hnd].
    split; [exact Hnf|]. split; [exact Hnd|].
    intros o' H.
    destruct (compress_input_cases o c_in o' Hm Hin H) as (Hdone' & _).
    destruct (compress_input_run o c_in o' Hdone Hm Htm
                (or_intror Hcm) Hs Hts Hcs Hsz Hin H)
      as (He' & Hb & Hsz' & Hn1 & Hn2 & Hpend).
    split; [rewrite Hdone'; exact Hdone|].
    split; [exact He'|]. split; [intros Hlt; apply (Hb Hlt)|].
    split; [exact Hsz'|]. split; [exact Hn1|]. split; [exact Hn2|].
    unfold pending.
    destruct Hpend as [[Hn _]|[Hbuf _]].
    + rewrite Hn. destruct (Z.ltb_spec 0 (c_n_bits o)); [lia|constructor].
    + destruct (0 <? c_n_bits o'); constructor; [|constructor].
      unfold not_end. cbn [fst]. rewrite Hbuf. exact He.
Qed.

(** The two rounds after the end of the input has been taken in: the end
    marker is written, and the run is completed. *)
Lemma lz78_compress_loop_end fuel o input :
  cur_node (c_main o) = DICT_CODE_EOF -> ht_wf (c_main o) ->
  c_completed o = 0 ->
  exists b,
    lz78_compress_loop (S (S fuel)) o input
    = (pending o ++ [(DICT_CODE_EOF, b)], Some (Ret LZ78_SUCCESS)).
Proof.
  intros Hcur Hwf Hdone.
  assert (Hcw : forall x, cur_node (c_main (written x)) = cur_node (c_main x))
    by (intros x; unfold written; destruct (0 <? c_n_bits x); reflexivity).
  assert (Hdw : forall x, c_completed (written x) = c_completed x)
    by (intros x; unfold written; destruct (0 <? c_n_bits x); reflexivity).
  assert (Hnw : forall x, h_d_next (c_main (written x)) = h_d_next (c_main x))
    by (intros x; unfold written; destruct (0 <? c_n_bits x); reflexivity).
  exists (bitlen (h_d_next (c_main o))).
  rewrite lz78_compress_loop_S. cbn zeta.
  destruct (fgetc input) as [c1 rest1].
  unfold compress_byte at 1. rewrite Hcw, Hcur.
  change (DICT_CODE_EOF =? DICT_CODE_START) with false.
  change (DICT_CODE_EOF =? DICT_CODE_EOF) with true. cbn iota.
  cbn [c_completed with_dicts emit]. rewrite Hdw, Hdone.
  change (0 =? 1) with false. cbn iota.
  rewrite lz78_compress_loop_S. cbn zeta.
  destruct (fgetc rest1) as [c2 rest2].
  unfold compress_byte. rewrite Hcw. cbn [c_main with_dicts set_cur_node cur_node].
  change (DICT_CODE_STOP =? DICT_CODE_START) with false.
  change (DICT_CODE_STOP =? DICT_CODE_EOF) with false.
  change (DICT_CODE_STOP =? DICT_CODE_STOP) with true. cbn iota.
  cbn [c_completed]. change (1 =? 1) with true. cbn iota.
  unfold pending at 2. cbn [c_n_bits c_bitbuf emit with_dicts].
  rewrite Hnw.
  pose proof (bitlen_of_next _ Hwf) as Hb.
  destruct (Z.ltb_spec 0 (bitlen (h_d_next (c_main o)))); [|lia].
  reflexivity.
Qed.

(** The whole run: it ends in [length input + 3] rounds, unless a search
    never returns. *)
Lemma lz78_compress_loop_run : forall input o,
  c_run o -> Forall (fun c => 0 <= c < 256) input ->
  Forall not_end (pending o) ->
  exists out st,
    lz78_compress_loop (length input + 3) o input = (out, st)
    /\ (st = Some Diverge
        \/ (st = Some (Ret LZ78_SUCCESS)
            /\ exists out0 b, out = out0 ++ [(DICT_CODE_EOF, b)]
                              /\ Forall not_end out0))
    /\ (c_room o (Z.of_nat (length input)) -> st = Some (Ret LZ78_SUCCESS)).
Proof.
  induction input as [|c rest IH]; intros o Hrun Hin Hp.
  - cbn [length Nat.add].
    rewrite lz78_compress_loop_S. cbn zeta. cbn [fgetc].
    destruct (compress_byte_run (written o) EOF (c_run_written _ Hrun)
                (written_bits o) (or_intror eq_refl)) as (Hnf & Hnd & Hret).
    destruct (compress_byte (written o) EOF) as [o1| |] eqn:Hstep.
    + destruct (Hret o1 eq_refl) as (Hdone & He & _ & _ & _ & _ & Hp1).
      destruct (He eq_refl) as [Hcur1 Hwf1].
      rewrite Hdone. change (0 =? 1) with false. cbn iota.
      destruct (lz78_compress_loop_end 0 o1 [] Hcur1 Hwf1 Hdone) as (b & ->).
      eexists. eexists. split; [reflexivity|]. split; [|reflexivity].
      right. split; [reflexivity|].
      exists (pending o ++ pending o1), b. rewrite app_assoc.
      split; [reflexivity|]. apply Forall_app. auto.
    + contradiction.
    + eexists. eexists. split; [reflexivity|]. split; [left; reflexivity|].
      intros Hroom. exfalso. apply Hnd; [|reflexivity].
      apply c_room_written. exact Hroom.
  - inversion Hin as [|? ? Hc Hrest]; subst.
    cbn [length Nat.add].
    rewrite lz78_compress_loop_S. cbn zeta. cbn [fgetc].
    assert (Hlab : label_of c = c).
    { unfold label_of, EOF. destruct (Z.eqb_spec c (-1)); [lia|reflexivity]. }
    destruct (compress_byte_run (written o) c (c_run_written _ Hrun)
                (written_bits o) (or_introl Hc)) as (Hnf & Hnd & Hret).
    destruct (compress_byte (written o) c) as [o1| |] eqn:Hstep.
    + destruct (Hret o1 eq_refl) as (Hdone & _ & Hb & Hsz1 & Hn1 & Hn2 & Hp1).
      rewrite Hlab in Hb.
      rewrite Hdone. change (0 =? 1) with false. cbn iota.
      destruct (IH o1 (Hb ltac:(lia)) Hrest Hp1)
        as (out' & st & Hloop & Hst & Hroom').
      rewrite Hloop.
      eexists. eexists. split; [reflexivity|]. split.
      * destruct Hst as [Hst|(Hst & out0 & b & -> & Hout0)]; [left; exact Hst|].
        right. split; [exact Hst|].
        exists (pending o ++ out0), b. rewrite app_assoc.
        split; [reflexivity|]. apply Forall_app. auto.
      * intros Hroom. apply Hroom'.
        apply c_room_written in Hroom. unfold c_room in *.
        rewrite Hsz1. cbn [length] in Hroom. lia.
    + contradiction.
    + eexists. eexists. split; [reflexivity|]. split; [left; reflexivity|].
      intros Hroom. exfalso. apply Hnd; [|reflexivity].
      apply c_room_written in Hroom. unfold c_room in *.
      cbn [length] in Hroom. lia.
Qed.

Lemma pending_not_end_new dsize : Forall not_end (pending (lz78_new_c dsize)).
Proof.
  unfold pending, lz78_new_c. cbn [c_n_bits c_bitbuf].
  change (0 <? bitlen DICT_SIZE_MIN) with true. cbn iota.
  constructor; [discriminate|constructor].
Qed.

(** X6: [lz78_compress] on an input of bytes ends within
    [length input + 3] calls of [compress_byte], and it ends in one of two
    ways only: with [LZ78_SUCCESS], the end marker 256 being the last code
    written and the only 256 of the stream; or never, inside the search
    of [ht_dictionary_update].  It never leaves a table, and it returns
    no error code. *)
Theorem lz78_compress_ends (dsize : Z) (input : list Z) :
  Forall (fun c => 0 <= c < 256) input ->
  (exists out, lz78_compress dsize input = (out, Some Diverge))
  \/ (exists out0 b,
        lz78_compress dsize input
        = (out0 ++ [(DICT_CODE_EOF, b)], Some (Ret LZ78_SUCCESS))
        /\ Forall (fun p => fst p <> DICT_CODE_EOF) out0).
Proof.
  intros Hin. unfold lz78_compress.
  destruct (lz78_compress_loop_run input (lz78_new_c dsize) (c_run_new dsize)
              Hin (pending_not_end_new dsize))
    as (out & st & -> & [->|(-> & out0 & b & -> & Hout0)] & _).
  - left. eauto.
  - right. exists out0, b. split; [reflexivity|exact Hout0].
Qed.

Lemma lz78_compress_ends_witness :
  (exists out, lz78_compress 262 [97; 98; 99] = (out, Some Diverge))
  \/ (exists out0 b,
        lz78_compress 262 [97; 98; 99]
        = (out0 ++ [(DICT_CODE_EOF, b)], Some (Ret LZ78_SUCCESS))
        /\ Forall (fun p => fst p <> DICT_CODE_EOF) out0).
Proof.
  apply (lz78_compress_ends 262 [97; 98; 99]). repeat constructor; lia.
Defined.

(** X7: an input of fewer bytes than the dictionary has entries is always
    compressed: neither table can fill up, every search returns, and
    [lz78_compress] returns [LZ78_SUCCESS]. *)
Theorem lz78_compress_succeeds (dsize : Z) (input : list Z) :
  Forall (fun c => 0 <= c < 256) input ->
  Z.of_nat (length input)
    < DICT_LIMIT (if dsize =? 0 then DICT_SIZE_DEFAULT else dsize) ->
  snd (lz78_compress dsize input) = Some (Ret LZ78_SUCCESS).
Proof.
  intros Hin Hlen. unfold lz78_compress.
  destruct (lz78_compress_loop_run input (lz78_new_c dsize) (c_run_new dsize)
              Hin (pending_not_end_new dsize))
    as (out & st & -> & _ & Hroom).
  cbn [snd]. apply Hroom. unfold c_room, lz78_new_c.
  cbn [c_main c_secondary set_cur_node ht_dictionary_new h_d_next h_d_size].
  rewrite DICT_LIMIT_id by apply DICT_LIMIT_range. lia.
Qed.

Lemma lz78_compress_succeeds_witness :
  snd (lz78_compress 0 [97; 98; 99; 97; 98; 99]) = Some (Ret LZ78_SUCCESS).
Proof.
  apply (lz78_compress_succeeds 0 [97; 98; 99; 97; 98; 99]).
  - repeat constructor; lia.
  - vm_compute. reflexivity.
Defined.

Lemma lz78_compress_loop_length fuel : forall o input,
  (length (fst (lz78_compress_loop fuel o input)) <= fuel)%nat.
Proof.
  induction fuel as [|fuel IH]; intros o input; [cbn; lia|].
  rewrite lz78_compress_loop_S. cbn zeta.
  assert (Hp : (length (pending o) <= 1)%nat)
    by (unfold pending; destruct (0 <? c_n_bits o); cbn; lia).
  destruct (fgetc input) as [c_in rest].
  destruct (compress_byte (written o) c_in) as [o'| |]; cbn [fst]; try lia.
  destruct (c_completed o' =? 1); cbn [fst]; [lia|].
  specialize (IH o' rest).
  destruct (lz78_compress_loop fuel o' rest) as [out' r]. cbn [fst] in *.
  rewrite length_app. lia.
Qed.

Lemma length_stream_bits out :
  Forall pair_fits out ->
  (9 * length out <= length (stream_bits out) <= 21 * length out)%nat.
Proof.
  unfold stream_bits. induction out as [|[code bits] out IH]; intros H.
  - cbn. lia.
  - inversion H as [|? ? [_ Hb] Hrest]; subst. cbn [fst snd] in Hb.
    cbn [map concat length]. rewrite length_app, length_bits_of.
    cbn [fst snd]. specialize (IH Hrest). lia.
Qed.

(** X8: the size of the compressed stream.  On an input of [n] bytes the
    loop of [lz78_compress] is over after at most [n + 3] rounds: it has
    returned [LZ78_SUCCESS], or it is in a search of the table that never
    returns.  The pairs written by then are at most [n + 3], each of 9 to
    21 bits, so the stream is at most [21 * (n + 3)] bits long. *)
Theorem stream_bits_bound (dsize : Z) (input : list Z) :
  Forall (fun c => 0 <= c < 256) input ->
  exists out st,
    lz78_compress dsize input = (out, Some st)
    /\ (st = Ret LZ78_SUCCESS \/ st = Diverge)
    /\ (length out <= length input + 3)%nat
    /\ (9 * length out <= length (stream_bits out)
        <= 21 * (length input + 3))%nat.
Proof.
  intros Hin. unfold lz78_compress.
  pose proof (lz78_compress_loop_length (length input + 3) (lz78_new_c dsize)
                input) as Hlen.
  assert (Hfit : Forall pair_fits
                   (fst (lz78_compress_loop (length input + 3)
                           (lz78_new_c dsize) input))).
  { apply lz78_compress_loop_fit; [apply c_fit_new|exact Hin|].
    unfold pending, lz78_new_c. cbn [c_n_bits c_bitbuf].
    change (0 <? bitlen DICT_SIZE_MIN) with true. cbn iota.
    constructor; [|constructor]. unfold pair_fits. cbn [fst snd].
    change (bitlen DICT_SIZE_MIN) with 9. unfold DICT_CODE_START. lia. }
  pose proof (length_stream_bits _ Hfit) as Hbits.
  destruct (lz78_compress_loop_run input (lz78_new_c dsize) (c_run_new dsize)
              Hin (pending_not_end_new dsize))
    as (out & st & Hloop & Hst & _).
  rewrite Hloop in Hlen, Hbits |- *. cbn [fst] in Hlen, Hbits.
  destruct Hst as [-> | [-> _]].
  - exists out, Diverge. split; [reflexivity|]. split; [auto|].
    split; [exact Hlen|lia].
  - exists out, (Ret LZ78_SUCCESS). split; [reflexivity|]. split; [auto|].
    split; [exact Hlen|lia].
Qed.

Lemma stream_bits_bound_witness :
  exists out st,
    lz78_compress 262 [97; 98; 99] = (out, Some st)
    /\ (st = Ret LZ78_SUCCESS \/ st = Diverge)
    /\ (length out <= length [97; 98; 99] + 3)%nat
    /\ (9 * length out <= length (stream_bits out)
        <= 21 * (length [97; 98; 99] + 3))%nat.
Proof.
  apply (stream_bits_bound 262 [97; 98; 99]). repeat constructor; lia.
Defined.

(** X11: the tables of the compressor stay trees of bytes through a run:
    after any number of rounds over bytes, in both tables the used slots
    are as many as [d_next - 260], they hold codes from 260 up to
    [d_next] that are all different, and every entry links its code by a
    byte to a smaller code. *)
Theorem compress_rounds_keep_tables (dsize : Z) (input : list Z) (o : lz78_c) :
  Forall (fun c => 0 <= c < 256) input ->
  rounds (lz78_new_c dsize) input = Ret o ->
  c_completed o = 0
  /\ ht_wf (c_main o) /\ ht_tree (c_main o)
  /\ ht_wf (c_secondary o) /\ ht_tree (c_secondary o)
  /\ h_d_size (c_secondary o) = h_d_size (c_main o)
  /\ h_d_size (c_main o)
     = DICT_LIMIT (if dsize =? 0 then DICT_SIZE_DEFAULT else dsize).
Proof.
  intros Hin Hr.
  assert (Hgen : forall input o0 o1,
            Forall (fun c => 0 <= c < 256) input -> c_run o0 ->
            rounds o0 input = Ret o1 ->
            c_run o1 /\ h_d_size (c_main o1) = h_d_size (c_main o0)).
  { clear. induction input as [|c rest IH]; intros o0 o1 Hin Hrun H.
    - injection H as <-. auto.
    - inversion Hin as [|? ? Hc Hrest]; subst. cbn [rounds] in H.
      destruct (compress_byte (written o0) c) as [o'| |] eqn:Hstep;
        try discriminate.
      cbn [mbind outcome_bind] in H.
      destruct (compress_byte_run (written o0) c (c_run_written _ Hrun)
                  (written_bits o0) (or_introl Hc)) as (_ & _ & Hret).
      destruct (Hret o' Hstep) as (_ & _ & Hb & Hsz & _).
      assert (Hlab : label_of c = c).
      { unfold label_of, EOF. destruct (Z.eqb_spec c (-1)); [lia|reflexivity]. }
      rewrite Hlab in Hb.
      destruct (IH o' o1 Hrest (Hb ltac:(lia)) H) as [Hrun1 Hsz1].
      split; [exact Hrun1|]. rewrite Hsz1, Hsz, c_main_written. reflexivity. }
  destruct (Hgen input _ o Hin (c_run_new dsize) Hr)
    as [(H1 & H2 & H3 & _ & H5 & H6 & _ & H8) Hsz].
  split; [exact H1|]. split; [exact H2|]. split; [exact H3|].
  split; [exact H5|]. split; [exact H6|]. split; [exact H8|].
  rewrite Hsz. unfold lz78_new_c.
  cbn [c_main set_cur_node ht_dictionary_new h_d_size].
  apply DICT_LIMIT_id, DICT_LIMIT_range.
Qed.

Lemma compress_rounds_keep_tables_witness :
  exists o,
    rounds (lz78_new_c 262) [97; 98; 99; 97; 98; 99] = Ret o
    /\ c_completed o = 0
    /\ ht_wf (c_main o) /\ ht_tree (c_main o)
    /\ ht_wf (c_secondary o) /\ ht_tree (c_secondary o)
    /\ h_d_size (c_secondary o) = h_d_size (c_main o)
    /\ h_d_size (c_main o)
       = DICT_LIMIT (if 262 =? 0 then DICT_SIZE_DEFAULT else 262).
Proof.
  eexists. split; [vm_compute; reflexivity|].
  apply (compress_rounds_keep_tables 262 [97; 98; 99; 97; 98; 99]).
  - repeat constructor; lia.
  - vm_compute. reflexivity.
Defined.

Lemma ht_dictionary_update_u16 d lbl :
  ht_dictionary_update d (u16 lbl) = ht_dictionary_update d lbl.
Proof.
  unfold ht_dictionary_update, ht_dictionary_update_fuel.
  assert (H : u16 (u16 lbl) = u16 lbl).
  { unfold u16. apply Z.mod_mod. lia. }
  rewrite H. reflexivity.
Qed.

Lemma feed_secondary_wf bs : forall s s',
  ht_wf s -> feed_secondary s bs = Ret s' -> ht_wf s'.
Proof.
  induction bs as [|c rest IH]; intros s s' Hwf H.
  - injection H as <-. exact Hwf.
  - cbn [feed_secondary] in H. rewrite <- ht_dictionary_update_u16 in H.
    destruct (ht_dictionary_update s (u16 c)) as [[r s1]| |] eqn:Hupd;
      try discriminate.
    cbn [mbind outcome_bind] in H.
    assert (Hr : 0 <= u16 c < 65536) by (unfold u16; apply Z.mod_pos_bound; lia).
    destruct (ht_dictionary_update_wf s (u16 c) r s1 Hwf Hr Hupd) as (Hwf1 & _).
    exact (IH s1 s' Hwf1 H).
Qed.

Lemma dictionary_update_shape m code m1 :
  dictionary_update m code = Ret m1 ->
  length (root m1) = length (root m) /\ d_next m1 = u32 (d_next m + 1).
Proof.
  unfold dictionary_update.
  destruct (recover _ _ _ _ _) as [[buf i]| |]; try discriminate.
  cbn [mbind outcome_bind].
  destruct (if (d_min m <=? code) && (code =? u32 (d_next m - 1)) then _
            else _) as [buf2| |]; try discriminate.
  cbn [mbind outcome_bind].
  destruct (if d_min m <? d_next m then _ else _) as [tbl| |] eqn:Htbl;
    try discriminate.
  cbn [mbind outcome_bind].
  destruct (store tbl (d_next m) (set_parent code)) as [tbl2| |] eqn:Hst;
    try discriminate.
  intros [= <-]. cbn [root d_next]. split; [|reflexivity].
  apply store_length in Hst. rewrite Hst.
  destruct (d_min m <? d_next m).
  - destruct (load buf2 (u32 (i + 1))) as [b| |]; try discriminate.
    cbn [mbind outcome_bind] in Htbl. apply store_length in Htbl. exact Htbl.
  - injection Htbl as <-. reflexivity.
Qed.

Lemma d_inv_new a : d_inv (lz78_new_d a).
Proof.
  split.
  - intros m [= <-]. pose proof (DICT_LIMIT_range DICT_SIZE_MIN) as Hr.
    cbn [dictionary_new d_next root].
    rewrite length_app, !length_map, !length_seq.
    unfold DICT_SIZE_MIN, DICT_SIZE_MAX in *. lia.
  - intros s H. cbn [lz78_new_d d_secondary] in H.
    destruct (stale_secondary a); discriminate.
Qed.

(** [decompress_code] keeps [d_inv], whatever the code. *)
Lemma decompress_code_inv a d code r d' :
  d_inv d -> decompress_code a d code = Ret (r, d') -> d_inv d'.
Proof.
  intros [Hmain Hsec]. unfold decompress_code.
  destruct (code =? DICT_CODE_EOF).
  { intros [= _ <-]. split; assumption. }
  destruct (d_main d) as [m|] eqn:Hm; [|discriminate].
  destruct (Hmain m eq_refl) as [Hnext Hlen].
  destruct ((code =? DICT_CODE_START) || (code =? DICT_CODE_SIZE)).
  { intros [= _ <-]. split; [|exact Hsec].
    intros m' [= <-]. cbn.
    unfold DICT_SIZE_MIN, DICT_SIZE_MAX in *. lia. }
  destruct (d_next m =? DICT_SIZE_MAX).
  { destruct (negb (dictionary_ok a)).
    { intros [= _ <-]. split; [intros m' H; discriminate|exact Hsec]. }
    intros H.
    assert (H' : (if negb (ht_dictionary_ok a)
                  then Ret (-1, {| d_completed := d_completed d;
                                   d_main := None; d_secondary := Null;
                                   d_bitbuf := d_bitbuf d;
                                   d_n_bits := d_n_bits d |})
                  else Ret (0, {| d_completed := d_completed d;
                                  d_main := Some (dictionary_new a code);
                                  d_secondary :=
                                    Valid (ht_dictionary_new code);
                                  d_bitbuf := 0; d_n_bits := 0 |}))
                 = Ret (r, d'))
      by (destruct (d_secondary d); [exact H|discriminate|exact H]).
    clear H. revert H'.
    destruct (negb (ht_dictionary_ok a)).
    { intros [= _ <-]. split; intros x H; discriminate. }
    intros [= _ <-]. split.
    - intros m' [= <-]. pose proof (DICT_LIMIT_range code) as Hr.
      cbn [dictionary_new d_next root].
      rewrite length_app, !length_map, !length_seq.
      unfold DICT_SIZE_MIN, DICT_SIZE_MAX in *. lia.
    - intros s [= <-]. apply ht_wf_new. }
  unfold decompress_data. rewrite Hm.
  destruct (d_secondary d) as [| |s] eqn:Hs;
    [intros [= _ <-]; split; [rewrite Hm; exact Hmain|rewrite Hs; exact Hsec]
    | |].
  { (* the pointer was never set *)
    destruct (dictionary_update m code) as [m1| |] eqn:Hdu; try discriminate.
    cbn [mbind outcome_bind].
    pose proof (dictionary_update_Ret_inside _ _ _ Hdu) as Hin.
    destruct (dictionary_update_shape _ _ _ Hdu) as [Hlen1 Hnext1].
    assert (Hn1 : d_next m1 = d_next m + 1).
    { rewrite Hnext1. apply u32_small.
      unfold DICT_SIZE_MIN, DICT_SIZE_MAX in *. lia. }
    destruct (if d_thr m1 <? d_next m1 then _ else _) as [[]| |];
      try discriminate.
    cbn [mbind outcome_bind].
    destruct (d_next m1 =? d_size m1); [discriminate|].
    intros [= _ <-]. split; [|intros s H; discriminate].
    intros m' [= <-]. unfold DICT_SIZE_MIN, DICT_SIZE_MAX in *. lia. }
  pose proof (Hsec s eq_refl) as Hwf.
  destruct (dictionary_update m code) as [m1| |] eqn:Hdu; try discriminate.
  cbn [mbind outcome_bind].
  pose proof (dictionary_update_Ret_inside _ _ _ Hdu) as Hin.
  destruct (dictionary_update_shape _ _ _ Hdu) as [Hlen1 Hnext1].
  assert (Hn1 : d_next m1 = d_next m + 1).
  { rewrite Hnext1. apply u32_small.
    unfold DICT_SIZE_MIN, DICT_SIZE_MAX in *. lia. }
  destruct (if d_thr m1 <? d_next m1 then _ else _) as [s1| |] eqn:Hfed;
    try discriminate.
  cbn [mbind outcome_bind].
  assert (Hwf1 : ht_wf s1).
  { destruct (d_thr m1 <? d_next m1).
    - destruct (region _ _ _) as [bs| |]; try discriminate.
      cbn [mbind outcome_bind] in Hfed.
      exact (feed_secondary_wf _ _ _ Hwf Hfed).
    - injection Hfed as <-. exact Hwf. }
  pose proof (ht_wf_bound _ Hwf1) as Hb1.
  pose proof Hwf1 as (Hl1 & Hsz1 & Hcnt1 & _).
  destruct (d_next m1 =? d_size m1).
  - destruct (dictionaries_swap m1 s1) as [[m2 s2]| |] eqn:Hswap;
      try discriminate.
    cbn [mbind outcome_bind]. intros [= _ <-].
    unfold dictionaries_swap in Hswap.
    rewrite take_ge in Hswap by lia.
    cbn [dictionary_reset root d_size d_thr n_bytes offset bytebuf] in Hswap.
    destruct (copy_entries (h_root s1) (h_d_next s1) (root m1))
      as [[next tbl]| |] eqn:Hcopy; try discriminate.
    cbn [mbind outcome_bind] in Hswap. injection Hswap as <- <-.
    assert (Hcnt : Z.of_nat (length (List.filter used (h_root s1)))
                   < h_d_next s1 < 4294967296).
    { unfold used_entries, DICT_SIZE_MIN, DICT_SIZE_MAX in *. lia. }
    destruct (copy_entries_Ret _ _ _ _ _ Hcnt Hcopy) as [_ ->].
    split.
    + intros m' [= <-]. cbn [d_next root]. rewrite length_fold_copied.
      unfold DICT_SIZE_MIN, DICT_SIZE_MAX in *. lia.
    + intros s' [= <-].
      unfold ht_wf, ht_dictionary_reset, used_entries.
      cbn [h_root h_d_size h_d_next].
      split; [rewrite length_replicate; unfold DICT_SIZE_MIN in *; lia|].
      split; [exact Hsz1|].
      assert (Hnone : forall n, List.filter used (replicate n ht_zero) = [])
        by (induction n; [reflexivity|assumption]).
      split; [rewrite Hnone; reflexivity|].
      apply Forall_forall. intros e He.
      apply list_elem_of_In, elem_of_replicate in He. destruct He as [-> _].
      discriminate.
  - cbn [mbind outcome_bind]. intros [= _ <-]. split.
    + intros m' [= <-]. unfold DICT_SIZE_MIN, DICT_SIZE_MAX in *. lia.
    + intros s' [= <-]. exact Hwf1.
Qed.

Lemma lz78_decompress_loop_halts a fuel : forall d input,
  d_inv d -> (length input < 9 * fuel)%nat ->
  snd (lz78_decompress_loop fuel a d input) <> None.
Proof.
  induction fuel as [|fuel IH]; intros d input Hinv Hlen; [lia|].
  cbn [lz78_decompress_loop].
  assert (Hinv0 : forall code bits,
            d_inv {| d_completed := d_completed d; d_main := d_main d;
                     d_secondary := d_secondary d;
                     d_bitbuf := code; d_n_bits := bits |})
    by (intros; exact Hinv).
  destruct Hinv as [Hmain _].
  destruct (d_main d) as [m|] eqn:Hm; [|discriminate].
  destruct (region _ _ _) as [out| |]; try discriminate.
  destruct (Hmain m eq_refl) as [Hnext _].
  assert (Hbits : 9 <= bitlen (d_next m)).
  { unfold DICT_SIZE_MIN, DICT_SIZE_MAX in *.
    pose proof (bitlen_mono 260 (d_next m) ltac:(lia) ltac:(lia)) as H.
    change (bitlen 260) with 9 in H. exact H. }
  destruct (decide _) as [Hshort|Hlong]; [discriminate|].
  match goal with |- context [decompress_code a ?d0 ?c] =>
    destruct (decompress_code a d0 c) as [[ret o']| |] eqn:Hdec;
      try discriminate;
    pose proof (decompress_code_inv a d0 c ret o' (Hinv0 _ _) Hdec) as Hinv'
  end.
  destruct (lz78_error ret); [discriminate|].
  destruct (d_completed o' =? 1); [discriminate|].
  specialize (IH o' (drop (Z.to_nat (bitlen (d_next m))) input) Hinv').
  destruct (lz78_decompress_loop fuel a o' _) as [out' r'].
  cbn [snd] in *. apply IH. rewrite length_drop. lia.
Qed.

(** X12: the loop of [lz78_decompress] makes at most one round for every
    9 bits of the input, and one more, whatever the bits and whatever the
    heap held: [d_next] of the main dictionary never goes below 260, so
    every round that goes on has read at least 9 bits.  After that many
    rounds the run has returned a status, or has used a pointer or an
    index outside a block, or is in a search of the secondary dictionary
    that never returns: it is no longer in the loop of the driver. *)
Theorem lz78_decompress_rounds (a : allocator) (input : list bool)
    (n : nat) :
  (length input < 9 * n)%nat ->
  snd (lz78_decompress_loop n a (lz78_new_d a) input) <> None.
Proof.
  intros Hlen.
  apply lz78_decompress_loop_halts; [exact (d_inv_new a)|exact Hlen].
Qed.

Lemma lz78_decompress_rounds_witness :
  snd (lz78_decompress_loop 3 (zeroed true true)
         (lz78_new_d (zeroed true true))
         (stream_bits [(258, 9); (9, 9)])) <> None.
Proof.
  apply (lz78_decompress_rounds (zeroed true true)
           (stream_bits [(258, 9); (9, 9)]) 3).
  vm_compute. lia.
Defined.

Lemma written_written o : written (written o) = written o.
Proof.
  unfold written at 1. pose proof (written_bits o) as H.
  destruct (Z.ltb_spec 0 (c_n_bits (written o))); [lia|reflexivity].
Qed.

Lemma pending_written o : pending (written o) = [].
Proof.
  unfold pending. pose proof (written_bits o) as H.
  destruct (Z.ltb_spec 0 (c_n_bits (written o))); [lia|reflexivity].
Qed.

(** A round of the driver first writes what is pending. *)
Lemma lz78_compress_loop_written fuel o input :
  lz78_compress_loop (S fuel) o input
  = (pending o ++ fst (lz78_compress_loop (S fuel) (written o) input),
     snd (lz78_compress_loop (S fuel) (written o) input)).
Proof.
  rewrite !lz78_compress_loop_S. cbn zeta.
  rewrite written_written, pending_written.
  destruct (fgetc input) as [c_in rest].
  destruct (compress_byte (written o) c_in) as [o'| |]; cbn [fst snd app];
    rewrite ?app_nil_r; try reflexivity.
  destruct (c_completed o' =? 1); cbn [fst snd app];
    rewrite ?app_nil_r; [reflexivity|].
  destruct (lz78_compress_loop fuel o' rest) as [out' r]. reflexivity.
Qed.

(** One round of the driver of the decompressor on a pair that fits its
    width. *)
Lemma lz78_decompress_loop_pair fuel a d0 m pre code bits tail :
  d_main d0 = Some m -> ready m = Ret pre ->
  bits = bitlen (d_next m) -> 0 <= bits -> 0 <= code < 2 ^ bits ->
  lz78_decompress_loop (S fuel) a d0 (bits_of code bits ++ tail)
  = match decompress_code a
            {| d_completed := d_completed d0; d_main := d_main d0;
               d_secondary := d_secondary d0;
               d_bitbuf := code; d_n_bits := bits |} code with
    | Ret (ret, o') =>
        match lz78_error ret with
        | Some err => (pre, Some (Ret err))
        | None =>
            if d_completed o' =? 1 then (pre, Some (Ret LZ78_SUCCESS))
            else (pre ++ fst (lz78_decompress_loop fuel a o' tail),
                  snd (lz78_decompress_loop fuel a o' tail))
        end
    | Fault => (pre, Some Fault)
    | Diverge => (pre, Some Diverge)
    end.
Proof.
  intros Hm Hready Hbits Hnn Hcode. unfold ready in Hready.
  cbn [lz78_decompress_loop]. rewrite Hm, Hready, <- Hbits.
  assert (Hlen : length (bits_of code bits) = Z.to_nat bits)
    by apply length_bits_of.
  rewrite take_app_length' by (symmetry; exact Hlen).
  rewrite drop_app_length' by (symmetry; exact Hlen).
  rewrite bits_value_bits_of by assumption.
  destruct (decide _) as [Hshort|_];
    [rewrite length_app in Hshort; lia|].
  destruct (decompress_code _ _ _) as [[ret o']| |]; try reflexivity.
  destruct (lz78_error ret); [reflexivity|].
  destruct (d_completed o' =? 1); [reflexivity|].
  destruct (lz78_decompress_loop fuel a o' tail). reflexivity.
Qed.

Lemma dictionaries_swap_size m s m2 s2 :
  dictionaries_swap m s = Ret (m2, s2) -> d_size m2 = d_size m.
Proof.
  unfold dictionaries_swap.
  destruct (copy_entries _ _ _) as [[next tbl]| |]; try discriminate.
  cbn [mbind outcome_bind]. intros [= <- _]. reflexivity.
Qed.

Lemma dictionaries_swap_ready m s m2 s2 :
  dictionaries_swap m s = Ret (m2, s2) -> ready m2 = ready m.
Proof.
  unfold dictionaries_swap.
  destruct (copy_entries _ _ _) as [[next tbl]| |]; try discriminate.
  cbn [mbind outcome_bind]. intros [= <- _]. reflexivity.
Qed.

Lemma same_dicts_refl d : same_dicts d d.
Proof. repeat split. Qed.

(** A new dictionary holds nothing for [fwrite] where the heap held 0 in
    [n_bytes]. *)
Lemma ready_new a D : clean a -> ready (dictionary_new a D) = Ret [].
Proof.
  intros [Hn _]. unfold ready. cbn [dictionary_new n_bytes].
  rewrite Hn. reflexivity.
Qed.

(** ** The decompressor follows the compressor *)

Lemma sync_fits o m s b w :
  sync o m s b w ->
  0 <= cur_node (c_main o) < 2 ^ bitlen (h_d_next (c_main o))
  /\ 0 < bitlen (h_d_next (c_main o)).
Proof.
  intros Hsync.
  pose proof (sync_cur_below _ _ _ _ _ Hsync) as Hcur.
  pose proof (sync_next _ _ _ _ _ Hsync) as Hnext.
  destruct (sync_main _ _ _ _ _ Hsync) as (Hwf & _).
  pose proof (ht_wf_bound _ Hwf) as Hb. pose proof Hwf as (_ & Hsz & _).
  pose proof (bitlen_of_next _ Hwf) as Hw.
  pose proof (bitlen_above (h_d_next (c_main o))
                ltac:(unfold DICT_SIZE_MIN, DICT_SIZE_MAX in *; lia)).
  lia.
Qed.

(** One call of [compress_byte] in the middle of a sequence, with the
    text. *)
Lemma compress_byte_text_sync a D o d m s b w pre input c_in rest o' :
  d_main d = Some m -> d_secondary d = Valid s -> sync o m s b w ->
  d_size m = D -> D < DICT_SIZE_MAX ->
  ready m = Ret pre -> c_completed o = 0 -> d_completed d = 0 ->
  c_n_bits o <= 0 ->
  (input = c_in :: rest /\ 0 <= c_in < 256)
  \/ (input = [] /\ c_in = EOF /\ rest = []) ->
  compress_byte o c_in = Ret o' ->
  c_completed o' = 0
  /\ h_d_size (c_main o') = h_d_size (c_main o)
  /\ (h_d_next (c_main o) + 1 < h_d_size (c_main o) ->
      h_d_next (c_main o') <= h_d_next (c_main o) + 1)
  /\ text_step a D (h_d_next (c_main o) + 1 < h_d_size (c_main o)) o' d
       ((pre ++ b :: w) ++ take 1 input) rest.
Proof.
  intros Hm Hs Hsync HDm HD Hready Hcdone Hddone Hbits Hinput H.
  assert (Hin : is_input c_in).
  { destruct Hinput as [(_ & Hc)|(_ & -> & _)]; [left; exact Hc|right; reflexivity]. }
  pose proof (sync_cur_not_none _ _ _ _ _ Hsync) as Hnn.
  destruct (sync_main _ _ _ _ _ Hsync) as (Hwf & Htree & Hcur).
  destruct (sync_secondary _ _ _ _ _ Hsync) as (Hwfs & Htrees & Hcurs).
  destruct (sync_sizes _ _ _ _ _ Hsync) as (Hz1 & Hz2 & Hz3 & Hz4).
  pose proof (sync_next _ _ _ _ _ Hsync) as Hnext.
  pose proof (ht_wf_bound _ Hwf) as Hb.
  pose proof Hwf as (_ & Hsize & _).
  pose proof (label_of_range c_in Hin) as Hc.
  assert (Hbyte : label_of c_in < 256 ->
            0 <= label_of c_in < 256 /\ input = label_of c_in :: rest).
  { intros Hlt. destruct Hinput as [(-> & Hc')|(_ & -> & _)].
    - unfold label_of, EOF. destruct (Z.eqb_spec c_in (-1)); [lia|auto].
    - unfold label_of, EOF, DICT_CODE_EOF in Hlt. cbn in Hlt. lia. }
  assert (Heof : 256 <= label_of c_in ->
            label_of c_in = DICT_CODE_EOF /\ input = [] /\ rest = []).
  { intros Hge. destruct Hinput as [(_ & Hc')|(-> & -> & ->)]; [|auto].
    unfold label_of, EOF in Hge. destruct (Z.eqb_spec c_in (-1)); lia. }
  destruct (cur_inside_not_end _ Hwf Hcur) as (Hne & Hns & Hnp & _).
  unfold compress_byte in H.
  destruct (Z.eqb_spec (cur_node (c_main o)) DICT_CODE_START);
    [contradiction|].
  destruct (Z.eqb_spec (cur_node (c_main o)) DICT_CODE_EOF); [contradiction|].
  destruct (Z.eqb_spec (cur_node (c_main o)) DICT_CODE_STOP); [contradiction|].
  destruct (compress_input_cases o c_in o' Hwf Hin H)
    as (Hcdone' & _ & r & main' & Hupd & Hcases).
  cbn zeta in Hupd, Hcases.
  destruct (ht_dictionary_update_wf (c_main o) (label_of c_in) r main' Hwf
              ltac:(lia) Hupd) as (Hwf' & Hsz' & _ & _ & Hrr).
  pose proof (ht_wf_bound _ Hwf') as Hb'.
  pose proof Hwf' as (_ & Hsize' & _).
  split; [congruence|].
  destruct (ht_dictionary_update_tree (c_main o) (label_of c_in) r main' Hwf
              Htree (or_intror Hcur) Hc Hupd) as [Hext|Hnew].
  - (* the sequence goes on *)
    destruct Hext as (-> & _ & Hn' & [[Hno _]|(Hlt & _)]); [contradiction|].
    destruct Hcases as [(_ & _ & Hnb & Hmain & Hsec)|(Hr & _)]; [|lia].
    destruct (Hbyte Hlt) as [Hcb ->].
    split; [rewrite Hmain; exact Hsz'|]. split; [rewrite Hmain; lia|].
    unfold text_step, pending. rewrite Hnb.
    destruct (Z.ltb_spec 0 (c_n_bits o)); [lia|].
    split; [congruence|]. split; [exact Hddone|].
    right. left. exists m, s, b, (w ++ [label_of c_in]), pre.
    split; [exact Hm|]. split; [exact Hs|].
    split; [exact (sync_extend _ _ _ _ _ _ _ _ Hsync Hcb Hupd Hmain Hsec)|].
    split; [exact HDm|]. split; [exact Hready|].
    cbn [take]. rewrite <- app_assoc. reflexivity.
  - (* the code of the sequence is emitted *)
    destruct Hnew as (-> & _ & Hc' & Hn' & _).
    destruct Hcases as [(Hr & _)|(_ & Hbuf & Hnb & Hcases)]; [lia|].
    destruct (sync_fits _ _ _ _ _ Hsync) as [Hfit Hpos].
    assert (Hsz1 : h_d_size (c_main o') = h_d_size (c_main o)).
    { destruct Hcases as [(_ & -> & _)|(_ & -> & _)]; [exact Hsz'|].
      cbn [set_cur_node h_d_size]. exact Hz1. }
    split; [exact Hsz1|].
    split.
    { intros Htight.
      destruct Hcases as [(_ & -> & _)|(Hfull & _)]; lia. }
    unfold text_step, pending. rewrite Hnb, Hbuf.
    destruct (Z.ltb_spec 0 (bitlen (h_d_next (c_main o)))); [|lia].
    split; [exact Hfit|]. split; [lia|].
    exists m, pre.
    split; [exact Hm|]. split; [rewrite Hnext; reflexivity|].
    split; [exact Hready|].
    intros d0 (Hd0m & Hd0s & Hd0c).
    rewrite Hm in Hd0m. rewrite Hs in Hd0s.
    assert (Hbelow : d_next m < DICT_SIZE_MAX).
    { destruct (sync_dictionary _ _ _ _ _ Hsync) as (_ & _ & _ & Hle & _).
      lia. }
    rewrite (decompress_code_sync a o d0 m s b w Hd0m Hsync Hbelow).
    rewrite (decompress_data_unfold d0 m s _ Hd0m Hd0s).
    split.
    { (* the decompressor returns *)
      intros Htight.
      destruct (sync_update_returns _ _ _ _ _ Hsync ltac:(lia)) as (m1 & Hdu).
      destruct (sync_fed_returns _ _ _ _ _ _ Hsync Hdu) as (s1 & Hfed).
      destruct (sync_dictionary_update _ _ _ _ _ _ Hsync Hdu)
        as (_ & _ & Hn1 & _ & Hsz1' & _).
      rewrite Hdu. cbn [mbind outcome_bind]. rewrite Hfed.
      cbn [mbind outcome_bind].
      destruct (Z.eqb_spec (d_next m1) (d_size m1)) as [Heq|_]; [lia|].
      cbn [mbind outcome_bind]. eauto. }
    intros r d1 Hdec.
    destruct (dictionary_update m (cur_node (c_main o))) as [m1| |] eqn:Hdu;
      try discriminate.
    cbn [mbind outcome_bind] in Hdec.
    destruct (fed m1 s) as [s1| |] eqn:Hfed; try discriminate.
    cbn [mbind outcome_bind] in Hdec.
    pose proof (sync_fed_after _ _ _ _ _ _ _ Hsync Hdu Hfed) as Hsame.
    destruct (sync_dictionary_update _ _ _ _ _ _ Hsync Hdu)
      as (_ & _ & Hn1 & _ & Hsz1' & _ & _ & Hreg).
    fold (ready m1) in Hreg.
    destruct (Z.eqb_spec (cur_node (c_main o)) DICT_CODE_EOF);
      [contradiction|].
    assert (Hmw : c_main (written o') = c_main o') by apply c_main_written.
    assert (Hsw : c_secondary (written o') = c_secondary o')
      by apply c_secondary_written.
    assert (Hcw : c_completed (written o') = 0).
    { unfold written. destruct (0 <? c_n_bits o'); cbn; congruence. }
    destruct Hcases as [(Hne' & Hmain & Hsec)|(Hfull & Hmain & Hsec)].
    + (* the table is not full *)
      destruct (Z.eqb_spec (d_next m1) (d_size m1)) as [Heq|_]; [lia|].
      cbn [mbind outcome_bind] in Hdec. injection Hdec as <- <-.
      split; [reflexivity|].
      destruct (Z_lt_le_dec (label_of c_in) 256) as [Hlt|Hge].
      * destruct (Hbyte Hlt) as [Hcb ->].
        exists ((b :: w) ++ [label_of c_in]).
        split; [cbn [take]; rewrite <- !app_assoc; reflexivity|].
        split; [exact Hcw|]. split; [cbn; congruence|].
        right. left. exists m1, s1, (label_of c_in), [], (b :: w).
        split; [reflexivity|]. split; [reflexivity|].
        split; [|split; [congruence|split; [exact Hreg|reflexivity]]].
        apply (sync_dicts o'); [symmetry; exact Hmw|symmetry; exact Hsw|].
        exact (sync_emit_plain _ _ _ _ _ _ _ _ _ _ Hsync Hcb Hupd
                 Hmain Hsec Hdu Hsame).
      * destruct (Heof Hge) as (Hl & -> & ->).
        exists (b :: w).
        split; [cbn [take]; rewrite app_nil_r; reflexivity|].
        split; [exact Hcw|]. split; [cbn; congruence|].
        right. right. rewrite Hmw, Hmain.
        split; [congruence|]. split; [exact Hwf'|]. split; [reflexivity|].
        exists m1. split; [reflexivity|]. split; [lia|exact Hreg].
    + (* the table is full: the dictionaries are swapped *)
      destruct (Z.eqb_spec (d_next m1) (d_size m1)) as [_|Hne']; [|lia].
      destruct (dictionaries_swap m1 s1) as [[m2 s2]| |] eqn:Hswap;
        try discriminate.
      cbn [mbind outcome_bind] in Hdec. injection Hdec as <- <-.
      pose proof (dictionaries_swap_ready _ _ _ _ Hswap) as Hready2.
      pose proof (dictionaries_swap_size _ _ _ _ Hswap) as Hsize2.
      rewrite Hreg in Hready2.
      split; [reflexivity|].
      destruct (Z_lt_le_dec (label_of c_in) 256) as [Hlt|Hge].
      * destruct (Hbyte Hlt) as [Hcb ->].
        exists ((b :: w) ++ [label_of c_in]).
        split; [cbn [take]; rewrite <- !app_assoc; reflexivity|].
        split; [exact Hcw|]. split; [cbn; congruence|].
        right. left. exists m2, s2, (label_of c_in), [], (b :: w).
        split; [reflexivity|]. split; [reflexivity|].
        split; [|split; [congruence|split; [exact Hready2|reflexivity]]].
        apply (sync_dicts o'); [symmetry; exact Hmw|symmetry; exact Hsw|].
        exact (sync_emit_swap _ _ _ _ _ _ _ _ _ _ _ _ Hsync Hcb Hupd
                 Hmain Hsec Hdu Hsame Hswap).
      * destruct (Heof Hge) as (Hl & -> & ->).
        exists (b :: w).
        split; [cbn [take]; rewrite app_nil_r; reflexivity|].
        split; [exact Hcw|]. split; [cbn; congruence|].
        right. right. rewrite Hmw, Hmain.
        cbn [set_cur_node cur_node h_d_next].
        split; [exact Hl|].
        split; [apply (ht_wf_set_cur_node (c_secondary o)); exact Hwfs|].
        split; [reflexivity|].
        exists m2. split; [reflexivity|]. split; [|exact Hready2].
        destruct (same_table_fields _ _ Hsame) as (Hr1 & Hc1 & Hy1 & Ht1 & Hx1).
        assert (Hwf1 : ht_wf s1).
        { unfold ht_wf, used_entries in *. rewrite Hr1, Hy1, Hx1. exact Hwfs. }
        assert (Htree1 : ht_tree s1).
        { unfold ht_tree, used_entries in *. rewrite Hr1. exact Htrees. }
        destruct (dictionaries_swap_tree _ _ _ _ Hwf1 Htree1 Hswap)
          as (_ & _ & _ & _ & _ & Hnext2 & _).
        congruence.
Qed.

(** One call of [compress_byte] on a compressor in step with the
    decompressor, with the text. *)
Lemma compress_byte_text a D o d txt input c_in rest o' :
  dictionary_ok a = true -> ht_dictionary_ok a = true -> clean a ->
  DICT_SIZE_MIN + 1 <= D < DICT_SIZE_MAX ->
  in_text D o d txt input -> c_n_bits o <= 0 ->
  (input = c_in :: rest /\ 0 <= c_in < 256)
  \/ (input = [] /\ c_in = EOF /\ rest = []) ->
  compress_byte o c_in = Ret o' ->
  c_completed o' = 0
  /\ h_d_size (c_main o') = h_d_size (c_main o)
  /\ (h_d_next (c_main o) + 1 < h_d_size (c_main o) ->
      h_d_next (c_main o') <= h_d_next (c_main o) + 1)
  /\ text_step a D (h_d_next (c_main o) + 1 < h_d_size (c_main o)) o' d
       (txt ++ take 1 input) rest.
Proof.
  intros Ha1 Ha2 Hclean HD (Hcdone & Hddone & Hstep) Hbits Hinput H.
  assert (Hlim : DICT_LIMIT D = D) by (apply DICT_LIMIT_id; lia).
  assert (Hin : is_input c_in).
  { destruct Hinput as [(_ & Hc)|(_ & -> & _)];
      [left; exact Hc|right; reflexivity]. }
  pose proof (label_of_range c_in Hin) as Hc.
  assert (Hmw : c_main (written o') = c_main o') by apply c_main_written.
  assert (Hsw : c_secondary (written o') = c_secondary o')
    by apply c_secondary_written.
  destruct Hstep as [(Hmain & Hsec & -> & Hset & m & Hm & Hnext & Hready)
                    |[(m & s & b & w & pre & Hm & Hs & Hsync & HDm & Hready
                       & ->)
                     |(Hcur & Hwf & -> & m & Hm & Hnext & Hready)]].
  - (* the size is announced and the first byte read *)
    unfold compress_byte in H. rewrite Hmain in H |- *.
    cbn [cur_node set_cur_node h_d_size h_d_next ht_dictionary_new] in H |- *.
    change (DICT_CODE_START =? DICT_CODE_START) with true in H. cbn iota in H.
    rewrite Hlim in H |- *.
    match type of H with compress_input ?o1 _ = _ => set (o1' := o1) in H end.
    assert (Hwf1 : ht_wf (c_main o1')).
    { cbn. apply (ht_wf_set_cur_node (ht_dictionary_new D)). apply ht_wf_new. }
    destruct (compress_input_cases o1' c_in o' Hwf1 Hin H)
      as (Hcdone' & _ & r & main' & Hupd & Hcases).
    cbn zeta in Hupd, Hcases.
    rewrite ht_dictionary_update_no_node in Hupd by reflexivity.
    rewrite u16_small in Hupd by lia.
    injection Hupd as <- <-.
    destruct Hcases as [(_ & Hbuf & Hnb & Hmain' & Hsec')|(Hr & _)]; [|lia].
    cbn [o1' emit with_dicts c_bitbuf c_n_bits c_secondary c_completed]
      in Hbuf, Hnb, Hsec', Hcdone'.
    rewrite Hsec in Hsec'.
    split; [congruence|].
    split; [rewrite Hmain'; cbn; exact Hlim|].
    split; [intros _; rewrite Hmain'; cbn; lia|].
    unfold text_step, pending. rewrite Hnb, Hbuf.
    change (0 <? bitlen DICT_SIZE_MAX) with true. cbn iota.
    change (bitlen DICT_SIZE_MAX) with 21.
    unfold DICT_SIZE_MIN, DICT_SIZE_MAX in HD.
    split; [lia|]. split; [lia|].
    exists m, [].
    split; [exact Hm|]. split; [rewrite Hnext; reflexivity|].
    split; [exact Hready|].
    intros d0 (Hd0m & Hd0s & Hd0c). rewrite Hm in Hd0m.
    assert (Hdec : decompress_code a d0 D
              = Ret (0, {| d_completed := d_completed d0;
                           d_main := Some (dictionary_new a D);
                           d_secondary := Valid (ht_dictionary_new D);
                           d_bitbuf := 0; d_n_bits := 0 |})).
    { unfold decompress_code. rewrite Hd0m, Hnext, Ha1, Ha2.
      unfold DICT_CODE_EOF, DICT_CODE_START, DICT_CODE_SIZE.
      destruct (Z.eqb_spec D 256); [lia|].
      destruct (Z.eqb_spec D 258); [lia|].
      destruct (Z.eqb_spec D 257); [lia|].
      rewrite Z.eqb_refl. cbn [orb negb].
      rewrite <- Hd0s in Hset.
      destruct (d_secondary d0); [reflexivity|contradiction|reflexivity]. }
    rewrite Hdec. split; [intros _; eauto|].
    intros r d1 [= <- <-]. split; [reflexivity|].
    unfold DICT_CODE_EOF. destruct (Z.eqb_spec D 256); [lia|].
    exists (take 1 input). split; [reflexivity|].
    split; [unfold written; destruct (0 <? c_n_bits o'); cbn; congruence|].
    split; [cbn; congruence|].
    destruct (Z_lt_le_dec (label_of c_in) 256) as [Hlt|Hge].
    + assert (Hcb : 0 <= label_of c_in < 256) by lia.
      assert (Hinp : input = label_of c_in :: rest).
      { destruct Hinput as [(-> & Hc')|(_ & -> & _)].
        - unfold label_of, EOF. destruct (Z.eqb_spec c_in (-1)); [lia|auto].
        - unfold label_of, EOF, DICT_CODE_EOF in Hlt. cbn in Hlt. lia. }
      right. left.
      exists (dictionary_new a D), (ht_dictionary_new D), (label_of c_in),
             [], [].
      split; [reflexivity|]. split; [reflexivity|].
      split; [|split; [exact Hlim
                      |split; [exact (ready_new a D Hclean)
                              |rewrite Hinp; reflexivity]]].
      apply (sync_dicts o'); [symmetry; exact Hmw|symmetry; exact Hsw|].
      apply sync_start; try (rewrite Hmain'; cbn; congruence).
      * unfold DICT_SIZE_MIN, DICT_SIZE_MAX. lia.
      * lia.
    + assert (Hinp : input = [] /\ label_of c_in = 256).
      { destruct Hinput as [(_ & Hc')|(-> & -> & _)]; [|auto].
        unfold label_of, EOF in Hge. destruct (Z.eqb_spec c_in (-1)); lia. }
      destruct Hinp as [-> Hl].
      right. right. rewrite Hmw, Hmain'. cbn [set_cur_node cur_node].
      split; [exact Hl|].
      split; [apply (ht_wf_set_cur_node
                       (set_prev_node (set_cur_node (ht_dictionary_new D)
                                         NO_NODE) NO_NODE));
              exact (ht_wf_new D)|].
      split; [destruct Hinput as [(Hx & _)|(_ & _ & ->)];
              [discriminate|reflexivity]|].
      exists (dictionary_new a D). split; [reflexivity|].
      split; [reflexivity|exact (ready_new a D Hclean)].
  - exact (compress_byte_text_sync a D o d m s b w pre input c_in rest o'
             Hm Hs Hsync HDm (proj2 HD) Hready Hcdone Hddone Hbits Hinput H).
  - (* the end marker *)
    destruct Hinput as [(Hx & _)|(_ & _ & ->)]; [discriminate|].
    unfold compress_byte in H. rewrite Hcur in H.
    change (DICT_CODE_EOF =? DICT_CODE_START) with false in H.
    change (DICT_CODE_EOF =? DICT_CODE_EOF) with true in H.
    cbn iota in H. injection H as <-.
    cbn [with_dicts emit c_completed c_main set_cur_node h_d_size h_d_next].
    split; [exact Hcdone|]. split; [reflexivity|]. split; [lia|].
    unfold text_step, pending. cbn [emit with_dicts c_n_bits c_bitbuf c_main].
    pose proof (bitlen_of_next _ Hwf) as Hw.
    destruct (Z.ltb_spec 0 (bitlen (h_d_next (c_main o)))); [|lia].
    assert (2 ^ 9 <= 2 ^ bitlen (h_d_next (c_main o)))
      by (apply Z.pow_le_mono_r; lia).
    unfold DICT_CODE_EOF at 1 2.
    split; [lia|]. split; [lia|].
    exists m, txt.
    split; [exact Hm|]. split; [rewrite Hnext; reflexivity|].
    split; [exact Hready|].
    intros d0 _. unfold decompress_code.
    change (DICT_CODE_EOF =? DICT_CODE_EOF) with true. cbn iota.
    split; [intros _; eauto|].
    intros r d1 [= <- <-]. split; [reflexivity|].
    cbn [d_completed set_cur_node cur_node]. rewrite app_nil_r. auto.
Qed.

Lemma in_text_run D o d txt input :
  in_text D o d txt input -> cur_node (c_main o) <> DICT_CODE_EOF -> c_run o.
Proof.
  intros (Hcdone & _ & Hstep) Hne.
  destruct Hstep as [(Hmain & Hsec & _)
                    |[(m & s & b & w & pre & _ & _ & Hsync & _)
                     |(Hcur & _)]]; [| |contradiction].
  - unfold c_run. rewrite Hmain, Hsec.
    split; [exact Hcdone|].
    split; [apply (ht_wf_set_cur_node (ht_dictionary_new _)), ht_wf_new|].
    split; [exact (ht_tree_new _)|]. split; [left; reflexivity|].
    split; [apply ht_wf_new|]. split; [apply ht_tree_new|].
    split; [left; reflexivity|reflexivity].
  - destruct (sync_main _ _ _ _ _ Hsync) as (Hwf & Htree & Hcur).
    destruct (sync_secondary _ _ _ _ _ Hsync) as (Hwfs & Htrees & Hcurs).
    destruct (sync_sizes _ _ _ _ _ Hsync) as (Hz1 & _).
    unfold c_run. auto 10.
Qed.

(** The end of the input on both sides. *)
Lemma compress_byte_text_end D o d txt input c_in o' :
  in_text D o d txt input -> c_n_bits o <= 0 -> is_input c_in ->
  compress_byte o c_in = Ret o' ->
  (cur_node (c_main o) = DICT_CODE_EOF ->
   exists b, pending o' = [(DICT_CODE_EOF, b)])
  /\ (c_in = EOF -> cur_node (c_main o) <> DICT_CODE_EOF ->
      cur_node (c_main o') = DICT_CODE_EOF).
Proof.
  intros Htext Hbits Hin H. split.
  - intros Hcur.
    destruct Htext as (_ & _ & [(Hmain & _)|[(m & s & b & w & pre & _ & _
                                             & Hsync & _)|(_ & Hwf & _)]]).
    + rewrite Hmain in Hcur. discriminate.
    + destruct (sync_main _ _ _ _ _ Hsync) as (Hwf & _ & Hci).
      destruct (cur_inside_not_end _ Hwf Hci) as (Hne & _). contradiction.
    + unfold compress_byte in H. rewrite Hcur in H.
      change (DICT_CODE_EOF =? DICT_CODE_START) with false in H.
      change (DICT_CODE_EOF =? DICT_CODE_EOF) with true in H.
      cbn iota in H. injection H as <-.
      unfold pending. cbn [emit with_dicts c_n_bits c_bitbuf].
      pose proof (bitlen_of_next _ Hwf) as Hw.
      destruct (Z.ltb_spec 0 (bitlen (h_d_next (c_main o)))); [|lia].
      eauto.
  - intros -> Hne.
    pose proof (in_text_run _ _ _ _ _ Htext Hne) as Hrun.
    destruct (compress_byte_run o EOF Hrun Hbits Hin) as (_ & _ & Hret).
    destruct (Hret o' H) as (_ & He & _). apply (He eq_refl).
Qed.

Lemma stream_bits_cons code bits out :
  stream_bits ((code, bits) :: out) = bits_of code bits ++ stream_bits out.
Proof. reflexivity. Qed.

(** The two drivers, one after the other: what the decompressor writes,
    when it returns, is what the compressor read; and it returns when
    the main dictionary does not fill up. *)
Lemma round_trip_loop a D : forall fuel o input d txt out pad,
  dictionary_ok a = true -> ht_dictionary_ok a = true -> clean a ->
  DICT_SIZE_MIN + 1 <= D < DICT_SIZE_MAX ->
  Forall (fun c => 0 <= c < 256) input ->
  in_text D o d txt input -> c_n_bits o <= 0 ->
  lz78_compress_loop fuel o input = (out, Some (Ret LZ78_SUCCESS)) ->
  forall fuel_d d0, same_dicts d0 d ->
    (forall bytes st,
       lz78_decompress_loop fuel_d a d0 (stream_bits out ++ pad)
       = (bytes, Some (Ret st)) ->
       st = LZ78_SUCCESS /\ bytes = txt ++ input)
    /\ (cur_node (c_main o) = DICT_CODE_EOF
        \/ h_d_next (c_main o) + Z.of_nat (length input) + 1
           < h_d_size (c_main o) ->
        (length out <= fuel_d)%nat ->
        lz78_decompress_loop fuel_d a d0 (stream_bits out ++ pad)
        = (txt ++ input, Some (Ret LZ78_SUCCESS))).
Proof.
  induction fuel as [|fuel IH];
    intros o input d txt out pad Ha1 Ha2 Hcl HD Hinput Htext Hbits Hloop
           fuel_d d0 Hsame; [discriminate|].
  rewrite lz78_compress_loop_S in Hloop. cbn zeta in Hloop.
  assert (Hp : pending o = []).
  { unfold pending. destruct (Z.ltb_spec 0 (c_n_bits o)); [lia|reflexivity]. }
  rewrite (pending_nil_written o Hp), Hp in Hloop.
  destruct (fgetc input) as [c_in rest] eqn:Hget.
  assert (Hcases : (input = c_in :: rest /\ 0 <= c_in < 256)
                   \/ (input = [] /\ c_in = EOF /\ rest = [])).
  { destruct input as [|c tl]; cbn in Hget; injection Hget as <- <-.
    - right. auto.
    - left. inversion Hinput; subst. auto. }
  destruct (fgetc_input _ _ _ Hinput Hget) as [Hc Hrest].
  destruct (compress_byte o c_in) as [o'| |] eqn:Hstep; try discriminate.
  destruct (compress_byte_text a D o d txt input c_in rest o' Ha1 Ha2 Hcl HD
              Htext Hbits Hcases Hstep) as (Hcdone' & Hsz' & Hnext' & Hts).
  destruct (compress_byte_text_end D o d txt input c_in o' Htext Hbits Hc Hstep)
    as [Hend1 Hend2].
  rewrite Hcdone' in Hloop. change (0 =? 1) with false in Hloop.
  cbn iota in Hloop.
  destruct fuel as [|fuel]; [discriminate|].
  rewrite lz78_compress_loop_written in Hloop.
  remember (lz78_compress_loop (S fuel) (written o') rest) as X eqn:HX.
  destruct X as [outX stX]. cbn [fst snd app] in Hloop.
  injection Hloop as <- ->. symmetry in HX.
  assert (Htxt : (txt ++ take 1 input) ++ rest = txt ++ input).
  { rewrite <- app_assoc. f_equal.
    destruct Hcases as [(-> & _)|(-> & _ & ->)]; reflexivity. }
  assert (Hlen : length input = (length (take 1 input) + length rest)%nat).
  { destruct Hcases as [(-> & _)|(-> & _ & ->)]; reflexivity. }
  unfold text_step in Hts.
  destruct (pending o') as [|[code bits] tl] eqn:Hp'.
  - (* nothing was written: the round goes on with the next byte *)
    cbn [app]. rewrite <- Htxt.
    pose proof (pending_nil_written o' Hp') as Hw.
    rewrite Hw in HX.
    pose proof (written_bits o') as Hb'. rewrite Hw in Hb'.
    destruct (IH o' rest d (txt ++ take 1 input) outX pad Ha1 Ha2 Hcl HD Hrest
                Hts Hb' HX fuel_d d0 Hsame)
      as [IH1 IH2].
    split; [exact IH1|].
    intros Htight Hfuel. apply IH2; [|exact Hfuel].
    destruct Htight as [Hcur|Htight].
    + destruct (Hend1 Hcur) as (b & Hb). discriminate Hb.
    + destruct Hcases as [(-> & _)|(_ & -> & ->)].
      * right. cbn [length] in Htight. lia.
      * left. apply Hend2; [reflexivity|].
        intros Hcur. destruct (Hend1 Hcur) as (b & Hb).
        discriminate Hb.
  - (* a pair was written: the decompressor takes it *)
    pose proof (pending_cons _ _ _ Hp') as ->.
    destruct Hts as (Hfit & Hnn & m & pre & Hm & Hw & Hready & Hdec).
    cbn [app]. rewrite stream_bits_cons, <- app_assoc.
    destruct Hsame as (Hs1 & Hs2 & Hs3).
    assert (Hm0 : d_main d0 = Some m) by congruence.
    set (d0' := {| d_completed := d_completed d0; d_main := d_main d0;
                   d_secondary := d_secondary d0;
                   d_bitbuf := code; d_n_bits := bits |}).
    assert (Hsame' : same_dicts d0' d) by (repeat split; assumption).
    destruct (Hdec d0' Hsame') as [Hprog Hres].
    assert (Hmw : c_main (written o') = c_main o') by apply c_main_written.
    split.
    + intros bytes st Hd. destruct fuel_d as [|fd]; [discriminate|].
      rewrite (lz78_decompress_loop_pair fd a d0 m pre code bits _ Hm0 Hready
                 Hw Hnn Hfit) in Hd.
      fold d0' in Hd.
      destruct (decompress_code a d0' code) as [[r d1]| |]; try discriminate.
      destruct (Hres r d1 eq_refl) as [Herr Hafter]. rewrite Herr in Hd.
      destruct (code =? DICT_CODE_EOF).
      * destruct Hafter as (Hdone1 & Hpre & -> & _). rewrite Hdone1 in Hd.
        change (1 =? 1) with true in Hd. cbn iota in Hd.
        injection Hd as <- <-. split; [reflexivity|].
        rewrite <- Htxt, Hpre, app_nil_r. reflexivity.
      * destruct Hafter as (txt1 & Htxt1 & Htext1).
        pose proof Htext1 as (_ & Hdone1 & _). rewrite Hdone1 in Hd.
        change (0 =? 1) with false in Hd. cbn iota in Hd.
        destruct (IH (written o') rest d1 txt1 outX pad Ha1 Ha2 Hcl HD Hrest
                    Htext1 (written_bits o') HX fd d1 (same_dicts_refl d1))
          as [IH1 _].
        destruct (lz78_decompress_loop fd a d1 (stream_bits outX ++ pad))
          as [bytes' r'] eqn:HL.
        cbn [fst snd] in Hd. injection Hd as <- ->.
        destruct (IH1 bytes' st eq_refl) as [-> ->].
        split; [reflexivity|].
        rewrite <- Htxt, Htxt1, <- app_assoc. reflexivity.
    + intros Htight Hfuel. destruct fuel_d as [|fd]; [cbn in Hfuel; lia|].
      cbn [length] in Hfuel.
      rewrite (lz78_decompress_loop_pair fd a d0 m pre code bits _ Hm0 Hready
                 Hw Hnn Hfit).
      fold d0'.
      assert (Hret : exists r d1, decompress_code a d0' code = Ret (r, d1)).
      { destruct Htight as [Hcur|Htight].
        - destruct (Hend1 Hcur) as (b & Hb).
          injection Hb as -> _. unfold decompress_code.
          change (DICT_CODE_EOF =? DICT_CODE_EOF) with true. cbn iota. eauto.
        - apply Hprog. lia. }
      destruct Hret as (r & d1 & Hret). rewrite Hret.
      destruct (Hres r d1 Hret) as [Herr Hafter]. rewrite Herr.
      destruct (Z.eqb_spec code DICT_CODE_EOF) as [Hcode|Hcode].
      * destruct Hafter as (Hdone1 & Hpre & -> & _). rewrite Hdone1.
        change (1 =? 1) with true. cbn iota.
        rewrite <- Htxt, Hpre, app_nil_r. reflexivity.
      * destruct Hafter as (txt1 & Htxt1 & Htext1).
        pose proof Htext1 as (_ & Hdone1 & _). rewrite Hdone1.
        change (0 =? 1) with false. cbn iota.
        destruct (IH (written o') rest d1 txt1 outX pad Ha1 Ha2 Hcl HD Hrest
                    Htext1 (written_bits o') HX fd d1 (same_dicts_refl d1))
          as [_ IH2].
        rewrite IH2; [|rewrite Hmw|lia].
        -- cbn [fst snd]. rewrite <- Htxt, Htxt1, <- app_assoc. reflexivity.
        -- assert (Hno : cur_node (c_main o) <> DICT_CODE_EOF).
           { intros Hcur. destruct (Hend1 Hcur) as (b & Hb).
             injection Hb as Hb _. contradiction. }
           destruct Htight as [Hcur|Htight]; [contradiction|].
           destruct Hcases as [(-> & _)|(_ & -> & ->)].
           ++ right. cbn [length] in Htight. lia.
           ++ left. apply Hend2; [reflexivity|exact Hno].
Qed.

Lemma pair_fits_new dsize : Forall pair_fits (pending (lz78_new_c dsize)).
Proof.
  unfold pending, lz78_new_c. cbn [c_n_bits c_bitbuf].
  change (0 <? bitlen DICT_SIZE_MIN) with true. cbn iota.
  constructor; [|constructor]. unfold pair_fits. cbn [fst snd].
  change (bitlen DICT_SIZE_MIN) with 9. unfold DICT_CODE_START. lia.
Qed.

(** [lz78_compress] and then [lz78_decompress] on its stream, followed by
    the bits [pad] that fill the last byte. *)
Lemma round_trip_drivers a dsize input out pad :
  dictionary_ok a = true -> ht_dictionary_ok a = true -> clean a ->
  DICT_LIMIT (if dsize =? 0 then DICT_SIZE_DEFAULT else dsize)
    < DICT_SIZE_MAX ->
  Forall (fun c => 0 <= c < 256) input ->
  lz78_compress dsize input = (out, Some (Ret LZ78_SUCCESS)) ->
  (forall bytes st,
     lz78_decompress a (stream_bits out ++ pad) = (bytes, Some (Ret st)) ->
     st = LZ78_SUCCESS /\ bytes = input)
  /\ (Z.of_nat (length input) + 261
        < DICT_LIMIT (if dsize =? 0 then DICT_SIZE_DEFAULT else dsize) ->
      lz78_decompress a (stream_bits out ++ pad)
      = (input, Some (Ret LZ78_SUCCESS))).
Proof.
  intros Ha1 Ha2 Hcl HD Hinput Hc.
  set (D := DICT_LIMIT (if dsize =? 0 then DICT_SIZE_DEFAULT else dsize)) in *.
  pose proof (DICT_LIMIT_range
                (if dsize =? 0 then DICT_SIZE_DEFAULT else dsize)) as Hr.
  fold D in Hr.
  assert (Hfit : Forall pair_fits out).
  { replace out with (fst (lz78_compress dsize input)) by (rewrite Hc; reflexivity).
    apply lz78_compress_loop_fit;
      [apply c_fit_new|exact Hinput|apply pair_fits_new]. }
  pose proof (length_stream_bits _ Hfit) as Hbits.
  unfold lz78_compress in Hc.
  replace (length input + 3)%nat with (S (length input + 2)) in Hc by lia.
  rewrite lz78_compress_loop_written in Hc.
  remember (lz78_compress_loop (S (length input + 2))
              (written (lz78_new_c dsize)) input) as X eqn:HX.
  destruct X as [outX stX]. cbn [fst snd] in Hc.
  assert (Hp : pending (lz78_new_c dsize) = [(DICT_CODE_START, 9)])
    by reflexivity.
  rewrite Hp in Hc. cbn [app] in Hc. injection Hc as <- ->. symmetry in HX.
  rewrite stream_bits_cons, <- app_assoc. unfold lz78_decompress.
  rewrite (lz78_decompress_loop_pair _ a (lz78_new_d a)
             (dictionary_new a DICT_SIZE_MIN) [] DICT_CODE_START 9 _
             eq_refl (ready_new a _ Hcl) eq_refl ltac:(lia)
             ltac:(unfold DICT_CODE_START; lia)).
  set (d1 := {| d_completed := 0;
                d_main := Some (set_d_next (dictionary_new a DICT_SIZE_MIN)
                                           DICT_SIZE_MAX);
                d_secondary := Null; d_bitbuf := 0; d_n_bits := 0 |}).
  assert (Hdec : decompress_code a
            {| d_completed := d_completed (lz78_new_d a);
               d_main := d_main (lz78_new_d a);
               d_secondary := d_secondary (lz78_new_d a);
               d_bitbuf := DICT_CODE_START; d_n_bits := 9 |} DICT_CODE_START
          = Ret (0, {| d_completed := 0;
                       d_main := Some (set_d_next
                                         (dictionary_new a DICT_SIZE_MIN)
                                         DICT_SIZE_MAX);
                       d_secondary := Null;
                       d_bitbuf := DICT_CODE_START; d_n_bits := 0 |})).
  { destruct Hcl as [_ Hsec]. unfold lz78_new_d.
    cbn [d_completed d_main d_secondary]. rewrite Hsec. reflexivity. }
  rewrite Hdec. cbn [lz78_error d_completed].
  change (lz78_error 0) with (@None Z). cbn iota.
  change (0 =? 1) with false. cbn iota.
  assert (Htext : in_text D (written (lz78_new_c dsize)) d1 [] input).
  { split; [unfold written; destruct (0 <? _); reflexivity|].
    split; [reflexivity|]. left.
    rewrite c_main_written, c_secondary_written.
    split; [reflexivity|]. split; [reflexivity|]. split; [reflexivity|].
    split; [discriminate|].
    eexists. split; [reflexivity|]. split; [reflexivity|].
    exact (ready_new a _ Hcl). }
  set (d1' := {| d_completed := 0; d_main := _; d_secondary := Null;
                 d_bitbuf := DICT_CODE_START; d_n_bits := 0 |}).
  assert (Hsame : same_dicts d1' d1) by (repeat split).
  destruct (round_trip_loop a D _ _ input d1 [] outX pad Ha1 Ha2 Hcl
              ltac:(lia) Hinput Htext (written_bits _) HX
              (length (bits_of DICT_CODE_START 9
                       ++ stream_bits outX ++ pad)) d1' Hsame)
    as [H1 H2].
  split.
  - intros bytes st Hd.
    destruct (lz78_decompress_loop _ a d1' (stream_bits outX ++ pad))
      as [bytes' r'] eqn:HL.
    cbn [fst snd app] in Hd. injection Hd as <- ->.
    exact (H1 bytes' st eq_refl).
  - intros Hshort. rewrite H2; [reflexivity| |].
    + right. rewrite c_main_written. unfold lz78_new_c.
      cbn [c_main set_cur_node ht_dictionary_new h_d_next h_d_size].
      fold D. rewrite DICT_LIMIT_id by lia. unfold DICT_SIZE_MIN. lia.
    + rewrite !length_app. cbn [length] in Hbits.
      rewrite stream_bits_cons, length_app in Hbits. lia.
Qed.

(** X9: round trip, whenever the decompressor gets through: if
    [lz78_compress] has returned [LZ78_SUCCESS] and [lz78_decompress],
    run on the stream (whatever the bits that fill its last byte), returns
    at all, then it returns [LZ78_SUCCESS] and has written exactly the
    input.  The decompressor never returns with wrong bytes, with bytes
    missing, or with an error code. *)
Theorem round_trip_when_decoded (a : allocator) (dsize : Z)
    (input : list Z) (out : list (Z * Z)) (pad : list bool)
    (bytes : list Z) (st : Z) :
  dictionary_ok a = true -> ht_dictionary_ok a = true -> clean a ->
  DICT_LIMIT (if dsize =? 0 then DICT_SIZE_DEFAULT else dsize)
    < DICT_SIZE_MAX ->
  Forall (fun c => 0 <= c < 256) input ->
  lz78_compress dsize input = (out, Some (Ret LZ78_SUCCESS)) ->
  lz78_decompress a (stream_bits out ++ pad) = (bytes, Some (Ret st)) ->
  st = LZ78_SUCCESS /\ bytes = input.
Proof.
  intros Ha1 Ha2 Hcl HD Hinput Hc Hd.
  destruct (round_trip_drivers a dsize input out pad Ha1 Ha2 Hcl HD Hinput Hc)
    as [H _].
  exact (H bytes st Hd).
Qed.

(** X10: round trip for inputs the main dictionary has room for: when
    [length input + 261] is below the dictionary size, [lz78_compress]
    returns [LZ78_SUCCESS] and [lz78_decompress] on its stream returns
    [LZ78_SUCCESS] after writing exactly the input. *)
Theorem round_trip_short (a : allocator) (dsize : Z) (input : list Z)
    (pad : list bool) :
  dictionary_ok a = true -> ht_dictionary_ok a = true -> clean a ->
  DICT_LIMIT (if dsize =? 0 then DICT_SIZE_DEFAULT else dsize)
    < DICT_SIZE_MAX ->
  Forall (fun c => 0 <= c < 256) input ->
  Z.of_nat (length input) + 261
    < DICT_LIMIT (if dsize =? 0 then DICT_SIZE_DEFAULT else dsize) ->
  exists out,
    lz78_compress dsize input = (out, Some (Ret LZ78_SUCCESS))
    /\ lz78_decompress a (stream_bits out ++ pad)
       = (input, Some (Ret LZ78_SUCCESS)).
Proof.
  intros Ha1 Ha2 Hcl HD Hinput Hshort.
  destruct (lz78_compress_loop_run input (lz78_new_c dsize) (c_run_new dsize)
              Hinput (pending_not_end_new dsize))
    as (out & st & Hloop & _ & Hroom).
  assert (Hst : st = Some (Ret LZ78_SUCCESS)).
  { apply Hroom. unfold c_room, lz78_new_c.
    cbn [c_main c_secondary set_cur_node ht_dictionary_new h_d_next h_d_size].
    rewrite DICT_LIMIT_id by apply DICT_LIMIT_range. lia. }
  subst st. exists out. split; [exact Hloop|].
  destruct (round_trip_drivers a dsize input out pad Ha1 Ha2 Hcl HD Hinput Hloop)
    as [_ H].
  exact (H Hshort).
Qed.

Lemma round_trip_when_decoded_witness :
  LZ78_SUCCESS = LZ78_SUCCESS
  /\ [97; 98; 99; 97; 98; 99] = [97; 98; 99; 97; 98; 99].
Proof.
  eapply (round_trip_when_decoded (zeroed true true) 262
            [97; 98; 99; 97; 98; 99] _ [false; false; false]).
  - reflexivity.
  - reflexivity.
  - split; reflexivity.
  - vm_compute. reflexivity.
  - repeat constructor; lia.
  - vm_compute. reflexivity.
  - vm_compute. reflexivity.
Defined.

Lemma round_trip_short_witness :
  exists out,
    lz78_compress 0 [97; 98; 99; 97; 98; 99]
    = (out, Some (Ret LZ78_SUCCESS))
    /\ lz78_decompress (zeroed true true)
         (stream_bits out ++ [false; false; false])
       = ([97; 98; 99; 97; 98; 99], Some (Ret LZ78_SUCCESS)).
Proof.
  apply (round_trip_short (zeroed true true) 0
           [97; 98; 99; 97; 98; 99] [false; false; false]).
  - reflexivity.
  - reflexivity.
  - split; reflexivity.
  - vm_compute. reflexivity.
  - repeat constructor; lia.
  - vm_compute. reflexivity.
Defined.

(** ** Bits and bytes *)

Lemma length_bytes_bits bs : length (bytes_bits bs) = (8 * length bs)%nat.
Proof.
  unfold bytes_bits. induction bs as [|b bs IH]; [reflexivity|].
  cbn [map concat]. rewrite length_app, length_bits_of, IH. cbn [length]. lia.
Qed.

Lemma bytes_bits_app a b : bytes_bits (a ++ b) = bytes_bits a ++ bytes_bits b.
Proof. unfold bytes_bits. rewrite map_app, concat_app. reflexivity. Qed.

Lemma bytes_bits_cons x bs : bytes_bits (x :: bs) = bits_of x 8 ++ bytes_bits bs.
Proof. reflexivity. Qed.

Lemma bits_of_lookup x n (i : nat) :
  (i < Z.to_nat n)%nat -> bits_of x n !! i = Some (Z.testbit x (Z.of_nat i)).
Proof.
  intros Hi. unfold bits_of. rewrite list_lookup_fmap.
  rewrite lookup_seq_lt by exact Hi. reflexivity.
Qed.

Lemma bytes_bits_lookup bs : forall (i : nat) b,
  bs !! (i / 8)%nat = Some b ->
  bytes_bits bs !! i = Some (Z.testbit b (Z.of_nat (i mod 8))).
Proof.
  induction bs as [|x bs IH]; intros i b H; [discriminate|].
  rewrite bytes_bits_cons.
  destruct (decide (i < 8)%nat) as [Hlt|Hge].
  - rewrite lookup_app_l by (rewrite length_bits_of; lia).
    replace (i / 8)%nat with 0%nat in H by (symmetry; apply Nat.div_small; lia).
    injection H as ->.
    rewrite Nat.mod_small by lia. apply bits_of_lookup. lia.
  - rewrite lookup_app_r by (rewrite length_bits_of; lia).
    rewrite length_bits_of.
    assert (Hd : (i / 8 = S ((i - 8) / 8))%nat).
    { replace i with ((i - 8) + 1 * 8)%nat at 1 by lia.
      rewrite Nat.div_add by lia. lia. }
    assert (Hm : (i mod 8 = (i - 8) mod 8)%nat).
    { replace i with ((i - 8) + 1 * 8)%nat at 1 by lia.
      rewrite Nat.Div0.mod_add. reflexivity. }
    rewrite Hd in H. cbn [lookup list_lookup] in H.
    change (Z.to_nat 8) with 8%nat. rewrite Hm. apply IH. exact H.
Qed.

Lemma bytes_bits_take bs : forall n : nat,
  bytes_bits (take n bs) = take (8 * n) (bytes_bits bs).
Proof.
  induction bs as [|x bs IH]; intros n.
  - rewrite take_nil. cbn. rewrite take_nil. reflexivity.
  - destruct n as [|n]; [reflexivity|].
    cbn [take]. rewrite !bytes_bits_cons, IH.
    rewrite (take_app_ge (bits_of x 8)) by (rewrite length_bits_of; lia).
    rewrite length_bits_of. f_equal. f_equal. lia.
Qed.

Lemma bytes_bits_drop bs : forall n : nat,
  bytes_bits (drop n bs) = drop (8 * n) (bytes_bits bs).
Proof.
  induction bs as [|x bs IH]; intros n.
  - rewrite drop_nil. cbn. rewrite drop_nil. reflexivity.
  - destruct n as [|n]; [reflexivity|].
    cbn [drop]. rewrite bytes_bits_cons, IH.
    rewrite (drop_app_ge (bits_of x 8)) by (rewrite length_bits_of; lia).
    rewrite length_bits_of. f_equal. lia.
Qed.

(** ** One bit of a byte *)

Lemma testbit_pow2 (j i : Z) :
  0 <= j -> 0 <= i -> Z.testbit (2 ^ j) i = (j =? i).
Proof.
  intros Hj Hi. destruct (Z.eqb_spec j i) as [->|Hne].
  - apply Z.pow2_bits_true. lia.
  - apply Z.pow2_bits_false. lia.
Qed.

Lemma read_bit x j :
  0 <= j -> negb (Z.land x (2 ^ j) =? 0) = Z.testbit x j.
Proof.
  intros Hj.
  assert (H : Z.land x (2 ^ j) = if Z.testbit x j then 2 ^ j else 0).
  { apply Z.bits_inj'. intros i Hi. rewrite Z.land_spec, testbit_pow2 by lia.
    destruct (Z.eqb_spec j i) as [->|Hne].
    - destruct (Z.testbit x i) eqn:E; cbn.
      + symmetry. apply Z.pow2_bits_true. lia.
      + symmetry. apply Z.bits_0.
    - rewrite andb_false_r. destruct (Z.testbit x j).
      + symmetry. apply Z.pow2_bits_false. lia.
      + symmetry. apply Z.bits_0. }
  rewrite H. destruct (Z.testbit x j).
  - destruct (Z.eqb_spec (2 ^ j) 0) as [E|_]; [|reflexivity].
    assert (0 < 2 ^ j) by (apply Z.pow_pos_nonneg; lia). lia.
  - reflexivity.
Qed.

Lemma set_bit (x j : Z) (v : bool) :
  0 <= j < 8 ->
  bits_of (if v then u8 (Z.lor x (2 ^ j))
           else u8 (Z.land x (Z.lnot (2 ^ j)))) 8
  = <[Z.to_nat j := v]> (bits_of x 8).
Proof.
  intros Hj. apply list_eq. intros i.
  destruct (decide (i < 8)%nat) as [Hi|Hi].
  - rewrite bits_of_lookup by (change (Z.to_nat 8) with 8%nat; lia).
    assert (Hlow : forall y m, 0 <= m < 8 ->
                               Z.testbit (u8 y) m = Z.testbit y m).
    { intros y m Hm. unfold u8. change 256 with (2 ^ 8).
      apply Z.mod_pow2_bits_low. lia. }
    destruct (decide (i = Z.to_nat j)) as [->|Hne].
    + rewrite list_lookup_insert_eq
        by (rewrite length_bits_of; change (Z.to_nat 8) with 8%nat; lia).
      f_equal. rewrite Z2Nat.id by lia.
      destruct v; rewrite Hlow by lia.
      * rewrite Z.lor_spec, testbit_pow2, Z.eqb_refl by lia.
        apply orb_true_r.
      * rewrite Z.land_spec, Z.lnot_spec, testbit_pow2, Z.eqb_refl by lia.
        apply andb_false_r.
    + rewrite list_lookup_insert_ne by congruence.
      rewrite bits_of_lookup by (change (Z.to_nat 8) with 8%nat; lia).
      f_equal.
      assert (Hji : (j =? Z.of_nat i) = false) by (apply Z.eqb_neq; lia).
      destruct v; rewrite Hlow by lia.
      * rewrite Z.lor_spec, testbit_pow2, Hji by lia. apply orb_false_r.
      * rewrite Z.land_spec, Z.lnot_spec, testbit_pow2, Hji by lia.
        apply andb_true_r.
  - rewrite !(proj2 (lookup_ge_None _ _)); [reflexivity| |].
    + rewrite length_insert, length_bits_of.
      change (Z.to_nat 8) with 8%nat. lia.
    + rewrite length_bits_of. change (Z.to_nat 8) with 8%nat. lia.
Qed.

Lemma u8_is_byte x : is_byte (u8 x).
Proof. unfold is_byte, u8. apply Z.mod_pos_bound. lia. Qed.

(** A store of one bit in the buffer. *)
Lemma bytes_bits_store (bs bs' : list Z) (pos : Z) (v : bool) :
  0 <= pos ->
  store bs (pos / 8)
        (fun w => if v then u8 (Z.lor w (Z.shiftl 1 (pos mod 8)))
                  else u8 (Z.land w (Z.lnot (Z.shiftl 1 (pos mod 8))))) = Ret bs' ->
  Forall is_byte bs ->
  bytes_bits bs' = <[Z.to_nat pos := v]> (bytes_bits bs)
  /\ Forall is_byte bs' /\ length bs' = length bs
  /\ (Z.to_nat pos < 8 * length bs)%nat.
Proof.
  intros Hpos Hst Hall.
  assert (Hm : 0 <= pos mod 8 < 8) by (apply Z.mod_pos_bound; lia).
  assert (Hd : 0 <= pos / 8) by (apply Z.div_pos; lia).
  destruct (store_inv _ _ _ _ Hst) as [Hlt ->].
  rewrite Z.shiftl_1_l.
  pose proof (lookup_lt_is_Some_2 bs (Z.to_nat (pos / 8)) Hlt) as [x Hx].
  assert (Hsplit : bs = take (Z.to_nat (pos / 8)) bs ++ x
                        :: drop (S (Z.to_nat (pos / 8))) bs).
  { symmetry. apply take_drop_middle. exact Hx. }
  assert (Hlen : length (take (Z.to_nat (pos / 8)) bs) = Z.to_nat (pos / 8)).
  { rewrite length_take. lia. }
  assert (Hp : Z.to_nat pos
               = (8 * Z.to_nat (pos / 8) + Z.to_nat (pos mod 8))%nat).
  { rewrite (Z.div_mod pos 8) at 1 by lia. lia. }
  split; [|split; [|split]].
  - rewrite Hsplit at 1 2.
    rewrite alter_app_r_alt by lia. rewrite Hlen, Nat.sub_diag.
    cbn [alter list_alter].
    rewrite !bytes_bits_app, !bytes_bits_cons.
    rewrite set_bit by lia.
    rewrite insert_app_r_alt
      by (rewrite length_bytes_bits, Hlen; lia).
    rewrite length_bytes_bits, Hlen.
    f_equal.
    replace (Z.to_nat pos - 8 * Z.to_nat (pos / 8))%nat
      with (Z.to_nat (pos mod 8)) by lia.
    rewrite insert_app_l
      by (rewrite length_bits_of; change (Z.to_nat 8) with 8%nat; lia).
    reflexivity.
  - apply Forall_alter; [exact Hall|].
    intros y _ _. destruct v; apply u8_is_byte.
  - apply length_alter.
  - lia.
Qed.

(** The bit that [bit_write] reads at [base] under [mask]. *)
Lemma bytes_bits_load (bs : list Z) (k : Z) :
  0 <= k < 8 * Z.of_nat (length bs) ->
  exists x, load bs (k / 8) = Ret x
            /\ bytes_bits bs !! Z.to_nat k
               = Some (negb (Z.land x (2 ^ (k mod 8)) =? 0)).
Proof.
  intros Hk.
  assert (Hm : 0 <= k mod 8 < 8) by (apply Z.mod_pos_bound; lia).
  assert (Hd : 0 <= k / 8 < Z.of_nat (length bs)).
  { split; [apply Z.div_pos; lia|]. apply Z.div_lt_upper_bound; lia. }
  destruct (lookup_lt_is_Some_2 bs (Z.to_nat (k / 8))) as [x Hx]; [lia|].
  exists x. split.
  - unfold load. rewrite Hx. reflexivity.
  - rewrite read_bit by lia.
    assert (Hq : (Z.to_nat k / 8)%nat = Z.to_nat (k / 8)).
    { change 8%nat with (Z.to_nat 8). rewrite <- Z2Nat.inj_div by lia.
      reflexivity. }
    assert (Hr : Z.of_nat (Z.to_nat k mod 8) = k mod 8).
    { change 8%nat with (Z.to_nat 8). rewrite <- Z2Nat.inj_mod by lia.
      lia. }
    rewrite (bytes_bits_lookup bs (Z.to_nat k) x) by (rewrite Hq; exact Hx).
    rewrite Hr. reflexivity.
Qed.

(** ** Regions of bytes *)

Lemma region_take_drop (buf : list Z) (n : nat) : forall ofs,
  0 <= ofs -> ofs + Z.of_nat n <= Z.of_nat (length buf) ->
  Z.of_nat (length buf) < 4294967296 ->
  region buf ofs n = Ret (take n (drop (Z.to_nat ofs) buf)).
Proof.
  induction n as [|n IH]; intros ofs H0 H1 H2; [reflexivity|].
  cbn [region]. rewrite u32_small by lia.
  destruct (lookup_lt_is_Some_2 buf (Z.to_nat ofs)) as [x Hx]; [lia|].
  unfold load. rewrite Hx. cbn [mbind outcome_bind].
  rewrite IH by lia. cbn [mbind outcome_bind].
  rewrite (drop_S _ _ _ Hx). cbn [take].
  replace (Z.to_nat (ofs + 1)) with (S (Z.to_nat ofs)) by lia.
  reflexivity.
Qed.

(** ** [bit_flush] on a descriptor that never refuses *)

Lemma take_split_at {A} (l : list A) (k c : nat) :
  (k <= c)%nat -> take k l ++ take (c - k) (drop k l) = take c l.
Proof.
  intros Hk. rewrite <- (take_drop k (take c l)).
  rewrite take_take, Nat.min_l by lia. f_equal.
  rewrite take_drop_commute. f_equal. f_equal. lia.
Qed.

Lemma bit_flush_loop_steady fuel : forall f buff_ base count written_,
  writable f = true -> steady f ->
  0 <= base -> 0 <= count ->
  base + count <= Z.of_nat (length buff_) ->
  Z.of_nat (length buff_) < 4294967296 ->
  0 <= written_ -> written_ + count < 4294967296 ->
  (length (replies f) < fuel)%nat ->
  exists f',
    bit_flush_loop fuel f buff_ base count written_
    = Ret (true, written_ + count, f')
    /\ content f'
       = content f ++ take (Z.to_nat count) (drop (Z.to_nat base) buff_)
    /\ writable f' = true /\ readable f' = readable f /\ steady f'.
Proof.
  induction fuel as [|fuel IH];
    intros f buff_ base count written_ Hw Hs Hb Hc Hin Hlen Hwr Hsum Hfuel;
    [lia|].
  cbn [bit_flush_loop].
  destruct (Z.eqb_spec count 0) as [->|Hne].
  { exists f. rewrite Z.add_0_r. cbn. rewrite app_nil_r. auto. }
  rewrite region_take_drop by lia. cbn [mbind outcome_bind].
  set (data := take (Z.to_nat count) (drop (Z.to_nat base) buff_)).
  assert (Hdata : length data = Z.to_nat count).
  { unfold data. rewrite length_take, length_drop. lia. }
  unfold sys_write. rewrite Hw.
  destruct (replies f) as [|r rs] eqn:Hr.
  - assert (Hz : u32 (count - Z.of_nat (length data)) = 0).
    { rewrite Hdata, Z2Nat.id, Z.sub_diag by lia. reflexivity. }
    exists (next_call f (content f ++ data) []).
    split; [|split; [reflexivity|split; [exact Hw|split; [reflexivity|]]]].
    + destruct fuel; cbn [bit_flush_loop]; rewrite Hz; cbn;
        rewrite u32_small by lia; do 3 f_equal; lia.
    + constructor.
  - unfold steady in Hs. rewrite Hr in Hs.
    inversion Hs as [|r0 rs0 [n Hn] Hrs]; subst r0 rs0 r.
    set (taken := take (Z.to_nat n) data).
    assert (Htk : (length taken <= Z.to_nat count)%nat).
    { unfold taken. rewrite length_take. lia. }
    destruct (IH (next_call f (content f ++ taken) rs) buff_
                (base + Z.of_nat (length taken))
                (u32 (count - Z.of_nat (length taken)))
                (u32 (written_ + Z.of_nat (length taken))))
      as (f' & Hrun & Hcont & Hw' & Hrd' & Hs');
      try (rewrite ?u32_small by lia; cbn; lia); try assumption.
    { cbn in Hfuel. cbn. lia. }
    exists f'. rewrite Hrun.
    rewrite !u32_small by lia.
    split; [do 3 f_equal; lia|].
    split; [|auto].
    rewrite Hcont. cbn [content next_call]. rewrite <- app_assoc. f_equal.
    rewrite u32_small by lia.
    assert (Htaken : taken = take (length taken) data).
    { unfold taken. rewrite length_take.
      destruct (decide (Z.to_nat n <= length data)%nat).
      - rewrite Nat.min_l by lia. reflexivity.
      - rewrite Nat.min_r by lia. rewrite !take_ge by lia. reflexivity. }
    rewrite Htaken at 1.
    unfold data. rewrite take_take, Nat.min_l by lia.
    replace (Z.to_nat (base + Z.of_nat (length taken)))
      with (Z.to_nat base + length taken)%nat by lia.
    rewrite <- drop_drop.
    replace (Z.to_nat (count - Z.of_nat (length taken)))
      with (Z.to_nat count - length taken)%nat by lia.
    apply take_split_at. lia.
Qed.

(** A flush of whole bytes from the start of the buffer. *)
Lemma bit_flush_file_steady (bfp : bit_file) :
  writable (fd bfp) = true -> steady (fd bfp) ->
  w_start bfp = 0 ->
  0 <= w_len bfp <= buff_size bfp -> w_len bfp mod 8 = 0 ->
  8 <= buff_size bfp < 4294967296 ->
  Z.of_nat (length (buff bfp)) = buff_size bfp / 8 ->
  exists f',
    bit_flush_file bfp
    = Ret (0, set_window (set_fd bfp f') (w_len bfp mod buff_size bfp) 0)
    /\ content f'
       = content (fd bfp) ++ take (Z.to_nat (w_len bfp / 8)) (buff bfp)
    /\ writable f' = true /\ readable f' = readable (fd bfp) /\ steady f'.
Proof.
  intros Hw Hs Hst Hwl Hm8 Hsz Hlen.
  assert (Hq : 0 <= w_len bfp / 8 <= buff_size bfp / 8).
  { split; [apply Z.div_pos; lia|]. apply Z.div_le_mono; lia. }
  assert (Hq8 : w_len bfp / 8 * 8 = w_len bfp).
  { pose proof (Z.div_mod (w_len bfp) 8). lia. }
  assert (Hb : buff_size bfp / 8 < 4294967296).
  { apply Z.div_lt_upper_bound; lia. }
  destruct (bit_flush_loop_steady (S (length (replies (fd bfp)))) (fd bfp)
              (buff bfp) (w_start bfp / 8) (w_len bfp / 8) 0)
    as (f' & Hrun & Hcont & Hw' & Hrd' & Hs');
    [first [assumption | rewrite ?Hst, ?Zdiv_0_l; lia] ..|].
  exists f'. unfold bit_flush_file. rewrite Hrun. cbn [mbind outcome_bind].
  destruct (Z.eqb_spec (buff_size bfp) 0) as [E|_]; [lia|].
  rewrite Hst in Hcont. cbn in Hcont. rewrite Hcont.
  split; [|auto].
  rewrite Hst, !Z.add_0_l, Hq8.
  rewrite !(u32_small (w_len bfp)) by lia.
  rewrite Z.sub_diag. reflexivity.
Qed.

(** ** One round of [bit_write] *)

Lemma mask_step (k : Z) :
  0 <= k ->
  (2 ^ (k mod 8) =? 128) = (k mod 8 =? 7)
  /\ (k mod 8 <> 7 ->
      u8 (Z.shiftl (2 ^ (k mod 8)) 1) = 2 ^ ((k + 1) mod 8)
      /\ (k + 1) / 8 = k / 8)
  /\ (k mod 8 = 7 -> (k + 1) mod 8 = 0 /\ (k + 1) / 8 = k / 8 + 1).
Proof.
  intros Hk.
  assert (Hm : 0 <= k mod 8 < 8) by (apply Z.mod_pos_bound; lia).
  assert (Hd : k = 8 * (k / 8) + k mod 8) by (apply Z.div_mod; lia).
  assert (Hcase : k mod 8 = 0 \/ k mod 8 = 1 \/ k mod 8 = 2 \/ k mod 8 = 3
                  \/ k mod 8 = 4 \/ k mod 8 = 5 \/ k mod 8 = 6
                  \/ k mod 8 = 7) by lia.
  assert (Hnext : k mod 8 <> 7 -> (k + 1) mod 8 = k mod 8 + 1
                                  /\ (k + 1) / 8 = k / 8).
  { intros H7.
    assert (H : k + 1 = 8 * (k / 8) + (k mod 8 + 1)) by lia.
    split.
    - rewrite H at 1. rewrite Z.add_comm, Z.mul_comm, Z.mod_add by lia.
      apply Z.mod_small. lia.
    - rewrite H at 1. rewrite Z.add_comm, Z.mul_comm, Z.div_add by lia.
      rewrite Z.div_small by lia. lia. }
  split; [|split].
  - destruct Hcase as [H|[H|[H|[H|[H|[H|[H|H]]]]]]]; rewrite H; reflexivity.
  - intros H7. destruct (Hnext H7) as [Hn1 Hn2]. split; [|exact Hn2].
    rewrite Hn1.
    destruct Hcase as [H|[H|[H|[H|[H|[H|[H|H]]]]]]]; try lia;
      rewrite H; reflexivity.
  - intros H7.
    assert (H : k + 1 = 8 * (k / 8 + 1) + 0) by lia.
    split.
    + rewrite H at 1. rewrite Z.add_comm, Z.mul_comm, Z.mod_add by lia.
      reflexivity.
    + rewrite H at 1. rewrite Z.add_comm, Z.mul_comm, Z.div_add by lia.
      reflexivity.
Qed.

(** The branch that writes one bit. *)
Lemma bit_write_bits_one (bfp : bit_file) (src : list Z) (k n : Z) (a : bool) :
  bw_inv bfp -> 0 <= k -> 0 < n ->
  k + n <= 8 * Z.of_nat (length src) -> k + n < 2147483648 ->
  bw_aligned (bw_at bfp k n a) && (7 <? bw_buff_free_bits (bw_at bfp k n a))
    && (bw_buff_free_bits (bw_at bfp k n a) <=? bw_n_bits (bw_at bfp k n a))
  = false ->
  exists b v,
    bit_write_bits bfp src (bw_at bfp k n a)
    = Ret (set_window (set_buff bfp b) 0 (w_len bfp + 1),
           bw_at (set_window (set_buff bfp b) 0 (w_len bfp + 1))
                 (k + 1) (n - 1)
                 (if k mod 8 =? 7 then w_len bfp mod 8 =? 0 else a))
    /\ bytes_bits src !! Z.to_nat k = Some v
    /\ bytes_bits b = <[Z.to_nat (w_len bfp) := v]> (bytes_bits (buff bfp))
    /\ Forall is_byte b /\ length b = length (buff bfp).
Proof.
  intros Hinv Hk Hn Hsrc Hmax Hcond.
  destruct Hinv as [Hmode Hsz Hsz8 Hlen Hbytes Hst Hwl Hwr Hsteady Hcont].
  unfold bit_write_bits. rewrite Hcond.
  destruct (bytes_bits_load src k) as (x & Hx & Hv); [lia|].
  cbn [bw_base bw_at bw_mask bw_pos]. rewrite Hx. cbn [mbind outcome_bind].
  set (v := negb (Z.land x (2 ^ (k mod 8)) =? 0)) in *.
  assert (Hq : 0 <= w_len bfp / 8 < buff_size bfp / 8).
  { split; [apply Z.div_pos; lia|].
    apply Z.div_lt_upper_bound; [lia|].
    pose proof (Z.div_mod (buff_size bfp) 8). lia. }
  pose proof (store_Ret (buff bfp) (w_len bfp / 8)
              (fun w => if v then u8 (Z.lor w (Z.shiftl 1 (w_len bfp mod 8)))
                        else u8 (Z.land w
                                   (Z.lnot (Z.shiftl 1 (w_len bfp mod 8)))))
              ltac:(lia)) as Hb.
  set (b := alter _ _ _) in Hb.
  rewrite Hb. cbn [mbind outcome_bind].
  destruct (bytes_bits_store _ _ _ _ (proj1 Hwl) Hb Hbytes)
    as (Hbits & Hbb & Hbl & _).
  exists b, v.
  split; [|auto].
  destruct (mask_step k Hk) as (Hm128 & Hno & Hyes).
  rewrite Hm128, Hst.
  unfold bw_at.
  cbn [w_len set_window buff_size set_buff bw_n_bits bw_ret
       bw_buff_free_bits bw_aligned].
  rewrite !u32_small by lia.
  f_equal. f_equal. f_equal; [| |lia].
  - destruct (Z.eqb_spec (k mod 8) 7) as [H7|H7].
    + destruct (Hyes H7) as [_ ->]. reflexivity.
    + destruct (Hno H7) as [_ ->]. reflexivity.
  - destruct (Z.eqb_spec (k mod 8) 7) as [H7|H7].
    + destruct (Hyes H7) as [-> _]. reflexivity.
    + destruct (Hno H7) as [-> _]. reflexivity.
Qed.

(** The branch that copies whole bytes: it fills the buffer. *)
Lemma bit_write_bits_copy (bfp : bit_file) (src : list Z) (k n : Z) (a : bool) :
  bw_inv bfp -> 0 <= k -> 0 < n ->
  k + n <= 8 * Z.of_nat (length src) -> k + n < 2147483648 ->
  Z.of_nat (length src) < 4294967296 ->
  k mod 8 = 0 -> w_len bfp mod 8 = 0 ->
  bw_aligned (bw_at bfp k n a) && (7 <? bw_buff_free_bits (bw_at bfp k n a))
    && (bw_buff_free_bits (bw_at bfp k n a) <=? bw_n_bits (bw_at bfp k n a))
  = true ->
  let free := buff_size bfp - w_len bfp in
  let copied := take (Z.to_nat (free / 8)) (drop (Z.to_nat (k / 8)) src) in
  let b := take (Z.to_nat (w_len bfp / 8)) (buff bfp) ++ copied in
  bit_write_bits bfp src (bw_at bfp k n a)
  = Ret (set_window (set_buff bfp b) 0 (buff_size bfp),
         {| bw_base := (k + free) / 8;
            bw_mask := 2 ^ ((k + free) mod 8);
            bw_pos := buff_size bfp;
            bw_buff_free_bits := 0;
            bw_n_bits := n - free;
            bw_ret := k + free;
            bw_aligned := a |})
  /\ free <= n /\ 8 <= free /\ free mod 8 = 0
  /\ length copied = Z.to_nat (free / 8).
Proof.
  intros Hinv Hk Hn Hsrc Hmax Hsl Hk8 Hw8 Hcond free copied b.
  destruct Hinv as [Hmode Hsz Hsz8 Hlen Hbytes Hst Hwl Hwr Hsteady Hcont].
  unfold bit_write_bits. rewrite Hcond.
  cbn [bw_at bw_aligned bw_buff_free_bits bw_n_bits] in Hcond.
  apply andb_true_iff in Hcond as [Hcond Hle].
  apply andb_true_iff in Hcond as [_ Hgt].
  apply Z.ltb_lt in Hgt. apply Z.leb_le in Hle.
  fold free in Hgt, Hle.
  assert (Hf8 : free mod 8 = 0).
  { unfold free. pose proof (Z.div_mod (buff_size bfp) 8).
    pose proof (Z.div_mod (w_len bfp) 8).
    replace (buff_size bfp - w_len bfp)
      with (0 + (buff_size bfp / 8 - w_len bfp / 8) * 8) by lia.
    rewrite Z.mod_add by lia. reflexivity. }
  assert (Hfq : free / 8 * 8 = free).
  { pose proof (Z.div_mod free 8). lia. }
  assert (Hkq : k / 8 * 8 = k).
  { pose proof (Z.div_mod k 8). lia. }
  assert (Hwq : w_len bfp / 8 * 8 = w_len bfp).
  { pose proof (Z.div_mod (w_len bfp) 8). lia. }
  assert (Hbq : buff_size bfp / 8 * 8 = buff_size bfp).
  { pose proof (Z.div_mod (buff_size bfp) 8). lia. }
  assert (Hfree : free / 8 = buff_size bfp / 8 - w_len bfp / 8)
    by (unfold free in *; lia).
  cbn [bw_at bw_base bw_buff_free_bits bw_pos bw_mask bw_n_bits bw_ret
       bw_aligned].
  fold free.
  rewrite region_take_drop by lia.
  cbn [mbind outcome_bind]. fold copied.
  assert (Hcl : length copied = Z.to_nat (free / 8)).
  { unfold copied. rewrite length_take, length_drop. lia. }
  assert (Hsum : (Z.to_nat (w_len bfp / 8) + length copied
                  = length (buff bfp))%nat) by lia.
  unfold memcpy. rewrite Hsum.
  destruct (decide (length (buff bfp) <= length (buff bfp))%nat)
    as [Hfit|Hfit]; [|exfalso; lia].
  cbn [mbind outcome_bind].
  rewrite drop_all, app_nil_r. fold b.
  rewrite Hfq, Hst.
  rewrite !(u32_small free) by (unfold free in *; lia).
  rewrite !u32_small by (unfold free in *; lia).
  split; [|split; [exact Hle|split; [lia|split; [exact Hf8|exact Hcl]]]].
  f_equal. f_equal.
  - f_equal. unfold free. lia.
  - f_equal; try (unfold free; lia).
    + replace (k + free) with (k / 8 * 8 + free / 8 * 8) by lia.
      rewrite <- Z.mul_add_distr_r, Z.div_mul by lia. reflexivity.
    + replace (k + free) with (k + free / 8 * 8) by lia.
      rewrite Z.mod_add by lia. reflexivity.
Qed.

(** ** One round of the loop of [bit_write], with its flush *)

Lemma int_of_u32_small x : 0 <= x < 2147483648 -> int_of_u32 x = x.
Proof.
  intros H. unfold int_of_u32.
  destruct (Z.ltb_spec x 2147483648); [reflexivity|lia].
Qed.

Lemma window_start (bfp : bit_file) :
  w_start bfp = 0 ->
  window bfp = take (Z.to_nat (w_len bfp)) (bytes_bits (buff bfp)).
Proof. intros H. unfold window. rewrite H. reflexivity. Qed.

(** The round that writes one bit. *)
Lemma bit_write_round_one (bfp : bit_file) (src : list Z) (k n : Z) (a : bool) :
  bw_inv bfp -> 0 <= k -> 0 < n ->
  k + n <= 8 * Z.of_nat (length src) -> k + n < 2147483648 ->
  bw_aligned (bw_at bfp k n a) && (7 <? bw_buff_free_bits (bw_at bfp k n a))
    && (bw_buff_free_bits (bw_at bfp k n a) <=? bw_n_bits (bw_at bfp k n a))
  = false ->
  exists bfp' v,
    (forall fuel,
       bit_write_loop (S fuel) bfp src (bw_at bfp k n a)
       = bit_write_loop fuel bfp' src
           (bw_at bfp' (k + 1) (n - 1)
                  (if k mod 8 =? 7 then w_len bfp mod 8 =? 0 else a)))
    /\ bw_inv bfp'
    /\ bytes_bits src !! Z.to_nat k = Some v
    /\ bit_stream bfp' = bit_stream bfp ++ [v]
    /\ buff_size bfp' = buff_size bfp
    /\ w_len bfp'
       = (if w_len bfp + 1 =? buff_size bfp then 0 else w_len bfp + 1).
Proof.
  intros Hinv Hk Hn Hsrc Hmax Hcond.
  destruct (bit_write_bits_one bfp src k n a Hinv Hk Hn Hsrc Hmax Hcond)
    as (b & v & Hstep & Hv & Hbits & Hbb & Hbl).
  destruct Hinv as [Hmode Hsz Hsz8 Hlen Hbytes Hst Hwl Hwr Hsteady Hcont].
  assert (Hbq : buff_size bfp / 8 * 8 = buff_size bfp).
  { pose proof (Z.div_mod (buff_size bfp) 8). lia. }
  assert (Hlb : length (bytes_bits (buff bfp)) = Z.to_nat (buff_size bfp)).
  { rewrite length_bytes_bits. lia. }
  assert (Hwin : take (Z.to_nat (w_len bfp + 1)) (bytes_bits b)
                 = take (Z.to_nat (w_len bfp)) (bytes_bits (buff bfp)) ++ [v]).
  { rewrite Hbits.
    replace (Z.to_nat (w_len bfp + 1)) with (S (Z.to_nat (w_len bfp))) by lia.
    rewrite (take_S_r _ _ v)
      by (apply list_lookup_insert_eq; lia).
    rewrite take_insert_ge by lia. reflexivity. }
  set (bfp1 := set_window (set_buff bfp b) 0 (w_len bfp + 1)) in *.
  destruct (Z.eqb_spec (w_len bfp + 1) (buff_size bfp)) as [Hfull|Hroom].
  - (* the buffer is full: it is flushed *)
    destruct (bit_flush_file_steady bfp1) as (f' & Hfl & Hc' & Hw' & _ & Hs');
      [exact Hwr|exact Hsteady|reflexivity
      |unfold bfp1; cbn [w_len set_window buff_size set_buff]; lia
      |unfold bfp1; cbn [w_len set_window]; rewrite Hfull; exact Hsz8
      |exact Hsz
      |unfold bfp1; cbn [buff set_window set_buff buff_size]; lia|].
    unfold bfp1 in Hfl, Hc'.
    cbn [w_len set_window buff_size set_buff fd buff] in Hfl, Hc'.
    rewrite Hfull, Z.mod_same in Hfl by lia.
    rewrite Hfull in Hc', Hwin.
    set (bfp2 := set_window (set_fd (set_window (set_buff bfp b) 0
                                       (buff_size bfp)) f') 0 0) in *.
    exists bfp2, v.
    split; [|split; [|split; [exact Hv|split; [|split; [reflexivity|]]]]].
    + intros fuel. cbn [bit_write_loop]. cbn [bw_at bw_n_bits].
      destruct (Z.eqb_spec n 0) as [|_]; [lia|].
      rewrite Hstep. cbn [mbind outcome_bind].
      unfold bfp1; cbn [w_len set_window buff_size set_buff].
      destruct (Z.eqb_spec (w_len bfp + 1) (buff_size bfp)) as [_|]; [|lia].
      replace (set_window (set_buff bfp b) 0 (w_len bfp + 1))
        with (set_window (set_buff bfp b) 0 (buff_size bfp))
        by (rewrite Hfull; reflexivity).
      rewrite Hfl. cbn [mbind outcome_bind].
      unfold bfp2; cbn [w_len set_window w_start buff_size set_fd set_buff Z.eqb negb].
      f_equal. unfold bw_at.
      cbn [w_len set_window buff_size set_buff set_fd bw_base bw_mask bw_n_bits
           bw_ret bw_aligned].
      f_equal. lia.
    + constructor;
        unfold bfp2; cbn [mode set_window set_fd set_buff buff_size buff w_start w_len
             fd]; try assumption; try lia.
      rewrite Hc'. apply Forall_app. split; [exact Hcont|].
      apply Forall_take. exact Hbb.
    + unfold bit_stream.
      rewrite (window_start bfp Hst).
      unfold window.
      unfold bfp2; cbn [set_window set_fd set_buff buff_size buff w_start w_len fd].
      cbn [take Z.to_nat]. rewrite app_nil_r.
      rewrite Hc', bytes_bits_app, <- (app_assoc _ _ [v]), <- Hwin.
      f_equal. rewrite (take_ge b) by lia.
      rewrite take_ge by (rewrite length_bytes_bits; lia). reflexivity.
    + unfold bfp2; cbn [w_len set_window]. reflexivity.
  - exists bfp1, v.
    split; [|split; [|split; [exact Hv|split; [|split; [reflexivity|]]]]].
    + intros fuel. cbn [bit_write_loop]. cbn [bw_at bw_n_bits].
      destruct (Z.eqb_spec n 0) as [|_]; [lia|].
      rewrite Hstep. cbn [mbind outcome_bind].
      unfold bfp1; cbn [w_len set_window buff_size set_buff].
      destruct (Z.eqb_spec (w_len bfp + 1) (buff_size bfp)) as [|_]; [lia|].
      reflexivity.
    + constructor;
        unfold bfp1; cbn [mode set_window set_fd set_buff buff_size buff w_start w_len
             fd]; try assumption; try lia.
    + unfold bit_stream.
      rewrite (window_start bfp Hst).
      unfold window.
      unfold bfp1; cbn [set_window set_fd set_buff buff_size buff w_start w_len fd].
      change (Z.to_nat 0) with 0%nat.
      rewrite drop_0, Hwin, app_assoc. reflexivity.
    + unfold bfp1; cbn [w_len set_window]. reflexivity.
Qed.

(** The round that copies whole bytes up to the end of the buffer. *)
Lemma bit_write_round_copy (bfp : bit_file) (src : list Z) (k n : Z) (a : bool) :
  bw_inv bfp -> Forall is_byte src ->
  0 <= k -> 0 < n ->
  k + n <= 8 * Z.of_nat (length src) -> k + n < 2147483648 ->
  Z.of_nat (length src) < 4294967296 ->
  k mod 8 = 0 -> w_len bfp mod 8 = 0 ->
  bw_aligned (bw_at bfp k n a) && (7 <? bw_buff_free_bits (bw_at bfp k n a))
    && (bw_buff_free_bits (bw_at bfp k n a) <=? bw_n_bits (bw_at bfp k n a))
  = true ->
  let free := buff_size bfp - w_len bfp in
  exists bfp',
    (forall fuel,
       bit_write_loop (S fuel) bfp src (bw_at bfp k n a)
       = bit_write_loop fuel bfp' src (bw_at bfp' (k + free) (n - free) a))
    /\ bw_inv bfp'
    /\ bit_stream bfp'
       = bit_stream bfp
         ++ take (Z.to_nat free) (drop (Z.to_nat k) (bytes_bits src))
    /\ buff_size bfp' = buff_size bfp
    /\ w_len bfp' = 0
    /\ 8 <= free <= n /\ free mod 8 = 0.
Proof.
  intros Hinv Hsb Hk Hn Hsrc Hmax Hsl Hk8 Hw8 Hcond free.
  destruct (bit_write_bits_copy bfp src k n a Hinv Hk Hn Hsrc Hmax Hsl Hk8 Hw8
              Hcond) as (Hstep & Hle & Hge & Hf8 & Hcl).
  fold free in Hstep, Hle, Hge, Hf8, Hcl.
  destruct Hinv as [Hmode Hsz Hsz8 Hlen Hbytes Hst Hwl Hwr Hsteady Hcont].
  set (copied := take (Z.to_nat (free / 8)) (drop (Z.to_nat (k / 8)) src)) in *.
  set (b := take (Z.to_nat (w_len bfp / 8)) (buff bfp) ++ copied) in *.
  assert (Hfq : free / 8 * 8 = free).
  { pose proof (Z.div_mod free 8). lia. }
  assert (Hkq : k / 8 * 8 = k).
  { pose proof (Z.div_mod k 8). lia. }
  assert (Hwq : w_len bfp / 8 * 8 = w_len bfp).
  { pose proof (Z.div_mod (w_len bfp) 8). lia. }
  assert (Hbq : buff_size bfp / 8 * 8 = buff_size bfp).
  { pose proof (Z.div_mod (buff_size bfp) 8). lia. }
  assert (Hbl : Z.of_nat (length b) = buff_size bfp / 8).
  { unfold b. rewrite length_app, length_take, Hcl. unfold free in *. lia. }
  assert (Hbb : Forall is_byte b).
  { unfold b, copied. apply Forall_app. split.
    - apply Forall_take. exact Hbytes.
    - apply Forall_take, Forall_drop. exact Hsb. }
  set (bfp1 := set_window (set_buff bfp b) 0 (buff_size bfp)) in *.
  destruct (bit_flush_file_steady bfp1) as (f' & Hfl & Hc' & Hw' & _ & Hs');
    [exact Hwr|exact Hsteady|reflexivity
    |unfold bfp1; cbn [w_len set_window buff_size set_buff]; lia
    |exact Hsz8
    |exact Hsz
    |unfold bfp1; cbn [buff set_window set_buff buff_size]; lia|].
  unfold bfp1 in Hfl, Hc'.
  cbn [w_len set_window buff_size set_buff fd buff] in Hfl, Hc'.
  rewrite Z.mod_same in Hfl by lia.
  set (bfp2 := set_window (set_fd (set_window (set_buff bfp b) 0
                                     (buff_size bfp)) f') 0 0) in *.
  exists bfp2.
  split; [|split; [|split; [|split; [reflexivity|split; [reflexivity|]]]]].
  - intros fuel. cbn [bit_write_loop]. cbn [bw_at bw_n_bits].
    destruct (Z.eqb_spec n 0) as [|_]; [lia|].
    rewrite Hstep. cbn [mbind outcome_bind].
    unfold bfp1. cbn [w_len set_window buff_size set_buff].
    rewrite Z.eqb_refl.
    rewrite Hfl. cbn [mbind outcome_bind].
    unfold bfp2; cbn [w_len set_window w_start buff_size set_fd set_buff Z.eqb negb
         bw_base bw_mask bw_n_bits bw_ret bw_aligned].
    f_equal. unfold bw_at.
    cbn [w_len set_window buff_size set_buff set_fd].
    f_equal. lia.
  - constructor;
      unfold bfp2; cbn [mode set_window set_fd set_buff buff_size buff w_start w_len
           fd]; try assumption; try lia.
    rewrite Hc'. apply Forall_app. split; [exact Hcont|].
    apply Forall_take. exact Hbb.
  - unfold bit_stream.
    rewrite (window_start bfp Hst).
    unfold window.
    unfold bfp2; cbn [set_window set_fd set_buff buff_size buff w_start w_len fd].
    cbn [take Z.to_nat]. rewrite app_nil_r.
    rewrite Hc', bytes_bits_app, <- app_assoc. f_equal.
    rewrite take_ge by lia.
    unfold b, copied.
    rewrite bytes_bits_app, !bytes_bits_take, bytes_bits_drop.
    f_equal; f_equal; try lia. f_equal. lia.
  - split; [lia|exact Hf8].
Qed.

(** ** The loop of [bit_write] *)

Lemma take_drop_S {A} (l : list A) (k n : nat) (v : A) :
  l !! k = Some v ->
  [v] ++ take n (drop (S k) l) = take (S n) (drop k l).
Proof. intros H. rewrite (drop_S _ _ _ H). reflexivity. Qed.

Lemma take_drop_add {A} (l : list A) (k f n : nat) :
  (f <= n)%nat ->
  take f (drop k l) ++ take (n - f) (drop (k + f) l) = take n (drop k l).
Proof.
  intros H. rewrite <- drop_drop. apply take_split_at. exact H.
Qed.

Lemma bit_write_loop_appends (src : list Z) (fuel : nat) : forall bfp k n a,
  bw_inv bfp -> Forall is_byte src ->
  Z.of_nat (length src) < 4294967296 ->
  0 <= k -> 0 <= n ->
  k + n <= 8 * Z.of_nat (length src) -> k + n < 2147483648 ->
  (k + n <= 22 \/ (w_len bfp - k) mod 8 <> 1) ->
  bw_flag bfp k n a ->
  (Z.to_nat n <= fuel)%nat ->
  exists bfp',
    bit_write_loop fuel bfp src (bw_at bfp k n a) = Ret (k + n, bfp')
    /\ bw_inv bfp'
    /\ bit_stream bfp'
       = bit_stream bfp
         ++ take (Z.to_nat n) (drop (Z.to_nat k) (bytes_bits src))
    /\ buff_size bfp' = buff_size bfp.
Proof.
  assert (Hend : forall fuel bfp k a,
            0 <= k < 2147483648 ->
            bit_write_loop fuel bfp src (bw_at bfp k 0 a) = Ret (k + 0, bfp)).
  { intros f bfp k a Hk.
    destruct f; cbn [bit_write_loop bw_at bw_n_bits bw_ret Z.eqb];
      rewrite int_of_u32_small, Z.add_0_r by lia; reflexivity. }
  induction fuel as [|fuel IH];
    intros bfp k n a Hinv Hsb Hsl Hk Hn Hsrc Hmax Hsafe Hflag Hfuel.
  { assert (n = 0) by lia. subst n. exists bfp.
    rewrite Hend by lia. cbn [Z.to_nat take]. rewrite app_nil_r. auto. }
  destruct (Z.eq_dec n 0) as [->|Hn0].
  { exists bfp.
    rewrite Hend by lia. cbn [Z.to_nat take]. rewrite app_nil_r. auto. }
  pose proof Hinv as [Hmode Hsz Hsz8 Hlen Hbytes Hst Hwl Hwr Hsteady Hcont].
  destruct (bw_aligned (bw_at bfp k n a)
            && (7 <? bw_buff_free_bits (bw_at bfp k n a))
            && (bw_buff_free_bits (bw_at bfp k n a)
                <=? bw_n_bits (bw_at bfp k n a))) eqn:Hcond.
  - (* whole bytes *)
    pose proof Hcond as Hc.
    cbn [bw_at bw_aligned bw_buff_free_bits bw_n_bits] in Hc.
    apply andb_true_iff in Hc as [Hc Hle].
    apply andb_true_iff in Hc as [Ha Hgt].
    apply Z.ltb_lt in Hgt. apply Z.leb_le in Hle.
    destruct (Hflag Ha) as [[Hk8 Hw8]|[Hlt|[Hlt _]]]; [|lia|lia].
    destruct (bit_write_round_copy bfp src k n a Hinv Hsb Hk ltac:(lia) Hsrc
                Hmax Hsl Hk8 Hw8 Hcond)
      as (bfp1 & Hloop & Hinv1 & Hstream1 & Hsize1 & Hwl1 & Hfree & Hf8).
    set (free := buff_size bfp - w_len bfp) in *.
    destruct (IH bfp1 (k + free) (n - free) a Hinv1 Hsb Hsl)
      as (bfp' & Hrun & Hinv' & Hstream' & Hsize'); try lia.
    { right. rewrite Hwl1. unfold free.
      replace (0 - (k + (buff_size bfp - w_len bfp)))
        with (w_len bfp - k + (- (buff_size bfp / 8)) * 8).
      - rewrite Z.mod_add by lia.
        replace (w_len bfp - k)
          with (0 + (w_len bfp / 8 - k / 8) * 8).
        + rewrite Z.mod_add by lia. rewrite Zmod_0_l. discriminate.
        + pose proof (Z.div_mod (w_len bfp) 8).
          pose proof (Z.div_mod k 8). lia.
      - pose proof (Z.div_mod (buff_size bfp) 8). lia. }
    { intros _. left. rewrite Hwl1. split; [|reflexivity].
      replace (k + free) with (0 + (k / 8 + free / 8) * 8).
      - rewrite Z.mod_add by lia. reflexivity.
      - pose proof (Z.div_mod free 8). pose proof (Z.div_mod k 8). lia. }
    exists bfp'. rewrite Hloop, Hrun.
    split; [do 2 f_equal; lia|].
    split; [exact Hinv'|].
    split; [|congruence].
    rewrite Hstream', Hstream1, <- app_assoc. f_equal.
    replace (Z.to_nat (n - free)) with (Z.to_nat n - Z.to_nat free)%nat by lia.
    replace (Z.to_nat (k + free)) with (Z.to_nat k + Z.to_nat free)%nat by lia.
    apply take_drop_add. lia.
  - (* one bit *)
    destruct (bit_write_round_one bfp src k n a Hinv Hk ltac:(lia) Hsrc Hmax
                Hcond)
      as (bfp1 & v & Hloop & Hinv1 & Hv & Hstream1 & Hsize1 & Hwl1).
    set (a' := if k mod 8 =? 7 then w_len bfp mod 8 =? 0 else a) in *.
    assert (Hk7 : 0 <= k mod 8 < 8) by (apply Z.mod_pos_bound; lia).
    assert (Hw7 : 0 <= w_len bfp mod 8 < 8) by (apply Z.mod_pos_bound; lia).
    assert (Hd7 : 0 <= (w_len bfp - k) mod 8 < 8)
      by (apply Z.mod_pos_bound; lia).
    assert (Hk1 : (k + 1) mod 8 = if k mod 8 =? 7 then 0 else k mod 8 + 1).
    { destruct (mask_step k Hk) as (_ & Hno & Hyes).
      destruct (Z.eqb_spec (k mod 8) 7) as [H7|H7].
      - apply Hyes. exact H7.
      - pose proof (Z.div_mod k 8).
        replace (k + 1) with (k mod 8 + 1 + (k / 8) * 8) by lia.
        rewrite Z.mod_add by lia. apply Z.mod_small. lia. }
    assert (Hfree8 : (buff_size bfp - w_len bfp) mod 8
                     = if w_len bfp mod 8 =? 0 then 0
                       else 8 - w_len bfp mod 8).
    { pose proof (Z.div_mod (buff_size bfp) 8).
      pose proof (Z.div_mod (w_len bfp) 8).
      destruct (Z.eqb_spec (w_len bfp mod 8) 0) as [Hz|Hz].
      - replace (buff_size bfp - w_len bfp)
          with (0 + (buff_size bfp / 8 - w_len bfp / 8) * 8) by lia.
        rewrite Z.mod_add by lia. reflexivity.
      - replace (buff_size bfp - w_len bfp)
          with (8 - w_len bfp mod 8
                + (buff_size bfp / 8 - w_len bfp / 8 - 1) * 8) by lia.
        rewrite Z.mod_add by lia. apply Z.mod_small. lia. }
    assert (Hdiff : (w_len bfp - k) mod 8
                    = (w_len bfp mod 8 - k mod 8) mod 8).
    { rewrite Zminus_mod. reflexivity. }
    assert (Hfq : 0 <= (buff_size bfp - w_len bfp) / 8).
    { apply Z.div_pos; lia. }
    assert (Hfd : buff_size bfp - w_len bfp
                  = 8 * ((buff_size bfp - w_len bfp) / 8)
                    + (buff_size bfp - w_len bfp) mod 8).
    { apply Z.div_mod. lia. }
    assert (Hc : a = false \/ buff_size bfp - w_len bfp <= 7
                 \/ n < buff_size bfp - w_len bfp).
    { cbn [bw_at bw_aligned bw_buff_free_bits bw_n_bits] in Hcond.
      destruct a; [|auto]. right.
      destruct (Z.ltb_spec 7 (buff_size bfp - w_len bfp)); [|lia].
      destruct (Z.leb_spec (buff_size bfp - w_len bfp) n); [|lia].
      discriminate Hcond. }
    destruct (IH bfp1 (k + 1) (n - 1) a' Hinv1 Hsb Hsl)
      as (bfp' & Hrun & Hinv' & Hstream' & Hsize'); try lia.
    { destruct Hsafe as [Hs|Hs]; [left; lia|right].
      rewrite Hwl1.
      destruct (Z.eqb_spec (w_len bfp + 1) (buff_size bfp)) as [Hfull|_].
      - replace (0 - (k + 1))
          with (w_len bfp - k + (- (buff_size bfp / 8)) * 8).
        + rewrite Z.mod_add by lia. exact Hs.
        + pose proof (Z.div_mod (buff_size bfp) 8). lia.
      - replace (w_len bfp + 1 - (k + 1)) with (w_len bfp - k) by lia.
        exact Hs. }
    { unfold bw_flag. rewrite Hsize1, Hwl1. intros Ha'.
      unfold a' in Ha'.
      destruct (Z.eqb_spec (k mod 8) 7) as [H7|H7].
      - (* the flag has just been computed *)
        apply Z.eqb_eq in Ha'.
        assert (Hd1 : (w_len bfp - k) mod 8 = 1).
        { rewrite Hdiff, Ha', H7. reflexivity. }
        rewrite Ha' in Hfree8. cbn in Hfree8.
        destruct Hsafe as [Hs|Hs]; [|lia].
        destruct (Z.eqb_spec (w_len bfp + 1) (buff_size bfp)) as [Hfull|_];
          [lia|].
        assert (Hk8 : 8 <= k + 1).
        { pose proof (Z.div_mod k 8).
          assert (0 <= k / 8) by (apply Z.div_pos; lia). lia. }
        destruct (Z.eq_dec ((buff_size bfp - w_len bfp) / 8) 1);
          [right; right; lia|right; left; lia].
      - subst a. destruct Hc as [Hc|[Hc|Hc]]; [discriminate| |].
        + destruct (Hflag eq_refl) as [[Hk8 Hw8]|[Hlt|[Hlt Hlt2]]].
          * rewrite Hw8 in Hfree8. cbn in Hfree8. lia.
          * destruct (Z.eqb_spec (w_len bfp + 1) (buff_size bfp)); lia.
          * destruct (Z.eqb_spec (w_len bfp + 1) (buff_size bfp));
              [right; left; lia|right; right; lia].
        + destruct (Z.eqb_spec (w_len bfp + 1) (buff_size bfp)); lia. }
    exists bfp'. rewrite Hloop, Hrun.
    split; [do 2 f_equal; lia|].
    split; [exact Hinv'|].
    split; [|congruence].
    rewrite Hstream', Hstream1, <- app_assoc. f_equal.
    replace (Z.to_nat n) with (S (Z.to_nat (n - 1))) by lia.
    replace (Z.to_nat (k + 1)) with (S (Z.to_nat k)) by lia.
    apply take_drop_S. exact Hv.
Qed.

(** ** [bit_write] and [bit_close] on a descriptor that never refuses *)

Lemma bit_write_steady (bfp : bit_file) (src : list Z) (n : Z) :
  bw_inv bfp -> Forall is_byte src ->
  Z.of_nat (length src) < 4294967296 ->
  0 <= n <= 8 * Z.of_nat (length src) -> n < 2147483648 ->
  n <= 22 \/ w_len bfp mod 8 <> 1 ->
  exists bfp',
    bit_write (Some bfp) (Some src) n 0 = Ret (n, Some bfp')
    /\ bw_inv bfp'
    /\ bit_stream bfp'
       = bit_stream bfp ++ take (Z.to_nat n) (bytes_bits src)
    /\ buff_size bfp' = buff_size bfp.
Proof.
  intros Hinv Hsb Hsl Hn Hmax Hsafe.
  pose proof Hinv as [Hmode Hsz Hsz8 Hlen Hbytes Hst Hwl Hwr Hsteady Hcont].
  destruct (bit_write_loop_appends src (Z.to_nat n) bfp 0 n
              ((1 =? 1) && (w_len bfp mod 8 =? 0)) Hinv Hsb Hsl)
    as (bfp' & Hrun & Hinv' & Hstream & Hsize); try lia.
  { rewrite Z.sub_0_r. destruct Hsafe; [left; lia|right; assumption]. }
  { intros Ha. left. split; [reflexivity|].
    apply andb_true_iff in Ha as [_ Ha]. apply Z.eqb_eq. exact Ha. }
  exists bfp'. unfold bit_write.
  cbn [Z.ltb Z.compare]. rewrite Hmode. cbn [Z.eqb Pos.eqb negb].
  change (u8 (Z.shiftl 1 0)) with 1.
  rewrite Hst, Z.add_0_l, !u32_small by lia.
  unfold bw_at in Hrun. change (0 / 8) with 0 in Hrun.
  change (2 ^ (0 mod 8)) with 1 in Hrun.
  rewrite Hrun. cbn [mbind outcome_bind].
  rewrite Z.add_0_l. split; [reflexivity|].
  split; [exact Hinv'|]. split; [|exact Hsize].
  rewrite Hstream. reflexivity.
Qed.

(** [bit_close] fills the last byte up and flushes: the file ends with
    the bits written, and with fewer than 8 bits after them. *)
Lemma bit_close_steady (bfp : bit_file) :
  bw_inv bfp ->
  exists f' pad,
    bit_close (Some bfp) = Ret (0, Some f')
    /\ bytes_bits (content f') = bit_stream bfp ++ pad
    /\ (length pad < 8)%nat
    /\ Forall is_byte (content f').
Proof.
  intros [Hmode Hsz Hsz8 Hlen Hbytes Hst Hwl Hwr Hsteady Hcont].
  assert (Hm : 0 <= w_len bfp mod 8 < 8) by (apply Z.mod_pos_bound; lia).
  pose proof (Z.div_mod (w_len bfp) 8 ltac:(lia)) as Hwd.
  pose proof (Z.div_mod (buff_size bfp) 8 ltac:(lia)) as Hbd.
  assert (Hwq : 0 <= w_len bfp / 8) by (apply Z.div_pos; lia).
  set (len := if w_len bfp mod 8 =? 0 then w_len bfp
              else 8 * (w_len bfp / 8) + 8).
  assert (Hlen8 : len mod 8 = 0).
  { unfold len. destruct (Z.eqb_spec (w_len bfp mod 8) 0) as [E|E];
      [exact E|].
    replace (8 * (w_len bfp / 8) + 8) with (0 + (w_len bfp / 8 + 1) * 8)
      by lia.
    rewrite Z.mod_add by lia. reflexivity. }
  assert (Hlenb : w_len bfp <= len <= buff_size bfp /\ len < w_len bfp + 8).
  { unfold len. destruct (Z.eqb_spec (w_len bfp mod 8) 0); lia. }
  set (b1 := set_window bfp (w_start bfp) len).
  assert (Hb1 : (if negb (w_len bfp mod 8 =? 0)
                 then set_window bfp (w_start bfp)
                        (u32 (w_len bfp + (8 - w_len bfp mod 8)))
                 else bfp) = b1).
  { unfold b1, len. destruct (Z.eqb_spec (w_len bfp mod 8) 0) as [E|E];
      cbn [negb].
    - destruct bfp; reflexivity.
    - rewrite u32_small by lia. f_equal. lia. }
  destruct (bit_flush_file_steady b1) as (f' & Hfl & Hc' & Hw' & _ & Hs');
    [exact Hwr|exact Hsteady|exact Hst
    |unfold b1; cbn [w_len set_window buff_size]; lia
    |exact Hlen8|exact Hsz|exact Hlen|].
  unfold b1 in Hfl, Hc'. cbn [w_len set_window buff_size fd buff] in Hfl, Hc'.
  exists f', (drop (Z.to_nat (w_len bfp))
                   (take (Z.to_nat len) (bytes_bits (buff bfp)))).
  split; [|split; [|split]].
  - unfold bit_close. rewrite Hb1. unfold b1.
    rewrite Hfl. reflexivity.
  - rewrite Hc', bytes_bits_app. unfold bit_stream.
    rewrite <- app_assoc. f_equal.
    unfold window. rewrite Hst. change (Z.to_nat 0) with 0%nat.
    rewrite drop_0, bytes_bits_take.
    assert (Hq : len / 8 * 8 = len).
    { pose proof (Z.div_mod len 8). lia. }
    replace (8 * Z.to_nat (len / 8))%nat with (Z.to_nat len) by lia.
    rewrite <- (take_drop (Z.to_nat (w_len bfp))
                  (take (Z.to_nat len) (bytes_bits (buff bfp)))) at 1.
    rewrite take_take, Nat.min_l by lia. reflexivity.
  - rewrite length_drop, length_take. lia.
  - rewrite Hc'. apply Forall_app. split; [exact Hcont|].
    apply Forall_take. exact Hbytes.
Qed.

(** ** The memory of a [uint32_t] *)

Lemma byte_testbit (x s k : Z) :
  0 <= s -> 0 <= k < 8 ->
  Z.testbit (x / 2 ^ s mod 256) k = Z.testbit x (k + s).
Proof.
  intros Hs Hk. change 256 with (2 ^ 8).
  rewrite Z.mod_pow2_bits_low by lia.
  apply Z.div_pow2_bits; lia.
Qed.

Lemma bytes_bits_u32_bytes (x : Z) : bytes_bits (u32_bytes x) = bits_of x 32.
Proof.
  unfold bytes_bits, u32_bytes, bits_of.
  change (Z.to_nat 32) with 32%nat. change (Z.to_nat 8) with 8%nat.
  rewrite <- (Z.div_1_r x) at 1.
  change 1 with (2 ^ 0) at 1. change 256 with (2 ^ 8) at 2.
  change 65536 with (2 ^ 16). change 16777216 with (2 ^ 24).
  cbn [seq map concat app].
  repeat (f_equal; [rewrite byte_testbit by (cbn; lia); f_equal|]).
  f_equal. rewrite byte_testbit by (cbn; lia). f_equal.
Qed.

Lemma take_bits_of (x n m : Z) :
  0 <= n <= m -> take (Z.to_nat n) (bits_of x m) = bits_of x n.
Proof.
  intros H. unfold bits_of. rewrite <- fmap_take, take_seq.
  rewrite Nat.min_l by lia. reflexivity.
Qed.

Lemma u32_bytes_bits (x n : Z) :
  0 <= n <= 32 -> take (Z.to_nat n) (bytes_bits (u32_bytes x)) = bits_of x n.
Proof. intros H. rewrite bytes_bits_u32_bytes. apply take_bits_of. exact H. Qed.

Lemma u32_bytes_are_bytes (x : Z) : Forall is_byte (u32_bytes x).
Proof.
  unfold u32_bytes, is_byte.
  repeat (constructor; [apply Z.mod_pos_bound; lia|]). constructor.
Qed.

Lemma bits_value_app (a b : list bool) :
  bits_value (a ++ b) = bits_value a + 2 ^ Z.of_nat (length a) * bits_value b.
Proof.
  induction a as [|x a IH]; [cbn [app length bits_value]; lia|].
  cbn [app length bits_value]. rewrite IH.
  rewrite Nat2Z.inj_succ, Z.pow_succ_r by lia. lia.
Qed.

Lemma bytes_u32_bits (bs : list Z) :
  Forall is_byte bs -> bytes_u32 bs = bits_value (bytes_bits bs).
Proof.
  induction 1 as [|b bs Hb _ IH]; [reflexivity|].
  rewrite bytes_bits_cons, bits_value_app, length_bits_of.
  rewrite bits_value_bits_of by (unfold is_byte in Hb; cbn; lia).
  cbn [bytes_u32 fold_right]. fold (bytes_u32 bs). rewrite IH. reflexivity.
Qed.

(** ** One step of [bit_read] *)

Lemma mod8_split (x : Z) :
  0 <= x -> x mod 8 = 0 -> x / 8 * 8 = x /\ 0 <= x / 8.
Proof.
  intros H0 H. pose proof (Z.div_mod x 8 ltac:(lia)).
  split; [lia|apply Z.div_pos; lia].
Qed.

Lemma bytes_fit (j w n : Z) (len : nat) :
  j + n <= 8 * Z.of_nat len -> w <= n ->
  j mod 8 = 0 -> w mod 8 = 0 -> 0 <= j -> 0 <= w ->
  (Z.to_nat (j / 8) + Z.to_nat (w / 8) <= len)%nat.
Proof.
  intros H1 H2 Hj Hw Hj0 Hw0.
  destruct (mod8_split j Hj0 Hj) as [Hjq Hjq0].
  destruct (mod8_split w Hw0 Hw) as [Hwq Hwq0].
  revert Hjq Hjq0 Hwq Hwq0.
  generalize (j / 8). generalize (w / 8). intros wq jq Hjq Hjq0 Hwq Hwq0.
  lia.
Qed.

Lemma bytes_bits_memcpy (dest src dest' : list Z) (j : Z) :
  0 <= j -> j mod 8 = 0 ->
  memcpy dest (j / 8) src = Ret dest' ->
  bytes_bits dest'
  = take (Z.to_nat j) (bytes_bits dest) ++ bytes_bits src
    ++ drop (Z.to_nat j + 8 * length src) (bytes_bits dest)
  /\ length dest' = length dest.
Proof.
  intros Hj Hj8 H. unfold memcpy in H.
  destruct (decide _) as [Hfit|]; [|discriminate].
  injection H as <-.
  destruct (mod8_split j Hj Hj8) as [Hq Hq0].
  split.
  - rewrite !bytes_bits_app, bytes_bits_take, bytes_bits_drop.
    f_equal; [f_equal; lia|]. f_equal. f_equal. lia.
  - rewrite !length_app, length_take, length_drop. lia.
Qed.

Lemma Forall_memcpy (dest src dest' : list Z) (i : Z) :
  memcpy dest i src = Ret dest' ->
  Forall is_byte dest -> Forall is_byte src -> Forall is_byte dest'.
Proof.
  unfold memcpy. destruct (decide _); [|discriminate].
  intros [= <-] Hd Hs.
  apply Forall_app. split; [apply Forall_take; exact Hd|].
  apply Forall_app. split; [exact Hs|apply Forall_drop; exact Hd].
Qed.

Lemma window_unfold (bfp : bit_file) (s w : Z) :
  window (set_window bfp s w)
  = take (Z.to_nat w) (drop (Z.to_nat s) (bytes_bits (buff bfp))).
Proof. reflexivity. Qed.

(** What one pass through the two branches does: it moves [t] bits,
    one or the whole window, from the window to [buff_out]. *)
Lemma bit_read_bits_step (bfp : bit_file) (out : list Z) (s w j n : Z)
    (a : bool) :
  br_inv (set_window bfp s w) -> Forall is_byte out ->
  0 < w -> 0 < n -> 0 <= j ->
  j + n <= 8 * Z.of_nat (length out) -> j + n < 2147483648 ->
  br_flag s w j n a ->
  exists out' s' t a',
    bit_read_bits bfp out (br_at s w j n a)
    = Ret (out', br_at s' (w - t) (j + t) (n - t) a')
    /\ 0 < t <= n /\ t <= w
    /\ br_inv (set_window bfp s' (w - t))
    /\ window (set_window bfp s w)
       = take (Z.to_nat t) (window (set_window bfp s w))
         ++ window (set_window bfp s' (w - t))
    /\ (Z.to_nat t <= length (window (set_window bfp s w)))%nat
    /\ bytes_bits out'
       = take (Z.to_nat j) (bytes_bits out)
         ++ take (Z.to_nat t) (window (set_window bfp s w))
         ++ drop (Z.to_nat (j + t)) (bytes_bits out)
    /\ Forall is_byte out' /\ length out' = length out
    /\ br_flag s' (w - t) (j + t) (n - t) a'.
Proof.
  intros Hinv Hout Hw Hn Hj Hroom Hmax Hflag.
  destruct Hinv as [Hmode Hsz Hsz8 Hlen Hbytes Hst Hwl Hend Hrd Hwil Hcont].
  cbn [set_window mode buff_size buff w_start w_len fd] in *.
  destruct Hwl as [_ Hwl].
  destruct (mod8_split (buff_size bfp) ltac:(lia) Hsz8) as [Hbq Hbq0].
  assert (HlB : length (bytes_bits (buff bfp)) = Z.to_nat (buff_size bfp)).
  { rewrite length_bytes_bits. lia. }
  assert (Hlw : length (window (set_window bfp s w)) = Z.to_nat w).
  { rewrite window_unfold, length_take, length_drop. lia. }
  unfold bit_read_bits.
  destruct (Z.eqb_spec (buff_size bfp) 0) as [|_]; [lia|].
  destruct (br_aligned (br_at s w j n a) && (7 <? br_w_len (br_at s w j n a))
            && (br_w_len (br_at s w j n a) <=? br_n_bits (br_at s w j n a)))
    eqn:Hcond.
  - (* whole bytes *)
    cbn [br_at br_aligned br_w_len br_n_bits] in Hcond.
    apply andb_true_iff in Hcond as [Hcond Hle].
    apply andb_true_iff in Hcond as [Ha Hgt].
    apply Z.ltb_lt in Hgt. apply Z.leb_le in Hle.
    destruct (Hflag Ha) as [[Hj8 Hs8]|Hlt]; [|lia].
    assert (Hw8 : w mod 8 = 0).
    { destruct (mod8_split s ltac:(lia) Hs8) as [Hsq _].
      pose proof (Z.div_mod (s + w) 8 ltac:(lia)) as Hsw.
      replace w with (0 + ((s + w) / 8 - s / 8) * 8) by lia.
      rewrite Z.mod_add by lia. reflexivity. }
    destruct (mod8_split s ltac:(lia) Hs8) as [Hsq Hsq0].
    destruct (mod8_split w ltac:(lia) Hw8) as [Hwq Hwq0].
    destruct (mod8_split j Hj Hj8) as [Hjq Hjq0].
    cbn [br_at br_base br_mask br_w_start br_w_len br_n_bits
         br_bits_read_total br_aligned].
    rewrite region_take_drop by lia. cbn [mbind outcome_bind].
    set (src := take (Z.to_nat (w / 8)) (drop (Z.to_nat (s / 8)) (buff bfp))).
    assert (Hsl : length src = Z.to_nat (w / 8)).
    { unfold src. rewrite length_take, length_drop. lia. }
    assert (Hsrc : bytes_bits src = window (set_window bfp s w)).
    { unfold src. rewrite window_unfold, bytes_bits_take, bytes_bits_drop.
      f_equal; [lia|]. f_equal. lia. }
    destruct (memcpy out (j / 8) src) as [out'| |] eqn:Hcp;
      [|unfold memcpy in Hcp; destruct (decide _) as [|Hno] in Hcp;
        [discriminate
        |exfalso; apply Hno; rewrite Hsl;
         apply (bytes_fit j w n); assumption || lia] ..].
    cbn [mbind outcome_bind].
    destruct (bytes_bits_memcpy _ _ _ _ Hj Hj8 Hcp) as [Hbits Hol].
    set (s' := u32 (s + u32 (w / 8 * 8)) mod buff_size bfp).
    assert (Hs' : 0 <= s' < buff_size bfp /\ s' mod 8 = 0).
    { unfold s'. rewrite Hwq, (u32_small w), u32_small by lia.
      destruct (Z.eq_dec (s + w) (buff_size bfp)) as [E|E].
      - rewrite E, Z.mod_same by lia. split; [lia|reflexivity].
      - rewrite Z.mod_small by lia. split; [lia|exact Hend]. }
    exists out', s', w, a.
    split; [|split; [lia|split; [lia|split; [|split; [|split; [lia|
             split; [|split; [|split; [exact Hol|]]]]]]]]].
    + unfold br_at. unfold s'.
      rewrite Hwq, !(u32_small w), !u32_small by lia.
      f_equal. f_equal.
      * f_equal.
        -- replace (j + w) with ((j / 8 + w / 8) * 8) by lia.
           rewrite Z.div_mul by lia. reflexivity.
        -- f_equal. replace (j + w) with (j + w / 8 * 8) by lia.
           rewrite Z.mod_add by lia. reflexivity.
    + rewrite Z.sub_diag.
      constructor; cbn [set_window mode buff_size buff w_start w_len fd];
        try assumption; try lia.
      rewrite Z.add_0_r. apply Hs'.
    + rewrite take_ge by lia.
      rewrite Z.sub_diag, window_unfold. cbn [Z.to_nat take].
      rewrite app_nil_r. reflexivity.
    + rewrite Hbits, Hsrc, (take_ge (window _)) by lia.
      f_equal. f_equal. f_equal. lia.
    + eapply Forall_memcpy; [exact Hcp|exact Hout|].
      unfold src. apply Forall_take, Forall_drop. exact Hbytes.
    + intros _. left. split; [|apply Hs'].
      replace (j + w) with (0 + (j / 8 + w / 8) * 8) by lia.
      rewrite Z.mod_add by lia. reflexivity.
  - (* one bit *)
    cbn [br_at br_base br_mask br_w_start br_w_len br_n_bits
         br_bits_read_total br_aligned].
    assert (Hs8 : 0 <= s mod 8 < 8) by (apply Z.mod_pos_bound; lia).
    destruct (bytes_bits_load (buff bfp) s) as (x & Hx & Hv); [lia|].
    rewrite Hx. cbn [mbind outcome_bind].
    assert (Hrm : u8 (Z.shiftl 1 (s mod 8)) = 2 ^ (s mod 8)).
    { rewrite Z.shiftl_1_l. apply u8_small.
      split; [apply Z.pow_nonneg; lia|].
      change 256 with (2 ^ 8). apply Z.pow_lt_mono_r; lia. }
    rewrite Hrm.
    set (v := negb (Z.land x (2 ^ (s mod 8)) =? 0)) in *.
    assert (Hj8 : 0 <= j mod 8 < 8) by (apply Z.mod_pos_bound; lia).
    assert (Hjq : 0 <= j / 8 < Z.of_nat (length out)).
    { split; [apply Z.div_pos; lia|]. apply Z.div_lt_upper_bound; lia. }
    rewrite <- (Z.shiftl_1_l (j mod 8)).
    pose proof (store_Ret out (j / 8)
                  (fun w0 => if v then u8 (Z.lor w0 (Z.shiftl 1 (j mod 8)))
                             else u8 (Z.land w0
                                        (Z.lnot (Z.shiftl 1 (j mod 8)))))
                  Hjq) as Hstore.
    set (out' := alter _ _ _) in Hstore.
    rewrite Hstore. cbn [mbind outcome_bind].
    destruct (bytes_bits_store _ _ _ _ Hj Hstore Hout)
      as (Hbits & Hob & Hol & Hjl).
    set (s' := u32 (s + 1) mod buff_size bfp).
    assert (Hs' : s' = if s + 1 =? buff_size bfp then 0 else s + 1).
    { unfold s'. rewrite u32_small by lia.
      destruct (Z.eqb_spec (s + 1) (buff_size bfp)) as [E|E].
      - rewrite E. apply Z.mod_same. lia.
      - apply Z.mod_small. lia. }
    assert (Hwin : window (set_window bfp s w)
                   = v :: take (Z.to_nat (w - 1))
                            (drop (S (Z.to_nat s)) (bytes_bits (buff bfp)))).
    { rewrite window_unfold, (drop_S _ _ _ Hv).
      replace (Z.to_nat w) with (S (Z.to_nat (w - 1))) by lia.
      reflexivity. }
    exists out', s', 1,
      (if j mod 8 =? 7 then s' mod 8 =? 0 else a).
    destruct (mask_step j Hj) as (Hm128 & Hno & Hyes).
    rewrite Z.shiftl_1_l, Hm128.
    split; [|split; [lia|split; [lia|split; [|split; [|split; [lia|
             split; [|split; [exact Hob|split; [exact Hol|]]]]]]]]].
    + unfold br_at. rewrite !u32_small by lia. fold s'.
      f_equal. f_equal. f_equal.
      * destruct (Z.eqb_spec (j mod 8) 7) as [H7|H7].
        -- destruct (Hyes H7) as [_ ->]. reflexivity.
        -- destruct (Hno H7) as [_ ->]. reflexivity.
      * destruct (Z.eqb_spec (j mod 8) 7) as [H7|H7].
        -- destruct (Hyes H7) as [-> _]. reflexivity.
        -- destruct (Hno H7) as [-> _]. reflexivity.
    + constructor; cbn [set_window mode buff_size buff w_start w_len fd];
        try assumption; rewrite Hs';
        destruct (Z.eqb_spec (s + 1) (buff_size bfp)) as [E|E]; try lia.
      * assert (w = 1) by lia. subst w. reflexivity.
      * replace (s + 1 + (w - 1)) with (s + w) by lia. exact Hend.
    + rewrite Hwin at 1. rewrite Hwin.
      change (Z.to_nat 1) with 1%nat. cbn [take app].
      f_equal. rewrite window_unfold, Hs'.
      destruct (Z.eqb_spec (s + 1) (buff_size bfp)) as [E|E].
      * assert (w = 1) by lia. subst w. reflexivity.
      * replace (Z.to_nat (s + 1)) with (S (Z.to_nat s)) by lia.
        reflexivity.
    + rewrite Hbits, Hwin. change (Z.to_nat 1) with 1%nat.
      cbn [take app].
      rewrite insert_take_drop by (rewrite length_bytes_bits; lia).
      replace (Z.to_nat (j + 1)) with (S (Z.to_nat j)) by lia.
      reflexivity.
    + intros Ha'.
      destruct (Z.eqb_spec (j mod 8) 7) as [H7|H7].
      * left. apply Z.eqb_eq in Ha'. split; [apply Hyes; exact H7|exact Ha'].
      * right. subst a.
        cbn [br_at br_aligned br_w_len br_n_bits] in Hcond.
        destruct (Hflag eq_refl) as [[Hj0 Hs0]|Hlt]; [|lia].
        cbn [andb] in Hcond.
        destruct (Z.ltb_spec 7 w) as [H7w|H7w].
        -- destruct (Z.leb_spec w n); [discriminate Hcond|lia].
        -- (* a window that starts a byte holds whole bytes *)
           exfalso.
           destruct (mod8_split s ltac:(lia) Hs0) as [Hsq _].
           pose proof (Z.div_mod (s + w) 8 ltac:(lia)) as Hsw.
           lia.
Qed.

(** ** The loop of [bit_read] *)

Lemma sys_read_willing (f : descriptor) (count : Z) :
  readable f = true -> willing f -> 0 < count ->
  exists (c0 : nat) f',
    (1 <= c0)%nat /\ Z.of_nat c0 <= count
    /\ sys_read f count
       = (Bytes (Z.of_nat (length (take c0 (content f)))),
          take c0 (content f), f')
    /\ content f' = drop c0 (content f)
    /\ readable f' = true /\ willing f'.
Proof.
  intros Hr Hw Hc. unfold sys_read. rewrite Hr.
  destruct (replies f) as [|r rs] eqn:Hrs.
  - exists (Z.to_nat count), (next_call f (drop (Z.to_nat count) (content f)) []).
    split; [lia|]. split; [lia|]. split; [reflexivity|].
    split; [reflexivity|]. split; [exact Hr|constructor].
  - unfold willing in Hw. rewrite Hrs in Hw.
    inversion Hw as [|r0 rs0 [n [Hn Hpos]] Hrest]; subst r0 rs0 r.
    exists (Z.to_nat (Z.min n count)),
      (next_call f (drop (Z.to_nat (Z.min n count)) (content f)) rs).
    split; [lia|]. split; [lia|]. split; [reflexivity|].
    split; [reflexivity|]. split; [exact Hr|exact Hrest].
Qed.

(** The end of the file: nothing is left in the window, nor behind the
    descriptor. *)
Lemma bit_read_loop_eof (bfp : bit_file) (out : list Z) (s j n : Z) (a : bool)
    (fuel : nat) :
  br_inv (set_window bfp s 0) -> 0 < n -> content (fd bfp) = [] ->
  exists bfp',
    bit_read_loop (S fuel) bfp out (br_at s 0 j n a)
    = Ret (int_of_u32 j, bfp', out)
    /\ br_inv bfp' /\ unread bfp' = []
    /\ buff_size bfp' = buff_size bfp.
Proof.
  intros Hinv Hn Hc.
  destruct Hinv as [Hmode Hsz Hsz8 Hlen Hbytes Hst Hwl Hend Hrd Hwil Hcont].
  cbn [set_window mode buff_size buff w_start w_len fd] in *.
  destruct (mod8_split (buff_size bfp) ltac:(lia) Hsz8) as [Hbq Hbq0].
  destruct (sys_read_willing (fd bfp) (buff_size bfp / 8) Hrd Hwil ltac:(lia))
    as (c0 & f' & Hc1 & Hc2 & Hread & Hcf & Hrf & Hwf).
  rewrite Hc, take_nil in Hread. rewrite Hc, drop_nil in Hcf.
  cbn [length Z.of_nat] in Hread.
  exists (set_window (set_buff (set_fd bfp f') (buff bfp)) s 0).
  split; [|split; [|split]].
  - cbn [bit_read_loop br_at br_n_bits br_w_len].
    destruct (Z.eqb_spec n 0) as [|_]; [lia|].
    cbn [Z.eqb]. rewrite Hread.
    unfold memcpy. change (Z.to_nat 0) with 0%nat. cbn [length Nat.add].
    destruct (decide (0 <= length (buff bfp))%nat) as [_|]; [|lia].
    cbn [mbind outcome_bind take app drop Z.eqb].
    unfold bit_read_update.
    cbn [br_bits_read_total br_w_start br_w_len]. reflexivity.
  - constructor; cbn [set_window set_buff set_fd mode buff_size buff w_start
                      w_len fd]; try assumption; try lia.
    rewrite Hcf. constructor.
  - unfold unread. rewrite window_unfold.
    cbn [set_window set_buff set_fd fd Z.to_nat take app]. rewrite Hcf.
    reflexivity.
  - reflexivity.
Qed.

(** A round with bits to read: once the buffer is refilled if need be,
    it is one pass through the branches. *)
Lemma bit_read_loop_round (bfp : bit_file) (s w j n : Z) (a : bool) :
  br_inv (set_window bfp s w) -> 0 < n -> br_flag s w j n a ->
  0 < w \/ content (fd bfp) <> [] ->
  exists bfpN sN wN,
    0 < wN
    /\ br_inv (set_window bfpN sN wN)
    /\ unread (set_window bfpN sN wN) = unread (set_window bfp s w)
    /\ br_flag sN wN j n a
    /\ buff_size bfpN = buff_size bfp
    /\ forall fuel out,
         bit_read_loop (S fuel) bfp out (br_at s w j n a)
         = ('(out', l') ← bit_read_bits bfpN out (br_at sN wN j n a);
            bit_read_loop fuel bfpN out' l').
Proof.
  intros Hinv Hn Hflag Hsome.
  destruct (Z.eq_dec w 0) as [->|Hw0].
  - (* refill *)
    destruct Hsome as [|Hsome]; [lia|].
    pose proof Hinv
      as [Hmode Hsz Hsz8 Hlen Hbytes Hst Hwl Hend Hrd Hwil Hcont].
    cbn [set_window mode buff_size buff w_start w_len fd] in *.
    destruct (mod8_split (buff_size bfp) ltac:(lia) Hsz8) as [Hbq Hbq0].
    destruct (sys_read_willing (fd bfp) (buff_size bfp / 8) Hrd Hwil
                ltac:(lia))
      as (c0 & f' & Hc1 & Hc2 & Hread & Hcf & Hrf & Hwf).
    set (data := take c0 (content (fd bfp))) in *.
    assert (Hdl : (1 <= length data)%nat /\ Z.of_nat (length data)
                                            <= buff_size bfp / 8).
    { unfold data. rewrite length_take.
      destruct (content (fd bfp)); [congruence|]. cbn [length]. lia. }
    set (b := data ++ drop (length data) (buff bfp)).
    assert (Hbl : length b = length (buff bfp)).
    { unfold b. rewrite length_app, length_drop. lia. }
    assert (Hcp : memcpy (buff bfp) 0 data = Ret b).
    { unfold memcpy. change (Z.to_nat 0) with 0%nat. cbn [Nat.add].
      destruct (decide (length data <= length (buff bfp))%nat) as [_|];
        [reflexivity|lia]. }
    assert (Hdb : Forall is_byte data).
    { unfold data. apply Forall_take. exact Hcont. }
    set (bfp1 := set_buff (set_fd bfp f') b).
    exists bfp1, 0, (8 * Z.of_nat (length data)).
    split; [lia|]. split; [|split; [|split; [|split; [reflexivity|]]]].
    + constructor; unfold bfp1;
        cbn [set_window set_buff set_fd mode buff_size buff w_start w_len fd];
        try assumption; try lia.
      * unfold b. apply Forall_app. split; [exact Hdb|].
        apply Forall_drop. exact Hbytes.
      * rewrite Z.add_0_l, Z.mul_comm. apply Z.mod_mul. lia.
      * rewrite Hcf. apply Forall_drop. exact Hcont.
    + unfold unread. rewrite !window_unfold. unfold bfp1.
      cbn [set_window set_buff set_fd buff fd Z.to_nat take drop app].
      rewrite Hcf. unfold b. rewrite bytes_bits_app.
      change (Z.to_nat 0) with 0%nat. rewrite drop_0. cbn [take app].
      rewrite take_app_length'
        by (rewrite length_bytes_bits; lia).
      rewrite <- bytes_bits_app. unfold data. rewrite take_drop.
      reflexivity.
    + intros Ha. left. destruct (Hflag Ha) as [[Hj8 _]|]; [|lia].
      split; [exact Hj8|reflexivity].
    + intros fuel out.
      cbn [bit_read_loop br_at br_n_bits br_w_len].
      destruct (Z.eqb_spec n 0) as [|_]; [lia|].
      cbn [Z.eqb]. rewrite Hread. fold data. rewrite Hcp.
      cbn [mbind outcome_bind].
      destruct (Z.eqb_spec (Z.of_nat (length data)) 0) as [|_]; [lia|].
      cbn [br_base br_mask br_n_bits br_bits_read_total br_aligned].
      fold bfp1. unfold br_at.
      rewrite u32_small by lia.
      replace (Z.of_nat (length data) * 8) with (8 * Z.of_nat (length data))
        by lia.
      reflexivity.
  - exists bfp, s, w.
    destruct Hinv as [Hmode Hsz Hsz8 Hlen Hbytes Hst Hwl Hend Hrd Hwil Hcont].
    cbn [set_window mode buff_size buff w_start w_len fd] in *.
    split; [lia|]. split; [|split; [reflexivity|split; [exact Hflag|
                               split; [reflexivity|]]]].
    + constructor;
        cbn [set_window mode buff_size buff w_start w_len fd]; assumption.
    + intros fuel out.
      cbn [bit_read_loop br_at br_n_bits br_w_len].
      destruct (Z.eqb_spec n 0) as [|_]; [lia|].
      destruct (Z.eqb_spec w 0) as [|_]; [lia|].
      reflexivity.
Qed.

Lemma take_min_app {A} (T P' : list A) (n : nat) :
  (length T <= n)%nat ->
  take (n `min` length (T ++ P')) (T ++ P')
  = T ++ take ((n - length T) `min` length P') P'.
Proof.
  intros H. rewrite length_app.
  rewrite take_app_ge by lia. f_equal. f_equal. lia.
Qed.

Lemma bit_read_loop_takes (fuel : nat) : forall bfp out s w j n a,
  br_inv (set_window bfp s w) -> Forall is_byte out ->
  0 <= j -> 0 <= n ->
  j + n <= 8 * Z.of_nat (length out) -> j + n < 2147483648 ->
  br_flag s w j n a ->
  (Z.to_nat n <= fuel)%nat ->
  let P := unread (set_window bfp s w) in
  let m := (Z.to_nat n `min` length P)%nat in
  exists bfp' out',
    bit_read_loop fuel bfp out (br_at s w j n a)
    = Ret (j + Z.of_nat m, bfp', out')
    /\ br_inv bfp'
    /\ unread bfp' = drop m P
    /\ bytes_bits out'
       = take (Z.to_nat j) (bytes_bits out) ++ take m P
         ++ drop (Z.to_nat j + m) (bytes_bits out)
    /\ Forall is_byte out' /\ length out' = length out
    /\ buff_size bfp' = buff_size bfp.
Proof.
  assert (Hend : forall fuel bfp out s w j a,
            0 <= j < 2147483648 ->
            bit_read_loop fuel bfp out (br_at s w j 0 a)
            = Ret (j, set_window bfp s w, out)).
  { intros f bfp out s w j a Hj.
    destruct f; cbn [bit_read_loop br_at br_n_bits Z.eqb];
      unfold bit_read_update;
      cbn [br_at br_bits_read_total br_w_start br_w_len];
      rewrite int_of_u32_small by lia; reflexivity. }
  assert (Hnone : forall bfp out s w j,
            br_inv (set_window bfp s w) -> Forall is_byte out ->
            0 <= j < 2147483648 ->
            Z.of_nat (Z.to_nat j) <= 8 * Z.of_nat (length out) ->
            exists bfp' out',
              Ret (j, set_window bfp s w, out)
              = Ret (j + Z.of_nat 0, bfp', out')
              /\ br_inv bfp'
              /\ unread bfp' = drop 0 (unread (set_window bfp s w))
              /\ bytes_bits out'
                 = take (Z.to_nat j) (bytes_bits out)
                   ++ take 0 (unread (set_window bfp s w))
                   ++ drop (Z.to_nat j + 0) (bytes_bits out)
              /\ Forall is_byte out' /\ length out' = length out
              /\ buff_size bfp' = buff_size bfp).
  { intros bfp out s w j Hinv Hout Hj Hroom.
    exists (set_window bfp s w), out.
    change (Z.of_nat 0) with 0.
    rewrite Z.add_0_r, Nat.add_0_r, take_0, drop_0. cbn [app].
    rewrite take_drop. auto 10. }
  induction fuel as [|fuel IH];
    intros bfp out s w j n a Hinv Hout Hj Hn Hroom Hmax Hflag Hfuel P m.
  { assert (n = 0) by lia. subst n. rewrite Hend by lia.
    unfold m. cbn [Z.to_nat Nat.min]. apply (Hnone bfp out s w j); try lia;
      assumption. }
  destruct (Z.eq_dec n 0) as [->|Hn0].
  { rewrite Hend by lia.
    unfold m. cbn [Z.to_nat Nat.min]. apply (Hnone bfp out s w j); try lia;
      assumption. }
  destruct (decide (0 < w \/ content (fd bfp) <> [])) as [Hsome|Hnothing].
  - destruct (bit_read_loop_round bfp s w j n a Hinv ltac:(lia) Hflag Hsome)
      as (bfpN & sN & wN & HwN & HinvN & HunN & HflagN & HsizeN & Hloop).
    destruct (bit_read_bits_step bfpN out sN wN j n a HinvN Hout HwN
                ltac:(lia) Hj Hroom Hmax HflagN)
      as (out1 & s1 & t & a1 & Hstep & Ht & Htw & Hinv1 & Hwin & Hwl & Hbits1
          & Hout1 & Hlen1 & Hflag1).
    destruct (IH bfpN out1 s1 (wN - t) (j + t) (n - t) a1 Hinv1 Hout1)
      as (bfp' & out' & Hrun & Hinv' & Hun' & Hbits' & Hout' & Hlen' & Hsize');
      try lia; [exact Hflag1|].
    set (T := take (Z.to_nat t) (window (set_window bfpN sN wN))) in *.
    set (P1 := unread (set_window bfpN s1 (wN - t))) in *.
    assert (HTl : length T = Z.to_nat t).
    { unfold T. rewrite length_take. lia. }
    assert (HP : P = T ++ P1).
    { unfold P, P1. rewrite <- HunN. unfold unread.
      rewrite Hwin at 1. fold T. rewrite <- app_assoc. reflexivity. }
    assert (Hm : m = (Z.to_nat t
                      + (Z.to_nat (n - t) `min` length P1))%nat).
    { unfold m. rewrite HP, length_app, HTl. lia. }
    set (m1 := (Z.to_nat (n - t) `min` length P1)%nat) in *.
    exists bfp', out'. rewrite Hloop, Hstep. cbn [mbind outcome_bind].
    rewrite Hrun.
    split; [do 3 f_equal; lia|].
    split; [exact Hinv'|].
    split; [|split; [|split; [exact Hout'|split; [congruence|congruence]]]].
    + rewrite Hun', Hm, HP.
      rewrite drop_app_ge by lia. f_equal. lia.
    + rewrite Hbits', Hbits1, Hm, HP.
      assert (HjB : (Z.to_nat j <= length (bytes_bits out))%nat).
      { rewrite length_bytes_bits. lia. }
      replace (Z.to_nat (j + t)) with (Z.to_nat j + Z.to_nat t)%nat by lia.
      set (B := bytes_bits out) in *.
      assert (Hl : length (take (Z.to_nat j) B ++ T)
                   = (Z.to_nat j + Z.to_nat t)%nat).
      { rewrite length_app, length_take, HTl. lia. }
      rewrite (app_assoc (take (Z.to_nat j) B) T).
      rewrite (take_app_length' (take (Z.to_nat j) B ++ T)) by lia.
      rewrite (drop_app_ge (take (Z.to_nat j) B ++ T)) by lia.
      rewrite Hl, drop_drop.
      rewrite (take_app_ge T) by lia. rewrite HTl.
      rewrite <- !app_assoc. f_equal. f_equal.
      replace (Z.to_nat t + m1 - Z.to_nat t)%nat with m1 by lia.
      f_equal. f_equal. lia.
  - (* the end of the file *)
    assert (Hw : w = 0).
    { destruct Hinv as [_ _ _ _ _ _ Hwl _ _ _ _].
      cbn [set_window w_len] in Hwl. destruct (Z.eq_dec w 0); [assumption|].
      exfalso. apply Hnothing. left. lia. }
    assert (Hc : content (fd bfp) = []).
    { destruct (content (fd bfp)) eqn:E; [reflexivity|].
      exfalso. apply Hnothing. right. discriminate. }
    subst w.
    destruct (bit_read_loop_eof bfp out s j n a fuel Hinv ltac:(lia) Hc)
      as (bfp' & Hrun & Hinv' & Hun' & Hsize').
    assert (HP : P = []).
    { unfold P, unread. rewrite window_unfold. cbn [Z.to_nat take app].
      cbn [set_window fd]. rewrite Hc. reflexivity. }
    assert (Hm : m = 0%nat) by (unfold m; rewrite HP; cbn [length]; lia).
    exists bfp', out. rewrite Hrun, Hm, HP.
    rewrite int_of_u32_small by lia.
    change (Z.of_nat 0) with 0.
    rewrite Z.add_0_r, Nat.add_0_r, take_0, drop_0. cbn [app].
    rewrite take_drop. auto 10.
Qed.

(** ** [bit_read] on a descriptor that never refuses *)

Lemma set_window_same (bfp : bit_file) :
  set_window bfp (w_start bfp) (w_len bfp) = bfp.
Proof. destruct bfp; reflexivity. Qed.

Lemma bit_read_willing (bfp : bit_file) (out : list Z) (n : Z) :
  br_inv bfp -> Forall is_byte out ->
  0 <= n <= 8 * Z.of_nat (length out) -> n < 2147483648 ->
  let m := (Z.to_nat n `min` length (unread bfp))%nat in
  exists bfp' out',
    bit_read (Some bfp) (Some out) n 0
    = Ret (Z.of_nat m, Some bfp', Some out')
    /\ br_inv bfp'
    /\ unread bfp' = drop m (unread bfp)
    /\ bytes_bits out' = take m (unread bfp) ++ drop m (bytes_bits out)
    /\ Forall is_byte out' /\ length out' = length out
    /\ buff_size bfp' = buff_size bfp.
Proof.
  intros Hinv Hout Hn Hmax m.
  pose proof Hinv as [Hmode _ _ _ _ _ _ _ _ _ _].
  destruct (bit_read_loop_takes (Z.to_nat n) bfp out (w_start bfp) (w_len bfp)
              0 n ((1 =? 1) && (w_start bfp mod 8 =? 0)))
    as (bfp' & out' & Hrun & Hinv' & Hun & Hbits & Hob & Hol & Hsize);
    try lia; try assumption.
  { rewrite set_window_same. exact Hinv. }
  { intros Ha. left. split; [reflexivity|].
    apply andb_true_iff in Ha as [_ Ha]. apply Z.eqb_eq. exact Ha. }
  rewrite set_window_same in Hrun, Hun, Hbits. fold m in Hrun, Hun, Hbits.
  exists bfp', out'. unfold bit_read.
  cbn [Z.ltb Z.compare]. rewrite Hmode. cbn [Z.eqb Pos.eqb negb].
  change (u8 (Z.shiftl 1 0)) with 1.
  unfold br_at in Hrun. change (0 / 8) with 0 in Hrun.
  change (2 ^ (0 mod 8)) with 1 in Hrun.
  rewrite Hrun. cbn [mbind outcome_bind].
  rewrite Z.add_0_l. split; [reflexivity|].
  split; [exact Hinv'|]. split; [exact Hun|].
  split; [|auto].
  rewrite Hbits. change (Z.to_nat 0) with 0%nat.
  rewrite take_0. reflexivity.
Qed.

(** ** [bit_open] *)

Lemma Forall_replicate_byte (n : nat) : Forall is_byte (replicate n 0).
Proof. apply Forall_replicate. unfold is_byte. lia. Qed.

Lemma bit_open_write (f : descriptor) (size : Z) :
  writable f = true -> steady f -> Forall is_byte (content f) ->
  8 <= size <= max_index -> size mod 8 = 0 ->
  exists bfp,
    bit_open true f ACCESS_WRITE size = Some bfp
    /\ bw_inv bfp /\ bit_stream bfp = bytes_bits (content f)
    /\ buff_size bfp = size.
Proof.
  intros Hw Hs Hc Hsz H8.
  assert (Hmax : max_index = 536870911) by reflexivity.
  unfold bit_open. cbn [Z.eqb Pos.eqb ACCESS_WRITE ACCESS_READ negb andb].
  rewrite Hw. cbn [Z.eqb negb]. rewrite H8. cbn [Z.eqb negb].
  destruct (Z.ltb_spec max_index size) as [|_]; [lia|].
  eexists. split; [reflexivity|].
  split; [|split; [|reflexivity]].
  - constructor; cbn [mode buff_size w_start w_len buff fd];
      try assumption; try reflexivity; try lia.
    + rewrite length_replicate. rewrite Z2Nat.id; [reflexivity|].
      apply Z.div_pos; lia.
    + apply Forall_replicate_byte.
  - unfold bit_stream, window. cbn [w_len w_start fd Z.to_nat take].
    rewrite app_nil_r. reflexivity.
Qed.

Lemma bit_open_read (f : descriptor) (size : Z) :
  readable f = true -> willing f -> Forall is_byte (content f) ->
  8 <= size <= max_index -> size mod 8 = 0 ->
  exists bfp,
    bit_open true f ACCESS_READ size = Some bfp
    /\ br_inv bfp /\ unread bfp = bytes_bits (content f)
    /\ buff_size bfp = size.
Proof.
  intros Hr Hw Hc Hsz H8.
  assert (Hmax : max_index = 536870911) by reflexivity.
  unfold bit_open. cbn [Z.eqb Pos.eqb ACCESS_WRITE ACCESS_READ negb andb].
  rewrite Hr. cbn [Z.eqb negb]. rewrite H8. cbn [Z.eqb negb].
  destruct (Z.ltb_spec max_index size) as [|_]; [lia|].
  eexists. split; [reflexivity|].
  split; [|split; [|reflexivity]].
  - constructor; cbn [mode buff_size w_start w_len buff fd];
      try assumption; try reflexivity; try lia.
    + rewrite length_replicate. rewrite Z2Nat.id; [reflexivity|].
      apply Z.div_pos; lia.
    + apply Forall_replicate_byte.
  - unfold unread, window. cbn [w_len w_start fd Z.to_nat take app].
    reflexivity.
Qed.

(** ** The loop of [lz78_decompress] on a file *)

Lemma bitlen_range (i : Z) : 0 <= bitlen i <= 32.
Proof.
  split; [apply bitlen_nonneg|].
  assert (H : bitlen i = bitlen (u32 i)).
  { unfold bitlen, u32. rewrite Z.mod_mod by lia. reflexivity. }
  rewrite H, bitlen_log2 by apply u32_range.
  pose proof (u32_range i) as Hr.
  destruct (Z.eqb_spec (u32 i) 0); [lia|].
  assert (Z.log2 (u32 i) < 32); [|lia].
  apply Z.log2_lt_pow2; [lia|]. change (2 ^ 32) with 4294967296. lia.
Qed.

Lemma bits_value_zeros (l : list bool) :
  Forall (fun b => b = false) l -> bits_value l = 0.
Proof.
  induction 1 as [|b l Hb _ IH]; [reflexivity|].
  cbn [bits_value]. rewrite Hb, IH. reflexivity.
Qed.

Lemma u32_bytes_0_bits :
  Forall (fun b => b = false) (bytes_bits (u32_bytes 0)).
Proof. repeat constructor. Qed.

(** The value that [bit_read] leaves in a cleared [bitbuf]. *)
Lemma read_value (out' : list Z) (P : list bool) (m : nat) :
  Forall is_byte out' ->
  bytes_bits out' = take m P ++ drop m (bytes_bits (u32_bytes 0)) ->
  bytes_u32 out' = bits_value (take m P).
Proof.
  intros Hb H. rewrite bytes_u32_bits by exact Hb.
  rewrite H, bits_value_app.
  rewrite (bits_value_zeros (drop m _)); [lia|].
  apply Forall_drop, u32_bytes_0_bits.
Qed.

Lemma lz78_decompress_fd_loop_refines (a : allocator) (fuel : nat) :
  forall o in_,
    br_inv in_ ->
    lz78_decompress_fd_loop fuel a o in_
    = lz78_decompress_loop fuel a o (unread in_).
Proof.
  induction fuel as [|fuel IH]; intros o in_ Hinv; [reflexivity|].
  cbn [lz78_decompress_fd_loop lz78_decompress_loop].
  destruct (d_main o) as [m|]; [|reflexivity].
  destruct (region _ _ _) as [out| |]; [|reflexivity|reflexivity].
  pose proof (bitlen_range (d_next m)) as Hbits.
  set (bits := bitlen (d_next m)) in *.
  destruct (Z.ltb_spec 0 bits) as [Hpos|Hzero].
  - destruct (bit_read_willing in_ (u32_bytes 0) bits Hinv
                (u32_bytes_are_bytes 0))
      as (in' & buf & Hread & Hinv' & Hun & Hbuf & Hbb & _ & _);
      [cbn [length u32_bytes]; lia|lia|].
    rewrite Hread. cbn [mbind outcome_bind from_option id].
    set (P := unread in_) in *.
    destruct (decide (length P < Z.to_nat bits)%nat) as [Hshort|Hlong].
    + rewrite Nat.min_r in Hread |- * by lia.
      destruct (Z.eqb_spec (Z.of_nat (length P)) (-1)) as [|_]; [lia|].
      rewrite u32_small by lia.
      destruct (Z.eqb_spec bits (Z.of_nat (length P))) as [|_]; [lia|].
      reflexivity.
    + rewrite Nat.min_l in Hread, Hun, Hbuf |- * by lia.
      rewrite Z2Nat.id by lia.
      destruct (Z.eqb_spec bits (-1)) as [|_]; [lia|].
      rewrite u32_small by lia. rewrite Z.eqb_refl. cbn [negb].
      rewrite (read_value buf P (Z.to_nat bits) Hbb Hbuf).
      destruct (decompress_code a _ _) as [[ret o']| |];
        [|reflexivity|reflexivity].
      destruct (lz78_error ret); [reflexivity|].
      destruct (d_completed o' =? 1); [reflexivity|].
      rewrite (IH o' in' Hinv'), Hun. reflexivity.
  - assert (Hb0 : bits = 0) by lia. rewrite Hb0.
    change (Z.to_nat 0) with 0%nat. rewrite take_0, drop_0.
    cbn [bits_value].
    destruct (decide (length (unread in_) < 0)%nat) as [|_]; [lia|].
    destruct (decompress_code a _ _) as [[ret o']| |];
      [|reflexivity|reflexivity].
    destruct (lz78_error ret); [reflexivity|].
    destruct (d_completed o' =? 1); [reflexivity|].
    rewrite (IH o' in_ Hinv). reflexivity.
Qed.

(** ** The loop of [lz78_compress] on a file *)

Lemma pending_fits (o : lz78_c) :
  Forall pair_fits (pending o) -> 0 < c_n_bits o ->
  pending o = [(c_bitbuf o, c_n_bits o)]
  /\ 0 <= c_bitbuf o < 2 ^ c_n_bits o /\ 9 <= c_n_bits o <= 21.
Proof.
  unfold pending. intros H Hn.
  destruct (Z.ltb_spec 0 (c_n_bits o)) as [_|]; [|lia].
  inversion H as [|p l [Hp1 Hp2] _]; subst. cbn [fst snd] in *. auto.
Qed.

Lemma written_emit (o : lz78_c) :
  0 < c_n_bits o -> 0 <= c_bitbuf o < 2 ^ c_n_bits o ->
  emit o (u32 (Z.shiftr (c_bitbuf o) (c_n_bits o)))
       (u32 (c_n_bits o - c_n_bits o))
  = written o.
Proof.
  intros Hn Hb. unfold written.
  destruct (Z.ltb_spec 0 (c_n_bits o)) as [_|]; [|lia].
  rewrite Z.sub_diag.
  rewrite Z.shiftr_div_pow2, Z.div_small by lia. reflexivity.
Qed.

Lemma lz78_compress_fd_loop_refines (fuel : nat) : forall o input out,
  c_fit o -> Forall pair_fits (pending o) ->
  Forall (fun c => 0 <= c < 256) input ->
  bw_inv out ->
  match lz78_compress_loop fuel o input with
  | (outs, Some (Ret st)) =>
      st = LZ78_SUCCESS
      /\ exists f' pad,
           lz78_compress_fd_loop fuel o input out
           = Some (Ret (LZ78_SUCCESS, f'))
           /\ bytes_bits (content f')
              = bit_stream out ++ stream_bits outs ++ pad
           /\ (length pad < 8)%nat
           /\ Forall is_byte (content f')
  | (_, Some Fault) => lz78_compress_fd_loop fuel o input out = Some Fault
  | (_, Some Diverge) => lz78_compress_fd_loop fuel o input out = Some Diverge
  | (_, None) => lz78_compress_fd_loop fuel o input out = None
  end.
Proof.
  induction fuel as [|fuel IH]; intros o input out Hfit Hp Hin Hinv;
    [reflexivity|].
  rewrite lz78_compress_loop_S. cbn zeta.
  cbn [lz78_compress_fd_loop].
  (* the pending bits are written *)
  assert (Hwr : exists out1,
            write_pending o out = Ret (None, written o, out1)
            /\ bw_inv out1
            /\ bit_stream out1 = bit_stream out ++ stream_bits (pending o)).
  { unfold write_pending.
    destruct (Z.ltb_spec 0 (c_n_bits o)) as [Hn|Hn].
    - destruct (pending_fits o Hp Hn) as (Hpend & Hb & Hw).
      destruct (bit_write_steady out (u32_bytes (c_bitbuf o)) (c_n_bits o)
                  Hinv (u32_bytes_are_bytes _))
        as (out1 & Hrun & Hinv1 & Hstream & _);
        [cbn [length u32_bytes]; lia..|left; lia|].
      exists out1. rewrite Hrun. cbn [mbind outcome_bind from_option id].
      destruct (Z.eqb_spec (c_n_bits o) (-1)) as [|_]; [lia|].
      rewrite (written_emit o Hn Hb).
      pose proof (written_bits o) as Hwb.
      destruct (Z.ltb_spec 0 (c_n_bits (written o))) as [|_]; [lia|].
      split; [reflexivity|]. split; [exact Hinv1|].
      rewrite Hstream, Hpend. unfold stream_bits.
      cbn [map concat fst snd]. rewrite app_nil_r.
      rewrite u32_bytes_bits by lia. reflexivity.
    - exists out.
      assert (Hpe : pending o = []).
      { unfold pending. destruct (Z.ltb_spec 0 (c_n_bits o)); [lia|].
        reflexivity. }
      rewrite (pending_nil_written o Hpe), Hpe.
      split; [reflexivity|]. split; [exact Hinv|].
      unfold stream_bits. cbn [map concat]. rewrite app_nil_r. reflexivity. }
  destruct Hwr as (out1 & -> & Hinv1 & Hstream1).
  destruct (fgetc input) as [c_in rest] eqn:Hget.
  destruct (fgetc_input _ _ _ Hin Hget) as [Hc Hrest].
  destruct (compress_byte (written o) c_in) as [o'| |] eqn:Hstep;
    [|reflexivity|reflexivity].
  destruct (compress_byte_fit _ _ _ (c_fit_written _ Hfit) (written_bits o)
              Hc Hstep) as [Hfit' Hp'].
  destruct (c_completed o' =? 1).
  - split; [reflexivity|].
    destruct (bit_close_steady out1 Hinv1) as (f' & pad & Hcl & Hbits & Hpad
                                               & Hfb).
    exists f', pad. rewrite Hcl. cbn [from_option id].
    split; [reflexivity|].
    split; [|auto]. rewrite Hbits, Hstream1, <- app_assoc. reflexivity.
  - specialize (IH o' rest out1 Hfit' Hp' Hrest Hinv1).
    destruct (lz78_compress_loop fuel o' rest) as [outs [[st| |]|]].
    + destruct IH as (-> & f' & pad & Hrun & Hbits & Hpad & Hfb).
      split; [reflexivity|]. exists f', pad.
      split; [exact Hrun|]. split; [|auto].
      rewrite Hbits, Hstream1. unfold stream_bits.
      rewrite map_app, concat_app, <- !app_assoc. reflexivity.
    + exact IH.
    + exact IH.
    + exact IH.
Qed.

(** ** The bit streams: results *)

(** X13: [bit_write] of [n] bits from offset 0, on a descriptor that
    never refuses, returns [n] and appends exactly the first [n] bits of
    [buff_in] to the bits written so far, flushing the buffer each time
    it is full; this holds for every [n] up to 22, and for every [n]
    when the window does not end one bit after a byte boundary. *)
Theorem bit_write_appends (bfp : bit_file) (src : list Z) (n : Z) :
  bw_inv bfp -> Forall is_byte src ->
  Z.of_nat (length src) < 4294967296 ->
  0 <= n <= 8 * Z.of_nat (length src) -> n < 2147483648 ->
  n <= 22 \/ w_len bfp mod 8 <> 1 ->
  exists bfp',
    bit_write (Some bfp) (Some src) n 0 = Ret (n, Some bfp')
    /\ bw_inv bfp'
    /\ bit_stream bfp'
       = bit_stream bfp ++ take (Z.to_nat n) (bytes_bits src)
    /\ buff_size bfp' = buff_size bfp.
Proof. exact (bit_write_steady bfp src n). Qed.

Lemma bit_write_appends_witness :
  exists bfp',
    bit_write (Some small_out) (Some (u32_bytes 261)) 9 0 = Ret (9, Some bfp')
    /\ bw_inv bfp'
    /\ bit_stream bfp'
       = bit_stream small_out ++ take (Z.to_nat 9) (bytes_bits (u32_bytes 261))
    /\ buff_size bfp' = buff_size small_out.
Proof.
  apply (bit_write_appends small_out (u32_bytes 261) 9).
  - constructor; cbn; try reflexivity; try lia;
      repeat (constructor; [unfold is_byte; lia|]); constructor.
  - unfold u32_bytes.
    repeat (constructor;
            [vm_compute; split; [discriminate|reflexivity]|]);
      constructor.
  - cbn. lia.
  - cbn. lia.
  - lia.
  - left. lia.
Defined.

(** X14: [bit_close], on a descriptor that never refuses, leaves a file
    of whole bytes that holds the bits written, followed by fewer than 8
    bits that fill the last byte. *)
Theorem bit_close_pads (bfp : bit_file) :
  bw_inv bfp ->
  exists f' pad,
    bit_close (Some bfp) = Ret (0, Some f')
    /\ bytes_bits (content f') = bit_stream bfp ++ pad
    /\ (length pad < 8)%nat
    /\ Forall is_byte (content f').
Proof. exact (bit_close_steady bfp). Qed.

Lemma bit_close_pads_witness :
  exists f' pad,
    bit_close (Some small_part) = Ret (0, Some f')
    /\ bytes_bits (content f') = bit_stream small_part ++ pad
    /\ (length pad < 8)%nat
    /\ Forall is_byte (content f').
Proof.
  apply (bit_close_pads small_part).
  constructor; cbn; try reflexivity; try lia;
    repeat (constructor; [unfold is_byte; lia|]); constructor.
Defined.

(** X15: [bit_read] of [n] bits to offset 0, on a descriptor that
    delivers, stores the next bits of the file in [buff_out], in order
    and leaving the other bits of [buff_out] as they were, and returns
    their number: [n], or what is left of the file when that is less. *)
Theorem bit_read_takes (bfp : bit_file) (out : list Z) (n : Z) :
  br_inv bfp -> Forall is_byte out ->
  0 <= n <= 8 * Z.of_nat (length out) -> n < 2147483648 ->
  let m := (Z.to_nat n `min` length (unread bfp))%nat in
  exists bfp' out',
    bit_read (Some bfp) (Some out) n 0
    = Ret (Z.of_nat m, Some bfp', Some out')
    /\ br_inv bfp'
    /\ unread bfp' = drop m (unread bfp)
    /\ bytes_bits out' = take m (unread bfp) ++ drop m (bytes_bits out)
    /\ Forall is_byte out' /\ length out' = length out
    /\ buff_size bfp' = buff_size bfp.
Proof. exact (bit_read_willing bfp out n). Qed.

Lemma bit_read_takes_witness :
  let m := (Z.to_nat 9 `min` length (unread small_in))%nat in
  exists bfp' out',
    bit_read (Some small_in) (Some (u32_bytes 0)) 9 0
    = Ret (Z.of_nat m, Some bfp', Some out')
    /\ br_inv bfp'
    /\ unread bfp' = drop m (unread small_in)
    /\ bytes_bits out'
       = take m (unread small_in) ++ drop m (bytes_bits (u32_bytes 0))
    /\ Forall is_byte out' /\ length out' = length (u32_bytes 0)
    /\ buff_size bfp' = buff_size small_in.
Proof.
  apply (bit_read_takes small_in (u32_bytes 0) 9).
  - constructor; cbn; try reflexivity; try lia;
      repeat (constructor;
              [first [unfold is_byte; lia
                     |exists 1; split; [reflexivity|lia]]|]);
      constructor.
  - unfold u32_bytes.
    repeat (constructor;
            [vm_compute; split; [discriminate|reflexivity]|]);
      constructor.
  - cbn. lia.
  - lia.
Defined.

(** X16: when a flush of the full buffer is cut short, the descriptor
    taking [k] bytes and then answering [EAGAIN], [bit_flush] returns 0
    with the window moved to the end of the buffer, and the next
    [bit_write] of any number of bits stores outside the buffer. *)
Theorem bit_write_after_short_flush (bfp : bit_file) (k : Z)
    (rs : list reply) (src : list Z) (n : Z) :
  mode bfp = ACCESS_WRITE ->
  8 <= buff_size bfp < 4294967296 -> buff_size bfp mod 8 = 0 ->
  Z.of_nat (length (buff bfp)) = buff_size bfp / 8 ->
  w_start bfp = 0 -> w_len bfp = buff_size bfp ->
  writable (fd bfp) = true ->
  replies (fd bfp) = Bytes k :: Again :: rs ->
  0 < k < buff_size bfp / 8 ->
  0 < n < 4294967296 -> src <> [] ->
  exists bfp',
    bit_flush (Some bfp) = Ret (0, Some bfp')
    /\ w_start bfp' = 8 * k
    /\ w_len bfp' = buff_size bfp - 8 * k
    /\ bit_write (Some bfp') (Some src) n 0 = Fault.
Proof.
  intros Hmode Hsz Hsz8 Hlen Hst Hwl Hw Hrs Hk Hn Hsrc.
  destruct (mod8_split (buff_size bfp) ltac:(lia) Hsz8) as [Hbq Hbq0].
  set (data := take (Z.to_nat (buff_size bfp / 8)) (buff bfp)).
  assert (Hdl : length data = Z.to_nat (buff_size bfp / 8)).
  { unfold data. rewrite length_take. lia. }
  set (f1 := next_call (fd bfp)
               (content (fd bfp) ++ take (Z.to_nat k) data) (Again :: rs)).
  set (f2 := next_call f1 (content f1) rs).
  assert (Hfl : bit_flush_file bfp
                = Ret (0, set_window (set_fd bfp f2) (8 * k)
                            (buff_size bfp - 8 * k))).
  { unfold bit_flush_file. rewrite Hrs, Hst, Hwl.
    change (0 / 8) with 0.
    cbn [length bit_flush_loop].
    destruct (Z.eqb_spec (buff_size bfp / 8) 0) as [|_]; [lia|].
    rewrite region_take_drop by lia.
    change (Z.to_nat 0) with 0%nat. rewrite drop_0. fold data.
    cbn [mbind outcome_bind].
    unfold sys_write at 1. rewrite Hw, Hrs.
    assert (Htk : Z.of_nat (length (take (Z.to_nat k) data)) = k).
    { rewrite length_take. lia. }
    rewrite Htk. fold f1.
    rewrite (u32_small (buff_size bfp / 8 - k)) by lia.
    destruct (Z.eqb_spec (buff_size bfp / 8 - k) 0) as [|_]; [lia|].
    rewrite region_take_drop by lia. cbn [mbind outcome_bind].
    unfold sys_write.
    assert (Hw1 : writable f1 = true) by exact Hw.
    rewrite Hw1. cbn [replies f1 next_call]. fold f2.
    cbn [mbind outcome_bind].
    destruct (Z.eqb_spec (buff_size bfp) 0) as [|_]; [lia|].
    rewrite !(Z.add_0_l k), !(u32_small k) by lia.
    rewrite !(u32_small (k * 8)) by lia.
    rewrite Z.add_0_l, (u32_small (k * 8)) by lia.
    rewrite Z.mod_small by lia.
    rewrite u32_small by lia.
    do 3 f_equal; lia. }
  exists (set_window (set_fd bfp f2) (8 * k) (buff_size bfp - 8 * k)).
  split; [unfold bit_flush; rewrite Hfl; reflexivity|].
  split; [reflexivity|]. split; [reflexivity|].
  unfold bit_write.
  cbn [Z.ltb Z.compare mode set_window set_fd w_start w_len buff_size].
  rewrite Hmode, Z.eqb_refl. cbn [negb].
  change (u8 (Z.shiftl 1 0)) with 1.
  replace (8 * k + (buff_size bfp - 8 * k)) with (buff_size bfp) by lia.
  rewrite !u32_small by lia.
  destruct (Z.to_nat n) as [|fuel] eqn:Hfuel; [lia|].
  cbn [bit_write_loop bw_n_bits].
  destruct (Z.eqb_spec n 0) as [|_]; [lia|].
  assert (Hout : forall f, store (buff bfp) (buff_size bfp / 8) f = Fault).
  { intros f. unfold store. destruct (decide _) as [Hlt|]; [lia|].
    reflexivity. }
  unfold bit_write_bits.
  cbn [bw_aligned bw_buff_free_bits bw_n_bits bw_pos bw_base bw_mask
       buff set_window set_fd].
  destruct (_ && _ && _).
  - destruct (region src 0 _) as [bs| |] eqn:Hreg;
      [|reflexivity|destruct (region_not_Diverge _ _ _ Hreg)].
    cbn [mbind outcome_bind].
    apply region_length in Hreg.
    unfold memcpy. destruct (decide _) as [Hfit|]; [|reflexivity].
    exfalso.
    assert (1 <= (buff_size bfp - (buff_size bfp - 8 * k)) / 8).
    { replace (buff_size bfp - (buff_size bfp - 8 * k)) with (k * 8) by lia.
      rewrite Z.div_mul by lia. lia. }
    lia.
  - destruct src as [|x src']; [congruence|].
    change (load (x :: src') 0) with (Ret x).
    cbn [mbind outcome_bind]. rewrite Hout. reflexivity.
Qed.

Lemma bit_write_after_short_flush_witness :
  exists bfp',
    bit_flush (Some small_full) = Ret (0, Some bfp')
    /\ w_start bfp' = 8 * 1
    /\ w_len bfp' = buff_size small_full - 8 * 1
    /\ bit_write (Some bfp') (Some (u32_bytes 261)) 9 0 = Fault.
Proof.
  apply (bit_write_after_short_flush small_full 1 [] (u32_bytes 261) 9);
    try reflexivity; try (cbn; lia).
  - vm_compute. split; reflexivity.
  - discriminate.
Defined.

(** X17: [bit_open] accepts a buffer size of 0, and the file it gives
    cannot be used: [bit_close] divides by the size of the buffer, and a
    [bit_write] of any number of bits stores outside the buffer. *)
Theorem bit_open_empty_buffer (f : descriptor) (src : list Z) (n : Z) :
  writable f = true -> 0 < n < 4294967296 -> src <> [] ->
  exists bfp,
    bit_open true f ACCESS_WRITE 0 = Some bfp
    /\ bit_close (Some bfp) = Fault
    /\ bit_write (Some bfp) (Some src) n 0 = Fault.
Proof.
  intros Hw Hn Hsrc.
  unfold bit_open. cbn [Z.eqb Pos.eqb ACCESS_WRITE ACCESS_READ negb andb].
  rewrite Hw. cbn [Z.eqb negb Z.modulo Z.div_eucl Z.ltb Z.compare].
  change (max_index <? 0) with false. cbn [Z.div Z.div_eucl Z.to_nat replicate].
  eexists. split; [reflexivity|]. split.
  - unfold bit_close, bit_flush_file.
    cbn [w_len w_start buff_size fd buff Z.modulo Z.div Z.div_eucl Z.eqb negb].
    cbn [bit_flush_loop Z.eqb mbind outcome_bind]. reflexivity.
  - unfold bit_write. cbn [Z.ltb Z.compare mode Z.eqb Pos.eqb negb].
    cbn [w_start w_len buff_size].
    change (u8 (Z.shiftl 1 0)) with 1. change (u32 (0 + 0)) with 0.
    change (u32 (0 - 0)) with 0.
    destruct (Z.to_nat n) as [|fuel] eqn:Hfuel; [lia|].
    cbn [bit_write_loop bw_n_bits].
    destruct (Z.eqb_spec n 0) as [|_]; [lia|].
    unfold bit_write_bits.
    cbn [bw_aligned bw_buff_free_bits bw_n_bits bw_pos bw_base bw_mask buff
         Z.ltb Z.compare andb].
    rewrite andb_false_r. cbn [andb].
    destruct src as [|x src']; [congruence|].
    change (load (x :: src') 0) with (Ret x).
    cbn [mbind outcome_bind]. reflexivity.
Qed.

Lemma bit_open_empty_buffer_witness :
  exists bfp,
    bit_open true (mk_descriptor false true [] []) ACCESS_WRITE 0 = Some bfp
    /\ bit_close (Some bfp) = Fault
    /\ bit_write (Some bfp) (Some (u32_bytes 261)) 9 0 = Fault.
Proof.
  apply (bit_open_empty_buffer (mk_descriptor false true [] [])
           (u32_bytes 261) 9).
  - reflexivity.
  - lia.
  - discriminate.
Defined.

(** ** The two entry points on files *)

Lemma B_SIZE_DEFAULT_fits :
  8 <= B_SIZE_DEFAULT <= max_index /\ B_SIZE_DEFAULT mod 8 = 0.
Proof. split; [split; discriminate|reflexivity]. Qed.

Lemma lz78_decompress_fd_willing (a : allocator) (o : lz78_d)
    (f : descriptor) :
  readable f = true -> willing f -> Forall is_byte (content f) ->
  lz78_decompress_fd true true a (Some (Decompressor o)) f
  = lz78_decompress_loop (S (length (bytes_bits (content f)))) a o
      (bytes_bits (content f)).
Proof.
  intros Hr Hw Hc.
  destruct B_SIZE_DEFAULT_fits as [Hsz H8].
  destruct (bit_open_read f B_SIZE_DEFAULT Hr Hw Hc Hsz H8)
    as (in_ & Hopen & Hinv & Hun & _).
  unfold lz78_decompress_fd. rewrite Hopen.
  rewrite (lz78_decompress_fd_loop_refines a _ o in_ Hinv), Hun.
  rewrite length_bytes_bits. reflexivity.
Qed.

Lemma lz78_compress_fd_steady (dsize : Z) (input : list Z)
    (outs : list (Z * Z)) (f : descriptor) :
  writable f = true -> steady f -> Forall is_byte (content f) ->
  Forall (fun c => 0 <= c < 256) input ->
  lz78_compress dsize input = (outs, Some (Ret LZ78_SUCCESS)) ->
  exists f' pad,
    lz78_compress_fd true (Some (Compressor (lz78_new_c dsize))) (Some input) f
    = Some (Ret (LZ78_SUCCESS, f'))
    /\ bytes_bits (content f')
       = bytes_bits (content f) ++ stream_bits outs ++ pad
    /\ (length pad < 8)%nat
    /\ Forall is_byte (content f').
Proof.
  intros Hw Hs Hc Hin Hrun.
  destruct B_SIZE_DEFAULT_fits as [Hsz H8].
  destruct (bit_open_write f B_SIZE_DEFAULT Hw Hs Hc Hsz H8)
    as (out & Hopen & Hinv & Hstream & _).
  unfold lz78_compress_fd. rewrite Hopen.
  pose proof (lz78_compress_fd_loop_refines (length input + 3)
                (lz78_new_c dsize) input out (c_fit_new dsize)
                (pair_fits_new dsize) Hin Hinv) as Href.
  unfold lz78_compress in Hrun. rewrite Hrun in Href.
  destruct Href as (_ & f' & pad & Hfd & Hbits & Hpad & Hfb).
  exists f', pad. rewrite Hfd, Hbits, Hstream. auto.
Qed.

(** X18: on a descriptor that delivers, [lz78_decompress] on a file
    does what the decompressor does on the bits of the file, bit 0 of
    the first byte first: same bytes written, same status. *)
Theorem lz78_decompress_fd_reads (a : allocator) (dsize : Z)
    (f : descriptor) :
  dictionary_ok a = true ->
  readable f = true -> willing f -> Forall is_byte (content f) ->
  lz78_decompress_fd true true a
    (lz78_new true a LZ78_MODE_DECOMPRESS dsize) f
  = lz78_decompress a (bytes_bits (content f)).
Proof.
  intros Ha Hr Hw Hc. unfold lz78_new.
  cbn [LZ78_MODE_DECOMPRESS LZ78_MODE_COMPRESS Z.eqb]. rewrite Ha.
  apply lz78_decompress_fd_willing; assumption.
Qed.

Lemma lz78_decompress_fd_reads_witness :
  lz78_decompress_fd true true (zeroed true true)
    (lz78_new true (zeroed true true) LZ78_MODE_DECOMPRESS 0)
    (mk_descriptor true false [2; 5] [Bytes 1])
  = lz78_decompress (zeroed true true)
      (bytes_bits (content (mk_descriptor true false [2; 5] [Bytes 1]))).
Proof.
  apply (lz78_decompress_fd_reads (zeroed true true) 0
           (mk_descriptor true false [2; 5] [Bytes 1])).
  - reflexivity.
  - reflexivity.
  - constructor; [exists 1; split; [reflexivity|lia]|constructor].
  - repeat (constructor; [unfold is_byte; cbn; lia|]); constructor.
Defined.

(** X19: on a descriptor that never refuses, when the compressor ends
    with [LZ78_SUCCESS], so does [lz78_compress] on files, and the file
    it leaves holds, after what it held, the bits of the codes written,
    each code on its width from bit 0 up, and fewer than 8 bits more. *)
Theorem lz78_compress_fd_writes (a : allocator) (dsize : Z) (input : list Z)
    (outs : list (Z * Z)) (f : descriptor) :
  ht_dictionary_ok a = true ->
  writable f = true -> steady f -> Forall is_byte (content f) ->
  Forall (fun c => 0 <= c < 256) input ->
  lz78_compress dsize input = (outs, Some (Ret LZ78_SUCCESS)) ->
  exists f' pad,
    lz78_compress_fd true (lz78_new true a LZ78_MODE_COMPRESS dsize)
      (Some input) f
    = Some (Ret (LZ78_SUCCESS, f'))
    /\ bytes_bits (content f')
       = bytes_bits (content f) ++ stream_bits outs ++ pad
    /\ (length pad < 8)%nat
    /\ Forall is_byte (content f').
Proof.
  intros Ha Hw Hs Hc Hin Hrun. unfold lz78_new.
  cbn [LZ78_MODE_COMPRESS Z.eqb]. rewrite Ha.
  apply lz78_compress_fd_steady; assumption.
Qed.

Lemma lz78_compress_fd_writes_witness :
  exists f' pad,
    lz78_compress_fd true
      (lz78_new true (zeroed true true) LZ78_MODE_COMPRESS 262)
      (Some [97; 98; 99]) (mk_descriptor false true [] [])
    = Some (Ret (LZ78_SUCCESS, f'))
    /\ bytes_bits (content f')
       = bytes_bits (content (mk_descriptor false true [] []))
         ++ stream_bits (fst (lz78_compress 262 [97; 98; 99])) ++ pad
    /\ (length pad < 8)%nat
    /\ Forall is_byte (content f').
Proof.
  apply (lz78_compress_fd_writes (zeroed true true) 262 [97; 98; 99]
           (fst (lz78_compress 262 [97; 98; 99]))
           (mk_descriptor false true [] [])).
  - reflexivity.
  - reflexivity.
  - constructor.
  - constructor.
  - repeat (constructor; [lia|]); constructor.
  - vm_compute. reflexivity.
Defined.

(** X20: round trip through a file.  For a dictionary size below
    [DICT_SIZE_MAX] and an input of fewer bytes than that size less 261,
    [lz78_compress] on a descriptor that never refuses returns
    [LZ78_SUCCESS], and [lz78_decompress] on any descriptor that delivers
    the bytes of the file written returns [LZ78_SUCCESS] after writing
    exactly the input. *)
Theorem round_trip_files (a : allocator) (dsize : Z) (input : list Z)
    (f_out : descriptor) :
  dictionary_ok a = true -> ht_dictionary_ok a = true -> clean a ->
  DICT_LIMIT (if dsize =? 0 then DICT_SIZE_DEFAULT else dsize)
    < DICT_SIZE_MAX ->
  Forall (fun c => 0 <= c < 256) input ->
  Z.of_nat (length input) + 261
    < DICT_LIMIT (if dsize =? 0 then DICT_SIZE_DEFAULT else dsize) ->
  writable f_out = true -> steady f_out -> content f_out = [] ->
  exists f',
    lz78_compress_fd true (lz78_new true a LZ78_MODE_COMPRESS dsize)
      (Some input) f_out
    = Some (Ret (LZ78_SUCCESS, f'))
    /\ forall f_in d,
         readable f_in = true -> willing f_in ->
         content f_in = content f' ->
         lz78_decompress_fd true true a
           (lz78_new true a LZ78_MODE_DECOMPRESS d) f_in
         = (input, Some (Ret LZ78_SUCCESS)).
Proof.
  intros Ha1 Ha2 Hcl HD Hinput Hshort Hw Hs Hc.
  destruct (lz78_compress_loop_run input (lz78_new_c dsize) (c_run_new dsize)
              Hinput (pending_not_end_new dsize))
    as (outs & st & Hloop & _ & Hroom).
  assert (Hst : st = Some (Ret LZ78_SUCCESS)).
  { apply Hroom. unfold c_room, lz78_new_c.
    cbn [c_main c_secondary set_cur_node ht_dictionary_new h_d_next h_d_size].
    rewrite DICT_LIMIT_id by apply DICT_LIMIT_range. lia. }
  subst st.
  destruct (lz78_compress_fd_steady dsize input outs f_out Hw Hs
              ltac:(rewrite Hc; constructor) Hinput Hloop)
    as (f' & pad & Hrun & Hbits & _ & Hfb).
  exists f'. split.
  { unfold lz78_new. cbn [LZ78_MODE_COMPRESS Z.eqb]. rewrite Ha2.
    exact Hrun. }
  intros f_in d Hr Hwil Hcin. unfold lz78_new.
  cbn [LZ78_MODE_DECOMPRESS LZ78_MODE_COMPRESS Z.eqb Pos.eqb]. rewrite Ha1.
  rewrite lz78_decompress_fd_willing
    by (try assumption; rewrite Hcin; exact Hfb).
  rewrite Hcin, Hbits, Hc. cbn [bytes_bits map concat app].
  destruct (round_trip_drivers a dsize input outs pad Ha1 Ha2 Hcl HD Hinput Hloop)
    as [_ H].
  exact (H Hshort).
Qed.

Lemma round_trip_files_witness :
  exists f',
    lz78_compress_fd true
      (lz78_new true (zeroed true true) LZ78_MODE_COMPRESS 0)
      (Some [97; 98; 99; 97; 98; 99]) (mk_descriptor false true [] [])
    = Some (Ret (LZ78_SUCCESS, f'))
    /\ forall f_in d,
         readable f_in = true -> willing f_in ->
         content f_in = content f' ->
         lz78_decompress_fd true true (zeroed true true)
           (lz78_new true (zeroed true true) LZ78_MODE_DECOMPRESS d)
           f_in
         = ([97; 98; 99; 97; 98; 99], Some (Ret LZ78_SUCCESS)).
Proof.
  apply (round_trip_files (zeroed true true) 0
           [97; 98; 99; 97; 98; 99] (mk_descriptor false true [] [])).
  - reflexivity.
  - reflexivity.
  - split; reflexivity.
  - reflexivity.
  - repeat (constructor; [lia|]); constructor.
  - reflexivity.
  - reflexivity.
  - constructor.
  - reflexivity.
Defined.

(** ** Writing on a descriptor that refuses *)

Lemma bw_shape_inv (bfp : bit_file) :
  bw_shape bfp -> bw_inv (set_fd bfp (mk_descriptor false true [] [])).
Proof.
  intros (Hmode & Hsz & Hsz8 & Hlen & Hbytes & Hst & Hwl).
  constructor; cbn [set_fd mode buff_size buff w_start w_len fd writable
                    content]; try assumption; try reflexivity; constructor.
Qed.

(** The two branches of the loop do not look at the descriptor. *)
Lemma bit_write_bits_fd (bfp : bit_file) (f : descriptor) (src : list Z)
    (l : bw_locals) :
  bit_write_bits (set_fd bfp f) src l
  = match bit_write_bits bfp src l with
    | Ret (b, l') => Ret (set_fd b f, l')
    | Fault => Fault
    | Diverge => Diverge
    end.
Proof.
  unfold bit_write_bits. cbn [set_fd buff w_start w_len].
  destruct (_ && _ && _).
  - destruct (region src _ _); [|reflexivity..]. cbn [mbind outcome_bind].
    destruct (memcpy _ _ _); reflexivity.
  - destruct (load src _); [|reflexivity..]. cbn [mbind outcome_bind].
    destruct (store _ _ _); reflexivity.
Qed.

(** While the buffer has room [bit_write] only fills it. *)
Lemma bit_write_loop_roomy (src : list Z) (fuel : nat) : forall bfp k n a,
  bw_shape bfp ->
  0 <= k -> 0 <= n ->
  k + n <= 8 * Z.of_nat (length src) -> k + n < 2147483648 ->
  w_len bfp + n < buff_size bfp ->
  (Z.to_nat n <= fuel)%nat ->
  exists b,
    bit_write_loop fuel bfp src (bw_at bfp k n a)
    = Ret (k + n, set_window (set_buff bfp b) 0 (w_len bfp + n))
    /\ Forall is_byte b /\ length b = length (buff bfp).
Proof.
  assert (Hend : forall fuel bfp k a,
            bw_shape bfp -> 0 <= k < 2147483648 ->
            exists b,
              bit_write_loop fuel bfp src (bw_at bfp k 0 a)
              = Ret (k + 0, set_window (set_buff bfp b) 0 (w_len bfp + 0))
              /\ Forall is_byte b /\ length b = length (buff bfp)).
  { intros f bfp k a (Hmode & Hsz & Hsz8 & Hlen & Hbytes & Hst & Hwl) Hk.
    exists (buff bfp).
    split; [|auto].
    destruct f; cbn [bit_write_loop bw_at bw_n_bits bw_ret Z.eqb];
      rewrite int_of_u32_small, !Z.add_0_r by lia;
      rewrite <- Hst; destruct bfp; reflexivity. }
  induction fuel as [|fuel IH];
    intros bfp k n a Hshape Hk Hn Hsrc Hmax Hroom Hfuel.
  { assert (n = 0) by lia. subst n. apply Hend; [assumption|lia]. }
  destruct (Z.eq_dec n 0) as [->|Hn0]; [apply Hend; [assumption|lia]|].
  pose proof Hshape as (Hmode & Hsz & Hsz8 & Hlen & Hbytes & Hst & Hwl).
  set (g := mk_descriptor false true [] []).
  assert (Hcond : bw_aligned (bw_at (set_fd bfp g) k n a)
                  && (7 <? bw_buff_free_bits (bw_at (set_fd bfp g) k n a))
                  && (bw_buff_free_bits (bw_at (set_fd bfp g) k n a)
                      <=? bw_n_bits (bw_at (set_fd bfp g) k n a)) = false).
  { cbn [bw_at bw_aligned bw_buff_free_bits bw_n_bits set_fd buff_size w_len].
    destruct (Z.leb_spec (buff_size bfp - w_len bfp) n); [lia|].
    apply andb_false_r. }
  destruct (bit_write_bits_one (set_fd bfp g) src k n a (bw_shape_inv bfp Hshape)
              Hk ltac:(lia) Hsrc Hmax Hcond)
    as (b & v & Hstep & _ & _ & Hbb & Hbl).
  pose proof (bit_write_bits_fd (set_fd bfp g) (fd bfp) src
                (bw_at (set_fd bfp g) k n a)) as Hfd.
  rewrite Hstep in Hfd.
  assert (Hsame : set_fd (set_fd bfp g) (fd bfp) = bfp)
    by (destruct bfp; reflexivity).
  rewrite Hsame in Hfd.
  change (bw_at (set_fd bfp g) k n a) with (bw_at bfp k n a) in Hfd.
  cbn [set_fd set_buff set_window buff w_len buff_size mode w_start fd]
    in Hfd, Hbl.
  set (bfp1 := set_window (set_buff bfp b) 0 (w_len bfp + 1)).
  destruct (IH bfp1 (k + 1) (n - 1)
              (if k mod 8 =? 7 then w_len bfp mod 8 =? 0 else a))
    as (b' & Hrun & Hbb' & Hbl'); try lia.
  { unfold bfp1, bw_shape.
    cbn [set_window set_buff mode buff_size buff w_start w_len].
    repeat split; try assumption; try lia. }
  { unfold bfp1. cbn [set_window w_len buff_size set_buff]. lia. }
  exists b'. cbn [bit_write_loop]. cbn [bw_at bw_n_bits].
  destruct (Z.eqb_spec n 0) as [|_]; [lia|].
  fold (bw_at bfp k n a). rewrite Hfd. cbn [mbind outcome_bind].
  cbn [set_window set_buff set_fd w_len buff_size].
  destruct (Z.eqb_spec (w_len bfp + 1) (buff_size bfp)) as [|_]; [lia|].
  change (bw_at (set_window (set_buff (set_fd bfp g) b) 0 (w_len bfp + 1))
            (k + 1) (n - 1)
            (if k mod 8 =? 7 then w_len bfp mod 8 =? 0 else a))
    with (bw_at bfp1 (k + 1) (n - 1)
            (if k mod 8 =? 7 then w_len bfp mod 8 =? 0 else a)).
  replace (set_fd (set_window (set_buff (set_fd bfp g) b) 0 (w_len bfp + 1))
             (fd bfp))
    with bfp1 by (unfold bfp1; clear; destruct bfp; reflexivity).
  rewrite Hrun. unfold bfp1 in Hbl' |- *.
  cbn [set_window set_buff set_fd w_len buff_size buff mode w_start fd]
    in Hbl' |- *.
  split; [|split; [exact Hbb'|congruence]].
  f_equal. f_equal; [lia|]. f_equal. lia.
Qed.

Lemma bit_write_roomy (bfp : bit_file) (src : list Z) (n : Z) :
  bw_shape bfp ->
  0 <= n <= 8 * Z.of_nat (length src) -> n < 2147483648 ->
  w_len bfp + n < buff_size bfp ->
  exists b,
    bit_write (Some bfp) (Some src) n 0
    = Ret (n, Some (set_window (set_buff bfp b) 0 (w_len bfp + n)))
    /\ bw_shape (set_window (set_buff bfp b) 0 (w_len bfp + n)).
Proof.
  intros Hshape Hn Hmax Hroom.
  pose proof Hshape as (Hmode & Hsz & Hsz8 & Hlen & Hbytes & Hst & Hwl).
  destruct (bit_write_loop_roomy src (Z.to_nat n) bfp 0 n
              ((1 =? 1) && (w_len bfp mod 8 =? 0)) Hshape)
    as (b & Hrun & Hbb & Hbl); try lia.
  exists b. split.
  - unfold bit_write.
    cbn [Z.ltb Z.compare]. rewrite Hmode, Z.eqb_refl. cbn [negb].
    change (u8 (Z.shiftl 1 0)) with 1.
    rewrite Hst, Z.add_0_l, !u32_small by lia.
    unfold bw_at in Hrun. change (0 / 8) with 0 in Hrun.
    change (2 ^ (0 mod 8)) with 1 in Hrun.
    rewrite Hrun. cbn [mbind outcome_bind]. rewrite Z.add_0_l. reflexivity.
  - unfold bw_shape.
    cbn [set_window set_buff mode buff_size buff w_start w_len].
    repeat split; try assumption; try lia.
Qed.

(** [bit_close] when the descriptor refuses the first write: the bytes
    of the buffer are lost, and the function returns 0. *)
Lemma bit_close_refused (bfp : bit_file) (r : reply) (rs : list reply) :
  bw_shape bfp -> writable (fd bfp) = true ->
  replies (fd bfp) = r :: rs -> r = Failed \/ r = Again ->
  0 < w_len bfp ->
  bit_close (Some bfp)
  = Ret (0, Some (next_call (fd bfp) (content (fd bfp)) rs)).
Proof.
  intros (Hmode & Hsz & Hsz8 & Hlen & Hbytes & Hst & Hwl) Hw Hrs Hr Hpos.
  assert (Hm : 0 <= w_len bfp mod 8 < 8) by (apply Z.mod_pos_bound; lia).
  pose proof (Z.div_mod (w_len bfp) 8 ltac:(lia)) as Hwd.
  pose proof (Z.div_mod (buff_size bfp) 8 ltac:(lia)) as Hbd.
  assert (Hwq : 0 <= w_len bfp / 8) by (apply Z.div_pos; lia).
  set (len := if w_len bfp mod 8 =? 0 then w_len bfp
              else 8 * (w_len bfp / 8) + 8).
  assert (Hlenb : 8 <= len <= buff_size bfp).
  { unfold len. destruct (Z.eqb_spec (w_len bfp mod 8) 0); lia. }
  set (b1 := set_window bfp (w_start bfp) len).
  assert (Hb1 : (if negb (w_len bfp mod 8 =? 0)
                 then set_window bfp (w_start bfp)
                        (u32 (w_len bfp + (8 - w_len bfp mod 8)))
                 else bfp) = b1).
  { unfold b1, len. destruct (Z.eqb_spec (w_len bfp mod 8) 0) as [E|E];
      cbn [negb].
    - destruct bfp; reflexivity.
    - rewrite u32_small by lia. f_equal. lia. }
  assert (Hq : 1 <= len / 8 <= buff_size bfp / 8).
  { split; [apply Z.div_le_lower_bound; lia|apply Z.div_le_mono; lia]. }
  unfold bit_close. rewrite Hb1. unfold bit_flush_file, b1.
  cbn [set_window fd buff w_start w_len buff_size].
  rewrite Hrs, Hst. change (0 / 8) with 0.
  cbn [length bit_flush_loop].
  destruct (Z.eqb_spec (len / 8) 0) as [|_]; [lia|].
  rewrite region_take_drop by lia. cbn [mbind outcome_bind].
  unfold sys_write. rewrite Hw, Hrs.
  destruct (Z.eqb_spec (buff_size bfp) 0) as [|_]; [lia|].
  destruct Hr as [-> | ->]; reflexivity.
Qed.

Lemma bit_open_shape (f : descriptor) (size : Z) :
  writable f = true -> 8 <= size <= max_index -> size mod 8 = 0 ->
  exists bfp,
    bit_open true f ACCESS_WRITE size = Some bfp
    /\ bw_shape bfp /\ fd bfp = f /\ w_len bfp = 0 /\ buff_size bfp = size.
Proof.
  intros Hw Hsz H8.
  assert (Hmax : max_index = 536870911) by reflexivity.
  unfold bit_open. cbn [Z.eqb Pos.eqb ACCESS_WRITE ACCESS_READ negb andb].
  rewrite Hw. cbn [Z.eqb negb]. rewrite H8. cbn [Z.eqb negb].
  destruct (Z.ltb_spec max_index size) as [|_]; [lia|].
  eexists. split; [reflexivity|].
  split; [|auto].
  unfold bw_shape. cbn [mode buff_size w_start w_len buff fd].
  repeat split; try reflexivity; try lia.
  - rewrite length_replicate. rewrite Z2Nat.id; [reflexivity|].
    apply Z.div_pos; lia.
  - apply Forall_replicate_byte.
Qed.

(** The loop of [lz78_compress] while the buffer of the file has room
    for 21 bits a round: the descriptor is used once, by [bit_close],
    and its refusal goes unnoticed. *)
Lemma lz78_compress_fd_loop_refused (r : reply) (rs : list reply)
    (fuel : nat) : forall o input out,
  r = Failed \/ r = Again ->
  c_fit o -> Forall pair_fits (pending o) ->
  Forall (fun c => 0 <= c < 256) input ->
  bw_shape out -> writable (fd out) = true -> replies (fd out) = r :: rs ->
  w_len out + 21 * Z.of_nat fuel < buff_size out ->
  0 < w_len out \/ 0 < c_n_bits o ->
  match lz78_compress_loop fuel o input with
  | (_, Some (Ret st)) =>
      st = LZ78_SUCCESS
      /\ lz78_compress_fd_loop fuel o input out
         = Some (Ret (LZ78_SUCCESS,
                      next_call (fd out) (content (fd out)) rs))
  | (_, Some Fault) => lz78_compress_fd_loop fuel o input out = Some Fault
  | (_, Some Diverge) => lz78_compress_fd_loop fuel o input out = Some Diverge
  | (_, None) => lz78_compress_fd_loop fuel o input out = None
  end.
Proof.
  intros o input out Hr. revert o input out.
  induction fuel as [|fuel IH];
    intros o input out Hfit Hp Hin Hshape Hw Hrs Hroom Hsome;
    [reflexivity|].
  rewrite lz78_compress_loop_S. cbn zeta.
  cbn [lz78_compress_fd_loop].
  assert (Hwr : exists out1,
            write_pending o out = Ret (None, written o, out1)
            /\ bw_shape out1 /\ fd out1 = fd out
            /\ buff_size out1 = buff_size out
            /\ w_len out <= w_len out1 <= w_len out + 21
            /\ 0 < w_len out1).
  { unfold write_pending.
    pose proof Hshape as (_ & _ & _ & _ & _ & _ & Hwl).
    destruct (Z.ltb_spec 0 (c_n_bits o)) as [Hn|Hn].
    - destruct (pending_fits o Hp Hn) as (Hpend & Hb & Hwd).
      destruct (bit_write_roomy out (u32_bytes (c_bitbuf o)) (c_n_bits o)
                  Hshape)
        as (b & Hrun & Hshape1); [cbn [length u32_bytes]; lia|lia|lia|].
      eexists. rewrite Hrun. cbn [mbind outcome_bind from_option id].
      destruct (Z.eqb_spec (c_n_bits o) (-1)) as [|_]; [lia|].
      rewrite (written_emit o Hn Hb).
      pose proof (written_bits o) as Hwb.
      destruct (Z.ltb_spec 0 (c_n_bits (written o))) as [|_]; [lia|].
      split; [reflexivity|]. split; [exact Hshape1|].
      cbn [set_window set_buff fd buff_size w_len]. repeat split; lia.
    - exists out.
      assert (Hpe : pending o = []).
      { unfold pending. destruct (Z.ltb_spec 0 (c_n_bits o)); [lia|].
        reflexivity. }
      rewrite (pending_nil_written o Hpe).
      split; [reflexivity|]. split; [exact Hshape|]. repeat split; lia. }
  destruct Hwr as (out1 & -> & Hshape1 & Hfd1 & Hbs1 & Hwl1 & Hpos1).
  destruct (fgetc input) as [c_in rest] eqn:Hget.
  destruct (fgetc_input _ _ _ Hin Hget) as [Hc Hrest].
  destruct (compress_byte (written o) c_in) as [o'| |] eqn:Hstep;
    [|reflexivity|reflexivity].
  destruct (compress_byte_fit _ _ _ (c_fit_written _ Hfit) (written_bits o)
              Hc Hstep) as [Hfit' Hp'].
  destruct (c_completed o' =? 1).
  - split; [reflexivity|].
    rewrite (bit_close_refused out1 r rs Hshape1) by
      (rewrite ?Hfd1; assumption).
    cbn [from_option id]. rewrite Hfd1. reflexivity.
  - specialize (IH o' rest out1 Hfit' Hp' Hrest Hshape1).
    rewrite Hfd1 in IH.
    specialize (IH Hw Hrs ltac:(lia) ltac:(left; exact Hpos1)).
    destruct (lz78_compress_loop fuel o' rest) as [outs [[st| |]|]];
      exact IH.
Qed.

(** X21: when the descriptor refuses the first write, by an error or by
    [EAGAIN], [lz78_compress] on an input of at most 49929 bytes that
    the compressor takes still returns [LZ78_SUCCESS], and the file is
    left as it was: the one call of [write] is the one of [bit_close],
    which drops what [bit_flush] returns. *)
Theorem lz78_compress_fd_hides_refusal (a : allocator) (dsize : Z)
    (input : list Z) (f : descriptor) (r : reply) (rs : list reply) :
  ht_dictionary_ok a = true ->
  writable f = true -> replies f = r :: rs -> r = Failed \/ r = Again ->
  Forall (fun c => 0 <= c < 256) input ->
  Z.of_nat (length input) <= 49929 ->
  snd (lz78_compress dsize input) = Some (Ret LZ78_SUCCESS) ->
  lz78_compress_fd true (lz78_new true a LZ78_MODE_COMPRESS dsize)
    (Some input) f
  = Some (Ret (LZ78_SUCCESS, next_call f (content f) rs)).
Proof.
  intros Ha Hw Hrs Hr Hin Hlen Hrun. unfold lz78_new.
  cbn [LZ78_MODE_COMPRESS Z.eqb]. rewrite Ha.
  destruct B_SIZE_DEFAULT_fits as [Hsz H8].
  destruct (bit_open_shape f B_SIZE_DEFAULT Hw Hsz H8)
    as (out & Hopen & Hshape & Hfd & Hwl & Hbs).
  unfold lz78_compress_fd. rewrite Hopen.
  pose proof (lz78_compress_fd_loop_refused r rs (length input + 3)
                (lz78_new_c dsize) input out Hr (c_fit_new dsize)
                (pair_fits_new dsize) Hin Hshape) as Href.
  rewrite Hfd in Href. specialize (Href Hw Hrs).
  unfold lz78_compress in Hrun.
  destruct (lz78_compress_loop (length input + 3) (lz78_new_c dsize) input)
    as [outs st].
  cbn [snd] in Hrun. subst st.
  apply Href.
  - rewrite Hwl, Hbs. unfold B_SIZE_DEFAULT. lia.
  - right. unfold lz78_new_c. cbn [c_n_bits]. reflexivity.
Qed.

Lemma lz78_compress_fd_hides_refusal_witness :
  lz78_compress_fd true
    (lz78_new true (zeroed true true) LZ78_MODE_COMPRESS 0)
    (Some [97; 98; 99]) (mk_descriptor false true [7] [Failed])
  = Some (Ret (LZ78_SUCCESS,
               next_call (mk_descriptor false true [7] [Failed])
                 (content (mk_descriptor false true [7] [Failed])) [])).
Proof.
  apply (lz78_compress_fd_hides_refusal (zeroed true true) 0
           [97; 98; 99] (mk_descriptor false true [7] [Failed]) Failed []).
  - reflexivity.
  - reflexivity.
  - reflexivity.
  - left. reflexivity.
  - repeat (constructor; [lia|]); constructor.
  - cbn [length]. lia.
  - vm_compute. reflexivity.
Defined.

(** ** A stream cut short *)

Lemma pending_width o code bits tl :
  pending o = (code, bits) :: tl -> 0 < bits.
Proof.
  unfold pending. destruct (Z.ltb_spec 0 (c_n_bits o)); [|discriminate].
  intros [= _ <- _]. assumption.
Qed.

(** After the end marker the compressor writes nothing more. *)
Lemma lz78_compress_loop_stop fuel o input :
  cur_node (c_main o) = DICT_CODE_STOP ->
  lz78_compress_loop (S fuel) (written o) input
  = ([], Some (Ret LZ78_SUCCESS)).
Proof.
  intros H. rewrite lz78_compress_loop_S. cbn zeta.
  rewrite written_written, pending_written.
  destruct (fgetc input) as [c_in rest].
  unfold compress_byte. rewrite c_main_written, H.
  reflexivity.
Qed.

(** A round of the decompressor that finds fewer bits than the width. *)
Lemma lz78_decompress_loop_short fuel a d0 m pre p :
  d_main d0 = Some m -> ready m = Ret pre ->
  (length p < Z.to_nat (bitlen (d_next m)))%nat ->
  lz78_decompress_loop (S fuel) a d0 p
  = (pre, Some (Ret LZ78_ERROR_EAGAIN)).
Proof.
  intros Hm Hready Hshort. unfold ready in Hready.
  cbn [lz78_decompress_loop]. rewrite Hm, Hready.
  destruct (decide _) as [_|Hn]; [reflexivity|contradiction].
Qed.

Lemma lz78_decompress_loop_truncated a D : forall fuel o input d txt out,
  dictionary_ok a = true -> ht_dictionary_ok a = true -> clean a ->
  DICT_SIZE_MIN + 1 <= D < DICT_SIZE_MAX ->
  Forall (fun c => 0 <= c < 256) input ->
  in_text D o d txt input -> c_n_bits o <= 0 ->
  lz78_compress_loop fuel o input = (out, Some (Ret LZ78_SUCCESS)) ->
  cur_node (c_main o) = DICT_CODE_EOF
  \/ h_d_next (c_main o) + Z.of_nat (length input) + 1
     < h_d_size (c_main o) ->
  forall fuel_d d0 n, same_dicts d0 d ->
    (n < fuel_d)%nat -> (n < length (stream_bits out))%nat ->
    exists bytes rest,
      lz78_decompress_loop fuel_d a d0 (take n (stream_bits out))
      = (bytes, Some (Ret LZ78_ERROR_EAGAIN))
      /\ txt ++ input = bytes ++ rest.
Proof.
  induction fuel as [|fuel IH];
    intros o input d txt out Ha1 Ha2 Hcl HD Hinput Htext Hbits Hloop Htight
           fuel_d d0 n Hsame Hfuel Hn; [discriminate|].
  rewrite lz78_compress_loop_S in Hloop. cbn zeta in Hloop.
  assert (Hp : pending o = []).
  { unfold pending. destruct (Z.ltb_spec 0 (c_n_bits o)); [lia|reflexivity]. }
  rewrite (pending_nil_written o Hp), Hp in Hloop.
  destruct (fgetc input) as [c_in rest] eqn:Hget.
  assert (Hcases : (input = c_in :: rest /\ 0 <= c_in < 256)
                   \/ (input = [] /\ c_in = EOF /\ rest = [])).
  { destruct input as [|c tl]; cbn in Hget; injection Hget as <- <-.
    - right. auto.
    - left. inversion Hinput; subst. auto. }
  destruct (fgetc_input _ _ _ Hinput Hget) as [Hc Hrest].
  destruct (compress_byte o c_in) as [o'| |] eqn:Hstep; try discriminate.
  destruct (compress_byte_text a D o d txt input c_in rest o' Ha1 Ha2 Hcl HD
              Htext Hbits Hcases Hstep) as (Hcdone' & Hsz' & Hnext' & Hts).
  destruct (compress_byte_text_end D o d txt input c_in o' Htext Hbits Hc Hstep)
    as [Hend1 Hend2].
  rewrite Hcdone' in Hloop. change (0 =? 1) with false in Hloop.
  cbn iota in Hloop.
  destruct fuel as [|fuel]; [discriminate|].
  rewrite lz78_compress_loop_written in Hloop.
  remember (lz78_compress_loop (S fuel) (written o') rest) as X eqn:HX.
  destruct X as [outX stX]. cbn [fst snd app] in Hloop.
  injection Hloop as <- ->. symmetry in HX.
  assert (Htxt : (txt ++ take 1 input) ++ rest = txt ++ input).
  { rewrite <- app_assoc. f_equal.
    destruct Hcases as [(-> & _)|(-> & _ & ->)]; reflexivity. }
  unfold text_step in Hts.
  destruct (pending o') as [|[code bits] tl] eqn:Hp'.
  - (* nothing was written *)
    cbn [app] in Hn |- *. rewrite <- Htxt.
    pose proof (pending_nil_written o' Hp') as Hw.
    rewrite Hw in HX.
    pose proof (written_bits o') as Hb'. rewrite Hw in Hb'.
    apply (IH o' rest d (txt ++ take 1 input) outX Ha1 Ha2 Hcl HD Hrest Hts Hb'
             HX); try assumption.
    destruct Htight as [Hcur|Htight].
    + destruct (Hend1 Hcur) as (b & Hb). discriminate Hb.
    + destruct Hcases as [(-> & _)|(_ & -> & ->)].
      * right. cbn [length] in Htight. lia.
      * left. apply Hend2; [reflexivity|].
        intros Hcur. destruct (Hend1 Hcur) as (b & Hb).
        discriminate Hb.
  - (* a pair was written *)
    pose proof (pending_width _ _ _ _ Hp') as Hpos.
    pose proof (pending_cons _ _ _ Hp') as ->.
    destruct Hts as (Hfit & Hnn & m & pre & Hm & Hw & Hready & Hdec).
    cbn [app] in Hn |- *. rewrite stream_bits_cons in Hn |- *.
    rewrite length_app, length_bits_of in Hn.
    destruct Hsame as (Hs1 & Hs2 & Hs3).
    assert (Hm0 : d_main d0 = Some m) by congruence.
    set (d0' := {| d_completed := d_completed d0; d_main := d_main d0;
                   d_secondary := d_secondary d0;
                   d_bitbuf := code; d_n_bits := bits |}).
    assert (Hsame' : same_dicts d0' d) by (repeat split; assumption).
    destruct (Hdec d0' Hsame') as [Hprog Hres].
    assert (Hmw : c_main (written o') = c_main o') by apply c_main_written.
    assert (Hret : exists r d1, decompress_code a d0' code = Ret (r, d1)).
    { destruct Htight as [Hcur|Htight].
      - destruct (Hend1 Hcur) as (b & Hb).
        injection Hb as -> _. unfold decompress_code.
        change (DICT_CODE_EOF =? DICT_CODE_EOF) with true. cbn iota. eauto.
      - apply Hprog. lia. }
    destruct Hret as (r & d1 & Hret).
    destruct (Hres r d1 Hret) as [Herr Hafter].
    destruct fuel_d as [|fd]; [lia|].
    destruct (decide (n < Z.to_nat bits)%nat) as [Hshort|Hlong].
    + exists pre.
      rewrite (lz78_decompress_loop_short fd a d0 m pre _ Hm0 Hready)
        by (rewrite length_take, <- Hw, length_app, length_bits_of; lia).
      destruct (code =? DICT_CODE_EOF).
      * destruct Hafter as (_ & Hpre & -> & _). exists [].
        split; [reflexivity|].
        rewrite <- Htxt, Hpre, !app_nil_r. reflexivity.
      * destruct Hafter as (txt1 & Htxt1 & _). exists (txt1 ++ rest).
        split; [reflexivity|].
        rewrite <- Htxt, Htxt1, <- app_assoc. reflexivity.
    + rewrite take_app_ge by (rewrite length_bits_of; lia).
      rewrite length_bits_of.
      rewrite (lz78_decompress_loop_pair fd a d0 m pre code bits _ Hm0 Hready
                 Hw Hnn Hfit).
      fold d0'. rewrite Hret, Herr.
      destruct (Z.eqb_spec code DICT_CODE_EOF) as [Hcode|Hcode].
      * destruct Hafter as (_ & _ & _ & Hstop).
        rewrite (lz78_compress_loop_stop fuel o' rest Hstop) in HX.
        injection HX as <-. exfalso. cbn in Hn. lia.
      * destruct Hafter as (txt1 & Htxt1 & Htext1).
        pose proof Htext1 as (_ & Hdone1 & _). rewrite Hdone1.
        change (0 =? 1) with false. cbn iota.
        assert (Htight' : cur_node (c_main (written o')) = DICT_CODE_EOF
                          \/ h_d_next (c_main (written o'))
                             + Z.of_nat (length rest) + 1
                             < h_d_size (c_main (written o'))).
        { rewrite Hmw.
          assert (Hno : cur_node (c_main o) <> DICT_CODE_EOF).
          { intros Hcur. destruct (Hend1 Hcur) as (b & Hb).
            injection Hb as Hb _. contradiction. }
          destruct Htight as [Hcur|Htight]; [contradiction|].
          destruct Hcases as [(-> & _)|(_ & -> & ->)].
          - right. cbn [length] in Htight. lia.
          - left. apply Hend2; [reflexivity|exact Hno]. }
        destruct (IH (written o') rest d1 txt1 outX Ha1 Ha2 Hcl HD Hrest
                    Htext1 (written_bits o') HX Htight' fd d1
                    (n - Z.to_nat bits)%nat (same_dicts_refl d1))
          as (bytes & rest' & Hrun & Heq); [lia|lia|].
        rewrite Hrun. cbn [fst snd]. exists (pre ++ bytes), rest'.
        split; [reflexivity|].
        rewrite <- Htxt, Htxt1, <- !app_assoc. f_equal. exact Heq.
Qed.

(** [lz78_compress] and then [lz78_decompress] on the first [n] bits of
    its stream. *)
Lemma truncated_drivers a dsize input out n :
  dictionary_ok a = true -> ht_dictionary_ok a = true -> clean a ->
  DICT_LIMIT (if dsize =? 0 then DICT_SIZE_DEFAULT else dsize)
    < DICT_SIZE_MAX ->
  Forall (fun c => 0 <= c < 256) input ->
  Z.of_nat (length input) + 261
    < DICT_LIMIT (if dsize =? 0 then DICT_SIZE_DEFAULT else dsize) ->
  lz78_compress dsize input = (out, Some (Ret LZ78_SUCCESS)) ->
  (n < length (stream_bits out))%nat ->
  exists bytes rest,
    lz78_decompress a (take n (stream_bits out))
    = (bytes, Some (Ret LZ78_ERROR_EAGAIN))
    /\ input = bytes ++ rest.
Proof.
  intros Ha1 Ha2 Hcl HD Hinput Hshort Hc Hn.
  set (D := DICT_LIMIT (if dsize =? 0 then DICT_SIZE_DEFAULT else dsize)) in *.
  pose proof (DICT_LIMIT_range
                (if dsize =? 0 then DICT_SIZE_DEFAULT else dsize)) as Hr.
  fold D in Hr.
  unfold lz78_compress in Hc.
  replace (length input + 3)%nat with (S (length input + 2)) in Hc by lia.
  rewrite lz78_compress_loop_written in Hc.
  remember (lz78_compress_loop (S (length input + 2))
              (written (lz78_new_c dsize)) input) as X eqn:HX.
  destruct X as [outX stX]. cbn [fst snd] in Hc.
  assert (Hp : pending (lz78_new_c dsize) = [(DICT_CODE_START, 9)])
    by reflexivity.
  rewrite Hp in Hc. cbn [app] in Hc. injection Hc as <- ->. symmetry in HX.
  rewrite stream_bits_cons in Hn |- *.
  rewrite length_app, length_bits_of in Hn.
  change (Z.to_nat 9) with 9%nat in Hn.
  unfold lz78_decompress. rewrite length_take.
  rewrite length_app, length_bits_of. change (Z.to_nat 9) with 9%nat.
  rewrite Nat.min_l by lia.
  destruct (decide (n < 9)%nat) as [Hlt|Hge].
  - exists [], input.
    rewrite (lz78_decompress_loop_short n a (lz78_new_d a)
               (dictionary_new a DICT_SIZE_MIN) [] _ eq_refl
               (ready_new a _ Hcl))
      by (rewrite length_take, length_app, length_bits_of;
          change (Z.to_nat (bitlen (d_next (dictionary_new a DICT_SIZE_MIN))))
            with 9%nat; change (Z.to_nat 9) with 9%nat; lia).
    split; reflexivity.
  - rewrite take_app_ge
      by (rewrite length_bits_of; change (Z.to_nat 9) with 9%nat; lia).
    rewrite length_bits_of. change (Z.to_nat 9) with 9%nat.
    rewrite (lz78_decompress_loop_pair _ a (lz78_new_d a)
               (dictionary_new a DICT_SIZE_MIN) [] DICT_CODE_START 9 _
               eq_refl (ready_new a _ Hcl) eq_refl ltac:(lia)
               ltac:(unfold DICT_CODE_START; lia)).
    set (d1 := {| d_completed := 0;
                  d_main := Some (set_d_next (dictionary_new a DICT_SIZE_MIN)
                                             DICT_SIZE_MAX);
                  d_secondary := Null; d_bitbuf := 0; d_n_bits := 0 |}).
    assert (Hdec : decompress_code a
              {| d_completed := d_completed (lz78_new_d a);
                 d_main := d_main (lz78_new_d a);
                 d_secondary := d_secondary (lz78_new_d a);
                 d_bitbuf := DICT_CODE_START; d_n_bits := 9 |} DICT_CODE_START
            = Ret (0, {| d_completed := 0;
                         d_main := Some (set_d_next
                                           (dictionary_new a DICT_SIZE_MIN)
                                           DICT_SIZE_MAX);
                         d_secondary := Null;
                         d_bitbuf := DICT_CODE_START; d_n_bits := 0 |})).
    { destruct Hcl as [_ Hsec]. unfold lz78_new_d.
      cbn [d_completed d_main d_secondary]. rewrite Hsec. reflexivity. }
    rewrite Hdec. cbn [lz78_error d_completed].
    change (lz78_error 0) with (@None Z). cbn iota.
    change (0 =? 1) with false. cbn iota.
    assert (Htext : in_text D (written (lz78_new_c dsize)) d1 [] input).
    { split; [unfold written; destruct (0 <? _); reflexivity|].
      split; [reflexivity|]. left.
      rewrite c_main_written, c_secondary_written.
      split; [reflexivity|]. split; [reflexivity|]. split; [reflexivity|].
      split; [discriminate|].
      eexists. split; [reflexivity|]. split; [reflexivity|].
      exact (ready_new a _ Hcl). }
    set (d1' := {| d_completed := 0; d_main := _; d_secondary := Null;
                   d_bitbuf := DICT_CODE_START; d_n_bits := 0 |}).
    assert (Hsame : same_dicts d1' d1) by (repeat split).
    destruct (lz78_decompress_loop_truncated a D _ _ input d1 [] outX Ha1 Ha2
                Hcl ltac:(lia) Hinput Htext (written_bits _) HX) with
      (fuel_d := n) (d0 := d1') (n := (n - 9)%nat)
      as (bytes & rest & Hrun & Heq); [|exact Hsame|lia|lia|].
    { right. rewrite c_main_written. unfold lz78_new_c.
      cbn [c_main set_cur_node ht_dictionary_new h_d_next h_d_size].
      fold D. rewrite DICT_LIMIT_id by lia. unfold DICT_SIZE_MIN. lia. }
    rewrite Hrun. cbn [fst snd app]. exists bytes, rest.
    split; [reflexivity|exact Heq].
Qed.

(** X22: a compressed stream cut short.  For a dictionary size below
    [DICT_SIZE_MAX] and an input of fewer bytes than that size less 261,
    [lz78_decompress] on the first [n] bits of the stream that
    [lz78_compress] has written, [n] less than its length, returns
    [LZ78_ERROR_EAGAIN], and what it has written by then is the beginning
    of the input.  It takes no cut stream for a whole one. *)
Theorem lz78_decompress_cut_stream (a : allocator) (dsize : Z)
    (input : list Z) (out : list (Z * Z)) (n : nat) :
  dictionary_ok a = true -> ht_dictionary_ok a = true -> clean a ->
  DICT_LIMIT (if dsize =? 0 then DICT_SIZE_DEFAULT else dsize)
    < DICT_SIZE_MAX ->
  Forall (fun c => 0 <= c < 256) input ->
  Z.of_nat (length input) + 261
    < DICT_LIMIT (if dsize =? 0 then DICT_SIZE_DEFAULT else dsize) ->
  lz78_compress dsize input = (out, Some (Ret LZ78_SUCCESS)) ->
  (n < length (stream_bits out))%nat ->
  exists bytes rest,
    lz78_decompress a (take n (stream_bits out))
    = (bytes, Some (Ret LZ78_ERROR_EAGAIN))
    /\ input = bytes ++ rest.
Proof. exact (truncated_drivers a dsize input out n). Qed.

Lemma lz78_decompress_cut_stream_witness :
  exists bytes rest,
    lz78_decompress (zeroed true true)
      (take 40 (stream_bits (fst (lz78_compress 0 [97; 98; 99; 97; 98; 99]))))
    = (bytes, Some (Ret LZ78_ERROR_EAGAIN))
    /\ [97; 98; 99; 97; 98; 99] = bytes ++ rest.
Proof.
  apply (lz78_decompress_cut_stream (zeroed true true) 0
           [97; 98; 99; 97; 98; 99]
           (fst (lz78_compress 0 [97; 98; 99; 97; 98; 99])) 40).
  - reflexivity.
  - reflexivity.
  - split; reflexivity.
  - reflexivity.
  - repeat (constructor; [lia|]); constructor.
  - reflexivity.
  - vm_compute. reflexivity.
  - vm_compute. lia.
Defined.

(** X23: a compressed file cut short.  Under the conditions of the round
    trip, [lz78_decompress] on a file that holds only the first [k] bytes
    of the file that [lz78_compress] has written, [k] less than its
    length, returns [LZ78_ERROR_EAGAIN] after writing the beginning of
    the input: the bits that fill the last byte are fewer than 8, so a
    missing byte is a missing part of the last code. *)
Theorem cut_file (a : allocator) (dsize : Z) (input : list Z)
    (f_out : descriptor) :
  dictionary_ok a = true -> ht_dictionary_ok a = true -> clean a ->
  DICT_LIMIT (if dsize =? 0 then DICT_SIZE_DEFAULT else dsize)
    < DICT_SIZE_MAX ->
  Forall (fun c => 0 <= c < 256) input ->
  Z.of_nat (length input) + 261
    < DICT_LIMIT (if dsize =? 0 then DICT_SIZE_DEFAULT else dsize) ->
  writable f_out = true -> steady f_out -> content f_out = [] ->
  exists f',
    lz78_compress_fd true (lz78_new true a LZ78_MODE_COMPRESS dsize)
      (Some input) f_out
    = Some (Ret (LZ78_SUCCESS, f'))
    /\ forall f_in d (k : nat),
         readable f_in = true -> willing f_in ->
         (k < length (content f'))%nat ->
         content f_in = take k (content f') ->
         exists bytes rest,
           lz78_decompress_fd true true a
             (lz78_new true a LZ78_MODE_DECOMPRESS d) f_in
           = (bytes, Some (Ret LZ78_ERROR_EAGAIN))
           /\ input = bytes ++ rest.
Proof.
  intros Ha1 Ha2 Hcl HD Hinput Hshort Hw Hs Hc.
  destruct (lz78_compress_loop_run input (lz78_new_c dsize) (c_run_new dsize)
              Hinput (pending_not_end_new dsize))
    as (outs & st & Hloop & _ & Hroom).
  assert (Hst : st = Some (Ret LZ78_SUCCESS)).
  { apply Hroom. unfold c_room, lz78_new_c.
    cbn [c_main c_secondary set_cur_node ht_dictionary_new h_d_next h_d_size].
    rewrite DICT_LIMIT_id by apply DICT_LIMIT_range. lia. }
  subst st.
  destruct (lz78_compress_fd_steady dsize input outs f_out Hw Hs
              ltac:(rewrite Hc; constructor) Hinput Hloop)
    as (f' & pad & Hrun & Hbits & Hpad & Hfb).
  exists f'. split.
  { unfold lz78_new. cbn [LZ78_MODE_COMPRESS Z.eqb]. rewrite Ha2.
    exact Hrun. }
  intros f_in d k Hr Hwil Hk Hcin. unfold lz78_new.
  cbn [LZ78_MODE_DECOMPRESS LZ78_MODE_COMPRESS Z.eqb Pos.eqb]. rewrite Ha1.
  rewrite lz78_decompress_fd_willing
    by (try assumption; rewrite Hcin; apply Forall_take; exact Hfb).
  rewrite Hc in Hbits. cbn [bytes_bits map concat app] in Hbits.
  pose proof (length_bytes_bits (content f')) as Hlen.
  rewrite Hbits, length_app in Hlen.
  rewrite Hcin, bytes_bits_take, Hbits.
  rewrite take_app_le by lia.
  apply (truncated_drivers a dsize input outs (8 * k) Ha1 Ha2 Hcl HD Hinput
           Hshort Hloop).
  lia.
Qed.

Lemma cut_file_witness :
  exists f',
    lz78_compress_fd true
      (lz78_new true (zeroed true true) LZ78_MODE_COMPRESS 0)
      (Some [97; 98; 99; 97; 98; 99]) (mk_descriptor false true [] [])
    = Some (Ret (LZ78_SUCCESS, f'))
    /\ forall f_in d (k : nat),
         readable f_in = true -> willing f_in ->
         (k < length (content f'))%nat ->
         content f_in = take k (content f') ->
         exists bytes rest,
           lz78_decompress_fd true true (zeroed true true)
             (lz78_new true (zeroed true true) LZ78_MODE_DECOMPRESS d)
             f_in
           = (bytes, Some (Ret LZ78_ERROR_EAGAIN))
           /\ [97; 98; 99; 97; 98; 99] = bytes ++ rest.
Proof.
  apply (cut_file (zeroed true true) 0
           [97; 98; 99; 97; 98; 99] (mk_descriptor false true [] [])).
  - reflexivity.
  - reflexivity.
  - split; reflexivity.
  - reflexivity.
  - repeat (constructor; [lia|]); constructor.
  - reflexivity.
  - reflexivity.
  - constructor.
  - reflexivity.
Defined.

(** ** What the heap held *)

Lemma ready_unset a D :
  u32 (stale_n_bytes a) = 0 -> ready (dictionary_new a D) = Ret [].
Proof.
  intros Hn. unfold ready. cbn [dictionary_new n_bytes].
  rewrite Hn. reflexivity.
Qed.

(** X24: [lz78_new] never sets the [secondary] pointer, and the size
    ingestion of [decompress_code] hands it to [free].  Where the heap
    held another value than [NULL] there (and 0 in [n_bytes], so that
    nothing is written first), every stream that begins as the streams of
    the compressor do, with the start marker and a size, brings
    [lz78_decompress] to free a pointer that no allocation returned. *)
Theorem lz78_decompress_frees_unset (a : allocator) (size : Z)
    (rest : list bool) :
  dictionary_ok a = true ->
  stale_secondary a = true -> u32 (stale_n_bytes a) = 0 ->
  0 <= size < 2 ^ 21 ->
  size <> DICT_CODE_EOF -> size <> DICT_CODE_START ->
  size <> DICT_CODE_SIZE ->
  lz78_decompress a
    (bits_of DICT_CODE_START 9 ++ bits_of size 21 ++ rest)
  = ([], Some Fault).
Proof.
  intros Ha Hs Hn Hsize H1 H2 H3. unfold lz78_decompress.
  rewrite (lz78_decompress_loop_pair _ a (lz78_new_d a)
             (dictionary_new a DICT_SIZE_MIN) [] DICT_CODE_START 9 _
             eq_refl (ready_unset a _ Hn) eq_refl ltac:(lia)
             ltac:(unfold DICT_CODE_START; lia)).
  assert (Hdec : decompress_code a
            {| d_completed := d_completed (lz78_new_d a);
               d_main := d_main (lz78_new_d a);
               d_secondary := d_secondary (lz78_new_d a);
               d_bitbuf := DICT_CODE_START; d_n_bits := 9 |} DICT_CODE_START
          = Ret (0, {| d_completed := 0;
                       d_main := Some (set_d_next
                                         (dictionary_new a DICT_SIZE_MIN)
                                         DICT_SIZE_MAX);
                       d_secondary := Wild;
                       d_bitbuf := DICT_CODE_START; d_n_bits := 0 |})).
  { unfold lz78_new_d. cbn [d_completed d_main d_secondary].
    rewrite Hs. reflexivity. }
  rewrite Hdec. cbn [lz78_error d_completed].
  change (lz78_error 0) with (@None Z). cbn iota.
  change (0 =? 1) with false. cbn iota.
  rewrite !length_app, !length_bits_of.
  change (Z.to_nat 9 + (Z.to_nat 21 + length rest))%nat
    with (S (29 + length rest)).
  rewrite (lz78_decompress_loop_pair _ a
             {| d_completed := 0;
                d_main := Some (set_d_next (dictionary_new a DICT_SIZE_MIN)
                                           DICT_SIZE_MAX);
                d_secondary := Wild;
                d_bitbuf := DICT_CODE_START; d_n_bits := 0 |}
             (set_d_next (dictionary_new a DICT_SIZE_MIN) DICT_SIZE_MAX)
             [] size 21 _ eq_refl (ready_unset a _ Hn) eq_refl ltac:(lia)
             Hsize).
  unfold decompress_code. cbn [d_main d_secondary d_completed].
  destruct (Z.eqb_spec size DICT_CODE_EOF); [contradiction|].
  destruct (Z.eqb_spec size DICT_CODE_START); [contradiction|].
  destruct (Z.eqb_spec size DICT_CODE_SIZE); [contradiction|].
  cbn [orb set_d_next d_next]. rewrite Z.eqb_refl, Ha. reflexivity.
Qed.

Lemma lz78_decompress_frees_unset_witness :
  lz78_decompress
    {| dictionary_ok := true; ht_dictionary_ok := true;
       stale_n_bytes := 0; stale_offset := 0; stale_byte := fun _ => 0;
       stale_entry := fun _ => mk_entry 0 0; stale_secondary := true;
       stale_bitbuf := 0; stale_n_bits := 0 |}
    (bits_of DICT_CODE_START 9 ++ bits_of 4096 21
     ++ stream_bits [(97, 9); (256, 9)])
  = ([], Some Fault).
Proof.
  apply (lz78_decompress_frees_unset _ 4096
           (stream_bits [(97, 9); (256, 9)])).
  - reflexivity.
  - reflexivity.
  - reflexivity.
  - lia.
  - discriminate.
  - discriminate.
  - discriminate.
Defined.

(** X25: [dictionary_new] never sets [n_bytes], [offset] and [bytebuf],
    and the loop of [lz78_decompress] begins with the [fwrite] of
    [n_bytes] bytes from [bytebuf + offset].  So before it has read one
    bit the decompressor writes what the heap held in [bytebuf], as many
    bytes as the heap held in [n_bytes], when they lie inside the 260
    bytes of the block; and it reads outside the block when [n_bytes] is
    not 0 and [offset] is 260 or more. *)
Theorem lz78_decompress_writes_unset (a : allocator) (input : list bool) :
  let n := u32 (stale_n_bytes a) in
  let ofs := u32 (stale_offset a) in
  (ofs + n <= DICT_SIZE_MIN ->
   exists out st,
     lz78_decompress a input
     = (map (fun i : nat => u8 (stale_byte a (Z.to_nat ofs + i)))
            (seq 0 (Z.to_nat n)) ++ out, st))
  /\ (0 < n -> DICT_SIZE_MIN <= ofs ->
      lz78_decompress a input = ([], Some Fault)).
Proof.
  intros n ofs.
  assert (Hn : 0 <= n < 4294967296) by (apply Z.mod_pos_bound; lia).
  assert (Hofs : 0 <= ofs < 4294967296) by (apply Z.mod_pos_bound; lia).
  unfold lz78_decompress. cbn [lz78_decompress_loop].
  cbn [lz78_new_d d_main dictionary_new bytebuf offset n_bytes].
  fold n ofs. change (Z.to_nat DICT_SIZE_MIN) with 260%nat.
  unfold DICT_SIZE_MIN. split.
  - intros Hin.
    set (stale := map (fun i : nat => u8 (stale_byte a (Z.to_nat ofs + i)))
                      (seq 0 (Z.to_nat n))).
    assert (Hreg : region (map (fun i : nat => u8 (stale_byte a i))
                               (seq 0 260)) ofs (Z.to_nat n) = Ret stale).
    { replace (Z.to_nat n) with (length stale)
        by (unfold stale; rewrite length_map, length_seq; reflexivity).
      apply region_intro. intros k x Hk. unfold stale in Hk.
      rewrite list_lookup_fmap in Hk.
      destruct (seq 0 (Z.to_nat n) !! k) as [i|] eqn:Hi; [|discriminate].
      injection Hk as <-.
      apply lookup_seq in Hi. destruct Hi as [-> Hlt].
      rewrite u32_small by lia. unfold load.
      rewrite list_lookup_fmap.
      rewrite lookup_seq_lt by lia. cbn [fmap option_fmap option_map].
      do 3 f_equal. lia. }
    rewrite Hreg.
    assert (Hend : forall st : option (outcome Z),
              exists out st', (stale, st) = (stale ++ out, st')).
    { intros st. exists [], st. rewrite app_nil_r. reflexivity. }
    destruct (decide _); [apply Hend|].
    destruct (decompress_code _ _ _) as [[ret o']| |]; try apply Hend.
    destruct (lz78_error ret); [apply Hend|].
    destruct (d_completed o' =? 1); [apply Hend|].
    destruct (lz78_decompress_loop _ _ _ _) as [out' r].
    exists out', r. reflexivity.
  - intros Hpos Hout.
    destruct (Z.to_nat n) as [|k] eqn:Hk; [lia|].
    cbn [region]. rewrite (u32_small ofs) by lia. unfold load.
    rewrite list_lookup_fmap.
    rewrite lookup_seq_ge by lia. reflexivity.
Qed.

Lemma lz78_decompress_writes_unset_witness :
  exists out st,
    lz78_decompress
      {| dictionary_ok := true; ht_dictionary_ok := true;
         stale_n_bytes := 3; stale_offset := 0;
         stale_byte := fun i => 65 + Z.of_nat i;
         stale_entry := fun _ => mk_entry 0 0; stale_secondary := false;
         stale_bitbuf := 0; stale_n_bits := 0 |}
      (stream_bits [(258, 9); (4096, 21); (256, 9)])
    = (map (fun i : nat =>
              u8 (65 + Z.of_nat (Z.to_nat (u32 0) + i)))
           (seq 0 (Z.to_nat (u32 3))) ++ out, st).
Proof.
  apply (lz78_decompress_writes_unset
           {| dictionary_ok := true; ht_dictionary_ok := true;
              stale_n_bytes := 3; stale_offset := 0;
              stale_byte := fun i => 65 + Z.of_nat i;
              stale_entry := fun _ => mk_entry 0 0;
              stale_secondary := false;
              stale_bitbuf := 0; stale_n_bits := 0 |}
           (stream_bits [(258, 9); (4096, 21); (256, 9)])).
  vm_compute. discriminate.
Defined.
